(* ===== verification/_CoqProject ===== *)
-Q . S2P
Prelude.v
GoTime.v
GoStrings.v
Net.v
RateLimiter.v
JobManager.v
Retry.v
StorageKeys.v
Certificates.v
Cache.v
Crypto.v
FileLock.v
Storage.v
FileStore.v
Ocsp.v
Account.v
Config.v
WaitChans.v
Handshake.v
Managed.v
Maintain.v
Solvers.v
Acme.v
Serving.v
Defaults.v
Lifecycle.v
