(* ===== verification/Prelude.v ===== *)
(** * A verification of otomatik

    otomatik (src/, package [otomatik], Go) obtains, renews and serves TLS
    certificates through ACME. This library models its parts and proves what
    makes them correct. Definitions keep the names of the Go functions and
    translate them branch by branch; where the code goes wrong a theorem says
    so, with a witness that runs the model.

    ** Parts of the program and where they are modelled

    - src/ratelimiter.go, [RateLimiter.v]. The ring buffer, the scheduling
      goroutine and its clients. [RingBufferRateLimiter], [NewRateLimiter],
      [SetMaxEvents], [SetWindow] are the struct and its methods;
      [record_event] is what [permit] does under the mutex; [sys] adds the
      channels, the clock and the goroutine's program counter; [step]
      interleaves them.
    - src/async.go, [JobManager.v] and [Retry.v]. [Submit] and the two critical
      sections of [worker] on the [jobManager] record, with the pool of
      workers as a step relation; [doWithRetry] against an arbitrary clock,
      context and operation ([RetryEnv]).
    - src/storage.go, [StorageKeys.v] ([KeyBuilder], [Safe], and [fastHash] of
      src/crypto.go) and [Storage.v] (the [Storage] interface as a class, with
      the laws its comments state, [storeTx], the lock registry).
    - src/filestorage.go, [FileLock.v]. Lock files: [Lock], [Unlock],
      [createLockfile], [removeLockfile] are the program counters of
      [proc_step], [updateLockfileFreshness] those of [keeper_step]; each step
      is one system call. Processes, goroutines, crashes, failing calls and
      time interleave in [step].
    - src/certificates.go, [Certificates.v]. Names, hash, renewal window,
      subject checks, wildcards. src/cache.go, [Cache.v]: the two maps and
      every operation on them.
    - src/crypto.go, [Crypto.v]: key generation, PEM encoding and decoding,
      bundles. Certificate resources and src/config.go, [Config.v]: saving,
      loading, obtaining, renewing, revoking, the storage check.
    - src/handshake.go, [Handshake.v] (certificate selection and the on-demand
      decision) and [WaitChans.v] (the map of wait channels that lets one
      goroutine obtain or renew a name while the others wait).
    - src/filestorage.go, [FileStore.v]: the values, over a file system of
      files and directories with broken paths and a full disk.
    - src/ocsp.go, [Ocsp.v]: freshness of a response, [getOCSPForCert],
      [stapleOCSP] and the staples in storage.
    - The second half of src/certificates.go and [manageOne] and [manageAll] of
      src/config.go, [Managed.v]: certificates with their staples loaded into
      the cache; the closures the code submits as jobs are the values of [job],
      [run_job] their bodies, and [proc] a process with its job manager.
    - src/maintain.go, [Maintain.v]: [RenewManagedCertificates],
      [updateOCSPStaples], the loop that runs them and [CleanStorage].
    - src/solvers.go and src/httphandler.go, [Solvers.v]: the listeners that
      solvers share by counting, the HTTP, TLS-ALPN and distributed solvers, and
      the handler that answers HTTP challenges.
    - src/user.go and the managers of src/acmemanager.go, [Account.v]: accounts
      in storage, the choice of an e-mail address, [NewACMEManager],
      [PreCheck]. src/acmeclient.go and the rest of src/acmemanager.go,
      [Acme.v]: the client, the choice of the endpoint and of challenges,
      throttling, [Issue] and [Revoke].
    - The bodies of a handshake in src/handshake.go, [Serving.v]:
      [GetCertificate] with loading, obtaining and renewing.
    - The making of configurations in src/config.go with the defaults of
      src/otomatik.go, [Defaults.v]; [Stop] of src/cache.go and the listeners of
      [HTTPS] of src/otomatik.go as step relations, [Lifecycle.v].
    - src/otomatik.go, [Net.v]: [hostOnly], [isLoopback], [isInternal], with the
      functions of Go's net package they call.
    - [GoStrings.v] and [GoTime.v] hold what is used of the standard library:
      strings are byte sequences ([string]); times are nanoseconds since the
      zero time, durations 64-bit integers with the saturation of [Time.Sub]
      and the wrap-around of arithmetic; float64 is [SpecFloat]'s binary64.

    The parts meet as in the code. [Config.v] runs on the [Storage] class, so
    its theorems hold for every storage that obeys the documented laws;
    [Storage.v] gives one such storage in memory. It calls [doWithRetry] of
    [Retry.v], the keys of [StorageKeys.v], the codecs of [Crypto.v] and the
    renewal decision of [Certificates.v]. [Cache.v] stores the certificates of
    [Certificates.v] and shares with it the wildcard rules; [Handshake.v] looks
    certificates up in it. [Managed.v] joins storage, staples and cache in one
    state, [prog]; [Maintain.v], [Solvers.v] and [Serving.v] are computations
    on it, and [Defaults.v] runs [manageAll] of [Managed.v] on the
    configurations it makes. [Acme.v] hands the solvers of [Solvers.v] to the
    ACME library and loads and saves the accounts of [Account.v].

    ** What the theorems show

    - Rate limiter: no window of time contains more admissions than allowed
      while the configuration is fixed; an admission becomes possible again;
      every method keeps the limiter valid; [SetMaxEvents] keeps the latest
      events; raising the limit does not shorten the current wait; the loop
      crashes only if the ring is emptied under it, and then it can.
    - Jobs: worker count, uniqueness of named jobs, first-in first-out without
      loss, and that the pool drains. Retries: [doWithRetry] returns within
      131 attempts, its exact trace, and that giving up is reported as success.
    - Storage keys: character set, idempotence exactly when no two dots meet,
      injectivity and containment of site keys, and the traversal hole.
    - Lock files: mutual exclusion while nobody takes a lock for stale; takeover
      of expired locks; and two failures of the protocol, the takeover race
      and the crashes that block a name for good.
    - Certificates and cache: the maps implement a set of certificates with
      exact lookup by name; [AllMatchingCertificates] agrees with
      [MatchWildcard]; public wildcards cover one label; the names and the
      renewal window of a certificate; and two defects, of
      [getFirstMatchingCert] and of certificates that bear a name twice.
    - Handshakes: which certificate a server name is given, and the order of
      preference of the default selector; at most one goroutine works on a
      name and nobody waits in vain unless a renewal is refused, after which
      the name is blocked.
    - Keys: PEM round trips, and that Ed25519 keys cannot be used.
    - Storage transactions: the outcome of [storeTx] on every path, the lock
      registry. Configuration: no operation leaks a lock, resources survive a
      save and a load, a failed save deletes what was stored, and a name that
      the request spells differently is never found again.

    - File storage: a map from keys to values over a consistent tree, with what
      fails and what is untouched; [List] gives exactly what is below a prefix;
      [Load] hides every error but one.
    - Staples: when a response is fresh, the outcome of [stapleOCSP] on every
      path, and that the scan changes nothing but staples.
    - Managed certificates and maintenance: every operation keeps the cache in
      order; a managed name is served; the scan queues a renewal for exactly
      the certificates that are due; what a renewal job does; cleaning deletes
      only what is useless; and two ways to crash a scan.
    - Challenges: the counted listeners refine a set of challenges; an answer is
      given only for a stored challenge with the right path; a challenge
      presented on one instance is answered on another, over HTTP and over
      TLS; and three defects (a listener that stays open, challenges of the
      test CA, the renewal scan during a TLS-ALPN challenge).
    - Accounts and issuing: an account survives a save and a load, the most
      recent one is found, the e-mail address is settled; the endpoint of a
      client is encrypted or internal; a retry returns a certificate of the
      production CA; each challenge is tried at most once; and five defects.
    - Serving: the recursion of a handshake ends, and a failed renewal serves
      the zero certificate.
    - Configurations: what [newWithCache] fills in, that it is idempotent, that
      there is one default cache, and that managed names become the whitelist.
      Lifecycle: [Stop] ends maintenance; the calls of [HTTPS] share one pair of
      listeners, which is never made again; and the redirect to https.

    ** Bounds and fuel

    [doWithRetry] runs with fuel 132: the waits before the 131st attempt add up
    to [maxRetryDuration], so the loop has ended by then ([Retry.v]). IPv6
    parsing needs eight rounds of two bytes. A PEM bundle is parsed with the
    length of the bundle as fuel, which every block shortens. The challenges of
    an issuance are tried with their number as fuel, since every try removes
    one ([challenges_tried_once]). [getCertDuringHandshake] calls
    itself, at most twice while no other goroutine works on the name, so any
    fuel from 3 on gives the same result ([handshake_recursion_ends]). All other
    recursions are structural.

    ** Assumptions

    The configurations of one cache share one storage and one environment
    ([Env]). The scans of maintenance and the body of a handshake run as one
    sequential computation; other goroutines enter through the parameters
    ([Waiting] while a handshake waits for one) or are covered by the step
    relations, which model one shared structure each: the rate limiter, the job
    manager, the lock files, the wait channels, the stopping of a cache and the
    listeners. The iteration order of a map is that of its list of elements. A
    panic ends the process.

    ** Not modelled

    The cryptographic codecs (X.509, PEM, DER, SHA-256), JSON, URLs, OCSP and
    the Unicode tables are parameters ([CertLib], [KeyLib], [Env], [UrlLib],
    [OcspLib], [UnicodeTables]), as are the ACME library ([Lego]), HTTP requests
    ([Http]), sockets and challenge certificates ([Sockets], [ChallengeLib]) and
    reading files and standard input ([Disk], [AccountEnv]), with the laws their
    documentation states. Log output, the texts of prompts, time-outs of HTTP
    servers and the serving of a connection are left out.

    This file holds what the others share: errors and results of Go calls,
    tactics, step-relation closures and lists read as rings. *)
From stdpp Require Import base tactics list gmap strings relations.
From Stdlib Require Import ZArith Lia.

(** * Go errors

    [error] is the tree of values the program builds: [errors.New] and
    [fmt.Errorf] without [%w] give [ErrStr], [fmt.Errorf] with [%w] gives
    [ErrWrap], and the program's own [ErrNoRetry] struct wraps its cause. *)
Inductive error :=
| ErrStr (msg : string)
| ErrWrap (msg : string) (e : error)
| ErrNoRetry (e : error)
| ErrCanceled
| ErrDeadlineExceeded
| ErrIsExist
| ErrIsNotExist
| ErrProblem (status : Z) (msg : string).

#[export] Instance error_eq_dec : EqDecision error.
Proof. solve_decision. Defined.

(** [errors.Unwrap]. *)
Definition unwrap (e : error) : option error :=
  match e with
  | ErrWrap _ e' | ErrNoRetry e' => Some e'
  | _ => None
  end.

(** [errors.Is(e, context.Canceled)]: some error of the chain is it. *)
Fixpoint is_canceled (e : error) : bool :=
  match e with
  | ErrCanceled => true
  | ErrWrap _ e' | ErrNoRetry e' => is_canceled e'
  | _ => false
  end.

(** [errors.As(e, &errNoRetry)]: some error of the chain is an [ErrNoRetry]. *)
Fixpoint as_no_retry (e : error) : bool :=
  match e with
  | ErrNoRetry _ => true
  | ErrWrap _ e' => as_no_retry e'
  | _ => false
  end.

(** * Results of Go calls

    A call returns a value ([Ok]), returns a non-nil error ([Err]) or panics
    ([Panic]). *)
Inductive res (A : Type) :=
| Ok (a : A)
| Err (e : error)
| Panic (msg : string).
Arguments Ok {A} _.
Arguments Err {A} _.
Arguments Panic {A} _.

Definition res_bind {A B} (r : res A) (f : A -> res B) : res B :=
  match r with
  | Ok a => f a
  | Err e => Err e
  | Panic m => Panic m
  end.

Declare Scope go_scope.
Delimit Scope go_scope with go.
Notation "'let!' x := r 'in' k" := (res_bind r (fun x => k))
  (at level 10, x pattern, r at level 100, k at level 200,
   format "'[v' 'let!'  x  :=  r  'in' '/' k ']'") : go_scope.

(** * Tactics *)

(** Open every existential and conjunction among the hypotheses. *)
Ltac unpack :=
  repeat match goal with
  | H : exists _, _ |- _ => destruct H
  | H : _ /\ _ |- _ => destruct H
  end.

(** Turn boolean comparisons in the context and the goal into propositions. *)
Ltac bool_hyps :=
  repeat match goal with
  | H : (_ && _)%bool = true |- _ => apply andb_true_iff in H as [? ?]
  | H : (_ || _)%bool = false |- _ => apply orb_false_iff in H as [? ?]
  | H : negb _ = true |- _ => apply negb_true_iff in H
  | H : negb _ = false |- _ => apply negb_false_iff in H
  | H : (_ <? _)%Z = true |- _ => apply Z.ltb_lt in H
  | H : (_ <? _)%Z = false |- _ => apply Z.ltb_ge in H
  | H : (_ <=? _)%Z = true |- _ => apply Z.leb_le in H
  | H : (_ <=? _)%Z = false |- _ => apply Z.leb_gt in H
  | H : (_ =? _)%Z = true |- _ => apply Z.eqb_eq in H
  | H : (_ =? _)%Z = false |- _ => apply Z.eqb_neq in H
  | H : (_ <? _)%nat = true |- _ => apply Nat.ltb_lt in H
  | H : (_ <? _)%nat = false |- _ => apply Nat.ltb_ge in H
  | H : (_ <=? _)%nat = true |- _ => apply Nat.leb_le in H
  | H : (_ <=? _)%nat = false |- _ => apply Nat.leb_gt in H
  | H : (_ =? _)%nat = true |- _ => apply Nat.eqb_eq in H
  | H : (_ =? _)%nat = false |- _ => apply Nat.eqb_neq in H
  | H : bool_decide _ = true |- _ => apply bool_decide_eq_true in H
  | H : bool_decide _ = false |- _ => apply bool_decide_eq_false in H
  end.

(** Split the first boolean test the goal branches on. *)
Ltac case_if :=
  match goal with
  | |- context [if ?b then _ else _] =>
      lazymatch type of b with bool => destruct b eqn:? end
  end; bool_hyps.

(** * Closures of step relations *)

(** An invariant that every step preserves holds in every reachable state. *)
Lemma rtc_invariant {A} (R : relation A) (I : A -> Prop) :
  (forall x y, I x -> R x y -> I y) ->
  forall x y, rtc R x y -> I x -> I y.
Proof. intros HI x y Hxy. induction Hxy; eauto. Qed.

(** The same when steps may use a second invariant. *)
Lemma rtc_invariant_under {A} (R : relation A) (J I : A -> Prop) :
  (forall x y, J x -> R x y -> J y) ->
  (forall x y, J x -> I x -> R x y -> I y) ->
  forall x y, rtc R x y -> J x -> I x -> I y.
Proof. intros HJ HI x y Hxy. induction Hxy; eauto. Qed.

Lemma rtc_mono {A} (R S : relation A) :
  (forall x y, R x y -> S x y) -> forall x y, rtc R x y -> rtc S x y.
Proof. intros H x y. induction 1; eauto using rtc. Qed.

(** * Lists *)

Section Lists.
Context {A : Type}.
Implicit Types (l : list A) (i n : nat).

(** The list read from position [i], wrapping around at the end. *)
Definition rot (i : nat) (l : list A) : list A := drop i l ++ take i l.

Lemma length_rot i l : length (rot i l) = length l.
Proof. unfold rot. rewrite length_app, length_drop, length_take. lia. Qed.

Lemma rot_0 l : rot 0 l = l.
Proof. unfold rot. by rewrite drop_0, take_0, app_nil_r. Qed.

Lemma rot_full l : rot (length l) l = l.
Proof. unfold rot. by rewrite drop_all, firstn_all. Qed.

Lemma rot_head i l : i < length l -> rot i l !! 0 = l !! i.
Proof.
  intros. unfold rot. rewrite lookup_app_l by (rewrite length_drop; lia).
  rewrite lookup_drop. f_equal; lia.
Qed.

(** Reading from the next position moves the head to the back. *)
Lemma rot_S i l x :
  l !! i = Some x -> rot (S i) l = drop 1 (rot i l) ++ [x].
Proof.
  intros Hi. unfold rot.
  rewrite (drop_S _ _ _ Hi), (take_S_r _ _ _ Hi). simpl.
  by rewrite drop_0, app_assoc.
Qed.

(** Overwriting the head of the rotated list, then moving on. *)
Lemma rot_insert_S i l x :
  i < length l -> rot (S i) (<[i:=x]> l) = drop 1 (rot i l) ++ [x].
Proof.
  intros Hi. destruct (lookup_lt_is_Some_2 l i Hi) as [y Hy].
  rewrite (rot_S _ _ x) by (by apply list_lookup_insert_eq).
  f_equal. unfold rot.
  rewrite (drop_S _ _ _ Hy).
  rewrite (drop_S _ x i) by (by apply list_lookup_insert_eq).
  simpl. by rewrite !drop_0, drop_insert_lt, take_insert_ge by lia.
Qed.

End Lists.

Create HintDb otomatik.
Create Rewrite HintDb otomatik_rw.
#[export] Hint Rewrite @length_rot @rot_0 @rot_full @length_insert : otomatik_rw.
#[export] Hint Resolve rtc_refl rtc_once : otomatik.
