(* ===== verification/GoTime.v ===== *)
(** Go's [time] package and the float64 conversions the program uses.

    A [time.Time] is the number of nanoseconds since the zero Time, so [0] is
    the zero Time; a [time.Duration] is an int64, kept as [Z] with Go's
    saturating [Sub] and wrapping negation written out. Floats are the
    IEEE 754 binary64 values of [SpecFloat] (round to nearest even). *)
From stdpp Require Import base tactics.
From Stdlib Require Import ZArith Lia SpecFloat.
From S2P Require Import Prelude.

Local Open Scope Z_scope.

(** * Durations *)

Definition minDuration : Z := - 2 ^ 63.
Definition maxDuration : Z := 2 ^ 63 - 1.

Definition Nanosecond : Z := 1.
Definition Millisecond : Z := 1000000.
Definition Second : Z := 1000000000.
Definition Minute : Z := 60 * Second.
Definition Hour : Z := 60 * Minute.

(** int64 arithmetic wraps around. *)
Definition wrap64 (z : Z) : Z := (z + 2 ^ 63) mod 2 ^ 64 - 2 ^ 63.

Definition is_int64 (z : Z) : Prop := minDuration <= z <= maxDuration.

(** * Times *)

Definition zeroTime : Z := 0.
Definition IsZero (t : Z) : bool := t =? zeroTime.
Definition Add (t d : Z) : Z := t + d.

(** [t.Sub(u)] saturates at the bounds of a Duration. *)
Definition Sub (t u : Z) : Z := Z.max minDuration (Z.min maxDuration (t - u)).

Definition After (t u : Z) : bool := u <? t.
Definition Before (t u : Z) : bool := t <? u.

(** [time.Until(t)] and [time.Since(t)] at the instant [now]. *)
Definition Until (now t : Z) : Z := Sub t now.
Definition Since (now t : Z) : Z := Sub now t.

(** * float64 *)

Definition float64 : Type := spec_float.
Definition float64_of_int64 (z : Z) : float64 := binary_normalize 53 1024 z 0 false.
Definition float64_mul (x y : float64) : float64 := SFmul 53 1024 x y.
Definition float64_eqb (x y : float64) : bool := SFeqb x y.

(** Conversion to int64 truncates towards zero; out of range (and for NaN)
    the hardware's "integer indefinite" value, the minimum, is produced. *)
Definition int64_of_float64 (x : float64) : Z :=
  match x with
  | S754_zero _ => 0
  | S754_infinity _ | S754_nan => minDuration
  | S754_finite s m e =>
      let a := if 0 <=? e then Zpos m * 2 ^ e else Zpos m / 2 ^ (- e) in
      let z := if s then - a else a in
      if (minDuration <=? z) && (z <=? maxDuration) then z else minDuration
  end.

(** * Lemmas *)

Lemma Sub_exact t u : is_int64 (t - u) -> Sub t u = t - u.
Proof. unfold is_int64, Sub. lia. Qed.

Lemma Sub_int64 t u : is_int64 (Sub t u).
Proof. unfold is_int64, Sub, minDuration, maxDuration. lia. Qed.

Lemma Sub_le t u d : t - u <= d -> minDuration <= d -> Sub t u <= d.
Proof. unfold Sub. lia. Qed.

(** A difference that is small enough is at most rounded up by [Sub]. *)
Lemma Sub_ge t u : t - u <= maxDuration -> t - u <= Sub t u.
Proof. unfold Sub. lia. Qed.

Lemma Since_nonneg now t : t <= now -> 0 <= Since now t.
Proof. unfold Since, Sub, minDuration, maxDuration. lia. Qed.

Lemma wrap64_id z : is_int64 z -> wrap64 z = z.
Proof.
  unfold is_int64, wrap64, minDuration, maxDuration. intros H.
  rewrite Z.mod_small; lia.
Qed.

Lemma wrap64_int64 z : is_int64 (wrap64 z).
Proof.
  unfold is_int64, wrap64, minDuration, maxDuration.
  pose proof (Z.mod_pos_bound (z + 2 ^ 63) (2 ^ 64) ltac:(lia)). lia.
Qed.

#[export] Hint Resolve Sub_int64 wrap64_int64 Since_nonneg : otomatik.
