(* ===== verification/GoStrings.v ===== *)
(** The functions of Go's [strings] and [path] packages the program calls.

    A Go string is a sequence of bytes, a [string] here. The functions that
    consult the Unicode tables ([ToLower], [TrimSpace], [EqualFold]) are
    written out for ASCII strings, where Go has a fast path, and take their
    value on other strings from the [UnicodeTables] parameter. *)
From Stdlib Require Import Ascii.
From stdpp Require Import base tactics list strings.
From Stdlib Require Import ZArith Lia.
From S2P Require Import Prelude.

Local Open Scope string_scope.

(** * Bytes *)

Definition byte_val (c : ascii) : nat := nat_of_ascii c.

Definition is_ascii (c : ascii) : bool := (byte_val c <? 128)%nat.
Definition is_upper (c : ascii) : bool := (65 <=? byte_val c)%nat && (byte_val c <=? 90)%nat.
Definition is_lower (c : ascii) : bool := (97 <=? byte_val c)%nat && (byte_val c <=? 122)%nat.
Definition is_digit (c : ascii) : bool := (48 <=? byte_val c)%nat && (byte_val c <=? 57)%nat.

(** '\t', '\n', '\v', '\f', '\r' and ' '. *)
Definition is_space (c : ascii) : bool :=
  (byte_val c =? 32)%nat || (9 <=? byte_val c)%nat && (byte_val c <=? 13)%nat.

Definition lower_byte (c : ascii) : ascii :=
  if is_upper c then ascii_of_nat (byte_val c + 32) else c.

(** * Predicates and maps on strings *)

Fixpoint all_bytes (p : ascii -> bool) (s : string) : bool :=
  match s with
  | "" => true
  | String c s' => p c && all_bytes p s'
  end.

Fixpoint filter_bytes (p : ascii -> bool) (s : string) : string :=
  match s with
  | "" => ""
  | String c s' => if p c then String c (filter_bytes p s') else filter_bytes p s'
  end.

Fixpoint map_bytes (f : ascii -> ascii) (s : string) : string :=
  match s with
  | "" => ""
  | String c s' => String (f c) (map_bytes f s')
  end.

Fixpoint HasPrefix (s pre : string) : bool :=
  match pre, s with
  | "", _ => true
  | String _ _, "" => false
  | String b pre', String a s' => bool_decide (a = b) && HasPrefix s' pre'
  end.

Fixpoint HasSuffix (s suf : string) : bool :=
  bool_decide (s = suf) ||
  match s with
  | "" => false
  | String _ s' => HasSuffix s' suf
  end.

Fixpoint Contains (s sub : string) : bool :=
  HasPrefix s sub ||
  match s with
  | "" => false
  | String _ s' => Contains s' sub
  end.

(** [strings.ContainsAny] for an ASCII set of characters. *)
Fixpoint ContainsAny (s chars : string) : bool :=
  match s with
  | "" => false
  | String c s' => negb (all_bytes (fun d => negb (bool_decide (c = d))) chars) || ContainsAny s' chars
  end.

(** [strings.Count] of a one-byte substring. *)
Fixpoint CountByte (s : string) (c : ascii) : nat :=
  match s with
  | "" => 0
  | String d s' => (if bool_decide (d = c) then 1 else 0) + CountByte s' c
  end.

(** [strings.Index] of a one-byte substring; [None] is -1. *)
Fixpoint IndexByte (s : string) (c : ascii) : option nat :=
  match s with
  | "" => None
  | String d s' => if bool_decide (d = c) then Some O else S <$> IndexByte s' c
  end.

Fixpoint drop_bytes (n : nat) (s : string) : string :=
  match n, s with
  | S n', String _ s' => drop_bytes n' s'
  | _, _ => s
  end.

Fixpoint take_bytes (n : nat) (s : string) : string :=
  match n, s with
  | S n', String c s' => String c (take_bytes n' s')
  | _, _ => ""
  end.

(** [strings.TrimSuffix]. *)
Definition TrimSuffix (s suf : string) : string :=
  if HasSuffix s suf then take_bytes (String.length s - String.length suf) s else s.

(** * Trimming *)

Fixpoint trim_left (p : ascii -> bool) (s : string) : string :=
  match s with
  | "" => ""
  | String c s' => if p c then trim_left p s' else s
  end.

Fixpoint trim_right (p : ascii -> bool) (s : string) : string :=
  match s with
  | "" => ""
  | String c s' =>
      match trim_right p s' with
      | "" => if p c then "" else String c ""
      | t => String c t
      end
  end.

Definition trim (p : ascii -> bool) (s : string) : string := trim_right p (trim_left p s).

(** [strings.Trim] with an ASCII cutset. *)
Definition Trim (s cutset : string) : string :=
  trim (fun c => ContainsAny (String c "") cutset) s.

(** * Unicode *)

Class UnicodeTables := {
  unicode_lower : string -> string;
  unicode_trim_space : string -> string;
  unicode_equal_fold : string -> string -> bool
}.

(** Tables of a world without characters beyond ASCII, for examples. *)
Definition ascii_tables : UnicodeTables := {|
  unicode_lower s := s; unicode_trim_space s := s; unicode_equal_fold s t := bool_decide (s = t)
|}.

Definition ascii_lower (s : string) : string := map_bytes lower_byte s.

Section Unicode.
Context {U : UnicodeTables}.

Definition ToLower (s : string) : string :=
  if all_bytes is_ascii s then ascii_lower s else unicode_lower s.

Definition TrimSpace (s : string) : string :=
  if all_bytes is_ascii s then trim is_space s else unicode_trim_space s.

Definition EqualFold (s t : string) : bool :=
  if all_bytes is_ascii s && all_bytes is_ascii t
  then bool_decide (ascii_lower s = ascii_lower t)
  else unicode_equal_fold s t.

End Unicode.

(** * Splitting, joining, replacing *)

(** [strings.Split] at a one-byte separator. *)
Fixpoint Split (s : string) (sep : ascii) : list string :=
  match s with
  | "" => [""]
  | String c s' =>
      if bool_decide (c = sep) then "" :: Split s' sep
      else match Split s' sep with
           | [] => [String c ""]
           | w :: ws => String c w :: ws
           end
  end.

(** [strings.Join]. *)
Fixpoint Join (elems : list string) (sep : string) : string :=
  match elems with
  | [] => ""
  | [s] => s
  | s :: rest => s +:+ sep +:+ Join rest sep
  end.

(** The first pair, in argument order, whose old string is a prefix of [s]. *)
Fixpoint find_pair (pairs : list (string * string)) (s : string) : option (string * string) :=
  match pairs with
  | [] => None
  | (old, new) :: rest => if HasPrefix s old then Some (old, new) else find_pair rest s
  end.

(** [strings.NewReplacer(pairs...).Replace(s)], for nonempty old strings: at
    each position the first pair that matches is applied and the match is
    skipped ([skip] bytes are left of it). *)
Fixpoint replace_from (pairs : list (string * string)) (skip : nat) (s : string) : string :=
  match s with
  | "" => ""
  | String c s' =>
      match skip with
      | S k => replace_from pairs k s'
      | O =>
          match find_pair pairs s with
          | Some (old, new) => new +:+ replace_from pairs (pred (String.length old)) s'
          | None => String c (replace_from pairs O s')
          end
      end
  end.

Definition Replace (pairs : list (string * string)) (s : string) : string :=
  replace_from pairs 0 s.

(** * The package [path] *)

Definition slash : ascii := "/"%char.

(** One element of the path: [stack] holds the elements kept, last first. *)
Definition clean_elem (rooted : bool) (stack : list string) (e : string) : list string :=
  if bool_decide (e = "") || bool_decide (e = ".") then stack
  else if bool_decide (e = "..") then
    match stack with
    | [] => if rooted then [] else [".."]
    | top :: rest => if bool_decide (top = "..") then ".." :: stack else rest
    end
  else e :: stack.

(** [path.Clean]. *)
Definition Clean (p : string) : string :=
  let rooted := HasPrefix p "/" in
  let out := Join (rev (foldl (clean_elem rooted) [] (Split p slash))) "/" in
  if rooted then "/" +:+ out else if bool_decide (out = "") then "." else out.

(** [path.Join]. *)
Fixpoint path_Join (elems : list string) : string :=
  match elems with
  | [] => ""
  | e :: rest => if bool_decide (e = "") then path_Join rest else Clean (Join elems "/")
  end.

(** [path.Base]. *)
Definition path_Base (p : string) : string :=
  if bool_decide (p = "") then "."
  else
    let t := trim_right (fun c => bool_decide (c = slash)) p in
    let b := default "" (last (Split t slash)) in
    if bool_decide (b = "") then "/" else b.

(** [path.Ext]. *)
Fixpoint path_Ext (p : string) : string :=
  match p with
  | "" => ""
  | String c p' =>
      match path_Ext p' with
      | "" => if bool_decide (c = "."%char) && negb (Contains p' "/") then p else ""
      | e => e
      end
  end.

(** * Numbers *)

Definition hex_digit (d : Z) : ascii :=
  ascii_of_nat (Z.to_nat (if (d <? 10)%Z then 48 + d else 87 + d)).

(** The [n] low hexadecimal digits of [z], without leading zeros. *)
Fixpoint hex_digits (n : nat) (z : Z) (acc : string) : string :=
  match n with
  | O => acc
  | S n' =>
      let acc' := String (hex_digit (z mod 16)) acc in
      if (z / 16 =? 0)%Z then acc' else hex_digits n' (z / 16) acc'
  end.

Definition dec_digit (d : Z) : ascii := ascii_of_nat (Z.to_nat (48 + d)).

(** The [n] low decimal digits of [z], without leading zeros. *)
Fixpoint dec_digits (n : nat) (z : Z) (acc : string) : string :=
  match n with
  | O => acc
  | S n' =>
      let acc' := String (dec_digit (z mod 10)) acc in
      if (z / 10 =? 0)%Z then acc' else dec_digits n' (z / 10) acc'
  end.

(** * Lemmas *)

(** A boolean fact about every byte, by enumeration. *)
Ltac all_bytes_check := intros [[] [] [] [] [] [] [] []]; vm_compute; (reflexivity || discriminate).

#[local] Arguments String.append : simpl nomatch.

Lemma app_assoc_str (a b c : string) : (a +:+ b) +:+ c = a +:+ b +:+ c.
Proof. induction a as [|x a IH]; [done |]. cbn. by f_equal. Qed.

Lemma app_nil_r_str (a : string) : a +:+ "" = a.
Proof. induction a as [|x a IH]; [done |]. cbn. by f_equal. Qed.

Lemma length_app_str (a b : string) :
  String.length (a +:+ b) = (String.length a + String.length b)%nat.
Proof. induction a as [|x a IH]; [done |]. cbn. by f_equal. Qed.

Lemma app_cons_str c (a b : string) : String c a +:+ b = String c (a +:+ b).
Proof. done. Qed.

Lemma app_inj_r_str (a b c : string) : a +:+ c = b +:+ c -> a = b.
Proof.
  revert b. induction a as [|x a IH]; intros [|y b] H; [done | | |].
  - apply (f_equal String.length) in H. rewrite app_cons_str in H. cbn in H.
    rewrite length_app_str in H. cbn in H. lia.
  - apply (f_equal String.length) in H. rewrite app_cons_str in H. cbn in H.
    rewrite length_app_str in H. cbn in H. lia.
  - rewrite !app_cons_str in H. injection H as -> H. f_equal. by apply IH.
Qed.

Section Bytes.
Implicit Types (p q : ascii -> bool) (s t : string).

Lemma all_bytes_app p s t : all_bytes p (s +:+ t) = all_bytes p s && all_bytes p t.
Proof. induction s as [|c s IH]; [done |]. cbn. by rewrite IH, andb_assoc. Qed.

Lemma all_bytes_impl p q s :
  (forall c, p c = true -> q c = true) -> all_bytes p s = true -> all_bytes q s = true.
Proof.
  intros Hpq. induction s as [|c s IH]; [done |]. cbn.
  intros [Hc Hs]%andb_true_iff. rewrite Hpq by done. by apply IH.
Qed.

Lemma all_bytes_filter p s : all_bytes p (filter_bytes p s) = true.
Proof. induction s as [|c s IH]; [done |]. cbn. destruct (p c) eqn:Hc; [cbn; by rewrite Hc |]. done. Qed.

Lemma all_bytes_filter_sub p q s : all_bytes p s = true -> all_bytes p (filter_bytes q s) = true.
Proof.
  induction s as [|c s IH]; [done |]. cbn. intros [Hc Hs]%andb_true_iff.
  destruct (q c); cbn; rewrite ?Hc; by apply IH.
Qed.

Lemma filter_bytes_id p s : all_bytes p s = true -> filter_bytes p s = s.
Proof.
  induction s as [|c s IH]; [done |]. cbn. intros [-> Hs]%andb_true_iff. by rewrite IH.
Qed.

Lemma filter_bytes_app p s t : filter_bytes p (s +:+ t) = filter_bytes p s +:+ filter_bytes p t.
Proof. induction s as [|c s IH]; [done |]. cbn. rewrite IH. by destruct (p c). Qed.

Lemma map_bytes_id f s :
  all_bytes (fun c => bool_decide (f c = c)) s = true -> map_bytes f s = s.
Proof.
  induction s as [|c s IH]; [done |]. cbn. intros [Hc Hs]%andb_true_iff.
  apply bool_decide_eq_true in Hc. by rewrite Hc, IH.
Qed.

Lemma all_bytes_map p f s :
  (forall c, p (f c) = true) -> all_bytes p (map_bytes f s) = true.
Proof. intros Hf. induction s as [|c s IH]; [done |]. cbn. by rewrite Hf. Qed.

Lemma all_bytes_trim_left p q s : all_bytes p s = true -> all_bytes p (trim_left q s) = true.
Proof.
  induction s as [|c s IH]; [done |]. cbn. intros [Hc Hs]%andb_true_iff.
  destruct (q c); [by apply IH | cbn; by rewrite Hc].
Qed.

Lemma all_bytes_trim_right p q s : all_bytes p s = true -> all_bytes p (trim_right q s) = true.
Proof.
  induction s as [|c s IH]; [done |]. cbn. intros [Hc Hs]%andb_true_iff. specialize (IH Hs).
  destruct (trim_right q s) as [|d t]; [destruct (q c); cbn; by rewrite ?Hc |].
  change (p c && all_bytes p (String d t) = true). by rewrite Hc, IH.
Qed.

Lemma trim_id p s : all_bytes (fun c => negb (p c)) s = true -> trim p s = s.
Proof.
  intros Hs. unfold trim.
  assert (trim_left p s = s) as ->.
  { destruct s as [|c s]; [done |]. cbn in *. apply andb_true_iff in Hs as [Hc _].
    apply negb_true_iff in Hc. by rewrite Hc. }
  induction s as [|c s IH]; [done |]. cbn in *. apply andb_true_iff in Hs as [Hc Hs].
  apply negb_true_iff in Hc. rewrite Hc, (IH Hs). by destruct s.
Qed.

Lemma HasPrefix_app s t : HasPrefix (s +:+ t) s = true.
Proof. induction s as [|c s IH]; [by destruct t |]. cbn. by rewrite bool_decide_eq_true_2. Qed.

Lemma HasPrefix_spec s t : HasPrefix s t = true <-> exists r, s = t +:+ r.
Proof.
  split; [| intros [r ->]; apply HasPrefix_app].
  revert s. induction t as [|c t IH]; intros s H; [by exists s |].
  destruct s as [|d s]; [done |]. cbn in H. apply andb_true_iff in H as [Hc H].
  apply bool_decide_eq_true in Hc as ->. destruct (IH s H) as [r ->]. by exists r.
Qed.

End Bytes.

(** ** Split and Join *)

(** [s] does not contain the byte [c]. *)
Definition free_of (c : ascii) (s : string) : bool :=
  all_bytes (fun d => negb (bool_decide (d = c))) s.

Lemma Split_nonempty s c : Split s c <> [].
Proof.
  destruct s as [|d s]; [done |]. cbn. case_bool_decide; [done |].
  by destruct (Split s c).
Qed.

Lemma Join_cons s l sep : l <> [] -> Join (s :: l) sep = s +:+ sep +:+ Join l sep.
Proof. by destruct l. Qed.

Lemma Join_Split s c : Join (Split s c) (String c "") = s.
Proof.
  induction s as [|d s IH]; [done |]. cbn [Split]. case_bool_decide as Hd.
  - subst d. rewrite Join_cons by apply Split_nonempty. cbn. by f_equal.
  - destruct (Split s c) as [|w [|w' ws]] eqn:Hs; cbn in *; by f_equal.
Qed.

Lemma Split_free s c : free_of c s = true -> Split s c = [s].
Proof.
  induction s as [|d s IH]; [done |]. cbn. intros [Hd Hs]%andb_true_iff.
  apply negb_true_iff, bool_decide_eq_false in Hd.
  rewrite bool_decide_eq_false_2 by done. by rewrite IH.
Qed.

Lemma Split_app_sep s t c :
  free_of c s = true -> Split (s +:+ String c t) c = s :: Split t c.
Proof.
  induction s as [|d s IH].
  - intros _. cbn. by rewrite bool_decide_eq_true_2.
  - cbn. intros [Hd Hs]%andb_true_iff.
    apply negb_true_iff, bool_decide_eq_false in Hd.
    rewrite bool_decide_eq_false_2 by done. by rewrite IH.
Qed.

Lemma Split_Join l c :
  l <> [] -> Forall (fun w => free_of c w = true) l -> Split (Join l (String c "")) c = l.
Proof.
  intros Hne. induction l as [|w [|w' l] IH]; [done | |]; intros HF; inversion HF; subst.
  - by apply Split_free.
  - rewrite Join_cons by done. cbn [String.app].
    rewrite Split_app_sep by done. f_equal. by apply IH.
Qed.

Lemma Split_elems_free s c : Forall (fun w => free_of c w = true) (Split s c).
Proof.
  induction s as [|d s IH]; [by repeat constructor |]. cbn. case_bool_decide as Hd.
  - by constructor.
  - pose proof (Split_nonempty s c). destruct (Split s c) as [|w ws]; [done |].
    inversion IH; subst. constructor; [| done]. cbn.
    by rewrite bool_decide_eq_false_2.
Qed.

Lemma Join_app l1 l2 sep :
  l1 <> [] -> l2 <> [] -> Join (l1 ++ l2)%list sep = Join l1 sep +:+ sep +:+ Join l2 sep.
Proof.
  intros H1 H2. induction l1 as [|w [|w' l1] IH]; [done | |].
  - by rewrite <- Join_cons.
  - rewrite <- app_comm_cons, Join_cons, IH by done.
    rewrite (Join_cons w (w' :: l1)) by done. by rewrite !app_assoc_str.
Qed.

(** ** Replace *)

(** No old string occurs in [s]. *)
Fixpoint no_match (pairs : list (string * string)) (s : string) : bool :=
  match s with
  | "" => true
  | String _ s' => bool_decide (find_pair pairs s = None) && no_match pairs s'
  end.

Lemma Replace_id pairs s : no_match pairs s = true -> Replace pairs s = s.
Proof.
  unfold Replace. induction s as [|c s IH]; [done |]. cbn [no_match replace_from].
  intros [Hc Hs]%andb_true_iff. apply bool_decide_eq_true in Hc. rewrite Hc. by rewrite IH.
Qed.

Lemma all_bytes_replace p pairs s : forall k,
  Forall (fun '(_, new) => all_bytes p new = true) pairs ->
  all_bytes p s = true -> all_bytes p (replace_from pairs k s) = true.
Proof.
  induction s as [|c s IH]; intros k HF Hs; [done |].
  cbn in Hs. apply andb_true_iff in Hs as [Hc Hs].
  destruct k as [|k]; cbn [replace_from]; [| by apply IH].
  destruct (find_pair pairs (String c s)) as [[old new]|] eqn:Hf.
  - rewrite all_bytes_app, (IH _ HF Hs), andb_true_r.
    revert Hf. clear IH. induction HF as [| [o n] ps Hn HF IHps]; [done |]. cbn [find_pair].
    case_match; [by intros [= <- <-] | done].
  - cbn. by rewrite Hc, IH.
Qed.

(** ** Paths *)

(** A path element that [Clean] leaves alone. *)
Definition plain (e : string) : Prop :=
  e <> "" /\ e <> "." /\ e <> ".." /\ free_of slash e = true.

Lemma clean_elem_plain rooted stack e : plain e -> clean_elem rooted stack e = (e :: stack)%list.
Proof. intros (H1 & H2 & H3 & _). unfold clean_elem. by rewrite !bool_decide_eq_false_2 by done. Qed.

Lemma clean_elem_dotdot rooted stack e :
  e <> ".." -> clean_elem rooted (e :: stack)%list ".." = stack.
Proof.
  intros He. unfold clean_elem.
  rewrite (bool_decide_eq_false_2 (".." = "")), (bool_decide_eq_false_2 (".." = ".")) by done.
  rewrite (bool_decide_eq_true_2 (".." = "..")) by done. cbn [orb].
  by rewrite (bool_decide_eq_false_2 (e = "..")).
Qed.

Lemma clean_elems_plain rooted l : forall stack,
  Forall plain l -> foldl (clean_elem rooted) stack l = (rev l ++ stack)%list.
Proof.
  induction l as [|e l IH]; intros stack HF; [done |]. inversion HF as [| ? ? (H1 & H2 & H3 & _)]; subst.
  cbn [foldl rev]. rewrite IH by done. unfold clean_elem.
  rewrite !bool_decide_eq_false_2 by done. cbn. by rewrite <- app_assoc.
Qed.

Lemma Split_Join_slash l :
  l <> [] -> Forall (fun w => free_of slash w = true) l -> Split (Join l "/") slash = l.
Proof. exact (Split_Join l slash). Qed.

(** A path that starts with a plain element is not rooted, and is not empty. *)
Lemma Join_plain_head e l :
  plain e -> HasPrefix (Join (e :: l) "/") "/" = false /\ Join (e :: l) "/" <> "".
Proof.
  intros (He & _ & _ & Hf).
  assert (exists c t, Join (e :: l) "/" = String c t /\ c <> slash) as (c & t & -> & Hc).
  { destruct e as [|c e]; [done |]. cbn in Hf. apply andb_true_iff in Hf as [Hc _].
    apply negb_true_iff, bool_decide_eq_false in Hc.
    destruct l as [|e' l]; [by exists c, e |].
    rewrite Join_cons by done. rewrite app_cons_str. by eexists _, _. }
  split; [| done]. cbn. by rewrite bool_decide_eq_false_2.
Qed.

(** [Clean] of a relative path whose first element is plain. *)
Lemma Clean_relative e l :
  plain e -> Forall (fun w => free_of slash w = true) l ->
  Clean (Join (e :: l) "/") =
    (let out := Join (rev (foldl (clean_elem false) [] (e :: l))) "/" in
     if bool_decide (out = "") then "." else out).
Proof.
  intros He Hl. unfold Clean. rewrite (proj1 (Join_plain_head e l He)).
  rewrite Split_Join_slash; [done | done |]. constructor; [apply He | done].
Qed.

Lemma plain_free l : Forall plain l -> Forall (fun w => free_of slash w = true) l.
Proof. intros H. eapply Forall_impl; [exact H |]. unfold plain; tauto. Qed.

Lemma Clean_plain l : l <> [] -> Forall plain l -> Clean (Join l "/") = Join l "/".
Proof.
  intros Hne HF. destruct l as [|e l]; [done |]. inversion HF as [| ? ? He Hl]; subst.
  rewrite Clean_relative by (try done; by apply plain_free).
  rewrite clean_elems_plain, app_nil_r, rev_involutive by done. cbv zeta.
  by rewrite bool_decide_eq_false_2 by (by apply Join_plain_head).
Qed.

(** A [".."] element undoes the plain element before it. *)
Lemma Clean_dotdot l e :
  l <> [] -> Forall plain l -> plain e -> Clean (Join (l ++ [e; ".."])%list "/") = Join l "/".
Proof.
  intros Hne HF He. destruct l as [|e0 l]; [done |]. inversion HF as [| ? ? He0 Hl]; subst.
  rewrite <- app_comm_cons.
  rewrite Clean_relative; [| done |].
  - rewrite (app_comm_cons l [e; ".."] e0), foldl_app, (clean_elems_plain _ (e0 :: l)), app_nil_r by done.
    assert (foldl (clean_elem false) (rev (e0 :: l)) [e; ".."] = rev (e0 :: l)) as ->.
    { cbn [foldl]. rewrite (clean_elem_plain _ _ _ He). apply clean_elem_dotdot, He. }
    rewrite rev_involutive. cbv zeta.
    by rewrite bool_decide_eq_false_2 by (by apply Join_plain_head).
  - apply Forall_app. split; [by apply plain_free |]. constructor; [apply He | by constructor].
Qed.

(** Joining a clean relative path with one more element. *)
Lemma path_Join_plain l e :
  l <> [] -> Forall plain l -> plain e -> path_Join [Join l "/"; e] = Join (l ++ [e])%list "/".
Proof.
  intros Hne HF He. cbn [path_Join].
  rewrite bool_decide_eq_false_2.
  2: { destruct l as [|w l]; [done |]. inversion HF; subst. by apply (Join_plain_head w l). }
  assert (Join [Join l "/"; e] "/" = Join (l ++ [e])%list "/") as -> by (by rewrite Join_app).
  apply Clean_plain; [by destruct l |]. apply Forall_app_2; [done |]. by constructor.
Qed.
