(* ===== verification/Net.v ===== *)
(** IP addresses and host names: the functions of Go's [net] package the
    program calls (Go 1.14), and [hostOnly], [isLoopback] and [isInternal] of
    [src/otomatik.go]. *)
From Stdlib Require Import Ascii.
From stdpp Require Import base tactics list strings.
From Stdlib Require Import ZArith Lia.
From S2P Require Import Prelude GoStrings.

Local Open Scope string_scope.
Local Open Scope Z_scope.

(** * [net.IP] *)

(** The bytes of an address: 4 or 16 of them. *)
Definition IP : Type := list Z.

Definition IPv4 (a b c d : Z) : IP := [0; 0; 0; 0; 0; 0; 0; 0; 0; 0; 255; 255; a; b; c; d].

Definition To4 (ip : IP) : option IP :=
  if (length ip =? 4)%nat then Some ip
  else if (length ip =? 16)%nat && bool_decide (take 12 ip = [0; 0; 0; 0; 0; 0; 0; 0; 0; 0; 255; 255])
  then Some (drop 12 ip) else None.

Definition big : Z := 16777215.

Definition digit_val (c : ascii) : option Z :=
  if is_digit c then Some (Z.of_nat (byte_val c) - 48) else None.

Definition xdigit_val (c : ascii) : option Z :=
  if is_digit c then Some (Z.of_nat (byte_val c) - 48)
  else if (97 <=? byte_val c)%nat && (byte_val c <=? 102)%nat then Some (Z.of_nat (byte_val c) - 87)
  else if (65 <=? byte_val c)%nat && (byte_val c <=? 70)%nat then Some (Z.of_nat (byte_val c) - 55)
  else None.

(** [dtoi] and [xtoi]: the number at the start of [s] and how many bytes it
    takes; [None] when there is none or it is too big. *)
Fixpoint number (value : ascii -> option Z) (base n : Z) (i : nat) (s : string) : option (Z * nat) :=
  let stop := if (i =? 0)%nat then None else Some (n, i) in
  match s with
  | "" => stop
  | String c s' =>
      match value c with
      | Some v =>
          let n' := n * base + v in
          if big <=? n' then None else number value base n' (S i) s'
      | None => stop
      end
  end.

Definition dtoi (s : string) : option (Z * nat) := number digit_val 10 0 0 s.
Definition xtoi (s : string) : option (Z * nat) := number xdigit_val 16 0 0 s.

(** The octets of a dotted address; each but the first comes after a dot. *)
Fixpoint octets (k : nat) (dot : bool) (s : string) : option (list Z) :=
  match k with
  | O => if bool_decide (s = "") then Some [] else None
  | S k' =>
      match (if dot then match s with String "." s' => Some s' | _ => None end else Some s) with
      | None => None
      | Some s1 =>
          match dtoi s1 with
          | Some (n, c) =>
              if n <=? 255 then cons n <$> octets k' true (drop_bytes c s1) else None
          | None => None
          end
      end
  end.

Definition parseIPv4 (s : string) : option IP :=
  match octets 4 false s with
  | Some [a; b; c; d] => Some (IPv4 a b c d)
  | _ => None
  end.

(** The loop of [parseIPv6]: the bytes parsed so far, where the ellipsis was,
    and the rest of the string; [None] is "not an address". *)
Fixpoint groups (fuel : nat) (ip : IP) (ellipsis : option nat) (s : string)
    : option (IP * option nat * string) :=
  match fuel with
  | O => Some (ip, ellipsis, s)
  | S fuel' =>
      match xtoi s with
      | None => None
      | Some (n, c) =>
          if 65535 <? n then None
          else
            match drop_bytes c s with
            | String "." _ =>
                if (match ellipsis with None => negb (length ip =? 12)%nat | Some _ => false end)
                   || (16 <? length ip + 4)%nat
                then None
                else
                  match parseIPv4 s with
                  | Some ip4 => Some ((ip ++ drop 12 ip4)%list, ellipsis, "")
                  | None => None
                  end
            | rest =>
                let ip' := (ip ++ [n / 256; n mod 256])%list in
                match rest with
                | "" => Some (ip', ellipsis, "")
                | String ":" "" => None
                | String ":" (String ":" rest') =>
                    match ellipsis with
                    | Some _ => None
                    | None =>
                        if bool_decide (rest' = "") then Some (ip', Some (length ip'), "")
                        else if (length ip' <? 16)%nat then groups fuel' ip' (Some (length ip')) rest'
                        else Some (ip', Some (length ip'), rest')
                    end
                | String ":" rest' =>
                    if (length ip' <? 16)%nat then groups fuel' ip' ellipsis rest'
                    else Some (ip', ellipsis, rest')
                | _ => None
                end
            end
      end
  end.

(** Every round adds two bytes, so eight rounds fill an address. *)
Definition parseIPv6 (s : string) : option IP :=
  if bool_decide (s = "::") then Some (replicate 16 0)
  else
    let start := match s with String ":" (String ":" s') => (Some O, s') | _ => (None, s) end in
    match groups 8 [] (fst start) (snd start) with
    | Some (ip, ellipsis, "") =>
        match ellipsis with
        | None => if (length ip =? 16)%nat then Some ip else None
        | Some e =>
            if (length ip <? 16)%nat
            then Some (take e ip ++ replicate (16 - length ip) 0 ++ drop e ip)%list else None
        end
    | _ => None
    end.

(** The first '.' or ':' decides. *)
Fixpoint ip_kind (s : string) : option bool :=
  match s with
  | "" => None
  | String "." _ => Some true
  | String ":" _ => Some false
  | String _ s' => ip_kind s'
  end.

Definition ParseIP (s : string) : option IP :=
  match ip_kind s with
  | Some true => parseIPv4 s
  | Some false => parseIPv6 s
  | None => None
  end.

(** ** [IP.String] *)

Definition uitoa (n : Z) : string := dec_digits 3 n "".

Definition dotted (a b c d : Z) : string :=
  uitoa a +:+ "." +:+ uitoa b +:+ "." +:+ uitoa c +:+ "." +:+ uitoa d.

(** The 16-bit groups of an address. *)
Fixpoint to_groups (ip : IP) : list Z :=
  match ip with
  | hi :: lo :: rest => (hi * 256 + lo) :: to_groups rest
  | _ => []
  end.

Fixpoint zero_run (gs : list Z) : nat :=
  match gs with
  | g :: gs' => if g =? 0 then S (zero_run gs') else O
  | [] => O
  end.

(** The first longest run of zero groups: where it starts and its length. *)
Fixpoint longest_run (i skip : nat) (gs : list Z) (best : nat * nat) : nat * nat :=
  match gs with
  | [] => best
  | _ :: gs' =>
      match skip with
      | S skip' => longest_run (S i) skip' gs' best
      | O =>
          let n := zero_run gs in
          if (snd best <? n)%nat then longest_run (S i) n gs' (i, n)
          else longest_run (S i) 0 gs' best
      end
  end.

Definition hex_group (g : Z) : string := hex_digits 4 g "".

Definition join_groups (gs : list Z) : string := Join (hex_group <$> gs) ":".

Definition IP_String (ip : IP) : string :=
  match To4 ip with
  | Some [a; b; c; d] => dotted a b c d
  | _ =>
      let gs := to_groups ip in
      let '(e, n) := longest_run 0 0 gs (O, O) in
      if (n <=? 1)%nat then join_groups gs
      else join_groups (take e gs) +:+ "::" +:+ join_groups (drop (e + n) gs)
  end.

(** ** [ParseCIDR] and [IPNet.Contains] *)

Record IPNet := mkNet { net_ip : IP; net_mask : list Z }.

(** [CIDRMask]: [len] bytes, the first [n] bits set. *)
Fixpoint CIDRMask (n : Z) (len : nat) : list Z :=
  match len with
  | O => []
  | S len' =>
      if 8 <=? n then 255 :: CIDRMask (n - 8) len'
      else (255 - Z.shiftr 255 n) :: CIDRMask 0 len'
  end.

Definition mask_with (ip mask : list Z) : list Z := zip_with Z.land ip mask.

Definition ParseCIDR (s : string) : option IPNet :=
  i ← IndexByte s "/";
  let addr := take_bytes i s in
  let mask := drop_bytes (S i) s in
  '(ip, iplen) ← match parseIPv4 addr with
                 | Some ip => Some (drop 12 ip, 4%nat)
                 | None => (fun ip => (ip, 16%nat)) <$> parseIPv6 addr
                 end;
  '(n, c) ← dtoi mask;
  if (c =? String.length mask)%nat && (n <=? 8 * Z.of_nat iplen) then
    let m := CIDRMask n iplen in Some (mkNet (mask_with ip m) m)
  else None.

Definition Net_Contains (n : IPNet) (ip : IP) : bool :=
  let ip := default ip (To4 ip) in
  (length ip =? length (net_ip n))%nat &&
  bool_decide (mask_with (net_ip n) (net_mask n) = mask_with ip (net_mask n)).

(** ** [SplitHostPort] *)

Fixpoint last_index (s : string) (c : ascii) : option nat :=
  match s with
  | "" => None
  | String d s' =>
      match last_index s' c with
      | Some i => Some (S i)
      | None => if bool_decide (d = c) then Some O else None
      end
  end.

(** The host, given the position [i] of the last colon, and from where on
    square brackets are not allowed; [None] is an error. *)
Definition split_host (hostport : string) (i : nat) : option (string * nat * nat) :=
  match hostport with
  | String "[" rest =>
      e ← IndexByte hostport "]";
      if (S e =? i)%nat then Some (take_bytes (e - 1) rest, 1%nat, S e) else None
  | _ =>
      let host := take_bytes i hostport in
      if bool_decide (IndexByte host ":" = None) then Some (host, O, O) else None
  end.

(** [None] is an error. *)
Definition SplitHostPort (hostport : string) : option (string * string) :=
  i ← last_index hostport ":";
  '(host, j, k) ← split_host hostport i;
  if bool_decide (IndexByte (drop_bytes j hostport) "[" = None) &&
     bool_decide (IndexByte (drop_bytes k hostport) "]" = None)
  then Some (host, drop_bytes (S i) hostport) else None.

(** * The helpers of the program *)

Definition hostOnly (hostport : string) : string :=
  match SplitHostPort hostport with
  | Some (host, _) => host
  | None => hostport
  end.

Definition isLoopback (addr : string) : bool :=
  let host := hostOnly addr in
  bool_decide (host = "localhost") || bool_decide (Trim host "[]" = "::1") || HasPrefix host "127.".

Definition privateNetworks : list string :=
  ["10.0.0.0/8"; "172.16.0.0/12"; "192.168.0.0/16"; "fc00::/7"].

Definition isInternal (addr : string) : bool :=
  let host := hostOnly addr in
  match ParseIP host with
  | None => false
  | Some ip =>
      existsb (fun privateNetwork =>
        match ParseCIDR privateNetwork with
        | Some ipnet => Net_Contains ipnet ip
        | None => false
        end) privateNetworks
  end.

(** * Lemmas *)

#[local] Arguments String.append : simpl nomatch.

Definition is_octet (n : Z) : Prop := 0 <= n <= 255.

(** A fact about all octets, by enumeration. *)
Lemma octet_forall (p : Z -> bool) :
  forallb p (seqZ 0 256) = true -> forall n, is_octet n -> p n = true.
Proof.
  intros H n Hn. rewrite forallb_forall in H. apply H, list_elem_of_In, elem_of_seqZ.
  unfold is_octet in Hn. lia.
Qed.

(** [rest] does not go on with a decimal digit. *)
Definition stops (rest : string) : bool :=
  match rest with "" => true | String c _ => negb (is_digit c) end.

Lemma number_stops n i rest :
  i <> O -> stops rest = true -> number digit_val 10 n i rest = Some (n, i).
Proof.
  intros Hi Hr. destruct rest as [|c rest]; cbn [number stops] in *.
  - by rewrite (proj2 (Nat.eqb_neq _ _) Hi).
  - unfold digit_val. apply negb_true_iff in Hr. rewrite Hr.
    by rewrite (proj2 (Nat.eqb_neq _ _) Hi).
Qed.

Lemma number_app s rest : forall n i r,
  all_bytes is_digit s = true -> stops rest = true ->
  number digit_val 10 n i s = Some r -> number digit_val 10 n i (s +:+ rest) = Some r.
Proof.
  induction s as [|c s IH]; intros n i r Hs Hr Hn.
  - cbn [number] in Hn. destruct (Nat.eqb_spec i 0); [done |]. injection Hn as <-.
    by apply number_stops.
  - rewrite app_cons_str. cbn [number all_bytes] in *. apply andb_true_iff in Hs as [Hc Hs].
    unfold digit_val in *. rewrite Hc in *. destruct (big <=? _); [done |]. by apply IH.
Qed.

Lemma drop_bytes_app s rest : drop_bytes (String.length s) (s +:+ rest) = rest.
Proof. induction s as [|c s IH]; [by destruct rest |]. rewrite app_cons_str. exact IH. Qed.

Lemma take_bytes_app s rest : take_bytes (String.length s) (s +:+ rest) = s.
Proof. induction s as [|c s IH]; [by destruct rest |]. rewrite app_cons_str. cbn. by rewrite IH. Qed.

(** What [uitoa] prints for an octet. *)
Lemma uitoa_octet n :
  is_octet n ->
  all_bytes is_digit (uitoa n) = true /\ dtoi (uitoa n) = Some (n, String.length (uitoa n)) /\
  uitoa n <> "".
Proof.
  intros Hn.
  assert (all_bytes is_digit (uitoa n) &&
          bool_decide (dtoi (uitoa n) = Some (n, String.length (uitoa n))) &&
          bool_decide (uitoa n <> "") = true) as H.
  { revert n Hn. apply octet_forall. vm_compute. reflexivity. }
  bool_hyps. done.
Qed.

Lemma dtoi_uitoa n rest :
  is_octet n -> stops rest = true ->
  dtoi (uitoa n +:+ rest) = Some (n, String.length (uitoa n)).
Proof. intros Hn Hr. destruct (uitoa_octet n Hn) as (Hd & Hv & _). by apply number_app. Qed.

Lemma octets_step k n rest :
  is_octet n -> stops rest = true ->
  octets (S k) true ("." +:+ uitoa n +:+ rest) = cons n <$> octets k true rest /\
  octets (S k) false (uitoa n +:+ rest) = cons n <$> octets k true rest.
Proof.
  intros Hn Hr. pose proof (dtoi_uitoa n rest Hn Hr) as Hd.
  assert ((n <=? 255) = true) as Hle by (apply Z.leb_le; unfold is_octet in Hn; lia).
  split; cbn [octets]; [change ("." +:+ uitoa n +:+ rest) with (String "." (uitoa n +:+ rest)); cbv iota beta |];
    by rewrite Hd, Hle, drop_bytes_app.
Qed.

Section Dotted.
Context (a b c d : Z) (Ha : is_octet a) (Hb : is_octet b) (Hc : is_octet c) (Hd : is_octet d).

Lemma octets_dotted : octets 4 false (dotted a b c d) = Some [a; b; c; d].
Proof.
  unfold dotted.
  rewrite (proj2 (octets_step 3 a ("." +:+ uitoa b +:+ "." +:+ uitoa c +:+ "." +:+ uitoa d) Ha eq_refl)).
  rewrite (proj1 (octets_step 2 b ("." +:+ uitoa c +:+ "." +:+ uitoa d) Hb eq_refl)).
  rewrite (proj1 (octets_step 1 c ("." +:+ uitoa d) Hc eq_refl)).
  rewrite <- (app_nil_r_str (uitoa d)), (proj1 (octets_step 0 d "" Hd eq_refl)). done.
Qed.

Lemma ip_kind_digits s rest :
  all_bytes is_digit s = true -> ip_kind (s +:+ ("." +:+ rest)) = Some true.
Proof.
  induction s as [|x s IH]; [done |]. rewrite app_cons_str. cbn [all_bytes].
  intros [Hx Hs]%andb_true_iff. specialize (IH Hs). revert Hx.
  destruct x as [[] [] [] [] [] [] [] []]; cbn; intros; try done.
Qed.

(** Parsing gives back the address that was printed. *)
Lemma ParseIP_dotted : ParseIP (dotted a b c d) = Some (IPv4 a b c d).
Proof.
  unfold ParseIP, parseIPv4. rewrite octets_dotted.
  unfold dotted. by rewrite (ip_kind_digits (uitoa a)) by (by apply uitoa_octet).
Qed.

Lemma dotted_free x : is_digit x = false -> x <> "."%char -> free_of x (dotted a b c d) = true.
Proof.
  intros Hx Hdot. unfold dotted, free_of. rewrite !all_bytes_app.
  assert (forall n, is_octet n -> all_bytes (fun y => negb (bool_decide (y = x))) (uitoa n) = true) as H.
  { intros n Hn. eapply all_bytes_impl; [| by apply uitoa_octet].
    intros y Hy. apply negb_true_iff, bool_decide_eq_false. intros ->. congruence. }
  rewrite !H by done. cbn. rewrite bool_decide_eq_false_2 by done. done.
Qed.
End Dotted.

Lemma last_index_none s x : free_of x s = true -> last_index s x = None.
Proof.
  induction s as [|y s IH]; [done |]. cbn. intros [Hy Hs]%andb_true_iff.
  apply negb_true_iff in Hy. by rewrite IH, Hy.
Qed.

Lemma last_index_sep s rest x :
  free_of x rest = true -> last_index (s +:+ String x rest) x = Some (String.length s).
Proof.
  intros Hr. induction s as [|y s IH].
  - cbn. by rewrite last_index_none, bool_decide_eq_true_2.
  - rewrite app_cons_str. cbn [last_index]. by rewrite IH.
Qed.

Lemma IndexByte_free s x : free_of x s = true -> IndexByte s x = None.
Proof.
  induction s as [|y s IH]; [done |]. cbn. intros [Hy Hs]%andb_true_iff.
  apply negb_true_iff in Hy. by rewrite Hy, IH.
Qed.

Lemma split_host_plain hostport i :
  HasPrefix hostport "[" = false ->
  split_host hostport i =
    (let host := take_bytes i hostport in
     if bool_decide (IndexByte host ":" = None) then Some (host, O, O) else None).
Proof.
  destruct hostport as [|y s]; [done |]. intros H. revert H. destruct y as [[] [] [] [] [] [] [] []]; first [done | by destruct s].
Qed.

(** A host without colons and brackets, alone or with a port. *)
Lemma hostOnly_plain host suffix :
  free_of ":" host = true -> free_of "[" host = true -> free_of "]" host = true ->
  suffix = "" \/ (exists port, suffix = String ":" port /\
                    free_of ":" port = true /\ free_of "[" port = true /\ free_of "]" port = true) ->
  hostOnly (host +:+ suffix) = host.
Proof.
  intros Hc Ho Hb [-> | (port & -> & Pc & Po & Pb)]; unfold hostOnly, SplitHostPort.
  - by rewrite app_nil_r_str, last_index_none.
  - rewrite last_index_sep by done. cbn [mbind option_bind].
    assert (forall x, free_of x host = true -> free_of x port = true -> x <> ":"%char ->
              free_of x (host +:+ String ":" port) = true) as Hfree.
    { intros x H1 H2 H3. unfold free_of. rewrite all_bytes_app. cbn [all_bytes].
      rewrite bool_decide_eq_false_2 by done. by apply andb_true_intro. }
    assert (split_host (host +:+ String ":" port) (String.length host) = Some (host, O, O)) as ->.
    { rewrite split_host_plain.
      - cbv zeta. rewrite take_bytes_app, (IndexByte_free host) by done. done.
      - destruct host as [|y host]; [done |]. cbn in Ho. apply andb_true_iff in Ho as [Hy _].
        apply negb_true_iff in Hy. cbn. by rewrite Hy. }
    cbn [mbind option_bind drop_bytes].
    rewrite !IndexByte_free by (apply Hfree; done).
    by rewrite !bool_decide_eq_true_2 by done.
Qed.

(** The private IPv4 networks of RFC 1918. *)
Definition rfc1918 (a b : Z) : bool :=
  (a =? 10) || (a =? 172) && (16 <=? b) && (b <=? 31) || (a =? 192) && (b =? 168).

Definition in_private (ip : IP) : bool :=
  existsb (fun n => match ParseCIDR n with Some ipnet => Net_Contains ipnet ip | None => false end)
    privateNetworks.

Lemma To4_IPv4 a b c d : To4 (IPv4 a b c d) = Some [a; b; c; d].
Proof. unfold To4, IPv4. cbn -[bool_decide]. by rewrite bool_decide_eq_true_2. Qed.

(** The private networks, parsed. *)
Definition nets : list IPNet :=
  Eval vm_compute in match mapM ParseCIDR privateNetworks with Some l => l | None => [] end.

Lemma in_private_nets ip : in_private ip = existsb (fun n => Net_Contains n ip) nets.
Proof.
  unfold in_private, privateNetworks. cbn [existsb].
  repeat match goal with |- context [ParseCIDR ?s] =>
    let v := eval vm_compute in (ParseCIDR s) in change (ParseCIDR s) with v end.
  reflexivity.
Qed.

Lemma in_private_spec a b c d :
  is_octet a -> is_octet b -> in_private (IPv4 a b c d) = rfc1918 a b.
Proof.
  intros Ha Hb. rewrite in_private_nets.
  assert (existsb (fun n => Net_Contains n (IPv4 a b c d)) nets =
          existsb (fun n => Net_Contains n (IPv4 a b 0 0)) nets) as ->.
  { cbn [existsb nets]. unfold Net_Contains. rewrite !To4_IPv4. unfold mask_with. cbn -[Z.land].
    by rewrite !Z.land_0_r. }
  rewrite <- (bool_decide_eq_true
    (existsb (fun n => Net_Contains n (IPv4 a b 0 0)) nets = rfc1918 a b)).
  revert b Hb. apply octet_forall. revert a Ha. apply octet_forall. vm_compute. reflexivity.
Qed.

(** * Properties *)

(** On an IPv4 address with or without a port, [isInternal] decides exactly
    membership in the private networks 10/8, 172.16/12 and 192.168/16, through
    the host/port split, the address parser, the CIDR parser and the mask
    comparison of the code. *)
Theorem isInternal_spec a b c d suffix :
  is_octet a -> is_octet b -> is_octet c -> is_octet d ->
  suffix = "" \/ (exists port, suffix = String ":" port /\
                    free_of ":" port = true /\ free_of "[" port = true /\ free_of "]" port = true) ->
  isInternal (dotted a b c d +:+ suffix) = rfc1918 a b.
Proof.
  intros Ha Hb Hc Hd Hs. unfold isInternal.
  rewrite hostOnly_plain by (try done; by apply dotted_free).
  rewrite ParseIP_dotted by done. by apply in_private_spec.
Qed.

Lemma isInternal_spec_witness :
  isInternal "172.31.255.1:8080" = true /\ isInternal "172.32.0.1" = false.
Proof.
  split.
  - apply (isInternal_spec 172 31 255 1 ":8080"); unfold is_octet; try lia.
    right. exists "8080". repeat split.
  - apply (isInternal_spec 172 32 0 1 ""); unfold is_octet; try lia. by left.
Defined.
