(* ===== verification/RateLimiter.v ===== *)
(** The ring-buffer rate limiter of [src/ratelimiter.go].

    [RingBufferRateLimiter] is the ring, its cursor and the window; one
    definition per method gives what the method does while it holds the mutex.
    [sys] adds the scheduling goroutine ([loop] and [permit], one program
    counter value per point at which they can be interrupted), the clock and
    two ghost lists of times, and [step] lets the methods, the goroutine and
    the clock interleave. *)
From stdpp Require Import base tactics list strings relations.
From Stdlib Require Import ZArith Lia.
From S2P Require Import Prelude GoTime.

Local Open Scope Z_scope.
Local Open Scope go_scope.

Record RingBufferRateLimiter := mkRateLimiter {
  window : Z;
  ring : list Z;
  cursor : nat
}.

Definition with_window (w : Z) (r : RingBufferRateLimiter) : RingBufferRateLimiter :=
  {| window := w; ring := ring r; cursor := cursor r |}.

(** [make([]time.Time, n)]. *)
Definition make_ring (n : Z) : res (list Z) :=
  if n <? 0 then Panic "makeslice: len out of range"%string
  else Ok (replicate (Z.to_nat n) zeroTime).

Definition msg_zero_events : string :=
  "invalid configuration: maxEvents = 0 and window != 0 would not allow any events".

Definition NewRateLimiter (maxEvents window : Z) : res RingBufferRateLimiter :=
  if maxEvents <? 0 then Panic "maxEvents cannot be less than zero"%string
  else if (maxEvents =? 0) && negb (window =? 0) then Panic msg_zero_events
  else
    let! ring := make_ring maxEvents in
    Ok {| window := window; ring := ring; cursor := 0 |}.

Definition advance (r : RingBufferRateLimiter) : RingBufferRateLimiter :=
  let c := S (cursor r) in
  {| window := window r;
     ring := ring r;
     cursor := if (length (ring r) <=? c)%nat then 0%nat else c |}.

Definition MaxEvents (r : RingBufferRateLimiter) : Z := Z.of_nat (length (ring r)).

Definition Window (r : RingBufferRateLimiter) : Z := window r.

(** The copying loop of [SetMaxEvents]: [n] iterations are left, the next one
    writes [newRing[i]]; it stops early when the cursor is back at [start]. *)
Fixpoint copy_timestamps (n i start : nat) (newRing : list Z)
    (r : RingBufferRateLimiter) : res (list Z * RingBufferRateLimiter) :=
  match n with
  | O => Ok (newRing, r)
  | S n' =>
      match ring r !! cursor r with
      | None => Panic "index out of range"%string
      | Some t =>
          let newRing' := <[i:=t]> newRing in
          let r' := advance r in
          if (cursor r' =? start)%nat then Ok (newRing', r')
          else copy_timestamps n' (S i) start newRing' r'
      end
  end.

Definition SetMaxEvents (maxEvents : Z) (r : RingBufferRateLimiter) :
    res RingBufferRateLimiter :=
  let! newRing := make_ring maxEvents in
  if negb (window r =? 0) && (maxEvents =? 0) then Panic msg_zero_events
  else if maxEvents =? Z.of_nat (length (ring r)) then Ok r
  else
    let sizeDiff := Z.of_nat (length (ring r)) - maxEvents in
    let r1 := Nat.iter (Z.to_nat sizeDiff) advance r in
    let! (newRing', r2) :=
      if (0 <? length (ring r1))%nat
      then copy_timestamps (length newRing) 0 (cursor r1) newRing r1
      else Ok (newRing, r1) in
    Ok {| window := window r2; ring := newRing'; cursor := 0 |}.

Definition SetWindow (w : Z) (r : RingBufferRateLimiter) : res RingBufferRateLimiter :=
  if negb (w =? 0) && (length (ring r) =? 0)%nat then Panic msg_zero_events
  else Ok (with_window w r).

(** What [permit] does with the mutex held, after a ticket was taken. *)
Definition record_event (now : Z) (r : RingBufferRateLimiter) : res RingBufferRateLimiter :=
  if (0 <? length (ring r))%nat then
    match ring r !! cursor r with
    | None => Panic "index out of range"%string
    | Some _ =>
        Ok (advance {| window := window r; ring := <[cursor r := now]> (ring r); cursor := cursor r |})
    end
  else Ok r.

(** * The scheduling goroutine and its clients *)

(** Where [loop] stands. [AtPermit] is the select of [permit]; [AtRecord] is
    just after its ticket case fired, before the mutex is taken. *)
Inductive pc :=
| AtTop
| AtCheckLen
| AtReadThen
| AtArm (next : Z)
| AtWait (deadline : Z)
| AtPermit
| AtRecord
| Returned
| Crashed.

Record sys := mkSys {
  rl : RingBufferRateLimiter;
  loop_pc : pc;
  started : bool;      (* the constructor has returned *)
  stopped : bool;      (* the stopped channel is closed *)
  now : Z;
  admitted : list Z;   (* when each ticket was handed out, latest first *)
  recorded : list Z    (* the timestamps written to the ring, latest first *)
}.

Definition set_pc (p : pc) (s : sys) : sys :=
  {| rl := rl s; loop_pc := p; started := started s; stopped := stopped s;
     now := now s; admitted := admitted s; recorded := recorded s |}.

Definition set_rl (r : RingBufferRateLimiter) (s : sys) : sys :=
  {| rl := r; loop_pc := loop_pc s; started := started s; stopped := stopped s;
     now := now s; admitted := admitted s; recorded := recorded s |}.

Definition tick (d : Z) (s : sys) : sys :=
  {| rl := rl s; loop_pc := loop_pc s; started := started s; stopped := stopped s;
     now := now s + d; admitted := admitted s; recorded := recorded s |}.

Definition set_stopped (s : sys) : sys :=
  {| rl := rl s; loop_pc := loop_pc s; started := started s; stopped := true;
     now := now s; admitted := admitted s; recorded := recorded s |}.

Definition set_started (s : sys) : sys :=
  {| rl := rl s; loop_pc := loop_pc s; started := true; stopped := stopped s;
     now := now s; admitted := admitted s; recorded := recorded s |}.

(** A client takes the ticket ([Allow] returning true or [Wait] returning nil). *)
Definition take_ticket (s : sys) : sys :=
  {| rl := rl s; loop_pc := AtRecord; started := started s; stopped := stopped s;
     now := now s; admitted := now s :: admitted s; recorded := recorded s |}.

Definition write_timestamp (r : RingBufferRateLimiter) (s : sys) : sys :=
  {| rl := r; loop_pc := AtTop; started := started s; stopped := stopped s;
     now := now s; admitted := admitted s; recorded := now s :: recorded s |}.

(** Steps of the goroutine, of the clock, of the clients and of [Stop]. *)
Inductive step_core : sys -> sys -> Prop :=
| StepTick s d :
    0 <= d -> step_core s (tick d s)
| StepTopStopped s :
    loop_pc s = AtTop -> stopped s = true -> step_core s (set_pc Returned s)
| StepTop s :
    loop_pc s = AtTop -> stopped s = false -> step_core s (set_pc AtCheckLen s)
| StepDisabled s :
    loop_pc s = AtCheckLen -> ring (rl s) = [] -> window (rl s) = 0 ->
    step_core s (set_pc AtPermit s)
| StepBadConfig s :
    loop_pc s = AtCheckLen -> ring (rl s) = [] -> window (rl s) <> 0 ->
    step_core s (set_pc Crashed s)
| StepNonempty s :
    loop_pc s = AtCheckLen -> ring (rl s) <> [] -> step_core s (set_pc AtReadThen s)
| StepRead s t :
    loop_pc s = AtReadThen -> ring (rl s) !! cursor (rl s) = Some t ->
    step_core s (set_pc (AtArm (Add t (window (rl s)))) s)
| StepReadCrash s :
    loop_pc s = AtReadThen -> ring (rl s) !! cursor (rl s) = None ->
    step_core s (set_pc Crashed s)
| StepArm s next :
    loop_pc s = AtArm next ->
    step_core s (set_pc (AtWait (now s + Until (now s) next)) s)
| StepTimer s deadline :
    loop_pc s = AtWait deadline -> deadline <= now s ->
    step_core s (set_pc AtPermit s)
| StepWaitStopped s deadline :
    loop_pc s = AtWait deadline -> stopped s = true -> step_core s (set_pc Returned s)
| StepStarted s :
    loop_pc s = AtPermit -> started s = false -> step_core s (set_started s)
| StepPermitStopped s :
    loop_pc s = AtPermit -> stopped s = true -> step_core s (set_pc AtTop s)
| StepTicket s :
    loop_pc s = AtPermit -> started s = true -> step_core s (take_ticket s)
| StepRecord s r :
    loop_pc s = AtRecord -> record_event (now s) (rl s) = Ok r ->
    step_core s (write_timestamp r s)
| StepRecordCrash s m :
    loop_pc s = AtRecord -> record_event (now s) (rl s) = Panic m ->
    step_core s (set_pc Crashed s)
| StepStop s :
    started s = true -> stopped s = false -> step_core s (set_stopped s).

(** With the two methods that reconfigure the limiter. A method that panics
    releases the mutex and leaves the limiter as it was. *)
Inductive step : sys -> sys -> Prop :=
| StepCore s s' : step_core s s' -> step s s'
| StepSetMaxEvents s m r :
    started s = true -> SetMaxEvents m (rl s) = Ok r -> step s (set_rl r s)
| StepSetWindow s w r :
    started s = true -> SetWindow w (rl s) = Ok r -> step s (set_rl r s).

(** The state in which [NewRateLimiter] starts the goroutine. *)
Definition init (r : RingBufferRateLimiter) (t0 : Z) : sys :=
  {| rl := r; loop_pc := AtTop; started := false; stopped := false;
     now := t0; admitted := []; recorded := [] |}.

(** * The ring as a queue of timestamps *)

(** The timestamps from the oldest slot on. *)
Definition contents (r : RingBufferRateLimiter) : list Z := rot (cursor r) (ring r).

Definition wf (r : RingBufferRateLimiter) : Prop :=
  (cursor r < length (ring r) \/ ring r = [] /\ cursor r = 0)%nat.

(** What the constructors enforce about the configuration. *)
Definition config_ok (r : RingBufferRateLimiter) : Prop :=
  ring r = [] -> window r = 0.

(** The sliding window seen by a client: the last [n] timestamps, oldest first. *)
Module Spec.
Definition resize (m : nat) (q : list Z) : list Z :=
  if (m <=? length q)%nat then drop (length q - m) q
  else q ++ replicate (m - length q) zeroTime.

Definition push (t : Z) (q : list Z) : list Z := drop 1 q ++ [t].
End Spec.

(** * The operations on the ring *)

Lemma advance_ring r : ring (advance r) = ring r.
Proof. done. Qed.

Lemma advance_wf r : wf r -> wf (advance r).
Proof. unfold wf, advance. simpl. intros [H | [H ->]]; case_if; [lia | left; lia | | ]; rewrite H in *; simpl in *; auto; lia. Qed.

Lemma advance_contents r : wf r -> contents (advance r) = rot 1 (contents r).
Proof.
  unfold wf, contents, advance. simpl. intros [Hc | [Hr Hc]].
  - destruct (lookup_lt_is_Some_2 _ _ Hc) as [x Hx].
    assert (rot (S (cursor r)) (ring r) = rot 1 (rot (cursor r) (ring r))) as <-.
    { rewrite (rot_S _ _ _ Hx).
      rewrite (rot_S 0 (rot (cursor r) (ring r)) x), rot_0; [done |].
      by rewrite rot_head. }
    case_if; [| done].
    replace (S (cursor r)) with (length (ring r)) by lia. by rewrite rot_0, rot_full.
  - rewrite Hr, Hc. simpl. done.
Qed.

Lemma rot_rot_1 {A} (k : nat) (l : list A) :
  (k < length l)%nat -> rot 1 (rot k l) = rot (S k) l.
Proof.
  intros Hk. destruct (lookup_lt_is_Some_2 _ _ Hk) as [x Hx].
  rewrite (rot_S _ _ _ Hx), (rot_S 0 (rot k l) x), rot_0; [done |]. by rewrite rot_head.
Qed.

Lemma iter_advance k r :
  wf r -> (k <= length (ring r))%nat ->
  let r' := Nat.iter k advance r in
  wf r' /\ contents r' = rot k (contents r) /\ ring r' = ring r /\ window r' = window r.
Proof.
  intros Hwf. induction k as [|k IH]; intros Hk; simpl.
  - by rewrite rot_0.
  - destruct IH as (Hw & Hc & Hr & Hwin); [lia |]. repeat split.
    + by apply advance_wf.
    + rewrite advance_contents, Hc by done. apply rot_rot_1.
      unfold contents. rewrite length_rot. lia.
    + exact Hr.
    + exact Hwin.
Qed.

Lemma contents_length r : length (contents r) = length (ring r).
Proof. apply length_rot. Qed.

Lemma contents_head r : wf r -> contents r !! 0%nat = ring r !! cursor r.
Proof.
  intros [H | [H H']]; unfold contents; [by apply rot_head |]. by rewrite H, H'.
Qed.

(** The copying loop copies the contents, oldest first, until one of the two
    rings is exhausted. [j] is the distance from the cursor to [start]. *)
Lemma copy_timestamps_spec n : forall i j start newRing r,
  (cursor r < length (ring r))%nat -> (start < length (ring r))%nat ->
  (1 <= j <= length (ring r))%nat ->
  (cursor r + j = start \/ cursor r + j = start + length (ring r))%nat ->
  (i + n = length newRing)%nat ->
  exists r', copy_timestamps n i start newRing r =
    Ok (take i newRing ++ take (min n j) (contents r) ++ drop (i + min n j) newRing, r')
    /\ window r' = window r.
Proof.
  induction n as [|n IH]; intros i j start newRing r Hc Hs Hj Hdist Hlen; cbn [copy_timestamps].
  - exists r. cbn. by rewrite Nat.add_0_r, firstn_skipn.
  - destruct (lookup_lt_is_Some_2 _ _ Hc) as [x Hx]. rewrite Hx.
    assert (wf r) as Hwf by (left; lia).
    assert (contents r = x :: drop 1 (contents r)) as HC.
    { rewrite <- (drop_S (contents r) x 0), drop_0; [done |]. by rewrite contents_head. }
    assert (take (S i) (<[i:=x]> newRing) = take i newRing ++ [x]) as Htake.
    { rewrite (take_S_r _ _ x) by (apply list_lookup_insert_eq; lia).
      by rewrite take_insert_ge by lia. }
    assert (cursor (advance r) < length (ring r))%nat as Hc'.
    { destruct (advance_wf r Hwf) as [? | [Hnil ?]]; [done |].
      rewrite advance_ring in Hnil. rewrite Hnil in Hc. simpl in Hc. lia. }
    destruct (cursor (advance r) =? start)%nat eqn:Heq; bool_hyps.
    + assert (j = 1)%nat as -> by
        (revert Heq; unfold advance; simpl; case_if; lia).
      exists (advance r). split; [| done]. f_equal. f_equal.
      rewrite Nat.min_r by lia. rewrite HC. cbn [take app].
      rewrite insert_take_drop by lia. by rewrite Nat.add_1_r.
    + edestruct (IH (S i) (j - 1)%nat start (<[i:=x]> newRing) (advance r)) as (r' & -> & Hw).
      * done.
      * done.
      * rewrite advance_ring. revert Heq; unfold advance; simpl; case_if; lia.
      * revert Heq; rewrite advance_ring; unfold advance; simpl; case_if; lia.
      * rewrite length_insert. lia.
      * exists r'. split; [| done]. f_equal. f_equal.
        rewrite Htake, advance_contents by done.
        rewrite (rot_S 0 _ x), rot_0 by (rewrite HC; done).
        rewrite (take_app_le (drop 1 _))
          by (rewrite length_drop, contents_length; lia).
        rewrite drop_insert_lt by lia.
        replace (min (S n) j) with (S (min n (j - 1))) by lia.
        rewrite HC at 2. cbn [take].
        rewrite <- app_assoc. simpl. do 4 f_equal. lia.
Qed.

Lemma make_ring_ok n : 0 <= n -> make_ring n = Ok (replicate (Z.to_nat n) zeroTime).
Proof. unfold make_ring. intros. case_if; [lia | done]. Qed.

Lemma SetMaxEvents_noop m r :
  wf r -> config_ok r -> m = MaxEvents r -> SetMaxEvents m r = Ok r.
Proof.
  unfold MaxEvents, SetMaxEvents. intros Hwf Hcfg ->. rewrite make_ring_ok by lia. cbn [res_bind].
  case_if; [| by rewrite Z.eqb_refl].
  rewrite Hcfg in *; [done |]. by destruct (ring r).
Qed.

Lemma SetMaxEvents_resize (m : Z) r :
  wf r -> 0 <= m -> (m = 0 -> window r = 0) -> m <> MaxEvents r ->
  SetMaxEvents m r = Ok
    {| window := window r; ring := Spec.resize (Z.to_nat m) (contents r); cursor := 0 |}.
Proof.
  unfold MaxEvents. intros Hwf Hm Hwin Hne. unfold SetMaxEvents. rewrite make_ring_ok by lia. cbn [res_bind].
  assert (negb (window r =? 0) && (m =? 0) = false) as ->.
  { destruct (Z.eqb_spec m 0) as [-> |]; [| by rewrite andb_false_r]. by rewrite Hwin. }
  rewrite (proj2 (Z.eqb_neq _ _) Hne).
  set (L := length (ring r)) in *. set (d := Z.to_nat (Z.of_nat L - m)).
  destruct (iter_advance d r Hwf) as (Hwf1 & Hc1 & Hr1 & Hw1); [lia |].
  rewrite Hr1. fold L. unfold Spec.resize. rewrite contents_length. fold L.
  destruct (Nat.ltb_spec 0 L) as [HL | HL].
  - assert (cursor (Nat.iter d advance r) < L)%nat as Hcur.
    { destruct Hwf1 as [Hlt | [Hnil _]]; rewrite ?Hr1 in *; [done |].
      unfold L in HL. rewrite Hnil in HL. simpl in HL. lia. }
    edestruct (copy_timestamps_spec (Z.to_nat m) 0 L (cursor (Nat.iter d advance r))
                 (replicate (Z.to_nat m) zeroTime) (Nat.iter d advance r)) as (r2 & Heq & Hw2);
      rewrite ?Hr1, ?length_replicate; fold L; try lia.
    rewrite Heq. cbn [res_bind]. rewrite Hw2, Hw1.
    f_equal. f_equal. rewrite take_0, app_nil_l, Nat.add_0_l, Hc1. unfold rot.
    pose proof (contents_length r) as HCl. fold L in HCl.
    case_if.
    + rewrite Nat.min_l by lia. rewrite drop_replicate, Nat.sub_diag. cbn [replicate].
      rewrite app_nil_r, take_app_le by (rewrite length_drop; lia).
      replace d with (L - Z.to_nat m)%nat by lia. rewrite firstn_all2; [done |].
      rewrite length_drop. lia.
    + rewrite Nat.min_r by lia. rewrite drop_replicate.
      replace d with 0%nat by lia. rewrite drop_0, take_0, app_nil_r.
      by rewrite firstn_all2 by lia.
  - cbn [res_bind]. rewrite Hw1. f_equal. f_equal.
    assert (ring r = []) as Hnil by (unfold L in HL; destruct (ring r); [done | simpl in HL; lia]).
    assert (contents r = []) as -> by (unfold contents; rewrite Hnil; by destruct (cursor r)).
    assert (L = 0%nat) as -> by lia. case_if; [lia |]. simpl. by rewrite Nat.sub_0_r.
Qed.

Lemma record_event_spec t r :
  (cursor r < length (ring r))%nat ->
  exists r', record_event t r = Ok r' /\ window r' = window r /\
    (cursor r' < length (ring r'))%nat /\ length (ring r') = length (ring r) /\
    contents r' = Spec.push t (contents r).
Proof.
  intros Hc. unfold record_event.
  destruct (lookup_lt_is_Some_2 _ _ Hc) as [x Hx]. rewrite Hx.
  rewrite (proj2 (Nat.ltb_lt _ _)) by lia.
  set (r1 := {| window := _ |}).
  assert (wf r1) as Hwf1 by (left; simpl; rewrite length_insert; lia).
  eexists. split; [reflexivity |]. split; [done |].
  assert (length (ring (advance r1)) = length (ring r)) as Hlen by apply length_insert.
  split.
  { destruct (advance_wf r1 Hwf1) as [? | [Hnil ?]]; [done |].
    rewrite Hnil in Hlen. simpl in Hlen. lia. }
  split; [done |].
  rewrite advance_contents by done. unfold Spec.push.
  assert (contents r1 = <[0%nat:=t]> (contents r)) as ->.
  { unfold contents, rot. simpl. rewrite (drop_S _ _ _ Hx).
    rewrite (drop_S _ t (cursor r)) by (by apply list_lookup_insert_eq).
    by rewrite drop_insert_lt, take_insert_ge by lia. }
  assert (contents r = x :: drop 1 (contents r)) as HC.
  { rewrite <- (drop_S (contents r) x 0), drop_0; [done |].
    rewrite contents_head; [done | by left]. }
  rewrite HC. simpl. unfold rot. simpl. done.
Qed.

Lemma NewRateLimiter_ok m w r :
  NewRateLimiter m w = Ok r ->
  0 <= m /\ (m = 0 -> w = 0) /\
  r = {| window := w; ring := replicate (Z.to_nat m) zeroTime; cursor := 0 |}.
Proof.
  unfold NewRateLimiter. case_if; [done |]. case_if; [done |].
  rewrite make_ring_ok by lia. intros [= <-]. repeat split; [lia |].
  intros ->. destruct (Z.eqb_spec w 0); [done |]. simpl in *. done.
Qed.

Lemma resize_length m q : length (Spec.resize m q) = m.
Proof.
  unfold Spec.resize. case_if; rewrite ?length_drop, ?length_app, ?length_replicate; lia.
Qed.

Lemma resize_same (q : list Z) : Spec.resize (length q) q = q.
Proof. unfold Spec.resize. rewrite Nat.leb_refl, Nat.sub_diag. by rewrite drop_0. Qed.

Lemma resized_contents w m (q : list Z) :
  contents {| window := w; ring := Spec.resize m q; cursor := 0 |} = Spec.resize m q.
Proof. unfold contents. apply rot_0. Qed.

Lemma resized_wf w m (q : list Z) :
  wf {| window := w; ring := Spec.resize m q; cursor := 0 |}.
Proof.
  unfold wf. simpl. destruct (Spec.resize m q); [by right | left; simpl; lia].
Qed.

(** SetMaxEvents either panics, exactly on a negative limit or on a zero limit
    with a nonzero window, or resizes the queue of timestamps: a lower limit
    forgets the oldest ones, a higher one appends unused slots. *)
Lemma SetMaxEvents_total m r :
  wf r -> config_ok r ->
  match SetMaxEvents m r with
  | Ok r' => 0 <= m /\ (m = 0 -> window r = 0) /\ window r' = window r /\
             contents r' = Spec.resize (Z.to_nat m) (contents r) /\
             wf r' /\ config_ok r'
  | Err _ => False
  | Panic _ => m < 0 \/ m = 0 /\ window r <> 0
  end.
Proof.
  intros Hwf Hcfg.
  destruct (Z.ltb_spec m 0) as [Hneg | Hm].
  { unfold SetMaxEvents, make_ring. rewrite (proj2 (Z.ltb_lt _ _) Hneg). simpl. by left. }
  destruct (decide (m = 0 /\ window r <> 0)) as [[-> Hw] | Hok].
  { unfold SetMaxEvents. rewrite make_ring_ok by lia. cbn [res_bind].
    rewrite (proj2 (Z.eqb_neq _ _) Hw). simpl. by right. }
  destruct (decide (m = MaxEvents r)) as [Heq | Hne].
  - rewrite SetMaxEvents_noop by done. subst m. unfold MaxEvents in *.
    rewrite Nat2Z.id. rewrite <- contents_length at 3. rewrite resize_same.
    repeat split; try done. intros H0. destruct (decide (window r = 0)); [done |].
    exfalso. auto.
  - assert (m = 0 -> window r = 0) as Hwin
      by (intros ->; destruct (decide (window r = 0)); [done | exfalso; auto]).
    rewrite SetMaxEvents_resize by done. rewrite resized_contents.
    repeat split; try done; [apply resized_wf |].
    unfold config_ok. simpl. intros Hnil. apply Hwin.
    apply (f_equal length) in Hnil. rewrite resize_length in Hnil. simpl in Hnil. lia.
Qed.

Lemma SetMaxEvents_preserves m r r' :
  wf r -> config_ok r -> SetMaxEvents m r = Ok r' -> wf r' /\ config_ok r'.
Proof.
  intros Hwf Hcfg Heq. pose proof (SetMaxEvents_total m r Hwf Hcfg) as H.
  rewrite Heq in H. tauto.
Qed.

Lemma SetWindow_preserves w r r' :
  wf r -> SetWindow w r = Ok r' -> wf r' /\ config_ok r' /\ contents r' = contents r.
Proof.
  unfold SetWindow. intros Hwf. case_if; [done |]. intros [= <-].
  split; [done |]. split; [| done].
  unfold config_ok. simpl. intros Hnil. rewrite Hnil in Heqb. simpl in Heqb.
  destruct (Z.eqb_spec w 0); [done |]. done.
Qed.

Lemma record_event_preserves t r r' :
  wf r -> config_ok r -> record_event t r = Ok r' -> wf r' /\ config_ok r'.
Proof.
  intros [Hc | [Hnil Hc]] Hcfg Heq.
  - destruct (record_event_spec t r Hc) as (r2 & Heq2 & _ & Hc2 & Hlen & _).
    rewrite Heq in Heq2. injection Heq2 as <-. split; [by left |].
    intros Hnil. rewrite Hnil in Hlen. simpl in Hlen. lia.
  - unfold record_event in Heq. rewrite Hnil in Heq. simpl in Heq.
    injection Heq as <-. split; [by right | done].
Qed.

Lemma record_event_no_panic t r m : wf r -> record_event t r <> Panic m.
Proof.
  intros [Hc | [Hnil Hc]].
  - destruct (record_event_spec t r Hc) as (r2 & -> & _). done.
  - unfold record_event. rewrite Hnil. done.
Qed.

#[export] Hint Resolve SetMaxEvents_preserves record_event_preserves : otomatik.

(** * Invariants of the running limiter *)

Definition sys_wf (s : sys) : Prop := wf (rl s) /\ config_ok (rl s).

Lemma step_core_sys_wf s s' : sys_wf s -> step_core s s' -> sys_wf s'.
Proof. intros [Hwf Hcfg]. destruct 1; try done. unfold sys_wf; simpl. eauto with otomatik. Qed.

Lemma step_sys_wf s s' : sys_wf s -> step s s' -> sys_wf s'.
Proof.
  intros Hs. destruct 1.
  - by eapply step_core_sys_wf.
  - destruct Hs. unfold sys_wf; simpl. eauto with otomatik.
  - destruct Hs. unfold sys_wf; simpl.
    edestruct SetWindow_preserves as (? & ? & _); eauto.
Qed.

Lemma init_sys_wf m w r t0 : NewRateLimiter m w = Ok r -> sys_wf (init r t0).
Proof.
  intros (Hm & Hw & ->)%NewRateLimiter_ok. unfold sys_wf, wf, config_ok. simpl.
  rewrite length_replicate. split; [| intros Hnil; apply Hw].
  - destruct (decide (m = 0)) as [-> | ?]; [by right | left; lia].
  - apply (f_equal length) in Hnil. rewrite length_replicate in Hnil. simpl in Hnil. lia.
Qed.

(** ** The sliding window *)

(** The timestamps written so far, with the one that is about to be written. *)
Definition aligned (s : sys) : list Z :=
  match loop_pc s with AtRecord => now s :: recorded s | _ => recorded s end.

(** The timestamp in the slot the next event will overwrite, when the ring
    has [n] slots. *)
Definition oldest (n : nat) (l : list Z) : Z :=
  default zeroTime ((l ++ replicate n zeroTime) !! pred n).

Section SlidingWindow.
Context (n : nat) (w : Z).
Hypothesis n_pos : (0 < n)%nat.
Hypothesis w_max : w <= maxDuration.

(** What each point of the goroutine knows about the clock. *)
Definition pc_inv (s : sys) : Prop :=
  let next := Add (oldest n (aligned s)) w in
  match loop_pc s with
  | AtArm next' => next' = next
  | AtWait deadline => next <= deadline <= Z.max (now s) next
  | AtPermit => next <= now s
  | Returned => stopped s = true
  | Crashed => False
  | _ => True
  end.

Record window_inv (s : sys) : Prop := {
  wi_window : window (rl s) = w;
  wi_cursor : (cursor (rl s) < length (ring (rl s)))%nat;
  wi_len : length (ring (rl s)) = n;
  wi_now : 0 <= now s;
  wi_recorded : Forall (fun t => t <= now s) (recorded s);
  wi_contents : contents (rl s) = reverse (take n (recorded s ++ replicate n zeroTime));
  wi_aligned : Forall2 Z.le (admitted s) (aligned s);
  wi_spaced : forall k a t,
    admitted s !! k = Some a -> aligned s !! (k + n)%nat = Some t -> w <= a - t;
  wi_pc : pc_inv s
}.

Lemma window_len (l : list Z) : length (take n (l ++ replicate n zeroTime)) = n.
Proof. rewrite length_take, length_app, length_replicate. lia. Qed.

(** Pushing the newest timestamp onto the ring. *)
Lemma push_window t (l : list Z) :
  Spec.push t (reverse (take n (l ++ replicate n zeroTime))) =
  reverse (take n ((t :: l) ++ replicate n zeroTime)).
Proof.
  unfold Spec.push. set (L := l ++ replicate n zeroTime).
  assert (n <= length L)%nat as HL by (unfold L; rewrite length_app, length_replicate; lia).
  destruct n as [|n']; [lia |]. cbn [app take]. fold L.
  rewrite reverse_cons. f_equal.
  destruct (lookup_lt_is_Some_2 L n' HL) as [x Hx].
  rewrite (take_S_r _ _ _ Hx), reverse_snoc. simpl. by rewrite drop_0.
Qed.

(** The slot under the cursor holds the oldest of the last [n] timestamps. *)
Lemma cursor_oldest s :
  window_inv s -> aligned s = recorded s ->
  ring (rl s) !! cursor (rl s) = Some (oldest n (aligned s)).
Proof.
  intros Hs ->. rewrite <- contents_head by (left; apply Hs).
  rewrite (wi_contents s Hs). rewrite reverse_lookup by (rewrite window_len; lia).
  rewrite window_len. unfold oldest.
  rewrite lookup_take_lt by lia. rewrite Nat.sub_1_r.
  destruct (lookup_lt_is_Some_2 (recorded s ++ replicate n zeroTime) (pred n)) as [x ->]; [| done].
  rewrite length_app, length_replicate. lia.
Qed.

Lemma oldest_le s : window_inv s -> oldest n (aligned s) <= now s.
Proof.
  intros Hs. unfold oldest.
  destruct ((aligned s ++ replicate n zeroTime) !! pred n) as [t|] eqn:Ht; [| apply Hs].
  assert (Forall (fun t => t <= now s) (aligned s ++ replicate n zeroTime)) as HF.
  { apply Forall_app. split.
    - unfold aligned. pose proof (wi_recorded s Hs).
      destruct (loop_pc s); try done. constructor; [lia | done].
    - apply Forall_replicate. apply Hs. }
  simpl. eapply Forall_lookup in HF; eauto.
Qed.

(** Steps that keep the ring and both lists only have to justify the new
    program counter. *)
Lemma window_inv_pc p s :
  window_inv s -> loop_pc s <> AtRecord -> p <> AtRecord ->
  pc_inv (set_pc p s) -> window_inv (set_pc p s).
Proof.
  intros Hs Hnr Hp Hpc.
  assert (aligned (set_pc p s) = aligned s) as Hal.
  { unfold aligned. simpl. destruct p, (loop_pc s); done. }
  destruct Hs. constructor; simpl; rewrite ?Hal; done.
Qed.

Lemma window_inv_tick d s : 0 <= d -> window_inv s -> window_inv (tick d s).
Proof.
  intros Hd Hs. pose proof (oldest_le s Hs) as Hold. destruct Hs as [Hw Hc Hl Hn Hr Hcon Hal Hsp Hpc].
  assert (Forall (fun t => t <= now s + d) (recorded s)) as Hr'
    by (eapply Forall_impl; [exact Hr |]; simpl; intros; lia).
  constructor; simpl; try done; try lia.
  - revert Hal. unfold aligned. simpl. destruct (loop_pc s); try done.
    intros (a & l & Ha & Hrest & ->)%Forall2_cons_inv_r. constructor; [lia | done].
  - intros k a t Ha Ht. apply (Hsp k a t Ha). revert Ht. unfold aligned. simpl.
    destruct (loop_pc s); try done.
    replace (k + n)%nat with (S (k + pred n)) by lia. done.
  - revert Hpc Hold. unfold pc_inv, aligned. simpl.
    destruct (loop_pc s); simpl; try done; unfold Add; lia.
Qed.

Lemma window_inv_ticket s :
  window_inv s -> loop_pc s = AtPermit -> window_inv (take_ticket s).
Proof.
  intros Hs Hp. assert (aligned s = recorded s) as Hal by (unfold aligned; by rewrite Hp).
  pose proof (wi_pc s Hs) as Hpc. unfold pc_inv in Hpc. rewrite Hp, Hal in Hpc.
  destruct Hs as [Hw Hc Hl Hn Hr Hcon HF Hsp _]. rewrite Hal in *.
  constructor; simpl; try done.
  - constructor; [simpl; lia | done].
  - intros [|k] a t Ha Ht; simpl in *; [| eapply Hsp; eauto].
    injection Ha as <-. destruct n as [|n'] eqn:Hn'; [lia |]. simpl in Ht.
    unfold oldest, Add in Hpc. simpl in Hpc.
    rewrite lookup_app_l in Hpc by (by eapply lookup_lt_Some). rewrite Ht in Hpc.
    simpl in Hpc. lia.
Qed.

Lemma window_inv_record s r :
  window_inv s -> loop_pc s = AtRecord -> record_event (now s) (rl s) = Ok r ->
  window_inv (write_timestamp r s).
Proof.
  intros Hs Hp Heq. assert (aligned s = now s :: recorded s) as Hal by (unfold aligned; by rewrite Hp).
  destruct Hs as [Hw Hc Hl Hn Hr Hcon HF Hsp _]. rewrite Hal in *.
  destruct (record_event_spec (now s) (rl s) Hc) as (r' & Heq' & Hw' & Hc' & Hl' & Hcon').
  rewrite Heq in Heq'. injection Heq' as <-.
  constructor; simpl; try done; try lia.
  - constructor; [lia | done].
  - rewrite Hcon', Hcon. apply push_window.
Qed.

Lemma window_inv_step s s' : window_inv s -> step_core s s' -> window_inv s'.
Proof.
  intros Hs Hstep. pose proof (wi_pc s Hs) as Hpc. pose proof (oldest_le s Hs) as Hold.
  destruct Hstep as [ | | | | | | s t Hp Ht | s Hp Ht | s next Hp | s dl Hp | | | | | | | ];
    try (apply window_inv_pc; [done | congruence | done |];
         unfold pc_inv; simpl; try done).
  - by apply window_inv_tick.
  - pose proof (wi_len s Hs) as Hl. rewrite H0 in Hl. simpl in Hl. lia.
  - pose proof (wi_len s Hs) as Hl. rewrite H0 in Hl. simpl in Hl. lia.
  - assert (aligned s = recorded s) as Hal by (unfold aligned; by rewrite Hp).
    rewrite (cursor_oldest s Hs Hal) in Ht. injection Ht as <-.
    rewrite (wi_window s Hs). rewrite Hal. unfold aligned. done.
  - pose proof (wi_cursor s Hs). apply lookup_ge_None in Ht. lia.
  - unfold pc_inv in Hpc. rewrite Hp in Hpc. subst next.
    assert (aligned s = recorded s) as Hal by (unfold aligned; by rewrite Hp).
    rewrite Hal in *. unfold aligned. simpl. unfold Add in *. unfold Until, Sub, minDuration. lia.
  - unfold pc_inv in Hpc. rewrite Hp in Hpc.
    assert (aligned s = recorded s) as Hal by (unfold aligned; by rewrite Hp).
    rewrite Hal in *. unfold aligned. simpl. lia.
  - assert (aligned (set_started s) = aligned s) as Hal by done.
    destruct Hs. constructor; simpl; rewrite ?Hal; done.
  - by apply window_inv_ticket.
  - by apply window_inv_record.
  - exfalso. eapply record_event_no_panic; [left; apply Hs | eauto].
  - assert (aligned (set_stopped s) = aligned s) as Hal by done.
    destruct Hs. constructor; simpl; rewrite ?Hal; try done.
    unfold pc_inv in *. simpl. destruct (loop_pc s); done.
Qed.

Lemma window_inv_init t0 r :
  0 <= t0 -> NewRateLimiter (Z.of_nat n) w = Ok r -> window_inv (init r t0).
Proof.
  intros Ht (_ & _ & ->)%NewRateLimiter_ok. rewrite Nat2Z.id.
  constructor; simpl; rewrite ?length_replicate; try done.
  - unfold contents. simpl. rewrite rot_0.
    rewrite firstn_all2 by (rewrite length_replicate; lia). by rewrite reverse_replicate.
Qed.

Lemma window_inv_reachable t0 r s :
  0 <= t0 -> NewRateLimiter (Z.of_nat n) w = Ok r ->
  rtc step_core (init r t0) s -> window_inv s.
Proof.
  intros Ht Hr Hs. eapply (rtc_invariant step_core window_inv); [| exact Hs |].
  - apply window_inv_step.
  - by apply window_inv_init.
Qed.
End SlidingWindow.

(** ** Progress *)

Section Progress.
Context (n : nat) (w : Z).
Hypothesis n_pos : (0 < n)%nat.
Hypothesis w_max : w <= maxDuration.

(** Some run hands out the next ticket no later than the window requires. *)
Definition can_permit (s : sys) : Prop :=
  exists s', rtc step_core s s' /\ loop_pc s' = AtPermit /\ admitted s' = admitted s /\
    now s' <= Z.max (now s) (Add (oldest n (aligned s)) w).

Lemma can_permit_step s s1 :
  step_core s s1 -> aligned s1 = aligned s -> now s1 = now s ->
  admitted s1 = admitted s -> can_permit s1 -> can_permit s.
Proof.
  intros Hstep Hal Hn Ha (s' & Hrtc & Hp & Ha' & Hle).
  exists s'. rewrite <- Hal, <- Hn, <- Ha. eauto using rtc_l.
Qed.

Lemma can_permit_wait s dl :
  window_inv n w s -> loop_pc s = AtWait dl -> can_permit s.
Proof.
  intros Hs Hp. pose proof (wi_pc n w s Hs) as Hpc. unfold pc_inv in Hpc. rewrite Hp in Hpc.
  exists (set_pc AtPermit (tick (Z.max 0 (dl - now s)) s)).
  split; [| repeat split; simpl; lia].
  eapply rtc_l; [apply (StepTick s (Z.max 0 (dl - now s))); lia |].
  apply rtc_once. eapply StepTimer; simpl; eauto; lia.
Qed.

Lemma can_permit_arm s next :
  window_inv n w s -> loop_pc s = AtArm next -> can_permit s.
Proof.
  intros Hs Hp. assert (step_core s (set_pc (AtWait (now s + Until (now s) next)) s)) as Hst
    by (by apply StepArm).
  eapply can_permit_step; [exact Hst | by unfold aligned; rewrite Hp | done | done |].
  eapply can_permit_wait; [| done]. eapply window_inv_step; eauto.
Qed.

Lemma can_permit_read s :
  window_inv n w s -> loop_pc s = AtReadThen -> can_permit s.
Proof.
  intros Hs Hp. assert (aligned s = recorded s) as Hal by (unfold aligned; by rewrite Hp).
  pose proof (cursor_oldest n w n_pos s Hs Hal) as Ht.
  assert (step_core s (set_pc (AtArm (Add (oldest n (aligned s)) (window (rl s)))) s)) as Hst
    by (by apply StepRead).
  eapply can_permit_step; [exact Hst | by unfold aligned; rewrite Hp | done | done |].
  eapply can_permit_arm; [| done]. eapply window_inv_step; eauto.
Qed.

Lemma can_permit_check s :
  window_inv n w s -> loop_pc s = AtCheckLen -> can_permit s.
Proof.
  intros Hs Hp. assert (ring (rl s) <> []) as Hne.
  { intros Hnil. pose proof (wi_len n w s Hs) as Hl. rewrite Hnil in Hl. simpl in Hl. lia. }
  assert (step_core s (set_pc AtReadThen s)) as Hst by (by apply StepNonempty).
  eapply can_permit_step; [exact Hst | by unfold aligned; rewrite Hp | done | done |].
  eapply can_permit_read; [| done]. eapply window_inv_step; eauto.
Qed.

Lemma can_permit_top s :
  window_inv n w s -> loop_pc s = AtTop -> stopped s = false -> can_permit s.
Proof.
  intros Hs Hp Hst0. assert (step_core s (set_pc AtCheckLen s)) as Hst by (by apply StepTop).
  eapply can_permit_step; [exact Hst | by unfold aligned; rewrite Hp | done | done |].
  eapply can_permit_check; [| done]. eapply window_inv_step; eauto.
Qed.

Lemma can_permit_record s :
  window_inv n w s -> loop_pc s = AtRecord -> stopped s = false -> can_permit s.
Proof.
  intros Hs Hp Hst0.
  destruct (record_event_spec (now s) (rl s) (wi_cursor n w s Hs)) as (r & Heq & _).
  assert (step_core s (write_timestamp r s)) as Hst by (by apply StepRecord).
  eapply can_permit_step; [exact Hst | by unfold aligned; rewrite Hp | done | done |].
  eapply can_permit_top; [| done | done]. eapply window_inv_step; eauto.
Qed.

Lemma can_permit_always s : window_inv n w s -> stopped s = false -> can_permit s.
Proof.
  intros Hs Hst. pose proof (wi_pc n w s Hs) as Hpc. unfold pc_inv in Hpc.
  destruct (loop_pc s) eqn:Hp;
    eauto using can_permit_top, can_permit_check, can_permit_read, can_permit_arm,
      can_permit_wait, can_permit_record; try congruence; try done.
  exists s. repeat split; try done; lia.
Qed.
End Progress.

(** ** Crashes *)

(** Steps that do not empty the ring. *)
Definition step_keeping (s s' : sys) : Prop :=
  step s s' /\ (ring (rl s') = [] -> ring (rl s) = []).

Definition no_crash_inv (s : sys) : Prop :=
  sys_wf s /\ loop_pc s <> Crashed /\ (loop_pc s = AtReadThen -> ring (rl s) <> []).

Lemma no_crash_inv_step s s' : no_crash_inv s -> step_keeping s s' -> no_crash_inv s'.
Proof.
  intros (Hwf & Hnc & Hrd) [Hst Hkeep].
  split; [by eapply step_sys_wf |].
  destruct Hst as [s s' Hst | s m r _ Heq | s v r _ Heq]; simpl in *;
    [| split; [done | intros Hp Hnil; apply (Hrd Hp); auto] ..].
  destruct Hst; simpl in *; try (split; congruence); try (split; by auto).
  - destruct Hwf as [_ Hcfg]. by apply Hcfg in H0.
  - destruct Hwf as [[Hc | [Hnil _]] _]; [apply lookup_ge_None in H0; lia |].
    by specialize (Hrd H).
  - exfalso. eapply record_event_no_panic; [apply Hwf | eauto].
Qed.

(** * Properties *)

(** Run one named step of the goroutine and go on. *)
Ltac run c := eapply rtc_l; [eapply c; try reflexivity; try lia; try done|].
Ltac wait_for d := eapply rtc_l; [eapply (StepTick _ d); lia|].
Ltac fire := eapply rtc_l; [eapply StepTimer; [reflexivity | vm_compute; discriminate]|].

(** A run of a one-event limiter with window 5 that admits two events. *)
Definition two_events : sys :=
  {| rl := {| window := 5; ring := [100]; cursor := 0 |}; loop_pc := AtRecord;
     started := true; stopped := false; now := 105; admitted := [105; 100];
     recorded := [100] |}.

Lemma two_events_run :
  rtc step_core (init {| window := 5; ring := [0]; cursor := 0 |} 100) two_events.
Proof.
  run StepTop. run StepNonempty. run StepRead. run StepArm. wait_for 0. fire.
  run StepStarted. run StepTicket. run StepRecord.
  run StepTop. run StepNonempty. run StepRead. run StepArm. wait_for 5. fire.
  run StepTicket. apply rtc_refl.
Qed.

(** C1: in every execution of a limiter made by [NewRateLimiter(n, w)] and not
    reconfigured, any two admitted events that are [n] events apart are at
    least the window [w] apart: no sliding window of length [w] ever contains
    more than [n] admitted events, whatever the interleaving of the
    goroutine, the clients, the clock and [Stop]. *)
Theorem sliding_window n w t0 r s k t_new t_old :
  (0 < n)%nat -> w <= maxDuration -> 0 <= t0 ->
  NewRateLimiter (Z.of_nat n) w = Ok r ->
  rtc step_core (init r t0) s ->
  admitted s !! k = Some t_new -> admitted s !! (k + n)%nat = Some t_old ->
  w <= t_new - t_old.
Proof.
  intros Hn Hw Ht0 Hr Hs Hnew Hold.
  pose proof (window_inv_reachable n w Hn Hw t0 r s Ht0 Hr Hs) as HI.
  destruct (Forall2_lookup_l _ _ _ _ _ (wi_aligned n w s HI) Hold) as (t & Ht & Hle).
  pose proof (wi_spaced n w s HI k t_new t Hnew Ht). lia.
Qed.

Lemma sliding_window_witness :
  NewRateLimiter 1 5 = Ok {| window := 5; ring := [0]; cursor := 0 |} /\
  admitted two_events = [105; 100] /\ 5 <= 105 - 100.
Proof.
  split; [reflexivity |]. split; [reflexivity |].
  apply (sliding_window 1 5 100 _ _ 0 105 100) with (5 := two_events_run);
    [lia | vm_compute; discriminate | lia | reflexivity ..].
Defined.

(** C37: a limiter that is not stopped never withholds a ticket longer than the
    window requires: from every reachable state some run of the goroutine and
    the clock offers the next ticket, without admitting anything meanwhile,
    no later than [w] after the oldest of the last [n] events (or at once). *)
Theorem ticket_becomes_available n w t0 r s :
  (0 < n)%nat -> w <= maxDuration -> 0 <= t0 ->
  NewRateLimiter (Z.of_nat n) w = Ok r ->
  rtc step_core (init r t0) s -> stopped s = false ->
  exists s', rtc step_core s s' /\ loop_pc s' = AtPermit /\ admitted s' = admitted s /\
    now s' <= Z.max (now s) (Add (oldest n (aligned s)) w).
Proof.
  intros Hn Hw Ht0 Hr Hs Hst. eapply can_permit_always; eauto.
  by eapply window_inv_reachable.
Qed.

Lemma ticket_becomes_available_witness :
  exists r s', NewRateLimiter 1 5 = Ok r /\ rtc step_core (init r 100) s' /\
    loop_pc s' = AtPermit.
Proof.
  eexists.
  destruct (ticket_becomes_available 1 5 100 {| window := 5; ring := [0]; cursor := 0 |}
    (init {| window := 5; ring := [0]; cursor := 0 |} 100)) as (s' & Hs & Hp & _);
    [lia | vm_compute; discriminate | lia | reflexivity | apply rtc_refl | reflexivity |].
  exists s'. split; [reflexivity |]. by split.
Defined.

(** Whatever clients do ([SetMaxEvents] and [SetWindow] included) and
    however they interleave with the goroutine, the cursor always points into
    the ring (or the ring is empty and the cursor is 0), and a limiter with
    no slots always has a zero window, so the invalid configuration the
    goroutine panics on is never reached. *)
Theorem limiter_stays_valid m w t0 r s :
  NewRateLimiter m w = Ok r -> rtc step (init r t0) s ->
  ((cursor (rl s) < length (ring (rl s)))%nat \/ ring (rl s) = [] /\ cursor (rl s) = 0%nat) /\
  (ring (rl s) = [] -> window (rl s) = 0).
Proof.
  intros Hr Hs. eapply (rtc_invariant step sys_wf step_sys_wf); [exact Hs |].
  by eapply init_sys_wf.
Qed.

Lemma limiter_stays_valid_witness :
  exists r s, NewRateLimiter 2 7 = Ok r /\ rtc step (init r 0) s /\
    (ring (rl s) = [] -> window (rl s) = 0).
Proof.
  eexists; eexists. split; [reflexivity |]. split; [apply rtc_refl |].
  eapply (limiter_stays_valid 2 7 0); [reflexivity | apply rtc_refl].
Defined.

(** [SetMaxEvents] on a valid limiter is the resizing of the queue of
    timestamps (oldest first): a lower limit drops exactly the oldest ones, a
    higher limit keeps all of them in order and appends unused slots, an equal
    limit changes nothing; it keeps the window and a valid state, and it panics
    exactly on a negative limit or on a zero limit with a nonzero window. *)
Theorem SetMaxEvents_spec m r :
  wf r -> config_ok r ->
  (SetMaxEvents m r = Ok r /\ m = MaxEvents r) \/
  match SetMaxEvents m r with
  | Ok r' => m <> MaxEvents r /\ Window r' = Window r /\ MaxEvents r' = m /\
             contents r' = Spec.resize (Z.to_nat m) (contents r) /\
             wf r' /\ config_ok r'
  | Err _ => False
  | Panic _ => m < 0 \/ m = 0 /\ Window r <> 0
  end.
Proof.
  intros Hwf Hcfg. pose proof (SetMaxEvents_total m r Hwf Hcfg) as H.
  destruct (decide (m = MaxEvents r)) as [-> | Hne];
    [left; split; [by apply SetMaxEvents_noop | done] | right].
  destruct (SetMaxEvents m r) as [r' | |]; [| done | done].
  destruct H as (Hm & _ & Hw & Hc & Hwf' & Hcfg'). repeat split; try done.
  unfold MaxEvents. rewrite <- contents_length, Hc, resize_length. lia.
Qed.

Lemma SetMaxEvents_spec_witness :
  let r := {| window := 9; ring := [30; 10; 20]; cursor := 1 |} in
  SetMaxEvents 2 r = Ok {| window := 9; ring := [20; 30]; cursor := 0 |} /\
  ((SetMaxEvents 2 r = Ok r /\ 2 = MaxEvents r) \/
   match SetMaxEvents 2 r with
   | Ok r' => 2 <> MaxEvents r /\ Window r' = Window r /\ MaxEvents r' = 2 /\
              contents r' = Spec.resize (Z.to_nat 2) (contents r) /\ wf r' /\ config_ok r'
   | Err _ => False
   | Panic _ => 2 < 0 \/ 2 = 0 /\ Window r <> 0
   end).
Proof.
  intros r. split; [reflexivity |].
  apply (SetMaxEvents_spec 2 r); [left; simpl; lia | intros Hnil; discriminate].
Defined.

(** Raising the limit does not give the limiter capacity at once: the slot
    the next event waits for is still the one of the oldest remembered event,
    although the new, unused slots behind it are older. *)
Theorem raising_the_limit_keeps_the_wait m r r' t :
  wf r -> config_ok r -> ring r !! cursor r = Some t -> MaxEvents r < m ->
  SetMaxEvents m r = Ok r' ->
  ring r' !! cursor r' = Some t /\
  ring r' !! (Z.to_nat m - 1)%nat = Some zeroTime.
Proof.
  intros Hwf Hcfg Ht Hm Heq. pose proof (SetMaxEvents_total m r Hwf Hcfg) as H.
  rewrite SetMaxEvents_resize in Heq; try done; try (unfold MaxEvents in *; lia).
  injection Heq as <-. cbn [ring cursor]. unfold MaxEvents in Hm.
  unfold Spec.resize. rewrite contents_length.
  assert (0 < length (ring r))%nat by (apply lookup_lt_Some in Ht; lia).
  case_if; [lia |]. split.
  - rewrite lookup_app_l by (rewrite contents_length; lia). by rewrite contents_head.
  - rewrite lookup_app_r by (rewrite contents_length; lia). rewrite contents_length.
    apply lookup_replicate_2. lia.
Qed.

Lemma raising_the_limit_keeps_the_wait_witness :
  let r := {| window := 60; ring := [100; 101]; cursor := 0 |} in
  exists r', SetMaxEvents 4 r = Ok r' /\ ring r' !! cursor r' = Some 100 /\
    ring r' !! 3%nat = Some zeroTime.
Proof.
  intros r. eexists. split; [reflexivity |].
  apply (raising_the_limit_keeps_the_wait 4 r _ 100);
    [left; simpl; lia | intros Hnil; discriminate | reflexivity | reflexivity | reflexivity].
Defined.

(** The goroutine can only crash if a client empties the ring: as long as no
    [SetMaxEvents] call brings a nonempty ring to zero slots, no interleaving
    of the methods with the goroutine reaches a panic. *)
Theorem no_crash_while_ring_nonempty m w t0 r s :
  NewRateLimiter m w = Ok r -> rtc step_keeping (init r t0) s -> loop_pc s <> Crashed.
Proof.
  intros Hr Hs.
  assert (no_crash_inv s) as (_ & H & _); [| exact H].
  eapply (rtc_invariant step_keeping no_crash_inv no_crash_inv_step); [exact Hs |].
  split; [by eapply init_sys_wf | done].
Qed.

Lemma no_crash_while_ring_nonempty_witness :
  exists r, NewRateLimiter 1 0 = Ok r /\ loop_pc (init r 0) <> Crashed.
Proof.
  eexists. split; [reflexivity |].
  eapply (no_crash_while_ring_nonempty 1 0 0); [reflexivity | apply rtc_refl].
Defined.

(** Emptying the ring does crash some runs: the goroutine tests the length
    of the ring without the mutex, so a [SetMaxEvents(0)] between that test
    and the read of the cursor's slot (a valid call, the window being zero)
    makes it index an empty ring. *)
Theorem emptying_the_ring_can_crash :
  exists r s, NewRateLimiter 1 0 = Ok r /\ rtc step (init r 0) s /\ loop_pc s = Crashed.
Proof.
  do 2 eexists. split; [reflexivity |]. split.
  - do 4 (eapply rtc_l; [apply StepCore; first
      [eapply StepTop; reflexivity | eapply StepNonempty; [reflexivity | done]
      | eapply StepRead; reflexivity | eapply StepArm; reflexivity] |]).
    eapply rtc_l; [apply StepCore, (StepTick _ 0); lia |].
    eapply rtc_l; [apply StepCore; eapply StepTimer; [reflexivity | vm_compute; discriminate] |].
    eapply rtc_l; [apply StepCore, StepStarted; reflexivity |].
    eapply rtc_l; [apply StepCore, StepTicket; reflexivity |].
    eapply rtc_l; [apply StepCore; eapply StepRecord; reflexivity |].
    eapply rtc_l; [apply StepCore, StepTop; reflexivity |].
    eapply rtc_l; [apply StepCore, StepNonempty; [reflexivity | done] |].
    eapply rtc_l; [eapply (StepSetMaxEvents _ 0); reflexivity |].
    eapply rtc_l; [apply StepCore, StepReadCrash; reflexivity | apply rtc_refl].
  - reflexivity.
Qed.
