(* ===== verification/JobManager.v ===== *)
(** The background job manager of [src/async.go].

    [Submit] and the two critical sections of [worker] are definitions on the
    [jobManager] record; [sys] adds the worker goroutines and [step] lets them
    interleave with submissions. The jobs themselves are opaque: a job is
    started and later returns. *)
From stdpp Require Import base tactics list gmap strings relations.
From Stdlib Require Import ZArith Lia.
From S2P Require Import Prelude.

Local Open Scope Z_scope.

Section Jobs.
Context {J : Type}.

Record namedJob := mkJob { name : string; job : J }.

(** [names] is the key set of the Go map; a nil map reads as the empty one. *)
Record jobManager := mkManager {
  maxConcurrentJobs : Z;
  activeWorkers : Z;
  queue : list namedJob;
  names : gset string
}.

(** [Submit]: the new state and whether a worker goroutine is started. *)
Definition Submit (nm : string) (j : J) (m : jobManager) : jobManager * bool :=
  if negb (bool_decide (nm = "")) && bool_decide (nm ∈ names m) then (m, false)
  else
    let names' := if bool_decide (nm = "") then names m else {[nm]} ∪ names m in
    let queue' := queue m ++ [mkJob nm j] in
    if activeWorkers m <? maxConcurrentJobs m then
      ({| maxConcurrentJobs := maxConcurrentJobs m; activeWorkers := activeWorkers m + 1;
          queue := queue'; names := names' |}, true)
    else
      ({| maxConcurrentJobs := maxConcurrentJobs m; activeWorkers := activeWorkers m;
          queue := queue'; names := names' |}, false).

(** The first critical section of [worker]: take the next job, or leave. *)
Definition worker_fetch (m : jobManager) : jobManager * option namedJob :=
  match queue m with
  | [] =>
      ({| maxConcurrentJobs := maxConcurrentJobs m; activeWorkers := activeWorkers m - 1;
          queue := []; names := names m |}, None)
  | next :: rest =>
      ({| maxConcurrentJobs := maxConcurrentJobs m; activeWorkers := activeWorkers m;
          queue := rest; names := names m |}, Some next)
  end.

(** The second one: forget the name of a finished job. *)
Definition worker_done (nm : string) (m : jobManager) : jobManager :=
  {| maxConcurrentJobs := maxConcurrentJobs m; activeWorkers := activeWorkers m;
     queue := queue m; names := names m ∖ {[nm]} |}.

(** A worker goroutine: about to fetch, inside [next.job()], or about to
    delete the name of the job that has just returned. *)
Inductive worker :=
| Fetching
| Running (j : namedJob)
| Finishing (nm : string).

Record sys := mkSys {
  mgr : jobManager;
  workers : list worker;
  accepted : list namedJob;  (* enqueued so far, oldest first *)
  begun : list namedJob;     (* started so far, oldest first *)
  finished : list namedJob   (* returned so far, oldest first *)
}.

Definition submit_step (nm : string) (j : J) (s : sys) : sys :=
  let '(m', spawn) := Submit nm j (mgr s) in
  {| mgr := m';
     workers := if spawn then workers s ++ [Fetching] else workers s;
     accepted := if negb (bool_decide (nm = "")) && bool_decide (nm ∈ names (mgr s))
                 then accepted s else accepted s ++ [mkJob nm j];
     begun := begun s; finished := finished s |}.

(** What the worker between [l1] and [l2] does next. *)
Inductive worker_step : sys -> sys -> Prop :=
| StepFetch s l1 l2 m' next :
    workers s = l1 ++ Fetching :: l2 -> worker_fetch (mgr s) = (m', Some next) ->
    worker_step s {| mgr := m'; workers := l1 ++ Running next :: l2; accepted := accepted s;
                     begun := begun s ++ [next]; finished := finished s |}
| StepExit s l1 l2 m' :
    workers s = l1 ++ Fetching :: l2 -> worker_fetch (mgr s) = (m', None) ->
    worker_step s {| mgr := m'; workers := l1 ++ l2; accepted := accepted s;
                     begun := begun s; finished := finished s |}
| StepReturn s l1 l2 j :
    workers s = l1 ++ Running j :: l2 ->
    worker_step s {| mgr := mgr s;
                     workers := l1 ++ (if bool_decide (name j = "") then Fetching
                                       else Finishing (name j)) :: l2;
                     accepted := accepted s; begun := begun s; finished := finished s ++ [j] |}
| StepFinish s l1 l2 nm :
    workers s = l1 ++ Finishing nm :: l2 ->
    worker_step s {| mgr := worker_done nm (mgr s); workers := l1 ++ Fetching :: l2;
                     accepted := accepted s; begun := begun s; finished := finished s |}.

Inductive step : sys -> sys -> Prop :=
| StepWorker s s' : worker_step s s' -> step s s'
| StepSubmit s nm j : step s (submit_step nm j s).

(** The package's [jobmanager] variable. *)
Definition init (maxJobs : Z) : sys :=
  {| mgr := {| maxConcurrentJobs := maxJobs; activeWorkers := 0; queue := []; names := ∅ |};
     workers := []; accepted := []; begun := []; finished := [] |}.

(** * Invariants *)

Definition running (w : worker) : list namedJob :=
  match w with Running j => [j] | _ => [] end.

(** The name a worker keeps reserved. *)
Definition held (w : worker) : list string :=
  match w with
  | Fetching => []
  | Running j => if bool_decide (name j = "") then [] else [name j]
  | Finishing nm => [nm]
  end.

Definition reserved (j : namedJob) : list string :=
  if bool_decide (name j = "") then [] else [name j].

(** The names of the jobs that are queued or being executed. *)
Definition live (s : sys) : list string :=
  mjoin (reserved <$> queue (mgr s)) ++ mjoin (held <$> workers s).

Record inv (s : sys) : Prop := {
  inv_max : 0 < maxConcurrentJobs (mgr s);
  inv_active : activeWorkers (mgr s) = Z.of_nat (length (workers s));
  inv_bound : activeWorkers (mgr s) <= maxConcurrentJobs (mgr s);
  inv_busy : queue (mgr s) <> [] -> workers s <> [];
  inv_nodup : NoDup (live s);
  inv_names : forall x, x ∈ names (mgr s) <-> x ∈ live s;
  inv_fifo : accepted s = begun s ++ queue (mgr s);
  inv_begun : begun s ≡ₚ mjoin (running <$> workers s) ++ finished s
}.

(** Replacing one worker changes the lists of names and jobs locally. *)
Lemma held_replace (l1 l2 : list worker) w :
  mjoin (held <$> (l1 ++ w :: l2)) ≡ₚ held w ++ mjoin (held <$> (l1 ++ l2)).
Proof. rewrite !fmap_app, !join_app. simpl. rewrite Permutation_app_swap_app. done. Qed.

Lemma running_replace (l1 l2 : list worker) w :
  mjoin (running <$> (l1 ++ w :: l2)) ≡ₚ running w ++ mjoin (running <$> (l1 ++ l2)).
Proof. rewrite !fmap_app, !join_app. simpl. rewrite Permutation_app_swap_app. done. Qed.

(** The reserved names outside one worker. *)
Definition others (q : list namedJob) (ws : list worker) : list string :=
  mjoin (reserved <$> q) ++ mjoin (held <$> ws).

Lemma live_split s l1 w l2 :
  workers s = l1 ++ w :: l2 -> live s ≡ₚ held w ++ others (queue (mgr s)) (l1 ++ l2).
Proof.
  intros Hw. unfold live, others. rewrite Hw, held_replace. by rewrite Permutation_app_swap_app.
Qed.

Lemma others_snoc q j ws :
  others (q ++ [j]) ws ≡ₚ reserved j ++ others q ws.
Proof.
  unfold others. rewrite fmap_app, join_app. simpl. rewrite app_nil_r.
  rewrite (Permutation_app_comm (mjoin (reserved <$> q))). by rewrite app_assoc.
Qed.

Lemma Submit_fresh nm j m :
  (nm = "" \/ nm ∉ names m) ->
  let m' := fst (Submit nm j m) in
  maxConcurrentJobs m' = maxConcurrentJobs m /\
  queue m' = queue m ++ [mkJob nm j] /\
  names m' = (if bool_decide (nm = "") then names m else {[nm]} ∪ names m) /\
  snd (Submit nm j m) = (activeWorkers m <? maxConcurrentJobs m) /\
  activeWorkers m' = (if activeWorkers m <? maxConcurrentJobs m then activeWorkers m + 1 else activeWorkers m).
Proof.
  intros H. unfold Submit.
  assert (negb (bool_decide (nm = "")) && bool_decide (nm ∈ names m) = false) as ->.
  { destruct H as [-> | H]; [done |]. rewrite (bool_decide_eq_false_2 (nm ∈ names m)) by done.
    by rewrite andb_false_r. }
  by destruct (activeWorkers m <? maxConcurrentJobs m).
Qed.

Lemma Submit_duplicate nm j m :
  nm <> "" -> nm ∈ names m -> Submit nm j m = (m, false).
Proof. intros. unfold Submit. by rewrite !bool_decide_eq_false_2, !bool_decide_eq_true_2 by done. Qed.

Lemma inv_submit nm j s : inv s -> inv (submit_step nm j s).
Proof.
  intros Hs. unfold submit_step.
  destruct (decide (nm <> "" /\ nm ∈ names (mgr s))) as [[Hne Hin] | Hfresh].
  - rewrite Submit_duplicate by done.
    rewrite bool_decide_eq_false_2, bool_decide_eq_true_2 by done. simpl. by destruct Hs, s.
  - assert (nm = "" \/ nm ∉ names (mgr s)) as Hf.
    { destruct (decide (nm = "")); [by left | right]. tauto. }
    destruct (Submit_fresh nm j (mgr s) Hf) as (Hmax & Hq & Hnm & Hsp & Hact).
    destruct (Submit nm j (mgr s)) as [m' spawn]. simpl in *. subst spawn.
    assert (negb (bool_decide (nm = "")) && bool_decide (nm ∈ names (mgr s)) = false) as ->.
    { destruct Hf as [-> | Hf]; [done |]. rewrite (bool_decide_eq_false_2 (nm ∈ _)) by done.
      by rewrite andb_false_r. }
    set (ws := if activeWorkers (mgr s) <? maxConcurrentJobs (mgr s) then _ else _).
    assert (mjoin (held <$> ws) = mjoin (held <$> workers s)) as Hheld.
    { unfold ws. case_if; [| done]. rewrite fmap_app, join_app. simpl. by rewrite app_nil_r. }
    assert (mjoin (running <$> ws) = mjoin (running <$> workers s)) as Hrun.
    { unfold ws. case_if; [| done]. rewrite fmap_app, join_app. simpl. by rewrite app_nil_r. }
    set (s' := {| mgr := m' |}).
    assert (live s' ≡ₚ reserved (mkJob nm j) ++ live s) as Hlive.
    { unfold live at 1. simpl. rewrite Hq, Hheld. apply others_snoc. }
    destruct Hs as [H1 H2 H3 H4 H5 H6 H7 H8].
    constructor; simpl; try lia.
    + rewrite Hact. unfold ws. case_if; rewrite ?length_app; simpl; lia.
    + rewrite Hact, Hmax. case_if; lia.
    + intros _. unfold ws. case_if; [by destruct (workers s) |].
      intros Hnil. rewrite Hnil in H2. simpl in H2. lia.
    + rewrite Hlive. unfold reserved. simpl. case_bool_decide; [done |].
      apply NoDup_app. split; [apply NoDup_singleton | split; [| done]].
      intros x ->%list_elem_of_singleton. rewrite <- H6. tauto.
    + intros x. rewrite Hlive, elem_of_app, Hnm. unfold reserved. simpl.
      case_bool_decide.
      * rewrite H6, elem_of_nil. tauto.
      * rewrite elem_of_union, elem_of_singleton, H6, list_elem_of_singleton. tauto.
    + rewrite Hq, app_assoc, H7. done.
    + by rewrite Hrun.
Qed.

Lemma inv_worker s s' : inv s -> worker_step s s' -> inv s'.
Proof.
  intros Hs Hstep. destruct Hstep as [s l1 l2 m' next Hw Hf | s l1 l2 m' Hw Hf | s l1 l2 j Hw | s l1 l2 nm Hw];
    pose proof (live_split s l1 _ l2 Hw) as Hlive; destruct Hs as [H1 H2 H3 H4 H5 H6 H7 H8].
  - unfold worker_fetch in Hf. destruct (queue (mgr s)) as [|nx rest] eqn:Hq; [done |].
    injection Hf as <- <-.
    set (s' := {| mgr := _ |}). pose proof (live_split s' l1 _ l2 eq_refl) as Hlive'.
    assert (live s' ≡ₚ live s) as Hl.
    { rewrite Hlive, Hlive'. unfold others. simpl. by rewrite app_assoc. }
    constructor; simpl; rewrite ?Hl; try done.
    + rewrite H2, Hw, !length_app. done.
    + intros _. by destruct l1.
    + intros x. by rewrite H6, Hl.
    + by rewrite H7, <- app_assoc.
    + rewrite running_replace, H8, Hw, running_replace. simpl.
      rewrite (Permutation_app_comm _ [nx]). done.
  - unfold worker_fetch in Hf. destruct (queue (mgr s)) as [|nx rest] eqn:Hq; [| done].
    injection Hf as <-.
    set (s' := {| mgr := _ |}).
    assert (live s' ≡ₚ live s) as Hl by by rewrite Hlive.
    constructor; simpl; rewrite ?Hl; try done; try lia.
    + rewrite H2, Hw, !length_app. simpl. lia.
    + intros x. by rewrite H6, Hl.
    + rewrite H8, Hw, running_replace. done.
  - set (s' := {| mgr := _ |}). pose proof (live_split s' l1 _ l2 eq_refl) as Hlive'.
    assert (live s' ≡ₚ live s) as Hl.
    { rewrite Hlive, Hlive'. simpl. by case_bool_decide. }
    constructor; simpl; rewrite ?Hl; try done.
    + rewrite H2, Hw, !length_app. done.
    + intros _. by destruct l1.
    + intros x. by rewrite H6, Hl.
    + rewrite H8, Hw, !running_replace. simpl.
      assert (running (if bool_decide (name j = "") then Fetching else Finishing (name j)) = []) as ->
        by (by case_bool_decide). simpl.
      rewrite app_assoc, (Permutation_app_comm _ [j]). done.
  - set (s' := {| mgr := _ |}). pose proof (live_split s' l1 _ l2 eq_refl) as Hlive'.
    simpl in Hlive, Hlive'. rewrite Hlive in H5.
    apply NoDup_cons in H5 as [Hni Hnd].
    constructor; simpl; try done.
    + rewrite H2, Hw, !length_app. done.
    + intros _. by destruct l1.
    + by rewrite Hlive'.
    + intros x. rewrite Hlive'. rewrite elem_of_difference, H6, Hlive, elem_of_singleton, elem_of_cons.
      split; [intros [[-> | ?] ?]; done |]. intros Hx. split; [by right | intros ->; done].
    + rewrite H8, Hw, !running_replace. done.
Qed.

Lemma inv_step s s' : inv s -> step s s' -> inv s'.
Proof. intros Hs. destruct 1; eauto using inv_worker, inv_submit. Qed.

Lemma inv_init n : 0 < n -> inv (init n).
Proof. intros. constructor; simpl; try done; try lia. - apply NoDup_nil_2. - set_solver. Qed.

Lemma inv_reachable n s : 0 < n -> rtc step (init n) s -> inv s.
Proof. intros Hn Hs. eapply (rtc_invariant step inv inv_step); eauto using inv_init. Qed.

(** * Draining *)

Definition weight (w : worker) : nat :=
  match w with Fetching => 1 | Running _ => 3 | Finishing _ => 2 end.

Fixpoint pool_weight (ws : list worker) : nat :=
  match ws with [] => 0 | w :: ws' => weight w + pool_weight ws' end.

(** Worker steps left before the pool is drained. *)
Definition remaining (s : sys) : nat :=
  (3 * length (queue (mgr s)) + pool_weight (workers s))%nat.

Lemma pool_weight_split (l1 l2 : list worker) w :
  pool_weight (l1 ++ w :: l2) = (weight w + pool_weight (l1 ++ l2))%nat.
Proof. induction l1; simpl in *; lia. Qed.

Lemma worker_step_decreases s s' : worker_step s s' -> (remaining s' < remaining s)%nat.
Proof.
  destruct 1 as [s l1 l2 m' next Hw Hf | s l1 l2 m' Hw Hf | s l1 l2 j Hw | s l1 l2 nm Hw];
    unfold remaining; simpl; rewrite Hw, !pool_weight_split.
  - unfold worker_fetch in Hf. destruct (queue (mgr s)); [done |]. injection Hf as <- <-. simpl. lia.
  - unfold worker_fetch in Hf. destruct (queue (mgr s)); [| done]. injection Hf as <-. simpl. lia.
  - simpl. case_bool_decide; simpl; lia.
  - simpl. lia.
Qed.

Lemma worker_can_step s : workers s <> [] -> exists s', worker_step s s'.
Proof.
  intros Hne. destruct (workers s) as [|w ws] eqn:Hw; [done |].
  destruct w as [| j | nm].
  - destruct (worker_fetch (mgr s)) as [m' [nx|]] eqn:Hf; eexists;
      [eapply (StepFetch s [] ws) | eapply (StepExit s [] ws)]; eauto.
  - eexists. by eapply (StepReturn s [] ws).
  - eexists. by eapply (StepFinish s [] ws).
Qed.

Lemma worker_steps_end s : Acc (fun s2 s1 => worker_step s1 s2) s.
Proof.
  remember (remaining s) as n eqn:Hn. revert s Hn.
  induction n as [n IH] using lt_wf_ind. intros s ->. constructor. intros s' Hs.
  eapply IH; [by eapply worker_step_decreases | done].
Qed.

(** A pool without workers has run everything and holds no names. *)
Lemma drained s : inv s -> workers s = [] ->
  queue (mgr s) = [] /\ names (mgr s) = ∅ /\ begun s = accepted s /\ finished s ≡ₚ accepted s.
Proof.
  intros Hs Hw. destruct Hs as [H1 H2 H3 H4 H5 H6 H7 H8].
  assert (queue (mgr s) = []) as Hq by (destruct (queue (mgr s)); [done | exfalso; by apply H4]).
  rewrite Hq, app_nil_r in H7. rewrite Hw in H8. simpl in H8.
  split; [done |]. split; [| split; [done | by rewrite H7, H8]].
  apply set_eq. intros x. rewrite H6. unfold live. rewrite Hq, Hw. simpl. by rewrite elem_of_nil, elem_of_empty.
Qed.

Lemma worker_steps_drain s : inv s -> exists s', rtc worker_step s s' /\ workers s' = [].
Proof.
  intros Hs. induction (worker_steps_end s) as [s _ IH].
  destruct (decide (workers s = [])) as [Hw | Hne]; [by exists s |].
  destruct (worker_can_step s Hne) as [s1 Hs1].
  destruct (IH s1 Hs1 (inv_worker s s1 Hs Hs1)) as (s' & Hrtc & Hw).
  exists s'. eauto using rtc_l.
Qed.

End Jobs.

(** * Properties *)

(** At every moment at most [maxConcurrentJobs] workers are active, the
    counter [activeWorkers] is the number of worker goroutines, and a
    nonempty queue is never left without a worker. *)
Theorem workers_bounded {J} n (s : sys (J:=J)) :
  0 < n -> rtc step (init n) s ->
  activeWorkers (mgr s) = Z.of_nat (length (workers s)) /\
  activeWorkers (mgr s) <= maxConcurrentJobs (mgr s) /\
  (queue (mgr s) <> [] -> workers s <> []).
Proof. intros Hn Hs. by destruct (inv_reachable n s Hn Hs). Qed.

(** Two submissions of the same name, then the first worker step. *)
Definition resubmitted : sys (J:=nat) :=
  submit_step "renew_a" 2%nat (submit_step "renew_a" 1%nat (init 1)).

Lemma resubmitted_reachable : rtc step (init 1) resubmitted.
Proof. eapply rtc_l; [apply (StepSubmit _ "renew_a" 1%nat) |]. apply rtc_once, StepSubmit. Qed.

Lemma workers_bounded_witness :
  rtc step (init 1) resubmitted /\ activeWorkers (mgr resubmitted) = 1 /\
  activeWorkers (mgr resubmitted) <= maxConcurrentJobs (mgr resubmitted).
Proof.
  split; [exact resubmitted_reachable |]. split; [vm_compute; reflexivity |].
  apply (workers_bounded 1 resubmitted); [lia | exact resubmitted_reachable].
Defined.

(** C33: two jobs with the same nonempty name are never queued or running at the
    same time, and [names] is exactly the set of the names of the jobs that
    are queued, running or just returned: a name can be resubmitted as soon as
    its job is done, and not before. *)
Theorem named_jobs_unique {J} n (s : sys (J:=J)) :
  0 < n -> rtc step (init n) s ->
  NoDup (live s) /\ (forall x, x ∈ names (mgr s) <-> x ∈ live s).
Proof. intros Hn Hs. by destruct (inv_reachable n s Hn Hs). Qed.

Lemma named_jobs_unique_witness :
  rtc step (init 1) resubmitted /\ live resubmitted = ["renew_a"] /\ NoDup (live resubmitted).
Proof.
  split; [exact resubmitted_reachable |]. split; [vm_compute; reflexivity |].
  apply (named_jobs_unique 1 resubmitted); [lia | exact resubmitted_reachable].
Defined.

(** [Submit] ignores exactly the jobs whose nonempty name is registered;
    any other job goes to the back of the queue, its name (if nonempty) is
    registered, and a worker is started iff fewer than the maximum are active. *)
Theorem Submit_spec {J} nm (j : J) (m : jobManager (J:=J)) :
  if bool_decide (nm <> "" /\ nm ∈ names m) then Submit nm j m = (m, false)
  else
    let spawn := activeWorkers m <? maxConcurrentJobs m in
    Submit nm j m =
      ({| maxConcurrentJobs := maxConcurrentJobs m;
          activeWorkers := if spawn then activeWorkers m + 1 else activeWorkers m;
          queue := queue m ++ [mkJob nm j];
          names := if bool_decide (nm = "") then names m else {[nm]} ∪ names m |}, spawn).
Proof.
  case_bool_decide as H; [destruct H; by apply Submit_duplicate |].
  assert (nm = "" \/ nm ∉ names m) as Hf.
  { destruct (decide (nm = "")); [by left | right]. tauto. }
  pose proof (Submit_fresh nm j m Hf) as Hfresh. destruct (Submit nm j m) as [[] sp].
  simpl in *. destruct Hfresh as (-> & -> & -> & -> & ->). done.
Qed.

(** Jobs are started in the order in which they were accepted, and none is
    lost or run twice: the accepted jobs are those begun followed by those
    queued, and those begun are those running and those finished. *)
Theorem jobs_fifo_and_never_lost {J} n (s : sys (J:=J)) :
  0 < n -> rtc step (init n) s ->
  accepted s = begun s ++ queue (mgr s) /\
  begun s ≡ₚ mjoin (running <$> workers s) ++ finished s.
Proof. intros Hn Hs. by destruct (inv_reachable n s Hn Hs). Qed.

Lemma jobs_fifo_and_never_lost_witness :
  rtc step (init 1) resubmitted /\ accepted resubmitted = [mkJob "renew_a" 1%nat] /\
  accepted resubmitted = begun resubmitted ++ queue (mgr resubmitted).
Proof.
  split; [exact resubmitted_reachable |]. split; [vm_compute; reflexivity |].
  apply (jobs_fifo_and_never_lost 1 resubmitted); [lia | exact resubmitted_reachable].
Defined.

(** The pool always drains: from every reachable state the workers can only
    take finitely many steps (each job returning), and when none of them can
    move any more there are no workers left, the queue is empty, every
    accepted job has been run exactly once and no name is registered. *)
Theorem pool_drains {J} n (s : sys (J:=J)) :
  0 < n -> rtc step (init n) s ->
  Acc (fun s2 s1 => worker_step s1 s2) s /\
  (forall s', rtc worker_step s s' -> (forall s'', ~ worker_step s' s'') ->
     workers s' = [] /\ queue (mgr s') = [] /\ names (mgr s') = ∅ /\
     finished s' ≡ₚ accepted s').
Proof.
  intros Hn Hs. split; [apply worker_steps_end |]. intros s' Hrtc Hstuck.
  assert (inv s') as Hinv.
  { eapply (rtc_invariant worker_step inv inv_worker); eauto using inv_reachable. }
  assert (workers s' = []) as Hw.
  { destruct (decide (workers s' = [])) as [? | Hne]; [done |].
    destruct (worker_can_step s' Hne) as [s'' Hs'']. by destruct (Hstuck s''). }
  destruct (drained s' Hinv Hw) as (Hq & Hnm & _ & Hfin). done.
Qed.

Lemma pool_drains_witness :
  Acc (fun s2 s1 => worker_step s1 s2) resubmitted /\
  exists s', rtc worker_step resubmitted s' /\ finished s' ≡ₚ accepted s'.
Proof.
  destruct (pool_drains 1 resubmitted ltac:(lia) resubmitted_reachable) as [Hacc Hdrain].
  split; [exact Hacc |].
  destruct (worker_steps_drain resubmitted) as (s' & Hs' & Hw);
    [apply (inv_reachable 1); [lia | exact resubmitted_reachable] |].
  exists s'. split; [exact Hs' |]. apply Hdrain; [exact Hs' |].
  intros s'' Hst. destruct Hst as [? l1 ? ? ? H | ? l1 ? ? H | ? l1 ? ? H | ? l1 ? ? H];
    rewrite Hw in H; by destruct l1.
Defined.
