(* ===== verification/Retry.v ===== *)
(** [doWithRetry] of [src/async.go].

    The environment of a call (the clock, the context, the operation [f] and
    the logger) is a set of functions on an abstract state, so every schedule
    of outcomes is covered; the loop itself is [retry_loop], with fuel. *)
From stdpp Require Import base tactics list strings.
From Stdlib Require Import ZArith Lia.
From S2P Require Import Prelude GoTime.

Local Open Scope Z_scope.

Definition retryIntervals : list Z :=
  [1 * Minute; 2 * Minute; 2 * Minute; 5 * Minute; 10 * Minute; 20 * Minute;
   20 * Minute; 30 * Minute; 30 * Minute; 1 * Hour; 3 * Hour; 6 * Hour].

Definition maxRetryDuration : Z := 24 * Hour * 30.

(** What a call of [doWithRetry] uses of the world. *)
Class RetryEnv (S : Type) := {
  clock : S -> Z;                               (* time.Now() *)
  select_timer : Z -> S -> bool * S;            (* ctx.Done() first (true), or the timer of that duration *)
  attempt : nat -> S -> option error * S;       (* f(ctx), with the value of the attempts counter *)
  log_line : S -> S                             (* log.Printf *)
}.

(** The clock is monotonic, a timer does not fire early, and no call spans
    more than what a Duration can hold. *)
Class RetryEnvLaws {S} (E : RetryEnv S) : Prop := {
  select_timer_law w s b s' :
    select_timer w s = (b, s') ->
    clock s <= clock s' /\ (b = false -> clock s + w <= clock s');
  attempt_law n s e s' : attempt n s = (e, s') -> clock s <= clock s';
  log_line_law s : clock s <= clock (log_line s)
}.

Section Retry.
Context {S : Type} {E : RetryEnv S}.

(** The wait before the next attempt; [-1] is "do not wait". *)
Definition wait_of (intervalIndex : Z) : option Z :=
  if 0 <=? intervalIndex then retryIntervals !! Z.to_nat intervalIndex else Some 0.

(** A call returns its error (nil is [None]), the attempts made and the world. *)
Definition outcome : Type := res (option error * nat * S).

(** [None] is "out of fuel". *)
Fixpoint retry_loop (fuel : nat) (start intervalIndex : Z) (attempts : nat)
    (err : option error) (s : S) : option outcome :=
  match fuel with
  | O => None
  | Datatypes.S fuel' =>
      if Since (clock s) start <? maxRetryDuration then
        match wait_of intervalIndex with
        | None => Some (Panic "index out of range")
        | Some wait =>
            let '(cancelled, s1) := select_timer wait s in
            if cancelled then Some (Ok (Some ErrCanceled, attempts, s1))
            else
              let '(err', s2) := attempt attempts s1 in
              let attempts' := Datatypes.S attempts in
              match err' with
              | None => Some (Ok (None, attempts', s2))
              | Some e =>
                  if is_canceled e then Some (Ok (err', attempts', s2))
                  else if as_no_retry e then Some (Ok (err', attempts', s2))
                  else
                    let intervalIndex' :=
                      if intervalIndex <? Z.of_nat (length retryIntervals) - 1
                      then intervalIndex + 1 else intervalIndex in
                    if Since (clock s2) start <? maxRetryDuration then
                      match retryIntervals !! Z.to_nat intervalIndex' with
                      | None => Some (Panic "index out of range")
                      | Some _ =>
                          retry_loop fuel' start intervalIndex' attempts' err' (log_line s2)
                      end
                    else Some (Ok (None, attempts', log_line s2))
              end
        end
      else Some (Ok (err, attempts, s))
  end.

(** 132 iterations are enough for every environment (see [doWithRetry_returns]). *)
Definition retry_fuel : nat := 132.

Definition doWithRetry (s : S) : option outcome :=
  retry_loop retry_fuel (clock s) (-1) 0 None s.

End Retry.

(** * The retry schedule *)

(** The wait before attempt number [n] (counted from 0). *)
Definition interval (n : nat) : Z :=
  match n with
  | O => 0
  | S k => default 0 (retryIntervals !! min k 11)
  end.

(** The total of the waits before attempt number [n]. *)
Fixpoint waited (n : nat) : Z :=
  match n with
  | O => interval 0
  | S k => waited k + interval (S k)
  end.

Definition index_of (n : nat) : Z := Z.of_nat (min n 12) - 1.

Lemma wait_of_index n : wait_of (index_of n) = Some (interval n).
Proof.
  do 13 (destruct n as [|n]; [reflexivity |]).
  unfold wait_of, index_of. rewrite Nat.min_r by lia. done.
Qed.

Lemma index_of_S n :
  (if index_of n <? Z.of_nat (length retryIntervals) - 1 then index_of n + 1 else index_of n)
  = index_of (S n).
Proof. unfold index_of. simpl. case_if; lia. Qed.

Lemma index_of_range n :
  (1 <= n)%nat -> retryIntervals !! Z.to_nat (index_of n) = Some (interval n).
Proof.
  intros Hn. destruct n as [|n]; [lia |].
  do 12 (destruct n as [|n]; [reflexivity |]).
  unfold index_of. rewrite Nat.min_r by lia. reflexivity.
Qed.

Lemma interval_nonneg n : 0 <= interval n.
Proof.
  do 13 (destruct n as [|n]; [vm_compute; discriminate |]).
  simpl. rewrite ?Nat.min_r by lia. vm_compute. discriminate.
Qed.

(** The 131st attempt would start no earlier than 30 days after the first. *)
Lemma waited_130 : maxRetryDuration <= waited 130.
Proof. vm_compute. discriminate. Qed.

Lemma Since_ge now start d :
  d <= now - start -> d <= maxDuration -> d <= Since now start.
Proof. unfold Since, Sub. lia. Qed.

Section RetryFacts.
Context {S : Type} {E : RetryEnv S} {L : RetryEnvLaws E}.

(** From the head of iteration [n] the loop returns within [131 - n] more. *)
Lemma retry_loop_returns n fuel start err s :
  start + (match n with O => 0 | Datatypes.S k => waited k end) <= clock s ->
  (n + fuel = 132)%nat -> (n <= 131)%nat ->
  exists e k s', retry_loop fuel start (index_of n) n err s = Some (Ok (e, k, s')) /\ (k <= 131)%nat.
Proof.
  revert n err s. induction fuel as [|fuel IH]; intros n err s Hcl Hn Hn1; cbn [retry_loop].
  { exfalso. lia. }
  destruct (Z.ltb_spec (Since (clock s) start) maxRetryDuration) as [Hlt | Hge];
    [| by exists err, n, s; split; [done | lia]].
  assert (n <= 130)%nat as Hn130.
  { destruct (decide (n = 131%nat)) as [-> | ?]; [| lia]. exfalso.
    pose proof waited_130. pose proof (Since_ge (clock s) start maxRetryDuration).
    assert (maxRetryDuration <= maxDuration) by (vm_compute; discriminate). lia. }
  rewrite wait_of_index. destruct (select_timer (interval n) s) as [b s1] eqn:Hsel.
  destruct (select_timer_law _ _ _ _ Hsel) as [Hm1 Hw1].
  destruct b; [by exists (Some ErrCanceled), n, s1; split; [done | lia] |].
  destruct (attempt n s1) as [[e|] s2] eqn:Hatt;
    [| by eexists _, _, _; split; [reflexivity | lia]].
  pose proof (attempt_law _ _ _ _ Hatt) as Hm2.
  destruct (is_canceled e); [by eexists _, _, _; split; [reflexivity | lia] |].
  destruct (as_no_retry e); [by eexists _, _, _; split; [reflexivity | lia] |].
  rewrite index_of_S, index_of_range by lia.
  case_if; [| by eexists _, _, _; split; [reflexivity | lia]].
  apply IH; [| lia | lia]. pose proof (log_line_law s2). specialize (Hw1 eq_refl).
  pose proof (interval_nonneg n). destruct n as [|n]; cbn [waited] in *; lia.
Qed.

(** What an error returned by the loop can be: a cancellation, or the error of
    the last attempt. *)
Lemma retry_loop_error fuel : forall start idx n err s e k s',
  retry_loop fuel start idx n err s = Some (Ok (Some e, k, s')) ->
  e = ErrCanceled \/ (err = Some e /\ k = n) \/
  exists s1 s2, attempt (pred k) s1 = (Some e, s2) /\ (n < k)%nat.
Proof.
  induction fuel as [|fuel IH]; intros start idx n err s e k s' Hrun; cbn [retry_loop] in Hrun; [done |].
  case_match; [| injection Hrun as <- <- <-; tauto].
  destruct (wait_of idx); [| done].
  destruct (select_timer _ _) as [[] s1]; [injection Hrun as <- <- <-; tauto |].
  destruct (attempt n s1) as [[e'|] s2] eqn:Hatt; [| done].
  repeat case_match; try done;
    try (injection Hrun as <- <- <-; right; right; eexists _, _; simpl; split; [eassumption | lia]).
  all: apply IH in Hrun as [? | [[[= ->] ->] | (s3 & s4 & Hl & ?)]]; [tauto | |];
    right; right; eexists _, _; (split; [eassumption | lia]).
Qed.

End RetryFacts.

(** What the timer, the attempts and the logger preserve, the loop preserves. *)
Lemma retry_loop_preserves {S} (E : RetryEnv S) (R : relation S)
    (Hrefl : forall s, R s s) (Htrans : forall s1 s2 s3, R s1 s2 -> R s2 s3 -> R s1 s3)
    (Htimer : forall w s, R s (snd (select_timer w s)))
    (Hatt : forall n s, R s (snd (attempt n s)))
    (Hlog : forall s, R s (log_line s)) fuel : forall start idx n err s e k s',
  retry_loop fuel start idx n err s = Some (Ok (e, k, s')) -> R s s'.
Proof.
  induction fuel as [|fuel IH]; intros start idx n err s e k s' Hrun; cbn [retry_loop] in Hrun; [done |].
  case_match; [| by injection Hrun as _ _ <-].
  destruct (wait_of idx) as [w|]; [| done].
  pose proof (Htimer w s) as H1. destruct (select_timer w s) as [b s1]. cbn [snd] in H1.
  destruct b; [by injection Hrun as _ _ <- |].
  pose proof (Hatt n s1) as H2. destruct (attempt n s1) as [err' s2]. cbn [snd] in H2.
  pose proof (Htrans _ _ _ H1 H2) as H12. pose proof (Htrans _ _ _ H12 (Hlog s2)) as H12l.
  repeat case_match; try done; try (by injection Hrun as _ _ <-).
  all: eapply Htrans; [exact H12l | by eapply IH].
Qed.

Lemma doWithRetry_preserves {S} (E : RetryEnv S) (R : relation S)
    (Hrefl : forall s, R s s) (Htrans : forall s1 s2 s3, R s1 s2 -> R s2 s3 -> R s1 s3)
    (Htimer : forall w s, R s (snd (select_timer w s)))
    (Hatt : forall n s, R s (snd (attempt n s)))
    (Hlog : forall s, R s (log_line s)) s e k s' :
  doWithRetry s = Some (Ok (e, k, s')) -> R s s'.
Proof. apply (retry_loop_preserves E R Hrefl Htrans Htimer Hatt Hlog retry_fuel). Qed.

(** * Traces of a call *)

Inductive event :=
| Waited (w : Z)                          (* the timer of that duration was set *)
| Attempted (n : nat) (err : option error).

(** The same environment, with its timers and attempts recorded. *)
Definition traced {S} (E : RetryEnv S) : RetryEnv (S * list event) := {|
  clock x := clock (fst x);
  select_timer w x :=
    let '(b, s') := select_timer w (fst x) in (b, (s', snd x ++ [Waited w]));
  attempt n x :=
    let '(e, s') := attempt n (fst x) in (e, (s', snd x ++ [Attempted n e]));
  log_line x := (log_line (fst x), snd x)
|}.

Definition retryable (e : error) : bool := negb (is_canceled e) && negb (as_no_retry e).

(** The record of a failed attempt number [n]. *)
Definition failed_attempt (n : nat) (e : error) : list event :=
  [Waited (interval n); Attempted n (Some e)].

(** The events of the attempts numbered from [n] on that failed with [errs]. *)
Fixpoint failures (n : nat) (errs : list error) : list event :=
  match errs with
  | [] => []
  | e :: errs' => failed_attempt n e ++ failures (Datatypes.S n) errs'
  end.

(** How a call ends after the failures [errs]: result, attempts, last events. *)
Inductive retry_end (errs : list error) : option error -> nat -> list event -> Prop :=
| EndSucceeded :
    retry_end errs None (Datatypes.S (length errs))
      [Waited (interval (length errs)); Attempted (length errs) None]
| EndFinal e :
    retryable e = false ->
    retry_end errs (Some e) (Datatypes.S (length errs)) (failed_attempt (length errs) e)
| EndCancelled :
    retry_end errs (Some ErrCanceled) (length errs) [Waited (interval (length errs))]
| EndTimedOut e :
    last errs = Some e -> retry_end errs (Some e) (length errs) []
| EndGaveUp e :
    last errs = Some e -> retry_end errs None (length errs) [].

Lemma failures_snoc errs : forall n e,
  failures n (errs ++ [e]) = failures n errs ++ failed_attempt (n + length errs) e.
Proof.
  induction errs as [|e' errs IH]; intros n e; simpl.
  - by rewrite Nat.add_0_r.
  - rewrite IH, Nat.add_succ_r. done.
Qed.

Lemma retry_loop_trace {S} (E : RetryEnv S) fuel : forall start errs s e k s' tr,
  Forall (fun x => retryable x = true) errs ->
  (errs = [] -> Since (clock s) start < maxRetryDuration) ->
  retry_loop (E:=traced E) fuel start (index_of (length errs)) (length errs) (last errs)
    (s, failures 0 errs) = Some (Ok (e, k, (s', tr))) ->
  exists errs' tail, tr = failures 0 errs' ++ tail /\
    Forall (fun x => retryable x = true) errs' /\ retry_end errs' e k tail.
Proof.
  induction fuel as [|fuel IH]; intros start errs s e k s' tr HF Hhd Hrun;
    cbn [retry_loop] in Hrun; [done |].
  simpl clock in Hrun. destruct (Z.ltb_spec (Since (clock s) start) maxRetryDuration) as [Hlt | Hge].
  2:{ injection Hrun as <- <- <- <-. exists errs, []. rewrite app_nil_r. split; [done |]. split; [done |].
      destruct (last errs) as [x|] eqn:Hlast; [by constructor |].
      apply last_None in Hlast. specialize (Hhd Hlast). lia. }
  rewrite wait_of_index in Hrun. simpl select_timer in Hrun.
  destruct (select_timer (interval (length errs)) s) as [[] s1].
  { injection Hrun as <- <- <- <-. exists errs, [Waited (interval (length errs))].
    split; [done |]. split; [done | constructor]. }
  simpl attempt in Hrun. destruct (attempt (length errs) s1) as [[x|] s2].
  2:{ injection Hrun as <- <- <- <-. eexists errs, _. rewrite <- app_assoc.
      split; [reflexivity |]. split; [done | constructor]. }
  destruct (retryable x) eqn:Hx.
  2:{ exists errs, (failed_attempt (length errs) x).
      unfold retryable in Hx. destruct (is_canceled x) eqn:?; [| destruct (as_no_retry x) eqn:?; [| done]];
        injection Hrun as <- <- <- <-; rewrite <- app_assoc; (split; [done |]); (split; [done |]);
        apply EndFinal; unfold retryable;
        repeat match goal with H : _ = true |- _ => rewrite H end; by rewrite ?andb_false_r. }
  assert (is_canceled x = false /\ as_no_retry x = false) as [Hc Hnr]
    by (unfold retryable in Hx; bool_hyps; done).
  rewrite Hc, Hnr in Hrun. rewrite index_of_S, index_of_range in Hrun by lia.
  assert (failures 0 errs ++ [Waited (interval (length errs))] ++ [Attempted (length errs) (Some x)]
          = failures 0 (errs ++ [x])) as Htr by (by rewrite failures_snoc).
  rewrite <- app_assoc, Htr in Hrun.
  assert (Forall (fun y => retryable y = true) (errs ++ [x])) as HF' by (apply Forall_app; auto).
  assert (Datatypes.S (length errs) = length (errs ++ [x])) as Hlen by (rewrite length_app; simpl; lia).
  cbn [fst] in Hrun. destruct (Since (clock s2) start <? maxRetryDuration).
  - rewrite Hlen in Hrun.
    replace (Some x) with (last (errs ++ [x])) in Hrun by (by rewrite last_snoc).
    eapply IH; [exact HF' | | exact Hrun]. intros Hnil. by destruct errs.
  - injection Hrun as <- <- <- <-. exists (errs ++ [x]), []. rewrite app_nil_r.
    split; [done |]. split; [done |]. rewrite Hlen. apply (EndGaveUp _ x). by rewrite last_snoc.
Qed.

(** If no attempt ever succeeds, is cancelled or refuses a retry, and logging
    takes no time, the loop can only end by giving up. *)
Lemma retry_loop_never_fails {S} (E : RetryEnv S)
    (Hfail : forall n x, exists e x', attempt n x = (Some e, x') /\ retryable e = true)
    (Hnc : forall w x, fst (select_timer w x) = false)
    (Hlog : forall x, clock (log_line x) = clock x) fuel : forall start idx n err s e k s',
  Since (clock s) start < maxRetryDuration ->
  retry_loop fuel start idx n err s = Some (Ok (e, k, s')) -> e = None.
Proof.
  induction fuel as [|fuel IH]; intros start idx n err s e k s' Hlt Hrun;
    cbn [retry_loop] in Hrun; [done |].
  rewrite (proj2 (Z.ltb_lt _ _) Hlt) in Hrun. destruct (wait_of idx) as [w|]; [| done].
  pose proof (Hnc w s) as Hw. destruct (select_timer w s) as [b s1]. simpl in Hw. subst b.
  destruct (Hfail n s1) as (x & s2 & Hatt & Hx). rewrite Hatt in Hrun.
  unfold retryable in Hx. bool_hyps.
  repeat match goal with H : _ = false |- _ => rewrite H in Hrun; clear H end.
  destruct (Z.ltb_spec (Since (clock s2) start) maxRetryDuration); [| by injection Hrun as <- _ _].
  destruct (retryIntervals !! _); [| done].
  eapply IH; [| exact Hrun]. by rewrite Hlog.
Qed.

(** * Properties *)

(** C32: [doWithRetry] always returns, within 131 attempts and without indexing
    outside the table of intervals, for every operation, context and monotonic
    clock. *)
Theorem doWithRetry_returns {S} (E : RetryEnv S) (L : RetryEnvLaws E) (s : S) :
  exists e k s', doWithRetry s = Some (Ok (e, k, s')) /\ (k <= 131)%nat.
Proof.
  unfold doWithRetry. change (-1) with (index_of 0).
  apply (retry_loop_returns 0 retry_fuel); [lia | reflexivity | lia].
Qed.

(** A clock that only moves with timers and attempts; every attempt fails and
    takes an hour. *)
#[local] Instance failing_env : RetryEnv Z := {|
  clock t := t;
  select_timer w t := (false, t + Z.max 0 w);
  attempt n t := (Some (ErrStr "no route to host"), t + Hour);
  log_line t := t
|}.

#[local] Instance failing_env_laws : RetryEnvLaws failing_env.
Proof.
  split; simpl.
  - intros w t b t' [= <- <-]. lia.
  - intros n t e t' [= <- <-]. unfold Hour, Minute, Second. lia.
  - intros t. lia.
Qed.

Lemma doWithRetry_returns_witness :
  exists e k t, doWithRetry (E:=failing_env) 5 = Some (Ok (e, k, t)) /\ (k <= 131)%nat.
Proof. apply (doWithRetry_returns failing_env failing_env_laws 5). Defined.

(** The exact shape of every call: the attempts are numbered from 0 without
    gaps, attempt [n] is preceded by a timer of exactly the [n]-th scheduled
    interval, all attempts but possibly the last failed with an error that may
    be retried, and the call ends in one of five ways: success of the last
    attempt (nil); a last attempt that failed with a cancellation or an
    [ErrNoRetry] (that error); cancellation while waiting
    ([context.Canceled]); the deadline seen at the head of the loop (the last
    error); or giving up right after an attempt (nil). *)
Theorem doWithRetry_trace {S} (E : RetryEnv S) (s : S) e k s' tr :
  doWithRetry (E:=traced E) (s, []) = Some (Ok (e, k, (s', tr))) ->
  exists errs tail, tr = failures 0 errs ++ tail /\
    Forall (fun x => retryable x = true) errs /\ retry_end errs e k tail.
Proof.
  unfold doWithRetry. change (-1) with (index_of (length (A:=error) [])).
  change (s, []) with (s, failures 0 []).
  change (clock (s, failures 0 [])) with (clock s). intros Hrun.
  eapply (retry_loop_trace E retry_fuel (clock s) []); [constructor | | exact Hrun].
  intros _. unfold Since, Sub. rewrite Z.sub_diag. done.
Qed.

(** An operation that fails once and then succeeds. *)
#[local] Instance flaky_env : RetryEnv Z := {|
  clock t := t;
  select_timer w t := (false, t + Z.max 0 w);
  attempt n t := (match n with O => Some (ErrStr "timeout") | _ => None end, t + Second);
  log_line t := t
|}.

Lemma doWithRetry_trace_witness :
  exists tr, doWithRetry (E:=traced flaky_env) (0, []) = Some (Ok (None, 2%nat, (62 * Second, tr))) /\
  exists errs tail, tr = failures 0 errs ++ tail /\
    Forall (fun x => retryable x = true) errs /\ retry_end errs None 2 tail.
Proof.
  eexists. split; [vm_compute; reflexivity |].
  eapply (doWithRetry_trace flaky_env 0 None 2 (62 * Second)). vm_compute. reflexivity.
Defined.

(** An operation that never succeeds is reported as successful: when every
    attempt fails with an error that may be retried, the context is not
    cancelled, and the clock does not move between the two deadline tests of
    an iteration, [doWithRetry] returns nil. *)
Theorem giving_up_reports_success {S} (E : RetryEnv S) (L : RetryEnvLaws E) (s : S) :
  (forall n x, exists e x', attempt n x = (Some e, x') /\ retryable e = true) ->
  (forall w x, fst (select_timer w x) = false) ->
  (forall x, clock (log_line x) = clock x) ->
  exists k s', doWithRetry s = Some (Ok (None, k, s')).
Proof.
  intros Hfail Hnc Hlog. unfold doWithRetry. change (-1) with (index_of 0).
  destruct (retry_loop_returns 0 retry_fuel (clock s) None s) as (e & k & s' & Hrun & _);
    [lia | reflexivity | lia |].
  rewrite Hrun. exists k, s'. do 4 f_equal.
  eapply (retry_loop_never_fails E Hfail Hnc Hlog); [| exact Hrun].
  unfold Since, Sub. rewrite Z.sub_diag. done.
Qed.

Lemma giving_up_reports_success_witness :
  exists k t, doWithRetry (E:=failing_env) 5 = Some (Ok (None, k, t)).
Proof.
  apply (giving_up_reports_success failing_env failing_env_laws 5).
  - intros n x. eexists _, _. split; reflexivity.
  - reflexivity.
  - reflexivity.
Defined.
