(* ===== verification/StorageKeys.v ===== *)
(** The storage keys of [src/storage.go] ([KeyBuilder]) and [fastHash] of
    [src/crypto.go]. *)
From Stdlib Require Import Ascii.
From stdpp Require Import base tactics list strings.
From Stdlib Require Import ZArith Lia.
From S2P Require Import Prelude GoStrings.

Local Open Scope string_scope.

Definition prefixCerts : string := "certificates".
Definition prefixOCSP : string := "ocsp".

(** * [fastHash]: FNV-1a on 32 bits, printed with [%x] *)

Definition fnv_step (h : Z) (b : ascii) : Z :=
  (Z.lxor h (Z.of_nat (byte_val b)) * 16777619) mod 2 ^ 32.

Fixpoint fnv32a (h : Z) (input : string) : Z :=
  match input with
  | "" => h
  | String b rest => fnv32a (fnv_step h b) rest
  end.

(** [fmt.Sprintf("%x", v)] of a uint32: at most eight digits. *)
Definition sprintf_x (v : Z) : string := hex_digits 8 v "".

Definition fastHash (input : string) : string := sprintf_x (fnv32a 2166136261 input).

(** * [KeyBuilder] *)

Section Keys.
Context {U : UnicodeTables}.

Definition safe_pairs : list (string * string) :=
  [(" ", "_"); ("+", "_plus_"); ("*", "wildcard_"); (":", "-"); ("..", "")].

(** The complement of [safeKeyRE], the class of [\w], ['@'], ['.'] and ['-']. *)
Definition safe_char (c : ascii) : bool :=
  is_upper c || is_lower c || is_digit c || bool_decide (c = "_"%char)
  || bool_decide (c = "@"%char) || bool_decide (c = "."%char) || bool_decide (c = "-"%char).

Definition Safe (str : string) : string :=
  filter_bytes safe_char (Replace safe_pairs (TrimSpace (ToLower str))).

Definition CertsPrefix (issuerKey : string) : string :=
  path_Join [prefixCerts; Safe issuerKey].

Definition CertsSitePrefix (issuerKey domain : string) : string :=
  path_Join [CertsPrefix issuerKey; Safe domain].

Definition SiteCert (issuerKey domain : string) : string :=
  let safeDomain := Safe domain in
  path_Join [CertsSitePrefix issuerKey domain; safeDomain +:+ ".crt"].

Definition SitePrivateKey (issuerKey domain : string) : string :=
  let safeDomain := Safe domain in
  path_Join [CertsSitePrefix issuerKey domain; safeDomain +:+ ".key"].

Definition SiteMeta (issuerKey domain : string) : string :=
  let safeDomain := Safe domain in
  path_Join [CertsSitePrefix issuerKey domain; safeDomain +:+ ".json"].

(** The certificate is only asked for its names. *)
Definition OCSPStaple (names : list string) (pemBundle : string) : string :=
  let ocspFileName := match names with [] => "" | n :: _ => Safe n +:+ "-" end in
  path_Join [prefixOCSP; ocspFileName +:+ fastHash pemBundle].

(** The three assets of a site. *)
Inductive asset := ACert | AKey | AMeta.

Definition asset_ext (a : asset) : string :=
  match a with ACert => ".crt" | AKey => ".key" | AMeta => ".json" end.

Definition site_key (a : asset) (issuerKey domain : string) : string :=
  match a with
  | ACert => SiteCert issuerKey domain
  | AKey => SitePrivateKey issuerKey domain
  | AMeta => SiteMeta issuerKey domain
  end.

(** * Facts about [Safe] *)

#[local] Arguments String.append : simpl nomatch.

(** Characters that survive a second pass. *)
Definition safe_low_char (c : ascii) : bool := safe_char c && negb (is_upper c).

Lemma safe_char_ascii c : safe_char c = true -> is_ascii c = true.
Proof. revert c. all_bytes_check. Qed.

Lemma safe_char_not_space c : safe_char c = true -> negb (is_space c) = true.
Proof. revert c. all_bytes_check. Qed.

Lemma safe_char_not_slash c : safe_char c = true -> negb (bool_decide (c = slash)) = true.
Proof. revert c. all_bytes_check. Qed.

Lemma safe_low_char_lower c : safe_low_char c = true -> bool_decide (lower_byte c = c) = true.
Proof. revert c. all_bytes_check. Qed.

Lemma lower_byte_not_upper c : negb (is_upper (lower_byte c)) = true.
Proof. revert c. all_bytes_check. Qed.

Lemma lower_byte_ascii c : is_ascii c = true -> is_ascii (lower_byte c) = true.
Proof. revert c. all_bytes_check. Qed.

Lemma Safe_chars str : all_bytes safe_char (Safe str) = true.
Proof. apply all_bytes_filter. Qed.

Lemma Safe_no_slash str : free_of slash (Safe str) = true.
Proof. eapply all_bytes_impl; [exact safe_char_not_slash | apply Safe_chars]. Qed.

(** [Safe] of a string that has only safe, lower-case characters. *)
Lemma Safe_of_low t :
  all_bytes safe_low_char t = true -> Safe t = filter_bytes safe_char (Replace safe_pairs t).
Proof.
  intros Ht.
  assert (all_bytes safe_char t = true) as Hs
    by (eapply all_bytes_impl; [| exact Ht]; unfold safe_low_char; intros c [? _]%andb_true_iff; done).
  unfold Safe, ToLower, TrimSpace.
  rewrite (all_bytes_impl _ _ _ safe_char_ascii Hs).
  assert (ascii_lower t = t) as ->
    by (apply map_bytes_id; eapply all_bytes_impl; [exact safe_low_char_lower | exact Ht]).
  rewrite (all_bytes_impl _ _ _ safe_char_ascii Hs).
  rewrite trim_id; [done |]. eapply all_bytes_impl; [exact safe_char_not_space | exact Hs].
Qed.

(** The result has no upper-case letters when the input is ASCII. *)
Lemma Safe_low str : all_bytes is_ascii str = true -> all_bytes safe_low_char (Safe str) = true.
Proof.
  intros Hs. unfold Safe, ToLower. rewrite Hs. unfold TrimSpace.
  assert (all_bytes is_ascii (ascii_lower str) = true) as ->.
  { clear -Hs. unfold ascii_lower. induction str as [|c s IH]; [done |].
    cbn [all_bytes map_bytes] in *. apply andb_true_iff in Hs as [Hc Hs].
    rewrite lower_byte_ascii by done. by apply IH. }
  assert (all_bytes (fun c => negb (is_upper c)) (trim is_space (ascii_lower str)) = true) as Hnu.
  { apply all_bytes_trim_right, all_bytes_trim_left, all_bytes_map, lower_byte_not_upper. }
  eapply (all_bytes_replace _ safe_pairs _ 0) in Hnu; [| by repeat constructor].
  fold (Replace safe_pairs (trim is_space (ascii_lower str))) in Hnu.
  revert Hnu. generalize (Replace safe_pairs (trim is_space (ascii_lower str))).
  intros t. induction t as [|c t IH]; [done |]. cbn [all_bytes filter_bytes].
  intros [Hc Ht]%andb_true_iff. destruct (safe_char c) eqn:Hsc; [cbn [all_bytes] | by apply IH].
  unfold safe_low_char at 1. rewrite Hsc, Hc. by apply IH.
Qed.

(** On safe characters the replacer only ever applies the [".."] pair. *)
Lemma find_pair_safe c s :
  safe_char c = true ->
  find_pair safe_pairs (String c s) = if HasPrefix (String c s) ".." then Some ("..", "") else None.
Proof.
  intros Hc. cbn [find_pair safe_pairs].
  assert (forall x, bool_decide (c = x) = false -> HasPrefix (String c s) (String x "") = false) as Hno.
  { intros x Hx. cbn. by rewrite Hx. }
  rewrite !Hno; [done | ..]; revert Hc; clear; revert c; all_bytes_check.
Qed.

Lemma no_dotdot_no_match s :
  all_bytes safe_char s = true -> Contains s ".." = false -> no_match safe_pairs s = true.
Proof.
  induction s as [|c s IH]; [done |]. intros Hs Hd. cbn [all_bytes] in Hs. apply andb_true_iff in Hs as [Hc Hs].
  cbn [Contains] in Hd. apply orb_false_iff in Hd as [Hp Hd].
  cbn [no_match]. rewrite find_pair_safe, Hp by done. rewrite bool_decide_eq_true_2 by done.
  by apply IH.
Qed.

(** The replacer never lengthens a safe string, and shortens it if [".."]
    occurs in it. *)
Lemma replace_from_shorter s : forall k,
  all_bytes safe_char s = true ->
  (String.length (replace_from safe_pairs k s) <= String.length s)%nat /\
  (k = 0%nat -> Contains s ".." = true ->
   (String.length (replace_from safe_pairs k s) < String.length s)%nat).
Proof.
  induction s as [|c s IH]; intros k Hs; [done |].
  cbn [all_bytes] in Hs. apply andb_true_iff in Hs as [Hc Hs]. cbn [replace_from].
  destruct k as [|k].
  - rewrite find_pair_safe by done. cbn [Contains].
    destruct (HasPrefix (String c s) ".."); cbn [String.length pred].
    + destruct (IH 1%nat Hs). split; [| intros _ _]; cbn; lia.
    + destruct (IH 0%nat Hs) as [H1 H2]. split; [lia |]. cbn [orb].
      intros _ Hd. specialize (H2 eq_refl Hd). lia.
  - destruct (IH k Hs). split; [cbn; lia | done].
Qed.

Lemma filter_bytes_length p s : (String.length (filter_bytes p s) <= String.length s)%nat.
Proof. induction s as [|c s IH]; [done |]. cbn. destruct (p c); cbn; lia. Qed.

Lemma Safe_of_low_fixed t :
  all_bytes safe_low_char t = true -> (Safe t = t <-> Contains t ".." = false).
Proof.
  intros Ht. rewrite Safe_of_low by done.
  assert (all_bytes safe_char t = true) as Hs
    by (eapply all_bytes_impl; [| exact Ht]; unfold safe_low_char; intros c [? _]%andb_true_iff; done).
  split.
  - intros Heq. destruct (Contains t "..") eqn:Hd; [| done]. exfalso.
    destruct (replace_from_shorter t 0 Hs) as [_ Hlt]. specialize (Hlt eq_refl Hd).
    pose proof (filter_bytes_length safe_char (Replace safe_pairs t)) as Hle.
    rewrite Heq in Hle. unfold Replace in Hle. lia.
  - intros Hd. rewrite Replace_id by (by apply no_dotdot_no_match). by apply filter_bytes_id.
Qed.

(** * The shape of the keys *)

(** A sanitized name that is a path element of its own. *)
Definition proper (n : string) : Prop := Safe n <> "" /\ Safe n <> "." /\ Safe n <> "..".

Lemma proper_plain n : proper n -> plain (Safe n).
Proof. intros (? & ? & ?). repeat split; try done. apply Safe_no_slash. Qed.

Lemma plain_suffix n ext :
  free_of slash n = true -> free_of slash ext = true -> n <> "" -> (2 <= String.length ext)%nat ->
  plain (n +:+ ext).
Proof.
  intros Hn He Hne Hlen. assert (3 <= String.length (n +:+ ext))%nat as Hl.
  { rewrite length_app_str. destruct n; [done | cbn; lia]. }
  repeat split.
  - intros H. rewrite H in Hl. cbn in Hl. lia.
  - intros H. rewrite H in Hl. cbn in Hl. lia.
  - intros H. rewrite H in Hl. cbn in Hl. lia.
  - unfold free_of. rewrite all_bytes_app. by apply andb_true_intro.
Qed.

Lemma CertsPrefix_shape i : proper i -> CertsPrefix i = Join [prefixCerts; Safe i] "/".
Proof.
  intros Hi. unfold CertsPrefix. apply (path_Join_plain [prefixCerts]); [done | |].
  - by repeat constructor.
  - by apply proper_plain.
Qed.

Lemma CertsSitePrefix_shape i d :
  proper i -> proper d -> CertsSitePrefix i d = Join [prefixCerts; Safe i; Safe d] "/".
Proof.
  intros Hi Hd. unfold CertsSitePrefix. rewrite CertsPrefix_shape by done.
  apply (path_Join_plain [prefixCerts; Safe i]); [done | | by apply proper_plain].
  constructor; [by repeat constructor | constructor; [by apply proper_plain | constructor]].
Qed.

Lemma asset_ext_facts a :
  free_of slash (asset_ext a) = true /\ (2 <= String.length (asset_ext a))%nat.
Proof. destruct a; (split; [reflexivity | cbn; lia]). Qed.

Lemma site_key_elems i d a :
  proper i -> proper d ->
  Forall plain [prefixCerts; Safe i; Safe d; Safe d +:+ asset_ext a].
Proof.
  intros Hi Hd. pose proof (asset_ext_facts a) as [He Hl].
  constructor; [by repeat constructor |]. constructor; [by apply proper_plain |].
  constructor; [by apply proper_plain |]. constructor; [| constructor].
  apply plain_suffix; try done; [apply Safe_no_slash | apply Hd].
Qed.

Lemma site_key_shape a i d :
  proper i -> proper d ->
  site_key a i d = Join [prefixCerts; Safe i; Safe d; Safe d +:+ asset_ext a] "/".
Proof.
  intros Hi Hd. pose proof (site_key_elems i d a Hi Hd) as HF.
  assert (site_key a i d = path_Join [CertsSitePrefix i d; Safe d +:+ asset_ext a]) as ->
    by (by destruct a).
  rewrite CertsSitePrefix_shape by done.
  apply (path_Join_plain [prefixCerts; Safe i; Safe d]); [done | |].
  - apply (Forall_app plain [prefixCerts; Safe i; Safe d]) in HF. apply HF.
  - inversion_clear HF as [| ? ? _ HF1]. inversion_clear HF1 as [| ? ? _ HF2].
    inversion_clear HF2 as [| ? ? _ HF3]. by inversion_clear HF3.
Qed.

(** Two slash-separated keys with plain elements are equal only elementwise. *)
Lemma Join_plain_inj l1 l2 :
  l1 <> [] -> l2 <> [] -> Forall plain l1 -> Forall plain l2 ->
  Join l1 "/" = Join l2 "/" -> l1 = l2.
Proof.
  intros H1 H2 HF1 HF2 Heq.
  rewrite <- (Split_Join_slash l1), <- (Split_Join_slash l2), Heq; try done;
    eapply Forall_impl; eauto; unfold plain; tauto.
Qed.

Lemma app_inv_l_str (s t1 t2 : string) : s +:+ t1 = s +:+ t2 -> t1 = t2.
Proof. induction s as [|c s IH]; [done |]. rewrite !app_cons_str. intros [= H]. by apply IH. Qed.

Lemma site_key_inj a1 a2 i1 i2 d1 d2 :
  proper i1 -> proper i2 -> proper d1 -> proper d2 ->
  site_key a1 i1 d1 = site_key a2 i2 d2 ->
  a1 = a2 /\ Safe i1 = Safe i2 /\ Safe d1 = Safe d2.
Proof.
  intros Hi1 Hi2 Hd1 Hd2. rewrite !site_key_shape by done.
  intros Heq%Join_plain_inj; try done; try by apply site_key_elems.
  injection Heq as Hi Hd Hext. rewrite Hd in Hext. apply app_inv_l_str in Hext.
  split; [| done]. by destruct a1, a2.
Qed.

End Keys.

(** ** [fastHash] *)

Definition is_hex (c : ascii) : bool := is_digit c || (97 <=? byte_val c)%nat && (byte_val c <=? 102)%nat.

Lemma hex_digit_hex d : (0 <= d < 16)%Z -> is_hex (hex_digit d) = true.
Proof.
  intros Hd. assert (exists k, (k < 16)%nat /\ d = Z.of_nat k) as (k & Hk & ->)
    by (exists (Z.to_nat d); lia).
  do 16 (destruct k as [|k]; [reflexivity |]). lia.
Qed.

Lemma hex_digits_hex n : forall z acc,
  all_bytes is_hex acc = true -> all_bytes is_hex (hex_digits n z acc) = true.
Proof.
  induction n as [|n IH]; intros z acc Ha; [done |]. cbn [hex_digits].
  assert (all_bytes is_hex (String (hex_digit (z mod 16)) acc) = true) as Ha'.
  { cbn [all_bytes]. rewrite hex_digit_hex by (apply Z.mod_pos_bound; lia). done. }
  case_if; [done | by apply IH].
Qed.

Lemma hex_digits_length n : forall z acc,
  (String.length acc <= String.length (hex_digits n z acc) <= String.length acc + n)%nat.
Proof.
  induction n as [|n IH]; intros z acc; cbn [hex_digits]; [lia |].
  case_if; [cbn; lia |]. specialize (IH (z / 16)%Z (String (hex_digit (z mod 16)) acc)). cbn in IH. lia.
Qed.

Lemma fastHash_hex input :
  all_bytes is_hex (fastHash input) = true /\ (1 <= String.length (fastHash input) <= 8)%nat.
Proof.
  unfold fastHash, sprintf_x. set (z := fnv32a _ _). clearbody z.
  split; [by apply hex_digits_hex |]. cbn [hex_digits].
  case_if; [cbn; lia |].
  pose proof (hex_digits_length 7 (z / 16)%Z (String (hex_digit (z mod 16)) "")) as H.
  cbn [String.length] in H. cbn [hex_digits] in *. lia.
Qed.

Lemma is_hex_not_slash c : is_hex c = true -> negb (bool_decide (c = slash)) = true.
Proof. revert c. all_bytes_check. Qed.

Lemma is_hex_not_dot c : is_hex c = true -> negb (bool_decide (c = "."%char)) = true.
Proof. revert c. all_bytes_check. Qed.

Lemma fastHash_plain input : plain (fastHash input).
Proof.
  destruct (fastHash_hex input) as [Hh [Hl _]]. repeat split.
  - intros H. rewrite H in Hl. cbn in Hl. lia.
  - intros H. by rewrite H in Hh.
  - intros H. by rewrite H in Hh.
  - eapply all_bytes_impl; [exact is_hex_not_slash | exact Hh].
Qed.

(** * Properties *)

(** Whatever the input (any bytes, any Unicode tables), [Safe] returns only
    letters, digits, '_', '@', '.' and '-'; for ASCII input it returns no
    upper-case letter. In particular a sanitized name never contains a path
    separator. *)
Theorem Safe_charset {U : UnicodeTables} str :
  all_bytes safe_char (Safe str) = true /\ free_of slash (Safe str) = true /\
  (all_bytes is_ascii str = true -> all_bytes safe_low_char (Safe str) = true).
Proof. split; [apply Safe_chars | split; [apply Safe_no_slash | apply Safe_low]]. Qed.

(** [Safe] is idempotent on an ASCII string exactly when its result does not
    contain two consecutive dots: the removal of other characters after the [".."] pass can
    bring two dots together. *)
Theorem Safe_idempotent_iff {U : UnicodeTables} str :
  all_bytes is_ascii str = true ->
  (Safe (Safe str) = Safe str <-> Contains (Safe str) ".." = false).
Proof. intros Hs. apply Safe_of_low_fixed. by apply Safe_low. Qed.

#[local] Existing Instance ascii_tables.

Lemma Safe_idempotent_iff_witness :
  Safe "*.Example.com" = "wildcard_.example.com" /\
  (Safe (Safe "*.Example.com") = Safe "*.Example.com" <-> Contains (Safe "*.Example.com") ".." = false).
Proof. split; [vm_compute; reflexivity |]. apply Safe_idempotent_iff. vm_compute. reflexivity. Defined.

(** The protection against directory traversal has a hole: a domain such as
    ["./."] is sanitized to [".."] (and sanitized again to the empty string),
    so its site prefix is the parent of every issuer's folder and its
    certificate lies outside the issuer's folder. *)
Theorem Safe_dotdot_escapes {U : UnicodeTables} issuerKey :
  Safe issuerKey <> "" -> Safe issuerKey <> "." -> Safe issuerKey <> ".." ->
  Safe "./." = ".." /\ Safe (Safe "./.") = "" /\
  CertsSitePrefix issuerKey "./." = prefixCerts /\
  SiteCert issuerKey "./." = "certificates/...crt".
Proof.
  intros H1 H2 H3. assert (proper issuerKey) as Hi by done.
  assert (Safe "./." = "..") as Hs by reflexivity.
  assert (CertsSitePrefix issuerKey "./." = prefixCerts) as Hp.
  { unfold CertsSitePrefix. rewrite CertsPrefix_shape, Hs by done.
    apply (Clean_dotdot [prefixCerts] (Safe issuerKey)); [done | by repeat constructor |].
    by apply proper_plain. }
  split; [done |]. split; [reflexivity |]. split; [done |].
  unfold SiteCert. rewrite Hp, Hs. reflexivity.
Qed.

Lemma Safe_dotdot_escapes_witness :
  SiteCert "acme-v02.api.letsencrypt.org-directory" "./." = "certificates/...crt".
Proof. apply Safe_dotdot_escapes; vm_compute; discriminate. Defined.

(** For names whose sanitized form is a proper path element (neither empty
    nor "." nor ".."), the three assets of a site are stored inside the
    folder of the site, inside the folder of the issuer: the key is
    certificates/<issuer>/<domain>/<domain>.<ext>. *)
Theorem site_keys_inside_issuer {U : UnicodeTables} a issuerKey domain :
  proper issuerKey -> proper domain ->
  site_key a issuerKey domain =
    prefixCerts +:+ "/" +:+ Safe issuerKey +:+ "/" +:+ Safe domain +:+ "/" +:+
    Safe domain +:+ asset_ext a.
Proof. intros Hi Hd. by rewrite site_key_shape. Qed.

Lemma site_keys_inside_issuer_witness :
  site_key ACert "example.com-acme-ca-directory" "a/../../../foo" =
  "certificates/example.com-acme-ca-directory/afoo/afoo.crt".
Proof.
  apply (site_keys_inside_issuer ACert "example.com-acme-ca-directory" "a/../../../foo");
    repeat split; vm_compute; discriminate.
Defined.



(** The key of an OCSP staple is always a single element below "ocsp/": the
    sanitized first name, a hyphen and a hash of one to eight hexadecimal
    digits (the hash alone for a certificate without names), so no
    certificate name can move it elsewhere. *)
Theorem OCSPStaple_shape {U : UnicodeTables} names pem :
  OCSPStaple names pem =
    prefixOCSP +:+ "/" +:+ match names with [] => "" | n :: _ => Safe n +:+ "-" end +:+ fastHash pem /\
  all_bytes is_hex (fastHash pem) = true /\ (1 <= String.length (fastHash pem) <= 8)%nat.
Proof.
  split; [| apply fastHash_hex].
  assert (plain (match names with [] => "" | n :: _ => Safe n +:+ "-" end +:+ fastHash pem)) as Hp.
  { destruct (fastHash_plain pem) as (Hne & Hd & Hdd & Hf). destruct names as [|n ns]; [done |].
    rewrite app_assoc_str. destruct (Safe n) as [|c t] eqn:Hsafe.
    - repeat split; try done.
    - rewrite <- Hsafe. apply plain_suffix; [apply Safe_no_slash | done | by rewrite Hsafe |].
      destruct (fastHash_hex pem) as [_ [? _]]. rewrite length_app_str. cbn [String.length]. lia. }
  unfold OCSPStaple. rewrite (path_Join_plain [prefixOCSP]); [done | done | | exact Hp].
  by repeat constructor.
Qed.
