(* ===== verification/Certificates.v ===== *)
(** The certificates of [src/certificates.go]: the [Certificate] struct, how it
    is filled from a parsed leaf, when it is due for renewal, which subjects
    qualify for one and which names a wildcard covers.

    The cryptographic libraries (X.509, PEM, SHA-256) are the methods of
    [CertLib]. *)
From Stdlib Require Import Ascii.
From stdpp Require Import base tactics list strings sets.
From Stdlib Require Import ZArith Lia SpecFloat.
From S2P Require Import Prelude GoTime GoStrings Net.

Local Open Scope string_scope.

(** * Data *)

(** The fields of [x509.Certificate] the program reads; a URI is given by its
    [String] method. *)
Record x509Cert := mkX509 {
  NotBefore : Z;
  NotAfter : Z;
  CommonName : string;
  DNSNames : list string;
  IPAddresses : list IP;
  EmailAddresses : list string;
  URIs : list string;
  OCSPServer : list string;
  IssuingCertificateURL : list string
}.

(** [ocsp.Response]. *)
Inductive ocspStatus := Good | Revoked | Unknown.

Record ocspResponse := mkOCSP {
  Status : ocspStatus;
  ThisUpdate : Z;
  NextUpdate : Z;
  responder : option x509Cert    (* the Certificate field *)
}.

(** [tls.Certificate]: the DER chain, the private key, the parsed leaf and the
    staple. *)
Record tlsCert := mkTls {
  chain : list string;
  PrivateKey : string;
  Leaf : option x509Cert;
  staple : string
}.

Record Certificate := mkCert {
  tls : tlsCert;
  Names : list string;
  Tags : list string;
  ocsp : option ocspResponse;
  hash : string;
  managed : bool
}.

(** [Certificate{}]. *)
Definition zeroCert : Certificate :=
  {| tls := {| chain := []; PrivateKey := ""; Leaf := None; staple := "" |};
     Names := []; Tags := []; ocsp := None; hash := ""; managed := false |}.

#[export] Instance ocspStatus_eq_dec : EqDecision ocspStatus.
Proof. solve_decision. Defined.
#[export] Instance x509Cert_eq_dec : EqDecision x509Cert.
Proof. solve_decision. Defined.
#[export] Instance ocspResponse_eq_dec : EqDecision ocspResponse.
Proof. solve_decision. Defined.
#[export] Instance tlsCert_eq_dec : EqDecision tlsCert.
Proof. solve_decision. Defined.
#[export] Instance Certificate_eq_dec : EqDecision Certificate.
Proof. solve_decision. Defined.

(** [crypto/x509], [crypto/tls] and [crypto/sha256]. *)
Class CertLib := {
  ParseCertificate : string -> res x509Cert;
  X509KeyPair : string -> string -> res tlsCert;
  sha256 : string -> string
}.

(** * Renewal *)

(** 1.0 / 3.0, the float64 nearest to it. *)
Definition DefaultRenewalWindowRatio : float64 := S754_finite false 6004799503160661 (-54).

Definition renewal_window (lifetime : Z) (renewalWindowRatio : float64) : Z :=
  int64_of_float64 (float64_mul (float64_of_int64 lifetime) renewalWindowRatio).

Definition currentlyInRenewalWindow (now notBefore notAfter : Z) (renewalWindowRatio : float64) : bool :=
  if IsZero notAfter then false
  else
    let lifetime := Sub notAfter notBefore in
    let ratio := if float64_eqb renewalWindowRatio (S754_zero false)
                 then DefaultRenewalWindowRatio else renewalWindowRatio in
    let renewalWindow := renewal_window lifetime ratio in
    let renewalWindowStart := Add notAfter (wrap64 (- renewalWindow)) in
    After now renewalWindowStart.

(** [cert.Leaf] must not be nil. *)
Definition NeedsRenewal (now : Z) (renewalWindowRatio : float64) (cert : Certificate) : res bool :=
  match Leaf (tls cert) with
  | Some leaf => Ok (currentlyInRenewalWindow now (NotBefore leaf) (NotAfter leaf) renewalWindowRatio)
  | None => Panic "nil pointer dereference"
  end.

Definition HasTag (cert : Certificate) (tag : string) : bool :=
  existsb (fun t => bool_decide (t = tag)) (Tags cert).

(** * Filling a certificate *)

Section Fill.
Context {U : UnicodeTables} {L : CertLib}.

(** [fmt.Sprintf("%x", bytes)]. *)
Fixpoint hex_string (s : string) : string :=
  match s with
  | "" => ""
  | String c s' =>
      let v := Z.of_nat (byte_val c) in
      String (hex_digit (v / 16)) (String (hex_digit (v mod 16)) (hex_string s'))
  end.

Definition hashCertificateChain (certChain : list string) : string :=
  hex_string (sha256 (foldr String.append "" certChain)).

(** One of the loops of [fillCertFromLeaf]. *)
Definition add_names (CN : string) (lower : string -> string) (names : list string)
    (l : list string) : list string :=
  foldl (fun acc name => if bool_decide (name = CN) then acc else (acc ++ [lower name])%list) names l.

Definition leaf_names (leaf : x509Cert) : list string :=
  let CN := CommonName leaf in
  let names := if bool_decide (CN = "") then [] else [ToLower CN] in
  let names := add_names CN ToLower names (DNSNames leaf) in
  let names := add_names CN ToLower names (IP_String <$> IPAddresses leaf) in
  let names := add_names CN ToLower names (EmailAddresses leaf) in
  add_names CN (fun u => u) names (URIs leaf).

(** [fillCertFromLeaf] on an empty [Certificate]. *)
Definition fillCertFromLeaf (tlsCert : tlsCert) : res Certificate :=
  match chain tlsCert with
  | [] => Err (ErrStr "certificate is empty")
  | der :: _ =>
      (let! leaf := ParseCertificate der in
       let names := leaf_names leaf in
       if bool_decide (names = []) then Err (ErrStr "certificate has no names")
       else Ok {| tls := {| chain := chain tlsCert; PrivateKey := PrivateKey tlsCert;
                            Leaf := Some leaf; staple := staple tlsCert |};
                  Names := names; Tags := []; ocsp := None;
                  hash := hashCertificateChain (chain tlsCert); managed := false |})%go
  end.

Definition makeCertificate (certPEMBlock keyPEMBlock : string) : res Certificate :=
  (let! tlsCert := X509KeyPair certPEMBlock keyPEMBlock in
   fillCertFromLeaf tlsCert)%go.

End Fill.

(** * Subjects *)

Section Subjects.
Context {U : UnicodeTables}.

(** The parentheses, brackets, white space, quotes and other characters the
    source lists; tab, newline and the double quote by their codes. *)
Definition special_chars : string :=
  "()[]{}<> " +:+ String "009" (String "010" (String "034" "\!@#$%^&|;'+=")).

Definition SubjectQualifiesForCert (subj : string) : bool :=
  negb (bool_decide (TrimSpace subj = "")) &&
  negb (HasPrefix subj ".") &&
  negb (HasSuffix subj ".") &&
  (negb (Contains subj "*") || HasPrefix subj "*.") &&
  negb (ContainsAny subj special_chars).

Definition SubjectQualifiesForPublicCert (subj : string) : bool :=
  SubjectQualifiesForCert subj &&
  negb (bool_decide (subj = "localhost")) &&
  negb (HasSuffix subj ".localhost") &&
  negb (HasSuffix subj ".local") &&
  (negb (Contains subj "*") ||
   (CountByte subj "*" =? 1)%nat && (2 <? String.length subj)%nat && HasPrefix subj "*.") &&
  bool_decide (ParseIP subj = None).

End Subjects.

(** * Wildcards *)

(** The loop of [MatchWildcard]: [pre] are the labels it has been through. *)
Fixpoint match_labels (wildcard : string) (pre labels : list string) : bool :=
  match labels with
  | [] => false
  | label :: rest =>
      if bool_decide (label = "") then match_labels wildcard (pre ++ [label])%list rest
      else
        bool_decide (Join (pre ++ "*" :: rest)%list "." = wildcard) ||
        match_labels wildcard (pre ++ ["*"])%list rest
  end.

Definition MatchWildcard (subject wildcard : string) : bool :=
  if bool_decide (subject = wildcard) then true
  else if negb (Contains wildcard "*") then false
  else match_labels wildcard [] (Split subject ".").

(** The loop that [AllMatchingCertificates] and [getCertificate] share: the
    candidates in the order they are tried. *)
Fixpoint star_labels (pre labels : list string) : list string :=
  match labels with
  | [] => []
  | _ :: rest => Join (pre ++ "*" :: rest)%list "." :: star_labels (pre ++ ["*"])%list rest
  end.

Definition wildcard_candidates (name : string) : list string := star_labels [] (Split name ".").

(** * Lemmas *)

(** ** Names *)

Section NameLemmas.
Context {U : UnicodeTables}.

Lemma elem_of_add_names CN lower l : forall names x,
  x ∈ add_names CN lower names l <-> x ∈ names \/ exists n, n ∈ l /\ n <> CN /\ x = lower n.
Proof.
  induction l as [|n l IH]; intros names x; cbn [add_names foldl].
  - set_solver.
  - fold (add_names CN lower (if bool_decide (n = CN) then names else (names ++ [lower n])%list) l).
    rewrite IH. case_bool_decide; set_solver.
Qed.

(** What may appear in [Names]. *)
Definition is_subject (leaf : x509Cert) (x : string) : Prop :=
  (CommonName leaf <> "" /\ x = ToLower (CommonName leaf)) \/
  (exists n, n ∈ (DNSNames leaf ++ (IP_String <$> IPAddresses leaf) ++ EmailAddresses leaf)%list /\
             n <> CommonName leaf /\ x = ToLower n) \/
  (x ∈ URIs leaf /\ x <> CommonName leaf).

Lemma elem_of_leaf_names leaf x : x ∈ leaf_names leaf <-> is_subject leaf x.
Proof.
  unfold leaf_names, is_subject. rewrite !elem_of_add_names.
  assert (x ∈ (if bool_decide (CommonName leaf = "") then [] else [ToLower (CommonName leaf)]) <->
          CommonName leaf <> "" /\ x = ToLower (CommonName leaf)) as ->
    by (case_bool_decide; set_solver).
  set_solver.
Qed.

Lemma fillCertFromLeaf_Ok {L : CertLib} t cert :
  fillCertFromLeaf t = Ok cert ->
  exists der ders leaf, chain t = der :: ders /\ ParseCertificate der = Ok leaf /\
    Leaf (tls cert) = Some leaf /\ Names cert = leaf_names leaf /\ Names cert <> [] /\
    hash cert = hashCertificateChain (chain t) /\ managed cert = false.
Proof.
  unfold fillCertFromLeaf. destruct (chain t) as [|der ders] eqn:Hc; [done |].
  destruct (ParseCertificate der) as [leaf | |] eqn:Hp; [| done | done]. cbn [res_bind].
  case_bool_decide; [done |]. intros [= <-]. exists der, ders, leaf. done.
Qed.

End NameLemmas.

(** ** Substrings of one byte *)

#[local] Arguments String.append : simpl nomatch.

Lemma Contains_byte s c : Contains s (String c "") = negb (free_of c s).
Proof.
  induction s as [|d s IH]; [done |]. cbn [Contains HasPrefix free_of all_bytes].
  fold (free_of c s). rewrite IH, negb_andb, negb_involutive.
  f_equal. by destruct s; rewrite andb_true_r.
Qed.

Lemma CountByte_app s t c : CountByte (s +:+ t) c = (CountByte s c + CountByte t c)%nat.
Proof. induction s as [|d s IH]; [done |]. rewrite app_cons_str. cbn [CountByte]. rewrite IH. lia. Qed.

Lemma CountByte_0 s c : CountByte s c = 0%nat -> free_of c s = true.
Proof.
  induction s as [|d s IH]; [done |]. cbn. case_bool_decide; [done |]. cbn. exact IH.
Qed.

(** ** Wildcards *)

Lemma free_of_Split s c d : free_of c s = true -> Forall (fun w => free_of c w = true) (Split s d).
Proof.
  induction s as [|e s IH]; [by repeat constructor |]. cbn [free_of all_bytes Split].
  intros [He Hs]%andb_true_iff. specialize (IH Hs).
  destruct (bool_decide (e = d)); [by constructor |].
  destruct (Split s d) as [|w ws]; [by repeat constructor; cbn; rewrite He |].
  inversion IH; subst. constructor; [| done]. cbn. by rewrite He.
Qed.

Definition dot : ascii := "."%char.
Definition star : ascii := "*"%char.

Definition dot_free (w : string) : Prop := free_of dot w = true.

Lemma Join_dot_inj l1 l2 :
  l1 <> [] -> l2 <> [] -> Forall dot_free l1 -> Forall dot_free l2 ->
  Join l1 "." = Join l2 "." -> l1 = l2.
Proof.
  intros H1 H2 HF1 HF2 H.
  etransitivity; [symmetry; exact (Split_Join l1 dot H1 HF1) |].
  etransitivity; [| exact (Split_Join l2 dot H2 HF2)].
  exact (f_equal (fun s => Split s dot) H).
Qed.

Lemma match_labels_spec wildcard labels : forall pre,
  Forall (fun l => l <> "") labels ->
  match_labels wildcard pre labels = bool_decide (wildcard ∈ star_labels pre labels).
Proof.
  induction labels as [|l labels IH]; intros pre HF; cbn [match_labels star_labels].
  - by rewrite bool_decide_eq_false_2 by apply not_elem_of_nil.
  - inversion HF; subst. rewrite bool_decide_eq_false_2, IH by done.
    apply eq_true_iff_eq. rewrite orb_true_iff, !bool_decide_eq_true, elem_of_cons. naive_solver.
Qed.

Lemma star_labels_star pre labels x : x ∈ star_labels pre labels -> free_of star x = false.
Proof.
  revert pre. induction labels as [|l labels IH]; intros pre; cbn [star_labels]; [by intros ?%elem_of_nil |].
  intros [-> | Hx]%elem_of_cons; [| by eapply IH].
  destruct pre as [|p pre].
  - destruct labels; [done |]. by cbn [app]; rewrite Join_cons.
  - rewrite Join_app by done. unfold free_of. rewrite !all_bytes_app.
    assert (all_bytes (fun d => negb (bool_decide (d = star))) (Join ("*" :: labels) ".") = false) as ->
      by (destruct labels; [done | by rewrite Join_cons]).
    by rewrite !andb_false_r.
Qed.

(** On names without empty labels the two ways of matching agree. *)
Lemma MatchWildcard_candidates subject wildcard :
  Forall (fun l => l <> "") (Split subject ".") ->
  MatchWildcard subject wildcard = true <->
  wildcard = subject \/ wildcard ∈ wildcard_candidates subject.
Proof.
  intros HF. unfold MatchWildcard. case_bool_decide as Heq; [naive_solver |].
  rewrite Contains_byte, negb_involutive. fold star.
  destruct (free_of star wildcard) eqn:Hs.
  - split; [done |]. intros [-> | Hin]; [done |].
    apply star_labels_star in Hin. congruence.
  - rewrite match_labels_spec, bool_decide_eq_true by done. unfold wildcard_candidates. naive_solver.
Qed.

(** Past the first label, a name with one left-most star is never matched. *)
Lemma match_labels_late ls pre labels :
  pre <> [] -> Forall dot_free pre -> Forall dot_free labels -> Forall dot_free ls ->
  "*" ∉ ls -> match_labels (Join ("*" :: ls) ".") pre labels = false.
Proof.
  intros Hpre HFp HFl HFs Hns. revert pre Hpre HFp.
  induction HFl as [|l labels Hl HFl IH]; intros pre Hpre HFp; [done |]. cbn [match_labels].
  assert (forall e, dot_free e -> match_labels (Join ("*" :: ls) ".") (pre ++ [e])%list labels = false) as IH'.
  { intros e He. apply IH; [by destruct pre |]. apply Forall_app_2; [done |]. by constructor. }
  case_bool_decide; [by apply IH' |]. apply orb_false_iff. split; [| by apply IH'].
  apply bool_decide_eq_false. intros Heq. apply Join_dot_inj in Heq.
  - destruct pre as [|p pre]; [done |]. injection Heq as _ <-. set_solver.
  - by destruct pre.
  - done.
  - apply Forall_app_2; [done |]. by constructor.
  - by constructor.
Qed.

(** The wildcards a public CA issues: one star, as the left-most label. *)
Lemma MatchWildcard_leftmost subject r :
  free_of star r = true ->
  MatchWildcard subject ("*." +:+ r) = true <->
  subject = "*." +:+ r \/ exists l, l <> "" /\ free_of dot l = true /\ subject = l +:+ "." +:+ r.
Proof.
  intros Hr. assert (Join (Split r dot) "." = r) as HJ by apply (Join_Split r dot). pose proof (Split_nonempty r dot) as Hne.
  pose proof (Split_elems_free r dot) as Hdf.
  assert ("*" ∉ Split r dot) as Hns.
  { intros Hin. pose proof (free_of_Split r star dot Hr) as HF.
    rewrite Forall_forall in HF. by specialize (HF _ Hin). }
  assert ("*." +:+ r = Join ("*" :: Split r dot) ".") as Hw by (by rewrite Join_cons, HJ).
  unfold MatchWildcard. case_bool_decide as Heq; [naive_solver |]. cbn [negb].
  replace (negb (Contains ("*." +:+ r) "*")) with false by (by rewrite Contains_byte).
  assert (Join (Split subject dot) "." = subject) as HS by apply (Join_Split subject dot). pose proof (Split_elems_free subject dot) as HSf.
  change (Split subject ".") with (Split subject dot).
  destruct (Split subject dot) as [|l labels] eqn:Hsp; [by destruct (Split_nonempty subject dot) |].
  apply Forall_cons in HSf as [Hl HFl]. cbn [match_labels app]. rewrite Hw.
  assert (forall e, dot_free e -> match_labels (Join ("*" :: Split r dot) ".") [e] labels = false) as Hlate.
  { intros e He. apply match_labels_late; try done. by constructor. }
  case_bool_decide as Hl0.
  - rewrite Hlate by done. split; [done |]. intros [-> | (l' & Hl' & Hf & Hsub)]; [done |].
    exfalso. change ("." +:+ r) with (String dot r) in Hsub.
    rewrite Hsub, Split_app_sep in Hsp by done. by injection Hsp as -> _.
  - rewrite Hlate, orb_false_r, bool_decide_eq_true by done. split.
    + intros H. apply Join_dot_inj in H; try done; try by constructor.
      injection H as ->. right. exists l. split; [done |]. split; [done |].
      rewrite <- HS, Join_cons by done. by rewrite HJ.
    + intros [-> | (l' & Hl' & Hf & Hsub)]; [done |].
      change ("." +:+ r) with (String dot r) in Hsub.
      rewrite Hsub, Split_app_sep in Hsp by done. by injection Hsp as -> <-.
Qed.

Lemma HasPrefix_star_dot s : HasPrefix s "*." = true -> exists r, s = "*." +:+ r.
Proof. apply HasPrefix_spec. Qed.

Lemma public_wildcard_shape {U : UnicodeTables} w :
  SubjectQualifiesForPublicCert w = true -> Contains w "*" = true ->
  exists r, w = "*." +:+ r /\ free_of star r = true /\ r <> "".
Proof.
  unfold SubjectQualifiesForPublicCert. intros H Hc. rewrite Hc in H. cbn [negb orb] in H. bool_hyps.
  destruct (HasPrefix_star_dot w) as [r ->]; [done |].
  exists r. split; [done |].
  match goal with H : CountByte _ _ = _ |- _ => rewrite CountByte_app in H;
    change (CountByte "*." "*") with 1%nat in H end.
  match goal with H : (2 < String.length _)%nat |- _ => rewrite length_app_str in H;
    change (String.length "*.") with 2%nat in H end.
  split; [apply CountByte_0; unfold star; lia | intros ->; cbn in *; lia].
Qed.

(** * Properties *)

#[local] Existing Instance ascii_tables.

(** A wildcard subject that is accepted for a public certificate is one
    star followed by a star-free domain, and [MatchWildcard] lets it cover
    exactly itself and the names with one more, nonempty, dot-free label in
    place of the star: never the bare domain, never two levels. *)
Theorem public_wildcard_coverage {U : UnicodeTables} wildcard :
  SubjectQualifiesForPublicCert wildcard = true -> Contains wildcard "*" = true ->
  exists r, wildcard = "*." +:+ r /\ free_of star r = true /\ r <> "" /\
    forall subject,
      MatchWildcard subject wildcard = true <->
      subject = wildcard \/
      exists l, l <> "" /\ free_of dot l = true /\ subject = l +:+ "." +:+ r.
Proof.
  intros H1 H2. destruct (public_wildcard_shape wildcard H1 H2) as (r & -> & Hr & Hne).
  exists r. repeat (split; [done |]). intros subject. by apply MatchWildcard_leftmost.
Qed.

Lemma public_wildcard_coverage_witness :
  exists r, "*.example.com" = "*." +:+ r /\ free_of star r = true /\ r <> "" /\
    forall subject,
      MatchWildcard subject "*.example.com" = true <->
      subject = "*.example.com" \/
      exists l, l <> "" /\ free_of dot l = true /\ subject = l +:+ "." +:+ r.
Proof. apply public_wildcard_coverage; vm_compute; reflexivity. Defined.

(** When [fillCertFromLeaf] succeeds the leaf is set, the hash is that of
    the chain, the list of names is not empty, and the names are exactly the
    subjects of the leaf: the lower-cased common name and the (lower-cased,
    except for URIs) alternative names that differ from it. *)
Theorem fillCertFromLeaf_names {U : UnicodeTables} {L : CertLib} tlsCert cert :
  fillCertFromLeaf tlsCert = Ok cert ->
  Names cert <> [] /\ hash cert = hashCertificateChain (chain tlsCert) /\
  exists der ders leaf, chain tlsCert = der :: ders /\ ParseCertificate der = Ok leaf /\
    Leaf (tls cert) = Some leaf /\ forall x, x ∈ Names cert <-> is_subject leaf x.
Proof.
  intros (der & ders & leaf & Hc & Hp & Hl & Hn & Hne & Hh & _)%fillCertFromLeaf_Ok.
  repeat (split; [done |]). exists der, ders, leaf. repeat (split; [done |]).
  intros x. rewrite Hn. apply elem_of_leaf_names.
Qed.

(** A library that knows one certificate. *)
Definition example_leaf : x509Cert :=
  {| NotBefore := 0; NotAfter := (90 * 24 * Hour)%Z; CommonName := "Example.com";
     DNSNames := ["example.com"; "www.Example.com"]; IPAddresses := [IPv4 10 0 0 1];
     EmailAddresses := []; URIs := []; OCSPServer := []; IssuingCertificateURL := [] |}.

Definition example_tls : tlsCert :=
  {| chain := ["DER"]; PrivateKey := "KEY"; Leaf := None; staple := "" |}.

Definition example_lib : CertLib := {|
  ParseCertificate der := if bool_decide (der = "DER") then Ok example_leaf else Err (ErrStr "bad");
  X509KeyPair _ _ := Ok example_tls;
  sha256 s := s
|}.

#[local] Existing Instance example_lib.

Lemma fillCertFromLeaf_names_witness :
  exists cert, fillCertFromLeaf example_tls = Ok cert /\
    Names cert = ["example.com"; "example.com"; "www.example.com"; "10.0.0.1"] /\ Names cert <> [].
Proof.
  eexists. split; [vm_compute; reflexivity |]. split; [reflexivity |].
  apply (fillCertFromLeaf_names example_tls _). vm_compute. reflexivity.
Defined.

Local Open Scope Z_scope.

(** The renewal decision. A certificate without expiration date is never
    due; one that is due stays due as time passes, whatever its dates and the
    ratio; and with the default ratio (an unset ratio is the default) a 90-day
    certificate is due exactly from 60 days after its issuance on, the
    floating-point product being exact to the nanosecond. *)
Theorem renewal_window_rule now now' notBefore notAfter ratio :
  now <= now' ->
  currentlyInRenewalWindow now notBefore 0 ratio = false /\
  (currentlyInRenewalWindow now notBefore notAfter ratio = true ->
   currentlyInRenewalWindow now' notBefore notAfter ratio = true) /\
  (notAfter = notBefore + 90 * 24 * Hour -> notAfter <> 0 ->
   ratio = S754_zero false \/ ratio = DefaultRenewalWindowRatio ->
   currentlyInRenewalWindow now notBefore notAfter ratio = (notBefore + 60 * 24 * Hour <? now)).
Proof.
  intros Hnow. split; [done |]. unfold currentlyInRenewalWindow, After, Add.
  destruct (IsZero notAfter) eqn:Hz; [split; [done |] |].
  { intros _ H. unfold IsZero in Hz. bool_hyps. done. }
  split; [intros ?; bool_hyps; apply Z.ltb_lt; lia |].
  intros -> _ Hr.
  replace (Sub (notBefore + 90 * 24 * Hour) notBefore) with (90 * 24 * Hour)
    by (rewrite Sub_exact; unfold is_int64, minDuration, maxDuration, Hour, Minute, Second; lia).
  assert (wrap64 (- renewal_window (90 * 24 * Hour) DefaultRenewalWindowRatio) = - (30 * 24 * Hour)) as Hw
    by (vm_compute; reflexivity).
  assert ((if float64_eqb ratio (S754_zero false) then DefaultRenewalWindowRatio else ratio)
          = DefaultRenewalWindowRatio) as -> by (by destruct Hr as [-> | ->]).
  rewrite Hw. f_equal. lia.
Qed.

Lemma renewal_window_rule_witness :
  currentlyInRenewalWindow (60 * 24 * Hour + 1) 0 (90 * 24 * Hour) (S754_zero false) = true.
Proof.
  etransitivity; [eapply (renewal_window_rule (60 * 24 * Hour + 1) (60 * 24 * Hour + 1) 0 (90 * 24 * Hour)) |].
  - apply Z.le_refl.
  - vm_compute. reflexivity.
  - vm_compute. discriminate.
  - by left.
  - vm_compute. reflexivity.
Defined.
