(* ===== verification/Cache.v ===== *)
(** The in-memory certificate cache of [src/cache.go].

    [cacheMaps] holds the two Go maps; every operation that runs under the
    cache's mutex is one function on it. [removeCertificate] edits a slice
    while ranging over it, so its loop is modelled on the backing array. *)
From Stdlib Require Import Ascii.
From stdpp Require Import base tactics list strings sets gmap.
From Stdlib Require Import ZArith Lia.
From S2P Require Import Prelude GoTime GoStrings Net Certificates.

Local Open Scope string_scope.

Record cacheMaps := mkMaps {
  cache : gmap string Certificate;
  cacheIndex : gmap string (list string)
}.

Definition empty_maps : cacheMaps := {| cache := ∅; cacheIndex := ∅ |}.

(** [certCache.cacheIndex[name]]: nil when there is no entry. *)
Definition keys (c : cacheMaps) (name : string) : list string := default [] (cacheIndex c !! name).

(** A map read returns the zero value when the key is absent. *)
Definition get (c : cacheMaps) (key : string) : Certificate := default zeroCert (cache c !! key).

(** * Options and configuration lookup *)

Section Options.
(** A [Config], and the cache its [certCache] field points to (nil is [None]). *)
Context {Config : Type} (config_cache : Config -> option nat).

Record CacheOptions := mkOptions {
  GetConfigForCert : option (Certificate -> res (option Config));
  OCSPCheckInterval : Z;
  RenewCheckInterval : Z
}.

Definition DefaultRenewCheckInterval : Z := 10 * Minute.
Definition DefaultOCSPCheckInterval : Z := 1 * Hour.

Definition NewCache (opts : CacheOptions) : res (CacheOptions * cacheMaps) :=
  let ocspInterval := if (OCSPCheckInterval opts <=? 0)%Z
                      then DefaultOCSPCheckInterval else OCSPCheckInterval opts in
  let renewInterval := if (RenewCheckInterval opts <=? 0)%Z
                       then DefaultRenewCheckInterval else RenewCheckInterval opts in
  match GetConfigForCert opts with
  | None => Panic "cache must be initialized with a GetConfigForCert callback"
  | Some f =>
      Ok ({| GetConfigForCert := Some f; OCSPCheckInterval := ocspInterval;
             RenewCheckInterval := renewInterval |}, empty_maps)
  end.

(** [getConfig] of the cache [self]. *)
Definition getConfig (self : nat) (opts : CacheOptions) (cert : Certificate) : res (option Config) :=
  match GetConfigForCert opts with
  | None => Panic "nil function call"
  | Some f =>
      (let! cfg := f cert in
       match cfg with
       | None => Panic "nil pointer dereference"
       | Some c =>
           match config_cache c with
           | Some p => if bool_decide (p = self) then Ok cfg
                       else Err (ErrStr "config points to different cache")
           | None => Ok cfg
           end
       end)%go
  end.

End Options.

(** * Writing *)

(** One iteration of the loop of [unsyncedCacheCertificate]. *)
Definition add_key (h : string) (index : gmap string (list string)) (name : string)
    : gmap string (list string) :=
  <[name := (default [] (index !! name) ++ [h])%list]> index.

(** [cacheCertificate] is the same under the lock. *)
Definition unsyncedCacheCertificate (cert : Certificate) (c : cacheMaps) : cacheMaps :=
  match cache c !! hash cert with
  | Some _ => c
  | None =>
      {| cache := <[hash cert := cert]> (cache c);
         cacheIndex := foldl (add_key (hash cert)) (cacheIndex c) (Names cert) |}
  end.

(** The inner loop of [removeCertificate]: [backing] is the array under
    [keyList], [len] the current length of [keyList]. The range clause goes
    over the original slice, so it sees what [append] has moved; slicing
    [keyList[i+1:]] past the end panics ([None]). *)
Fixpoint remove_loop (h : string) (todo i : nat) (backing : list string) (len : nat)
    : option (list string * nat) :=
  match todo with
  | O => Some (backing, len)
  | S todo' =>
      match backing !! i with
      | None => None
      | Some cacheKey =>
          if bool_decide (cacheKey = h) then
            if (len <? S i)%nat then None
            else
              let moved := take (len - S i) (drop (S i) backing) in
              let len' := (i + length moved)%nat in
              remove_loop h todo' (S i) (take i backing ++ moved ++ drop len' backing)%list len'
          else remove_loop h todo' (S i) backing len
      end
  end.

(** [keyList] after the loop. *)
Definition remove_key (h : string) (keyList : list string) : option (list string) :=
  '(backing, len) ← remove_loop h (length keyList) 0 keyList (length keyList);
  Some (take len backing).

(** The outer loop over [cert.Names]. *)
Fixpoint remove_names (h : string) (names : list string) (index : gmap string (list string))
    : res (gmap string (list string)) :=
  match names with
  | [] => Ok index
  | name :: rest =>
      match remove_key h (default [] (index !! name)) with
      | None => Panic "slice bounds out of range"
      | Some [] => remove_names h rest (delete name index)
      | Some keyList => remove_names h rest (<[name := keyList]> index)
      end
  end.

Definition removeCertificate (cert : Certificate) (c : cacheMaps) : res cacheMaps :=
  (let! index := remove_names (hash cert) (Names cert) (cacheIndex c) in
   Ok {| cache := delete (hash cert) (cache c); cacheIndex := index |})%go.

Definition replaceCertificate (oldCert newCert : Certificate) (c : cacheMaps) : res cacheMaps :=
  (let! c' := removeCertificate oldCert c in
   match Leaf (tls newCert) with
   | Some _ => Ok (unsyncedCacheCertificate newCert c')
   | None => Panic "nil pointer dereference"      (* the log line reads newCert.Leaf *)
   end)%go.

(** * Reading *)

Definition getAllMatchingCerts (c : cacheMaps) (name : string) : list Certificate :=
  get c <$> keys c name.

Definition getFirstMatchingCert (c : cacheMaps) (name : string) : res (Certificate * bool) :=
  let all := getAllMatchingCerts c name in
  if (length all =? 0)%nat then
    match all with
    | first :: _ => Ok (first, true)
    | [] => Panic "index out of range"
    end
  else Ok (zeroCert, false).

(** In the unspecified order of a Go map iteration; the model's order is one. *)
Definition getAllCerts (c : cacheMaps) : list Certificate := snd <$> map_to_list (cache c).

Definition AllMatchingCertificates (c : cacheMaps) (name : string) : list Certificate :=
  getAllMatchingCerts c name ++ mjoin (getAllMatchingCerts c <$> wildcard_candidates name).

(** * Lemmas *)

(** ** The slice loop *)

Lemma remove_loop_absent h todo : forall i backing len,
  (i + todo <= length backing)%nat ->
  (forall j, (i <= j < i + todo)%nat -> backing !! j <> Some h) ->
  remove_loop h todo i backing len = Some (backing, len).
Proof.
  induction todo as [|todo IH]; intros i backing len Hl Ha; [done |]. cbn [remove_loop].
  destruct (lookup_lt_is_Some_2 backing i ltac:(lia)) as [k Hk]. rewrite Hk.
  rewrite bool_decide_eq_false_2 by (intros ->; apply (Ha i); [lia | done]).
  apply IH; [lia |]. intros j Hj. apply Ha. lia.
Qed.

Lemma remove_loop_skip h l1 : forall todo i backing len,
  h ∉ l1 -> take (length l1) (drop i backing) = l1 ->
  remove_loop h (length l1 + todo) i backing len = remove_loop h todo (i + length l1) backing len.
Proof.
  induction l1 as [|k l1 IH]; intros todo i backing len Hn Ht; cbn [length Nat.add].
  - by rewrite Nat.add_0_r.
  - cbn [remove_loop]. assert (backing !! i = Some k) as Hk.
    { rewrite <- (Nat.add_0_r i), <- lookup_drop. cbn [length take] in Ht.
      destruct (drop i backing); [done |]. by injection Ht as -> _. }
    rewrite Hk, bool_decide_eq_false_2 by set_solver.
    rewrite IH; [f_equal; lia | set_solver |].
    rewrite (drop_S _ _ _ Hk) in Ht. by injection Ht.
Qed.

Lemma remove_key_absent h l : h ∉ l -> remove_key h l = Some l.
Proof.
  intros Hn. unfold remove_key. rewrite remove_loop_absent; [by cbn; rewrite firstn_all | lia |].
  intros j _ Hj. by apply Hn, (list_elem_of_lookup_2 _ j).
Qed.

Lemma remove_key_once h l1 l2 :
  h ∉ l1 -> h ∉ l2 -> remove_key h (l1 ++ h :: l2) = Some (l1 ++ l2)%list.
Proof.
  intros H1 H2. unfold remove_key. rewrite length_app. cbn [length].
  rewrite remove_loop_skip by (try done; by rewrite drop_0, take_app_length). cbn [Nat.add remove_loop].
  rewrite list_lookup_middle by done. rewrite bool_decide_eq_true_2 by done.
  rewrite (proj2 (Nat.ltb_ge _ _)) by lia.
  replace (drop (S (length l1)) (l1 ++ h :: l2)) with l2
    by (rewrite drop_app_ge by lia; by replace (S (length l1) - length l1)%nat with 1%nat by lia).
  replace (length l1 + S (length l2) - S (length l1))%nat with (length l2) by lia.
  rewrite firstn_all, take_app_length.
  destruct (drop (length l1 + length l2) (l1 ++ h :: l2)) as [|e [|e' r]] eqn:Hd.
  - apply (f_equal length) in Hd. rewrite length_drop, length_app in Hd. cbn in Hd. lia.
  - rewrite remove_loop_absent.
    + cbn. by rewrite app_assoc, <- length_app, take_app_length.
    + rewrite !length_app. cbn. lia.
    + intros j Hj Hlk. apply list_elem_of_lookup_2 in Hlk as Hin.
      rewrite lookup_app_r in Hlk by lia. destruct (decide (j - length l1 < length l2)%nat).
      * rewrite lookup_app_l in Hlk by done. by eapply H2, list_elem_of_lookup_2.
      * replace (j - length l1)%nat with (length l2) in Hlk by lia.
        rewrite list_lookup_middle in Hlk by done. injection Hlk as ->.
        assert ((l1 ++ h :: l2)%list !! (length l1 + length l2)%nat = Some h) as Hlast
          by (rewrite <- (Nat.add_0_r (_ + _)), <- lookup_drop; by rewrite Hd).
        rewrite lookup_app_r in Hlast by lia. replace (length l1 + length l2 - length l1)%nat
          with (length l2) in Hlast by lia.
        destruct l2 as [|x l2]; [cbn in Hj; lia |].
        apply H2, (list_elem_of_lookup_2 _ (length l2)). exact Hlast.
  - apply (f_equal length) in Hd. rewrite length_drop, length_app in Hd. cbn in Hd. lia.
Qed.

Lemma remove_key_spec h l :
  NoDup l -> exists l', remove_key h l = Some l' /\ NoDup l' /\ forall x, x ∈ l' <-> x ∈ l /\ x <> h.
Proof.
  intros Hnd. destruct (decide (h ∈ l)) as [Hin | Hin].
  - apply list_elem_of_split in Hin as (l1 & l2 & ->).
    apply NoDup_app in Hnd as (Hn1 & Hd & Hn2). apply NoDup_cons in Hn2 as [Hh2 Hn2].
    assert (h ∉ l1) as Hh1 by (intros ?; apply (Hd h); [done | by left]).
    exists (l1 ++ l2)%list. split; [by apply remove_key_once |]. split.
    + apply NoDup_app. split; [done |]. split; [| done]. set_solver.
    + set_solver.
  - exists l. split; [by apply remove_key_absent |]. split; [done |]. set_solver.
Qed.

(** A key that was appended twice: the second match slices past the end. *)
Lemma remove_key_twice h l : h ∉ l -> remove_key h (l ++ [h; h]) = None.
Proof.
  intros Hn. unfold remove_key. rewrite length_app. cbn [length].
  rewrite remove_loop_skip by (try done; by rewrite drop_0, take_app_length). cbn [Nat.add remove_loop].
  rewrite list_lookup_middle by done. rewrite bool_decide_eq_true_2 by done.
  rewrite (proj2 (Nat.ltb_ge _ _)) by lia.
  replace (length l + 2 - S (length l))%nat with 1%nat by lia.
  rewrite drop_app_ge by lia. replace (S (length l) - length l)%nat with 1%nat by lia.
  cbn [drop take length]. rewrite take_app_length, drop_app_ge by lia.
  replace (length l + 1 - length l)%nat with 1%nat by lia. cbn [drop app].
  rewrite lookup_app_r by lia.
  replace (S (length l) - length l)%nat with 1%nat by lia. cbn [lookup list_lookup].
  rewrite bool_decide_eq_true_2 by done. by rewrite (proj2 (Nat.ltb_lt _ _)) by lia.
Qed.

(** ** The index *)

Lemma add_keys_lookup h names : forall index name,
  NoDup names ->
  foldl (add_key h) index names !! name =
    if bool_decide (name ∈ names) then Some (default [] (index !! name) ++ [h])%list
    else index !! name.
Proof.
  induction names as [|n names IH]; intros index name Hnd; cbn [foldl].
  - by rewrite bool_decide_eq_false_2 by apply not_elem_of_nil.
  - apply NoDup_cons in Hnd as [Hn Hnd]. rewrite IH by done. unfold add_key.
    destruct (decide (name = n)) as [-> | Hne].
    + rewrite bool_decide_eq_false_2, bool_decide_eq_true_2 by set_solver.
      by rewrite lookup_insert_eq.
    + rewrite lookup_insert_ne by done.
      by rewrite (bool_decide_ext (name ∈ n :: names) (name ∈ names)) by set_solver.
Qed.

Lemma add_keys_other h names : forall index name,
  name ∉ names -> foldl (add_key h) index names !! name = index !! name.
Proof.
  induction names as [|n names IH]; intros index name Hn; [done |]. cbn [foldl].
  rewrite IH by set_solver. unfold add_key. rewrite lookup_insert_ne by set_solver. done.
Qed.

(** The entry of one name after the removal of a key. *)
Definition removed (h : string) (o o' : option (list string)) : Prop :=
  o' <> Some [] /\ NoDup (default [] o') /\
  forall x, x ∈ default [] o' <-> x ∈ default [] o /\ x <> h.

Lemma remove_names_spec h names : forall index,
  (forall name, NoDup (default [] (index !! name))) ->
  exists index', remove_names h names index = Ok index' /\
    forall name, (name ∉ names -> index' !! name = index !! name) /\
                 (name ∈ names -> removed h (index !! name) (index' !! name)).
Proof.
  induction names as [|n names IH]; intros index Hnd.
  { exists index. split; [done |]. intros name. split; [done |]. by intros ?%elem_of_nil. }
  cbn [remove_names]. destruct (remove_key_spec h _ (Hnd n)) as (l' & -> & Hnd' & Hl').
  set (index1 := match l' with [] => delete n index | _ => <[n := l']> index end).
  assert (default [] (index1 !! n) = l' /\ index1 !! n <> Some [] /\
          forall name, name <> n -> index1 !! name = index !! name) as (H1 & H2 & H3).
  { subst index1. destruct l'; (split; [by rewrite ?lookup_delete_eq, ?lookup_insert_eq |]);
      (split; [by rewrite ?lookup_delete_eq, ?lookup_insert_eq |]); intros name Hne;
      by rewrite ?lookup_delete_ne, ?lookup_insert_ne. }
  destruct (IH index1) as (index' & Hrn & Hi).
  { intros name. destruct (decide (name = n)) as [-> | Hne]; [by rewrite H1 | by rewrite H3]. }
  exists index'. split; [by subst index1; destruct l' |]. intros name. destruct (Hi name) as [Hi1 Hi2]. split.
  - intros Hn. rewrite Hi1, H3 by set_solver. done.
  - intros Hin0. destruct (decide (name = n)) as [-> | Hne].
    + destruct (decide (n ∈ names)) as [Hin | Hin].
      * destruct (Hi2 Hin) as (Ha & Hb & Hc). split; [done |]. split; [done |].
        intros x. rewrite Hc, H1, Hl'. tauto.
      * rewrite Hi1 by done. split; [done |]. rewrite H1. by split.
    + destruct (decide (name ∈ names)) as [Hin | Hin].
      * rewrite <- H3 by done. by apply Hi2.
      * exfalso. apply elem_of_cons in Hin0. tauto.
Qed.

(** ** Well-formed caches *)

Record wf (c : cacheMaps) : Prop := {
  wf_cert : forall h cert, cache c !! h = Some cert -> hash cert = h /\ NoDup (Names cert);
  wf_nonempty : forall name, cacheIndex c !! name <> Some [];
  wf_nodup : forall name, NoDup (keys c name);
  wf_keys : forall name h,
    h ∈ keys c name <-> exists cert, cache c !! h = Some cert /\ name ∈ Names cert
}.

Lemma empty_wf : wf empty_maps.
Proof.
  split; cbn; try done.
  - intros name. apply NoDup_nil_2.
  - intros name h. split; [by intros ?%elem_of_nil | by intros (? & ? & _)].
Qed.

(** What may be removed: a certificate that is not cached, or one cached under
    the same names. *)
Definition same_names (cert : Certificate) (c : cacheMaps) : Prop :=
  forall cert', cache c !! hash cert = Some cert' -> Names cert' = Names cert.

Lemma cacheCertificate_wf cert c :
  wf c -> NoDup (Names cert) -> wf (unsyncedCacheCertificate cert c).
Proof.
  intros [Hc Hne Hnd Hk] Hn. unfold unsyncedCacheCertificate.
  destruct (cache c !! hash cert) eqn:Hl; [done |].
  assert (forall name, hash cert ∉ keys c name) as Hfresh
    by (intros name (? & ? & _)%Hk; congruence).
  split; cbn [cache cacheIndex]; unfold keys; cbn [cacheIndex].
  - intros h cert'. rewrite lookup_insert. case_decide; [by intros [= <-] | apply Hc].
  - intros name. rewrite add_keys_lookup by done. case_bool_decide; [| apply Hne].
    by destruct (default [] (cacheIndex c !! name)).
  - intros name. rewrite add_keys_lookup by done. case_bool_decide; [| apply Hnd].
    apply NoDup_app. split; [apply Hnd |]. split; [| apply NoDup_singleton].
    intros x Hx ->%list_elem_of_singleton. by apply (Hfresh name).
  - intros name h. rewrite add_keys_lookup by done. fold (keys c name).
    specialize (Hk name h). specialize (Hfresh name).
    destruct (decide (hash cert = h)) as [<- | Hneq].
    + rewrite lookup_insert_eq. case_bool_decide; cbn [from_option id]; [set_solver |].
      split; [done |]. intros (? & [= <-] & ?). done.
    + rewrite lookup_insert_ne, <- Hk by done. unfold keys.
      case_bool_decide; cbn [from_option id]; [| done].
      rewrite elem_of_app, list_elem_of_singleton. split; [intros [? | ?]; congruence | tauto].
Qed.

Lemma removeCertificate_wf cert c :
  wf c -> same_names cert c ->
  exists c', removeCertificate cert c = Ok c' /\ wf c' /\ cache c' = delete (hash cert) (cache c).
Proof.
  intros [Hc Hne Hnd Hk] Hs. unfold removeCertificate.
  destruct (remove_names_spec (hash cert) (Names cert) (cacheIndex c) Hnd) as (index' & -> & Hi).
  eexists. split; [reflexivity |]. split; [| done].
  assert (forall name h, h ∈ default [] (index' !! name) <-> h ∈ keys c name /\ h <> hash cert) as Hkeys.
  { intros name h. destruct (Hi name) as [Hi1 Hi2]. destruct (decide (name ∈ Names cert)) as [Hin | Hin].
    - destruct (Hi2 Hin) as (_ & _ & Hx). by rewrite Hx.
    - rewrite Hi1 by done. fold (keys c name). split; [| tauto]. intros Hh. split; [done |]. intros ->.
      apply Hk in Hh as (cert' & Hl & Hn). by rewrite (Hs cert' Hl) in Hn. }
  split; cbn [cache cacheIndex]; unfold keys; cbn [cacheIndex].
  - intros h cert' [_ Hl]%lookup_delete_Some. by apply Hc.
  - intros name. destruct (Hi name) as [Hi1 Hi2]. destruct (decide (name ∈ Names cert)) as [Hin | Hin].
    + apply (Hi2 Hin).
    + by rewrite Hi1.
  - intros name. destruct (Hi name) as [Hi1 Hi2]. destruct (decide (name ∈ Names cert)) as [Hin | Hin].
    + apply (Hi2 Hin).
    + rewrite Hi1 by done. apply Hnd.
  - intros name h. rewrite Hkeys, Hk. setoid_rewrite lookup_delete_Some. naive_solver.
Qed.

(** ** Lookups *)

Lemma elem_of_matching c name cert :
  wf c -> cert ∈ getAllMatchingCerts c name <-> cache c !! hash cert = Some cert /\ name ∈ Names cert.
Proof.
  intros [Hc _ _ Hk]. unfold getAllMatchingCerts. rewrite list_elem_of_fmap. split.
  - intros (h & -> & Hh). apply Hk in Hh as (cert & Hl & Hn). unfold get. rewrite Hl. cbn [from_option id].
    destruct (Hc _ _ Hl) as [-> _]. done.
  - intros [Hl Hn]. exists (hash cert). unfold get. rewrite Hl. split; [done |]. apply Hk. by exists cert.
Qed.

Lemma matching_nodup c name : wf c -> NoDup (getAllMatchingCerts c name).
Proof.
  intros Hwf. unfold getAllMatchingCerts. apply NoDup_fmap_2_strong; [| apply Hwf].
  intros h1 h2 H1 H2 Heq. destruct (wf_keys _ Hwf name h1) as [K1 _]. destruct (wf_keys _ Hwf name h2) as [K2 _].
  destruct (K1 H1) as (c1 & L1 & _), (K2 H2) as (c2 & L2 & _).
  unfold get in Heq. rewrite L1, L2 in Heq. cbn in Heq. subst c2.
  destruct (wf_cert _ Hwf _ _ L1) as [<- _]. by destruct (wf_cert _ Hwf _ _ L2) as [<- _].
Qed.

(** * The abstract cache: a set of certificates keyed by hash *)

Inductive op :=
| OpCache (cert : Certificate)
| OpRemove (cert : Certificate)
| OpReplace (oldCert newCert : Certificate).

Definition apply_op (o : op) (c : cacheMaps) : res cacheMaps :=
  match o with
  | OpCache cert => Ok (unsyncedCacheCertificate cert c)
  | OpRemove cert => removeCertificate cert c
  | OpReplace oldCert newCert => replaceCertificate oldCert newCert c
  end.

Definition put_new (cert : Certificate) (m : gmap string Certificate) : gmap string Certificate :=
  match m !! hash cert with Some _ => m | None => <[hash cert := cert]> m end.

Definition spec_op (o : op) (m : gmap string Certificate) : gmap string Certificate :=
  match o with
  | OpCache cert => put_new cert m
  | OpRemove cert => delete (hash cert) m
  | OpReplace oldCert newCert => put_new newCert (delete (hash oldCert) m)
  end.

(** Certificates that are cached have distinct names and a parsed leaf;
    certificates that are removed have the names they were cached with. *)
Definition valid_op (o : op) (c : cacheMaps) : Prop :=
  match o with
  | OpCache cert => NoDup (Names cert)
  | OpRemove cert => same_names cert c
  | OpReplace oldCert newCert =>
      same_names oldCert c /\ NoDup (Names newCert) /\ Leaf (tls newCert) <> None
  end.

Lemma cacheCertificate_cache cert c :
  cache (unsyncedCacheCertificate cert c) = put_new cert (cache c).
Proof. unfold unsyncedCacheCertificate, put_new. by destruct (cache c !! hash cert). Qed.

(** * Properties *)


Definition cert_of (h : string) (names : list string) : Certificate :=
  {| tls := {| chain := [h]; PrivateKey := ""; Leaf := Some example_leaf; staple := "" |};
     Names := names; Tags := []; ocsp := None; hash := h; managed := true |}.


(** C35: [AllMatchingCertificates] and [MatchWildcard] agree: for a name without
    empty labels the lookup returns exactly the cached certificates one of
    whose names matches it, literally or as a wildcard. *)
Theorem AllMatchingCertificates_spec c name cert :
  wf c -> Forall (fun l => l <> "") (Split name ".") ->
  cert ∈ AllMatchingCertificates c name <->
  cache c !! hash cert = Some cert /\ exists n, n ∈ Names cert /\ MatchWildcard name n = true.
Proof.
  intros Hwf HF. unfold AllMatchingCertificates. rewrite elem_of_app, list_elem_of_join.
  setoid_rewrite (list_elem_of_fmap (getAllMatchingCerts c)).
  setoid_rewrite MatchWildcard_candidates; [| done].
  rewrite elem_of_matching by done. split.
  - intros [[Hc Hn] | (l & Hin & cand & -> & Hcand)]; [split; [done | exists name; tauto] |].
    apply elem_of_matching in Hin as [Hc Hn]; [| done]. split; [done | exists cand; tauto].
  - intros (Hc & n & Hn & [-> | Hcand]); [by left |]. right.
    exists (getAllMatchingCerts c n). split; [by apply elem_of_matching | by exists n].
Qed.

Lemma AllMatchingCertificates_spec_witness :
  cert_of "h" ["*.a.com"] ∈
    AllMatchingCertificates (unsyncedCacheCertificate (cert_of "h" ["*.a.com"]) empty_maps) "www.a.com".
Proof.
  apply AllMatchingCertificates_spec.
  - apply cacheCertificate_wf; [apply empty_wf | apply NoDup_singleton].
  - apply (bool_decide_unpack _). vm_compute. exact I.
  - split; [vm_compute; reflexivity |]. exists "*.a.com". split; [by left | vm_compute; reflexivity].
Defined.

(** [getFirstMatchingCert] has its test upside down: it panics when no
    certificate matches and finds nothing when one does. *)
Theorem getFirstMatchingCert_inverted c name :
  (getAllMatchingCerts c name = [] -> getFirstMatchingCert c name = Panic "index out of range") /\
  (getAllMatchingCerts c name <> [] -> getFirstMatchingCert c name = Ok (zeroCert, false)).
Proof.
  unfold getFirstMatchingCert. split; [by intros -> |]. by destruct (getAllMatchingCerts c name).
Qed.

(** A certificate that bears a name twice cannot be removed from the cache:
    in every well-formed cache, removing it right after it was cached makes
    the slice expression panic. [fillCertFromLeaf] builds such certificates
    from a common name and a SAN that differ in case only. *)
Theorem duplicate_name_panics cert c n rest :
  wf c -> cache c !! hash cert = None -> Names cert = (n :: n :: rest)%list -> n ∉ rest ->
  removeCertificate cert (unsyncedCacheCertificate cert c) = Panic "slice bounds out of range".
Proof.
  intros Hwf Hl Hn Hr. unfold unsyncedCacheCertificate, removeCertificate. rewrite Hl, Hn.
  cbn [cacheIndex foldl remove_names]. rewrite add_keys_other by done.
  unfold add_key. rewrite !lookup_insert_eq. cbn [from_option id]. fold (keys c n).
  rewrite <- app_assoc. cbn [app]. rewrite remove_key_twice; [done |].
  intros (? & ? & _)%(wf_keys _ Hwf). congruence.
Qed.

Lemma duplicate_name_panics_witness :
  exists cert, @fillCertFromLeaf ascii_tables example_lib example_tls = Ok cert /\
    removeCertificate cert (unsyncedCacheCertificate cert empty_maps) = Panic "slice bounds out of range".
Proof.
  eexists. split; [vm_compute; reflexivity |].
  eapply (duplicate_name_panics _ empty_maps "example.com" ["www.example.com"; "10.0.0.1"]).
  - apply empty_wf.
  - reflexivity.
  - reflexivity.
  - apply (bool_decide_unpack _). vm_compute. exact I.
Defined.
