(* ===== verification/Crypto.v ===== *)
(** The private keys of [src/crypto.go]: generation, PEM encoding and decoding,
    certificate bundles and the names of a certificate request.

    DER marshalling and PEM framing are the methods of [KeyLib]; their laws
    are what the packages document: parsing gives back what was marshalled,
    and each parser rejects the other formats. *)
From Stdlib Require Import Ascii.
From stdpp Require Import base tactics list strings.
From Stdlib Require Import ZArith Lia.
From S2P Require Import Prelude GoStrings Net Certificates.

Local Open Scope string_scope.

(** * Keys *)

(** [crypto.PrivateKey] by its dynamic type; [ed25519.PrivateKey] is a slice
    type, so the value and the pointer to it are different types. *)
Inductive PrivateKey :=
| EcdsaKey (k : string)         (* *ecdsa.PrivateKey *)
| RsaKey (k : string)           (* *rsa.PrivateKey *)
| Ed25519Key (k : string)       (* ed25519.PrivateKey *)
| Ed25519KeyPtr (k : string)    (* *ed25519.PrivateKey *)
| OtherKey (k : string).

#[export] Instance PrivateKey_eq_dec : EqDecision PrivateKey.
Proof. solve_decision. Defined.

(** What the key generators of the standard library are asked for. *)
Inductive algorithm := AlgEd25519 | AlgP256 | AlgP384 | AlgRSA (bits : Z).

Class KeyLib := {
  keygen : algorithm -> res string;         (* with crypto/rand as the source *)
  MarshalEC : string -> res string;
  MarshalPKCS1 : string -> string;
  MarshalPKCS8 : PrivateKey -> res string;
  ParsePKCS1 : string -> option string;
  ParsePKCS8 : string -> option PrivateKey;
  ParseEC : string -> option string;
  pem_encode : string -> string -> string;  (* block type, bytes *)
  pem_decode : string -> option (string * string * string)  (* type, bytes, rest *)
}.

Class KeyLibLaws (K : KeyLib) : Prop := {
  pkcs1_roundtrip k : ParsePKCS1 (MarshalPKCS1 k) = Some k;
  ec_roundtrip k der : MarshalEC k = Ok der -> ParseEC der = Some k;
  ec_not_pkcs1 k der : MarshalEC k = Ok der -> ParsePKCS1 der = None;
  ec_not_pkcs8 k der : MarshalEC k = Ok der -> ParsePKCS8 der = None;
  pem_roundtrip t der : pem_decode (pem_encode t der) = Some (t, der, "");
  pem_progress s t der rest :
    pem_decode s = Some (t, der, rest) -> (String.length rest < String.length s)%nat
}.

(** * Key types *)

Definition ED25519 : string := "ed25519".
Definition P256 : string := "p256".
Definition P384 : string := "p384".
Definition RSA2048 : string := "rsa2048".
Definition RSA4096 : string := "rsa4096".
Definition RSA8192 : string := "rsa8192".

Definition DefaultKeyGenerator : string := P256.

Section Keys.
Context {K : KeyLib}.

(** [StandardKeyGenerator.GenerateKey], given the [KeyType] field. *)
Definition GenerateKey (KeyType : string) : res PrivateKey :=
  (if bool_decide (KeyType = ED25519) then
     let! priv := keygen AlgEd25519 in Ok (Ed25519Key priv)
   else if bool_decide (KeyType = "") || bool_decide (KeyType = P256) then
     let! priv := keygen AlgP256 in Ok (EcdsaKey priv)
   else if bool_decide (KeyType = P384) then
     let! priv := keygen AlgP384 in Ok (EcdsaKey priv)
   else if bool_decide (KeyType = RSA2048) then
     let! priv := keygen (AlgRSA 2048) in Ok (RsaKey priv)
   else if bool_decide (KeyType = RSA4096) then
     let! priv := keygen (AlgRSA 4096) in Ok (RsaKey priv)
   else if bool_decide (KeyType = RSA8192) then
     let! priv := keygen (AlgRSA 8192) in Ok (RsaKey priv)
   else Err (ErrStr "unrecognized or unsupported key type"))%go.

Definition encodePrivateKey (key : PrivateKey) : res string :=
  (let! (pemType, keyBytes) :=
     match key with
     | EcdsaKey k => let! b := MarshalEC k in Ok ("EC", b)
     | RsaKey k => Ok ("RSA", MarshalPKCS1 k)
     | Ed25519KeyPtr _ => let! b := MarshalPKCS8 key in Ok ("ED25519", b)
     | _ => Err (ErrStr "unsupported key type")
     end in
   Ok (pem_encode (pemType +:+ " PRIVATE KEY") keyBytes))%go.

(** [pem.Decode] returns a nil block when there is none, and its Type is read. *)
Definition decodePrivateKey (keyPEMBytes : string) : res PrivateKey :=
  match pem_decode keyPEMBytes with
  | None => Panic "nil pointer dereference"
  | Some (blockType, der, _) =>
      if negb (bool_decide (blockType = "PRIVATE KEY")) && negb (HasSuffix blockType " PRIVATE KEY")
      then Err (ErrStr "unknown PEM header")
      else
        match ParsePKCS1 der with
        | Some key => Ok (RsaKey key)
        | None =>
            match ParsePKCS8 der with
            | Some key =>
                match key with
                | RsaKey _ | EcdsaKey _ | Ed25519Key _ => Ok key
                | _ => Err (ErrStr "found unknown private key type in PKCS#8 wrapping")
                end
            | None =>
                match ParseEC der with
                | Some key => Ok (EcdsaKey key)
                | None => Err (ErrStr "unknown private key type")
                end
            end
        end
  end.

(** ** Certificate bundles *)

(** The loop of [parseCertsFromPEMBundle]. *)
Fixpoint parse_bundle {L : CertLib} (fuel : nat) (bundle : string) (certificates : list x509Cert)
    : option (res (list x509Cert)) :=
  match fuel with
  | O => None
  | S fuel' =>
      match pem_decode bundle with
      | None =>
          Some (if bool_decide (certificates = []) then Err (ErrStr "no certificates found in bundle")
                else Ok certificates)
      | Some (blockType, der, rest) =>
          if bool_decide (blockType = "CERTIFICATE") then
            match ParseCertificate der with
            | Ok cert => parse_bundle fuel' rest (certificates ++ [cert])%list
            | Err e => Some (Err e)
            | Panic m => Some (Panic m)
            end
          else parse_bundle fuel' rest certificates
      end
  end.

(** Every block shortens the rest, so the length of the bundle is fuel enough. *)
Definition parseCertsFromPEMBundle {L : CertLib} (bundle : string) : res (list x509Cert) :=
  default (Panic "fuel") (parse_bundle (S (String.length bundle)) bundle []).

End Keys.

(** * Certificate requests *)

(** The fields of [x509.CertificateRequest] the program uses. *)
Record CertificateRequest := mkCSR {
  csr_DNSNames : list string;
  csr_EmailAddresses : list string;
  csr_IPAddresses : list IP;
  csr_URIs : list string;          (* by their String method *)
  csr_MustStaple : bool            (* the extension of mustStapleExtension *)
}.

Definition namesFromCSR (csr : CertificateRequest) : list string :=
  csr_DNSNames csr ++ csr_EmailAddresses csr ++ (IP_String <$> csr_IPAddresses csr) ++ csr_URIs csr.

(** * Lemmas *)

#[local] Arguments String.append : simpl nomatch.

Lemma HasSuffix_app s t : HasSuffix (s +:+ t) t = true.
Proof.
  induction s as [|c s IH].
  - change ("" +:+ t) with t. destruct t; [done |]. cbn [HasSuffix]. by rewrite bool_decide_eq_true_2.
  - rewrite app_cons_str. cbn [HasSuffix]. rewrite IH. apply orb_true_r.
Qed.

Section Laws.
Context {K : KeyLib} {KL : KeyLibLaws K}.

Lemma decode_encode_EC k pem : encodePrivateKey (EcdsaKey k) = Ok pem -> decodePrivateKey pem = Ok (EcdsaKey k).
Proof.
  unfold encodePrivateKey, decodePrivateKey. destruct (MarshalEC k) as [der | |] eqn:Hm; [| done | done].
  cbn [res_bind]. intros [= <-]. rewrite pem_roundtrip.
  change (HasSuffix ("EC" +:+ " PRIVATE KEY") " PRIVATE KEY") with true. rewrite andb_false_r.
  by rewrite (ec_not_pkcs1 k der Hm), (ec_not_pkcs8 k der Hm), (ec_roundtrip k der Hm).
Qed.

Lemma decode_encode_RSA k pem : encodePrivateKey (RsaKey k) = Ok pem -> decodePrivateKey pem = Ok (RsaKey k).
Proof.
  unfold encodePrivateKey, decodePrivateKey. cbn [res_bind]. intros [= <-]. rewrite pem_roundtrip.
  change (HasSuffix ("RSA" +:+ " PRIVATE KEY") " PRIVATE KEY") with true. rewrite andb_false_r.
  by rewrite pkcs1_roundtrip.
Qed.

Lemma parse_bundle_enough {L : CertLib} : forall fuel bundle certs,
  (String.length bundle < fuel)%nat -> parse_bundle fuel bundle certs <> None.
Proof.
  induction fuel as [|fuel IH]; intros bundle certs Hf; [lia |]. cbn [parse_bundle].
  destruct (pem_decode bundle) as [[[t der] rest]|] eqn:Hd; [| done].
  apply pem_progress in Hd. case_bool_decide; [case_match; try done |]; apply IH; lia.
Qed.

Lemma parse_bundle_Ok {L : CertLib} : forall fuel bundle certs out,
  parse_bundle fuel bundle certs = Some (Ok out) -> out <> [] /\ exists more, out = (certs ++ more)%list.
Proof.
  induction fuel as [|fuel IH]; intros bundle certs out; [done |]. cbn [parse_bundle].
  destruct (pem_decode bundle) as [[[t der] rest]|].
  - case_bool_decide; [case_match; [| done | done] |]; intros (Hne & more & ->)%IH; (split; [done |]).
    + eexists. by rewrite <- app_assoc.
    + by eexists.
  - case_bool_decide; [done |]. intros [= <-]. split; [done |]. exists []. by rewrite app_nil_r.
Qed.
End Laws.

(** The key a generated key of this type should become. *)
Lemma GenerateKey_shape {K : KeyLib} kt key :
  GenerateKey kt = Ok key ->
  (kt = ED25519 /\ exists k, key = Ed25519Key k) \/
  (kt <> ED25519 /\ ((exists k, key = EcdsaKey k) \/ exists k, key = RsaKey k)).
Proof.
  unfold GenerateKey. intros H.
  repeat (case_bool_decide; cbn [orb] in H);
    try (destruct (keygen _); cbn [res_bind] in H; simplify_eq; eauto 6); done.
Qed.

(** * Properties *)

(** Private keys survive storage: what [GenerateKey] makes for every key
    type other than Ed25519 is decoded again from its PEM encoding, unchanged;
    but an Ed25519 key is generated as a value and only the pointer type is
    encoded, so with that key type encoding always fails and no certificate
    can ever be obtained. *)
Theorem key_roundtrip {K : KeyLib} {KL : KeyLibLaws K} KeyType key :
  GenerateKey KeyType = Ok key ->
  (KeyType <> ED25519 -> forall pem, encodePrivateKey key = Ok pem -> decodePrivateKey pem = Ok key) /\
  (KeyType = ED25519 -> encodePrivateKey key = Err (ErrStr "unsupported key type")).
Proof.
  intros [[-> [k ->]] | [Hne [[k ->] | [k ->]]]]%GenerateKey_shape; (split; [| done]); intros Hk pem He.
  - done.
  - by apply decode_encode_EC.
  - by apply decode_encode_RSA.
Qed.

(** A library that tags what it marshals, and frames a block with the length
    of its type in unary. *)
Fixpoint ones (n : nat) : string := match n with O => "" | S n' => String "1" (ones n') end.

Definition tag_lib : KeyLib := {|
  keygen _ := Ok "secret";
  MarshalEC k := Ok (String "E" k);
  MarshalPKCS1 k := String "R" k;
  MarshalPKCS8 _ := Err (ErrStr "not supported");
  ParsePKCS1 der := match der with String "R" k => Some k | _ => None end;
  ParsePKCS8 _ := None;
  ParseEC der := match der with String "E" k => Some k | _ => None end;
  pem_encode t der := ones (String.length t) +:+ (String "." (t +:+ der));
  pem_decode s := match IndexByte s "." with
                  | Some n => let r := drop_bytes (S n) s in Some (take_bytes n r, drop_bytes n r, "")
                  | None => None
                  end
|}.

Lemma frame_roundtrip n r :
  IndexByte (ones n +:+ String "." r) "." = Some n /\ drop_bytes (S n) (ones n +:+ String "." r) = r.
Proof.
  induction n as [|n [IH1 IH2]]; [done |]. cbn [ones]. rewrite app_cons_str. split.
  - cbn [IndexByte]. by rewrite bool_decide_eq_false_2, IH1.
  - exact IH2.
Qed.

Lemma tag_laws : KeyLibLaws tag_lib.
Proof.
  split; cbn [tag_lib keygen MarshalEC MarshalPKCS1 ParsePKCS1 ParsePKCS8 ParseEC pem_encode pem_decode].
  - done.
  - by intros k der [= <-].
  - by intros k der [= <-].
  - done.
  - intros t der. destruct (frame_roundtrip (String.length t) (t +:+ der)) as [-> H2].
    cbv zeta. rewrite H2, take_bytes_app, drop_bytes_app. done.
  - intros s t der rest. destruct (IndexByte s ".") eqn:Hi; [| done]. intros [= _ _ <-].
    destruct s; [done | cbn [String.length]; lia].
Qed.

Lemma key_roundtrip_witness :
  exists pem, @encodePrivateKey tag_lib (EcdsaKey "secret") = Ok pem /\
              @decodePrivateKey tag_lib pem = Ok (EcdsaKey "secret").
Proof.
  eexists. split; [reflexivity |].
  apply (proj1 (@key_roundtrip tag_lib tag_laws P256 (EcdsaKey "secret") eq_refl)); [discriminate |].
  reflexivity.
Defined.

(** [parseCertsFromPEMBundle] terminates on every bundle, and when it
    succeeds the list of certificates is not empty, so that taking its first
    element is safe. *)
Theorem bundle_parsing_total {K : KeyLib} {KL : KeyLibLaws K} {L : CertLib} bundle :
  parse_bundle (S (String.length bundle)) bundle [] = Some (parseCertsFromPEMBundle bundle) /\
  forall certs, parseCertsFromPEMBundle bundle = Ok certs -> certs <> [].
Proof.
  unfold parseCertsFromPEMBundle.
  destruct (parse_bundle (S (String.length bundle)) bundle []) as [r|] eqn:Hp;
    [| by apply parse_bundle_enough in Hp; [| lia]].
  split; [done |]. cbn. intros certs ->. by apply parse_bundle_Ok in Hp as [? _].
Qed.
