(* ===== verification/FileLock.v ===== *)
(** The lock files of [src/filestorage.go]: [Lock], [Unlock] and the goroutine
    that keeps a lock file fresh, for one lock name shared by any number of
    processes.

    Every system call is one atomic step. A file that was opened stays
    reachable through its inode after it is unlinked; the directory entry of
    the lock file is [dir], the existence of the ".unlock" file is [guard].
    [proc_step] is the next step of a process, [keeper_step] that of a
    freshness goroutine; both take a flag that makes the system call they are
    about to do fail with an unexpected error. *)
From stdpp Require Import base tactics list gmap strings relations functions.
From Stdlib Require Import ZArith Lia.
From S2P Require Import Prelude GoTime.

Local Open Scope Z_scope.

Definition lockFreshnessInterval : Z := 5 * Second.
Definition fileLockPollInterval : Z := 1 * Second.

Record lockMeta := mkMeta { Created : Z; Updated : Z }.

Definition fileLockIsStale (now : Z) (meta : lockMeta) : bool :=
  let ref := if IsZero (Updated meta) then Created meta else Updated meta in
  lockFreshnessInterval * 2 <? Since now ref.

(** What all processes share: the clock, the directory and the files. A file
    holds an encoded [lockMeta] or, when it was only created or truncated,
    nothing. *)
Record shared := mkShared {
  now : Z;
  dir : option nat;
  guard : bool;
  inodes : gmap nat (option lockMeta)
}.

Definition content (sh : shared) (i : nat) : option lockMeta := mjoin (inodes sh !! i).

Definition set_dir (d : option nat) (sh : shared) : shared :=
  {| now := now sh; dir := d; guard := guard sh; inodes := inodes sh |}.
Definition set_guard (g : bool) (sh : shared) : shared :=
  {| now := now sh; dir := dir sh; guard := g; inodes := inodes sh |}.
Definition set_content (i : nat) (c : option lockMeta) (sh : shared) : shared :=
  {| now := now sh; dir := dir sh; guard := guard sh; inodes := <[i := c]> (inodes sh) |}.

(** A new inode number. *)
Definition new_inode (sh : shared) : nat := fresh (dom (inodes sh)).

(** What [removeLockfile] returns to. *)
Inductive caller := FromUnlock | FromLock.

(** Where a process is; [Failed] is "returned an error". *)
Inductive pc :=
| Idle
| Creating                        (* Lock: about to create the lock file *)
| Encoding (i : nat)              (* created it, about to write its contents *)
| Clearing                        (* about to remove the .unlock file *)
| Held                            (* Lock has returned nil *)
| Opening                         (* the file existed; about to open it *)
| Decoding (i : nat)              (* about to read it *)
| Judging (meta : lockMeta)       (* about to decide whether it is stale *)
| Sleeping (until : Z)
| Failed
| Guarding (k : caller)           (* removeLockfile: about to create the .unlock file *)
| Removing (k : caller)           (* about to remove the lock file *)
| Unguarding (k : caller) (ok : bool). (* deferred removal of the .unlock file *)

Definition after_remove (k : caller) (ok : bool) : pc :=
  match k with
  | FromUnlock => if ok then Idle else Failed
  | FromLock => Creating          (* Lock ignores the result *)
  end.

(** The next step of a process: the new shared state, where it is then, and
    whether it has started a freshness goroutine. *)
Definition proc_step (io : bool) (sh : shared) (p : pc) : shared * pc * bool :=
  match p with
  | Creating =>
      if io then (sh, Failed, false)
      else
        match dir sh with
        | Some _ => (sh, Opening, false)
        | None =>
            let i := new_inode sh in
            (set_dir (Some i) (set_content i None sh), Encoding i, false)
        end
  | Encoding i =>
      if io then (sh, Failed, false)
      else (set_content i (Some (mkMeta (now sh) (now sh))) sh, Clearing, true)
  | Clearing => (if io then sh else set_guard false sh, Held, false)
  | Opening =>
      if io then (sh, Failed, false)
      else match dir sh with Some i => (sh, Decoding i, false) | None => (sh, Creating, false) end
  | Decoding i =>
      if io then (sh, Failed, false)
      else match content sh i with Some m => (sh, Judging m, false) | None => (sh, Failed, false) end
  | Judging meta =>
      if fileLockIsStale (now sh) meta then (sh, Guarding FromLock, false)
      else (sh, Sleeping (now sh + fileLockPollInterval), false)
  | Sleeping until => (sh, if until <=? now sh then Creating else Sleeping until, false)
  | Guarding k =>
      if io then (sh, after_remove k false, false)
      else if guard sh then (sh, after_remove k true, false)
      else (set_guard true sh, Removing k, false)
  | Removing k =>
      match dir sh with
      | Some _ => if io then (sh, Unguarding k false, false) else (set_dir None sh, Unguarding k true, false)
      | None => (sh, Unguarding k false, false)
      end
  | Unguarding k ok => (if io then sh else set_guard false sh, after_remove k ok, false)
  | Idle | Held | Failed => (sh, p, false)
  end.

(** The freshness goroutine: [updateLockfileFreshness] step by step. *)
Inductive kpc :=
| KSleeping (until : Z)
| KOpening
| KReading (i : nat)
| KTruncating (i : nat) (meta : lockMeta)
| KWriting (i : nat) (meta : lockMeta).

(** [None]: the goroutine has ended. *)
Definition keeper_step (io : bool) (sh : shared) (k : kpc) : shared * option kpc :=
  match k with
  | KSleeping until => (sh, Some (if until <=? now sh then KOpening else k))
  | KOpening =>
      if io then (sh, None)
      else (sh, match dir sh with Some i => Some (KReading i) | None => None end)
  | KReading i =>
      if io then (sh, None)
      else (sh, match content sh i with Some m => Some (KTruncating i m) | None => None end)
  | KTruncating i m =>
      if io then (sh, None) else (set_content i None sh, Some (KWriting i m))
  | KWriting i m =>
      if io then (sh, None)
      else (set_content i (Some (mkMeta (Created m) (now sh))) sh,
            Some (KSleeping (now sh + lockFreshnessInterval)))
  end.

Record sys := mkSys {
  files : shared;
  procs : nat -> pc;
  keepers : list (nat * kpc)      (* with the process each runs in *)
}.

Definition advance_clock (d : Z) (sh : shared) : shared :=
  {| now := now sh + d; dir := dir sh; guard := guard sh; inodes := inodes sh |}.

(** The interleavings: a process or goroutine does its next step, calls [Lock]
    or [Unlock], crashes with its goroutines, or time passes. *)
Inductive step : sys -> sys -> Prop :=
| StepProc s p io sh' c' spawn :
    proc_step io (files s) (procs s p) = (sh', c', spawn) ->
    step s (mkSys sh' (<[p := c']> (procs s))
              (if spawn then keepers s ++ [(p, KSleeping (now sh' + lockFreshnessInterval))]
               else keepers s))
| StepKeeper s l1 l2 p k io sh' k' :
    keepers s = l1 ++ (p, k) :: l2 -> keeper_step io (files s) k = (sh', k') ->
    step s (mkSys sh' (procs s) (l1 ++ (pair p <$> option_list k') ++ l2))
| StepLock s p :
    procs s p = Idle \/ procs s p = Failed ->
    step s (mkSys (files s) (<[p := Creating]> (procs s)) (keepers s))
| StepUnlock s p :
    procs s p = Held ->
    step s (mkSys (files s) (<[p := Guarding FromUnlock]> (procs s)) (keepers s))
| StepCrash s p :
    step s (mkSys (files s) (<[p := Idle]> (procs s)) (filter (fun pk => fst pk <> p) (keepers s)))
| StepTick s d :
    0 <= d -> step s (mkSys (advance_clock d (files s)) (procs s) (keepers s)).

Definition init (t : Z) : sys :=
  mkSys {| now := t; dir := None; guard := false; inodes := ∅ |} (fun _ => Idle) [].

(** * Lemmas *)

(** A process that has created the lock file and has not removed it. *)
Definition owns (c : pc) : bool :=
  match c with
  | Encoding _ | Clearing | Held | Guarding FromUnlock | Removing FromUnlock => true
  | _ => false
  end.

(** A process that is removing a lock file it found stale. *)
Definition evicting (c : pc) : bool :=
  match c with Guarding FromLock | Removing FromLock | Unguarding FromLock _ => true | _ => false end.

(** Nobody takes the lock file for stale: what was read of it is never more
    than ten seconds old when it is judged. *)
Definition timely (s : sys) : Prop :=
  forall p m, procs s p = Judging m -> fileLockIsStale (now (files s)) m = false.

Definition timely_step (s s' : sys) : Prop := step s s' /\ timely s.

Record excl (s : sys) : Prop := {
  excl_dir : forall p, owns (procs s p) = true -> dir (files s) <> None;
  excl_one : forall p q, owns (procs s p) = true -> owns (procs s q) = true -> p = q;
  excl_none : forall p, evicting (procs s p) = false
}.

(** What one step of a process does to the lock file and to its ownership. *)
Lemma proc_step_cases io sh c sh' c' spawn :
  proc_step io sh c = (sh', c', spawn) ->
  evicting c = false -> (forall m, c = Judging m -> fileLockIsStale (now sh) m = false) ->
  evicting c' = false /\
  ((dir sh' = dir sh /\ (owns c' = true -> owns c = true)) \/
   (dir sh = None /\ dir sh' <> None /\ owns c = false) \/
   (dir sh' = None /\ owns c = true /\ owns c' = false)).
Proof.
  intros Hs He Ht.
  destruct c as [| | | | | | i | m | u | | k | k | k ok]; cbn [proc_step] in Hs;
    try (specialize (Ht m eq_refl); rewrite Ht in Hs); try destruct k as [|]; try done;
    repeat (case_match; simplify_eq/=); naive_solver.
Qed.

Lemma keeper_step_dir io sh k sh' k' : keeper_step io sh k = (sh', k') -> dir sh' = dir sh.
Proof. intros Hs. destruct k; cbn [keeper_step] in Hs; repeat (case_match; simplify_eq/=); done. Qed.

Lemma fn_insert_cases {A} (f : nat -> A) p q c (P : A -> Prop) :
  P ((<[p := c]> f) q) -> (q = p /\ P c) \/ (q <> p /\ P (f q)).
Proof.
  destruct (decide (q = p)) as [-> | Hne].
  - rewrite fn_lookup_insert. by left.
  - rewrite fn_lookup_insert_ne by done. by right.
Qed.

(** One process moves: the file stays and it gains nothing, or it creates the
    file, or it removes the file it owned. *)
Lemma excl_update s p sh' c' ks :
  excl s -> evicting c' = false ->
  (dir sh' = dir (files s) /\ (owns c' = true -> owns (procs s p) = true)) \/
  (dir (files s) = None /\ dir sh' <> None /\ owns (procs s p) = false) \/
  (dir sh' = None /\ owns (procs s p) = true /\ owns c' = false) ->
  excl (mkSys sh' (<[p := c']> (procs s)) ks).
Proof.
  intros [Hd Ho Hn] He Hc.
  assert (forall q, owns ((<[p := c']> (procs s)) q) = true ->
            (q = p /\ owns c' = true) \/ (q <> p /\ owns (procs s q) = true)) as Hq
    by (intros q; apply (fn_insert_cases _ _ _ _ (fun c => owns c = true))).
  split; cbn [files procs].
  - intros q Hown. destruct (Hq q Hown) as [[-> Hc'] | [Hne Hown']].
    + destruct Hc as [[-> Hi] | [(_ & ? & _) | (_ & _ & ?)]]; [apply (Hd p), Hi, Hc' | done | congruence].
    + destruct Hc as [[-> _] | [(_ & ? & _) | (_ & Hp & _)]]; [by apply (Hd q) | done |].
      by destruct Hne; apply Ho.
  - intros q1 q2 H1 H2. destruct (Hq q1 H1) as [[-> Hc1] | [Hne1 Hown1]], (Hq q2 H2) as [[-> Hc2] | [Hne2 Hown2]];
      [done | | | by apply Ho].
    + destruct Hc as [[_ Hi] | [(Hnone & _ & _) | (_ & _ & ?)]]; [by apply Ho; [apply Hi |] | | congruence].
      by destruct (Hd q2 Hown2).
    + destruct Hc as [[_ Hi] | [(Hnone & _ & _) | (_ & _ & ?)]]; [by apply Ho; [| apply Hi] | | congruence].
      by destruct (Hd q1 Hown1).
  - intros q. destruct (decide (q = p)) as [-> | Hne];
      [by rewrite fn_lookup_insert | by rewrite fn_lookup_insert_ne].
Qed.

Lemma excl_step s s' : excl s -> timely_step s s' -> excl s'.
Proof.
  intros Hx [Hs Ht]. destruct Hs as [s p io sh' c' spawn Hp | s l1 l2 p k io sh' k' _ Hk | s p Hi | s p Hh | s p | s d _].
  - destruct (proc_step_cases _ _ _ _ _ _ Hp) as [He Hc]; [apply Hx | intros m Hm; by apply (Ht p) |].
    by apply excl_update.
  - apply keeper_step_dir in Hk. destruct Hx as [Hd Ho Hn]. split; cbn [files procs]; [| done | done].
    intros q. rewrite Hk. apply Hd.
  - apply excl_update; [done | done |]. by left.
  - apply excl_update; [done | done |]. left. split; [done |]. by rewrite Hh.
  - apply excl_update; [done | done |]. by left.
  - destruct Hx as [Hd Ho Hn]. by split.
Qed.

Lemma init_excl t : excl (init t).
Proof. by split. Qed.

(** ** Executions *)

Inductive act :=
| ARun (p : nat) | ALock (p : nat) | AUnlock (p : nat) | ACrash (p : nat) | ATick (d : Z)
| AKeep (n : nat).

Definition act_step (a : act) (s : sys) : option sys :=
  match a with
  | ARun p =>
      let '(sh', c', spawn) := proc_step false (files s) (procs s p) in
      Some (mkSys sh' (<[p := c']> (procs s))
              (if spawn then keepers s ++ [(p, KSleeping (now sh' + lockFreshnessInterval))]
               else keepers s))
  | ALock p =>
      match procs s p with
      | Idle | Failed => Some (mkSys (files s) (<[p := Creating]> (procs s)) (keepers s))
      | _ => None
      end
  | AUnlock p =>
      match procs s p with
      | Held => Some (mkSys (files s) (<[p := Guarding FromUnlock]> (procs s)) (keepers s))
      | _ => None
      end
  | ACrash p => Some (mkSys (files s) (<[p := Idle]> (procs s)) (filter (fun pk => fst pk <> p) (keepers s)))
  | ATick d => if 0 <=? d then Some (mkSys (advance_clock d (files s)) (procs s) (keepers s)) else None
  | AKeep n =>
      match keepers s !! n with
      | Some (p, k) =>
          let '(sh', k') := keeper_step false (files s) k in
          Some (mkSys sh' (procs s) (take n (keepers s) ++ (pair p <$> option_list k') ++ drop (S n) (keepers s)))
      | None => None
      end
  end.

Fixpoint run (acts : list act) (s : sys) : option sys :=
  match acts with
  | [] => Some s
  | a :: rest => s' ← act_step a s; run rest s'
  end.

Lemma act_step_sound a s s' : act_step a s = Some s' -> step s s'.
Proof.
  destruct a as [p | p | p | p | d | n]; cbn [act_step]; intros H.
  - destruct (proc_step false (files s) (procs s p)) as [[sh' c'] spawn] eqn:Hp. injection H as <-.
    by eapply StepProc.
  - destruct (procs s p) eqn:Hp; try done; injection H as <-; apply StepLock; tauto.
  - destruct (procs s p) eqn:Hp; try done; injection H as <-. by apply StepUnlock.
  - injection H as <-. apply StepCrash.
  - destruct (0 <=? d) eqn:Hd; [| done]. injection H as <-. apply StepTick. by apply Z.leb_le.
  - destruct (keepers s !! n) as [[p k]|] eqn:Hn; [| done].
    destruct (keeper_step false (files s) k) as [sh' k'] eqn:Hk. injection H as <-.
    eapply StepKeeper; [| done]. by rewrite take_drop_middle.
Qed.

Lemma run_sound acts : forall s s', run acts s = Some s' -> rtc step s s'.
Proof.
  induction acts as [|a acts IH]; intros s s'; cbn [run]; [by intros [= <-] |].
  destruct (act_step a s) as [s1|] eqn:Ha; [| done]. cbn. intros Hr.
  eapply rtc_l; [by eapply act_step_sound | by apply IH].
Qed.

(** [n] steps of one process. *)
Definition runs (n p : nat) : list act := replicate n (ARun p).

(** ** A name that is blocked *)

(** The lock file is empty and nobody is going to write it. *)
Record emptied (i : nat) (s : sys) : Prop := {
  emp_dir : dir (files s) = Some i;
  emp_content : content (files s) i = None;
  emp_keepers : keepers s = [];
  emp_procs : forall p, procs s p = Idle \/ procs s p = Failed \/ procs s p = Creating \/
                        procs s p = Opening \/ procs s p = Decoding i
}.

(** The lock file cannot be removed because the .unlock file was left behind. *)
Record guarded (i : nat) (m : lockMeta) (s : sys) : Prop := {
  grd_dir : dir (files s) = Some i;
  grd_content : content (files s) i = Some m;
  grd_guard : guard (files s) = true;
  grd_keepers : keepers s = [];
  grd_procs : forall p, procs s p = Idle \/ procs s p = Failed \/ procs s p = Creating \/
                        procs s p = Opening \/ procs s p = Decoding i \/ procs s p = Judging m \/
                        procs s p = Guarding FromLock \/ exists u, procs s p = Sleeping u
}.

Lemma emptied_step i s s' : emptied i s -> step s s' -> emptied i s'.
Proof.
  intros [Hd Hc Hk Hp] Hs.
  assert (forall p c', c' = Idle \/ c' = Failed \/ c' = Creating \/ c' = Opening \/ c' = Decoding i ->
            forall q, (fun c => c = Idle \/ c = Failed \/ c = Creating \/ c = Opening \/ c = Decoding i)
                        ((<[p := c']> (procs s)) q)) as Hup.
  { intros p c' Hc' q. destruct (decide (q = p)) as [-> | Hne];
      [by rewrite fn_lookup_insert | by rewrite fn_lookup_insert_ne]. }
  destruct Hs as [s p io sh' c' spawn Hst | s l1 l2 p k io sh' k' Hks _ | s p _ | s p Hh | s p | s d _].
  - assert (sh' = files s /\ spawn = false /\
            (c' = Idle \/ c' = Failed \/ c' = Creating \/ c' = Opening \/ c' = Decoding i)) as (-> & -> & Hc').
    { destruct (Hp p) as [E | [E | [E | [E | E]]]]; rewrite E in Hst; cbn [proc_step] in Hst;
        rewrite ?Hd, ?Hc in Hst; destruct io; simplify_eq/=; tauto. }
    split; try done. by apply Hup.
  - rewrite Hk in Hks. by destruct l1.
  - split; try done. apply Hup. tauto.
  - destruct (Hp p) as [E | [E | [E | [E | E]]]]; congruence.
  - split; try done; [by cbn; rewrite Hk |]. apply Hup. tauto.
  - by split.
Qed.

Definition waiting (i : nat) (m : lockMeta) (c : pc) : Prop :=
  c = Idle \/ c = Failed \/ c = Creating \/ c = Opening \/ c = Decoding i \/ c = Judging m \/
  c = Guarding FromLock \/ exists u, c = Sleeping u.

Lemma waiting_step io sh c sh' c' spawn i m :
  dir sh = Some i -> content sh i = Some m -> guard sh = true -> waiting i m c ->
  proc_step io sh c = (sh', c', spawn) -> sh' = sh /\ spawn = false /\ waiting i m c'.
Proof.
  intros Hd Hc Hg Hw Hst. unfold waiting in *.
  destruct Hw as [-> | [-> | [-> | [-> | [-> | [-> | [-> | [u ->]]]]]]]]; cbn [proc_step] in Hst;
    rewrite ?Hd, ?Hc, ?Hg in Hst; simplify_eq/=; repeat (case_match; simplify_eq/=);
    (split; [done |]; split; [done |]); eauto 12.
Qed.

Lemma guarded_step i m s s' : guarded i m s -> step s s' -> guarded i m s'.
Proof.
  intros [Hd Hc Hg Hk Hp] Hs.
  assert (forall p c', waiting i m c' -> forall q, waiting i m ((<[p := c']> (procs s)) q)) as Hup.
  { intros p c' Hc' q. destruct (decide (q = p)) as [-> | Hne];
      [by rewrite fn_lookup_insert | by rewrite fn_lookup_insert_ne; [apply Hp |]]. }
  destruct Hs as [s p io sh' c' spawn Hst | s l1 l2 p k io sh' k' Hks _ | s p _ | s p Hh | s p | s d _].
  - destruct (waiting_step _ _ _ _ _ _ _ _ Hd Hc Hg (Hp p) Hst) as (-> & -> & Hw).
    split; try done. by apply Hup.
  - rewrite Hk in Hks. by destruct l1.
  - split; try done. apply Hup. unfold waiting. tauto.
  - destruct (Hp p) as [E | [E | [E | [E | [E | [E | [E | [u E]]]]]]]]; congruence.
  - split; try done; [by cbn; rewrite Hk |]. apply Hup. unfold waiting. tauto.
  - by split.
Qed.

(** ** Taking over *)

(** [n] steps of a process that runs alone. *)
Fixpoint solo (n : nat) (sh : shared) (c : pc) : shared * pc :=
  match n with
  | O => (sh, c)
  | S n' => let '(sh', c', _) := proc_step false sh c in solo n' sh' c'
  end.

Lemma run_solo n p : forall s,
  exists s', run (runs n p) s = Some s' /\ files s' = fst (solo n (files s) (procs s p)) /\
             procs s' p = snd (solo n (files s) (procs s p)).
Proof.
  induction n as [|n IH]; intros s; [by exists s |]. cbn [runs replicate run act_step solo].
  destruct (proc_step false (files s) (procs s p)) as [[sh' c'] spawn]. cbn [mbind option_bind].
  destruct (IH (mkSys sh' (<[p := c']> (procs s))
    (if spawn then keepers s ++ [(p, KSleeping (now sh' + lockFreshnessInterval))] else keepers s)))
    as (s' & Hr & Hf & Hp). cbn [files procs] in *. rewrite fn_lookup_insert in *. by exists s'.
Qed.

(** From [Creating] on an expired, unguarded lock file to holding a new one. *)
Lemma solo_takeover sh i m :
  dir sh = Some i -> content sh i = Some m -> guard sh = false ->
  fileLockIsStale (now sh) m = true ->
  dir (fst (solo 10 sh Creating)) <> None /\ snd (solo 10 sh Creating) = Held.
Proof.
  intros Hd Hc Hg Hs. cbn [solo proc_step].
  repeat (rewrite ?Hd, ?Hc, ?Hg, ?Hs;
          cbn [solo proc_step set_guard set_dir dir guard now after_remove]).
  done.
Qed.

Definition start : Z := 1000 * Second.

(** Process 0 takes the lock and crashes; later 0 and 1 both find it stale. *)
Definition race : list act :=
  ALock 0 :: runs 3 0 ++ [ACrash 0; ATick (11 * Second)] ++
  [ALock 0] ++ runs 3 0 ++ [ALock 1] ++ runs 4 1 ++ runs 7 0 ++ runs 6 1.

Definition crash_before_write : list act := [ALock 0; ARun 0; ACrash 0].

(** Process 0 crashes inside [removeLockfile]. *)
Definition crash_in_unlock : list act :=
  ALock 0 :: runs 3 0 ++ [AUnlock 0; ARun 0; ACrash 0].

(** * Properties *)

(** C2: mutual exclusion. As long as nobody takes a lock file for stale, in
    every interleaving of any number of processes, freshness goroutines,
    system-call failures and crashes at most one process holds the lock, and
    while it is held the lock file exists. *)
Theorem lock_mutual_exclusion t s p q :
  rtc timely_step (init t) s ->
  procs s p = Held ->
  dir (files s) <> None /\ (procs s q = Held -> p = q).
Proof.
  intros Hr Hp.
  assert (excl s) as [Hd Ho _]
    by (eapply (rtc_invariant timely_step excl); [exact excl_step | exact Hr | apply init_excl]).
  split; [apply (Hd p); by rewrite Hp |]. intros Hq. apply Ho; [by rewrite Hp | by rewrite Hq].
Qed.

Lemma lock_mutual_exclusion_witness :
  exists s, rtc timely_step (init start) s /\ procs s 0%nat = Held /\ dir (files s) <> None.
Proof.
  assert (forall a s s', act_step a s = Some s' -> timely s -> timely_step s s') as Hst
    by (intros a s s' Ha Ht; split; [by eapply act_step_sound | done]).
  assert (exists s, rtc timely_step (init start) s /\ procs s 0%nat = Held) as (s & Hr & Hh).
  { eexists. split.
    - eapply rtc_l; [eapply (Hst (ALock 0)); [vm_compute; reflexivity | by intros p m] |].
      eapply rtc_l; [eapply (Hst (ARun 0)); [vm_compute; reflexivity |] |].
      { intros p m Hj. exfalso. revert Hj. by destruct p; vm_compute. }
      eapply rtc_l; [eapply (Hst (ARun 0)); [vm_compute; reflexivity |] |].
      { intros p m Hj. exfalso. revert Hj. by destruct p; vm_compute. }
      eapply rtc_l; [eapply (Hst (ARun 0)); [vm_compute; reflexivity |] |].
      { intros p m Hj. exfalso. revert Hj. by destruct p; vm_compute. }
      apply rtc_refl.
    - reflexivity. }
  exists s. split; [done |]. split; [done |]. by apply (lock_mutual_exclusion start s 0%nat 0%nat).
Defined.

(** The takeover of a stale lock is not atomic. After a crash of the holder
    two processes that both read the stale file can end up holding the lock
    at the same time: the second one removes the file the first has just
    created. *)
Theorem stale_takeover_race :
  exists s, rtc step (init start) s /\ procs s 0%nat = Held /\ procs s 1%nat = Held.
Proof.
  destruct (run race (init start)) as [s|] eqn:Hr; [| by vm_compute in Hr].
  exists s. split; [by eapply run_sound |]. revert Hr. vm_compute. by intros [= <-].
Qed.

(** A crash in the wrong place blocks a lock name for good, stale or not.
    (a) If a process dies between creating the lock file and writing it, the
    file is empty, every later [Lock] fails to decode it and none ever
    succeeds. (b) If it dies inside [removeLockfile], the .unlock file it
    leaves makes every later removal of the lock file a no-op, so however
    stale the lock is nobody obtains it. *)
Theorem crash_blocks_lock_forever :
  (exists s0, run crash_before_write (init start) = Some s0 /\
     forall s p, rtc step s0 s -> procs s p <> Held) /\
  (exists s0, run crash_in_unlock (init start) = Some s0 /\
     forall s p, rtc step s0 s -> procs s p <> Held).
Proof.
  split.
  - eexists. split; [reflexivity |]. intros s p Hr.
    assert (emptied (new_inode (files (init start))) s) as [_ _ _ Hp].
    { eapply rtc_invariant; [apply emptied_step | exact Hr |]. split; try reflexivity.
      intros [|q]; vm_compute; tauto. }
    destruct (Hp p) as [E | [E | [E | [E | E]]]]; congruence.
  - eexists. split; [reflexivity |]. intros s p Hr.
    assert (guarded (new_inode (files (init start))) (mkMeta start start) s) as [_ _ _ _ Hp].
    { eapply rtc_invariant; [apply guarded_step | exact Hr |]. split; try reflexivity.
      intros [|q]; vm_compute; tauto. }
    destruct (Hp p) as [E | [E | [E | [E | [E | [E | [E | [u E]]]]]]]]; congruence.
Qed.


Definition expired : sys :=
  mkSys {| now := start + 11 * Second; dir := Some 7%nat; guard := false;
           inodes := {[7%nat := Some (mkMeta start start)]} |} (fun _ => Idle) [].

