(* ===== verification/Storage.v ===== *)
(** The [Storage] interface of [src/storage.go] as a type class, with the laws
    its documentation states, [storeTx] and the lock registry.

    A storage operation is a function on the state [W] of the world. The laws
    relate it to an abstract view: the stored values [kv] and the set
    [locked] of lock names that are held. *)
From Stdlib Require Import Ascii.
From stdpp Require Import base tactics list strings gmap sets.
From Stdlib Require Import ZArith Lia.
From S2P Require Import Prelude GoStrings.

Local Open Scope string_scope.

(** * Computations *)

(** A Go function that works on the world: it returns, fails or panics. *)
Definition M (W A : Type) : Type := W -> res A * W.

Section Monad.
Context {W : Type}.

Definition ret {A} (a : A) : M W A := fun w => (Ok a, w).
Definition fail {A} (e : error) : M W A := fun w => (Err e, w).
Definition panic {A} (m : string) : M W A := fun w => (Panic m, w).
Definition of_res {A} (r : res A) : M W A := fun w => (r, w).

Definition bind {A B} (m : M W A) (f : A -> M W B) : M W B := fun w =>
  match m w with
  | (Ok a, w') => f a w'
  | (Err e, w') => (Err e, w')
  | (Panic s, w') => (Panic s, w')
  end.

(** [x, err := m] where the code looks at [err] itself. *)
Definition try {A} (m : M W A) : M W (A + error) := fun w =>
  match m w with
  | (Ok a, w') => (Ok (inl a), w')
  | (Err e, w') => (Ok (inr e), w')
  | (Panic s, w') => (Panic s, w')
  end.

(** [defer]: [cleanup] runs however [m] ends. *)
Definition defer {A} (cleanup : M W unit) (m : M W A) : M W A := fun w =>
  let '(r, w') := m w in (r, snd (cleanup w')).

(** Change the result of a computation that returned an error. *)
Definition wrap_err {A} (f : error -> error) (m : M W A) : M W A := fun w =>
  match m w with
  | (Err e, w') => (Err (f e), w')
  | r => r
  end.
End Monad.

Notation "'let*' x := m 'in' k" := (bind m (fun x => k))
  (at level 10, x pattern, m at level 100, k at level 200) : go_scope.

(** * The interface *)

Record KeyInfo := mkKeyInfo { Key : string; Modified : Z; Size : Z; IsTerminal : bool }.

Class Storage (W : Type) := {
  Store : string -> string -> M W unit;
  Load : string -> M W string;
  Delete : string -> M W unit;
  Exists : string -> W -> bool * W;
  List : string -> bool -> M W (list string);
  Stat : string -> M W KeyInfo;
  Lock : string -> M W unit;
  Unlock : string -> M W unit
}.

(** What the interface documents. A failed [Store] leaves the other keys
    alone; [Delete] fails only if the key is still there. *)
Class StorageLaws {W} (S : Storage W) := {
  kv : W -> gmap string string;
  locked : W -> gset string;
  Store_law k v w r w' :
    Store k v w = (r, w') ->
    (forall m, r <> Panic m) /\ locked w' = locked w /\
    (r = Ok () -> kv w' = <[k := v]> (kv w)) /\
    (forall j, j <> k -> kv w' !! j = kv w !! j);
  Load_law k w r w' :
    Load k w = (r, w') ->
    (forall m, r <> Panic m) /\ locked w' = locked w /\ kv w' = kv w /\
    (forall v, r = Ok v -> kv w !! k = Some v);
  Delete_law k w r w' :
    Delete k w = (r, w') ->
    (forall m, r <> Panic m) /\ locked w' = locked w /\
    (kv w' = delete k (kv w) \/ kv w' = kv w) /\ (r = Ok () -> kv w' = delete k (kv w));
  Exists_law k w b w' :
    Exists k w = (b, w') -> w' = w /\ (b = true -> is_Some (kv w !! k));
  List_law p b w r w' :
    List p b w = (r, w') -> (forall m, r <> Panic m) /\ locked w' = locked w /\ kv w' = kv w;
  Stat_law k w r w' :
    Stat k w = (r, w') -> (forall m, r <> Panic m) /\ locked w' = locked w /\ kv w' = kv w;
  Lock_law k w r w' :
    Lock k w = (r, w') ->
    (forall m, r <> Panic m) /\ kv w' = kv w /\
    (r = Ok () -> (k ∉ locked w) /\ locked w' = {[k]} ∪ locked w) /\ (r <> Ok () -> locked w' = locked w);
  Unlock_law k w r w' :
    Unlock k w = (r, w') ->
    (forall m, r <> Panic m) /\ kv w' = kv w /\
    (r = Ok () -> locked w' = locked w ∖ {[k]}) /\ (r <> Ok () -> locked w' = locked w)
}.

(** * [storeTx] *)

Record keyValue := mkKV { key : string; value : string }.

Section Tx.
Context {W : Type} {S : Storage W}.
Local Open Scope go_scope.

(** The rollback: [done] are the pairs stored so far, the latest first; the
    errors of [Delete] are ignored. *)
Fixpoint rollback (done : list keyValue) : M W unit :=
  match done with
  | [] => ret ()
  | kp :: rest => let* _ := try (Delete (key kp)) in rollback rest
  end.

Fixpoint storeTx_from (done all : list keyValue) : M W unit :=
  match all with
  | [] => ret ()
  | kp :: rest =>
      let* r := try (Store (key kp) (value kp)) in
      match r with
      | inl _ => storeTx_from (kp :: done) rest
      | inr err => let* _ := rollback done in fail err
      end
  end.

Definition storeTx (all : list keyValue) : M W unit := storeTx_from [] all.

(** * The lock registry *)

(** [locks], the lock names this process has obtained, next to the world. *)
Definition obtainLock (lockKey : string) : M (W * gset string) unit := fun '(w, locks) =>
  match Lock lockKey w with
  | (Ok u, w') => (Ok u, (w', {[lockKey]} ∪ locks))
  | (r, w') => (r, (w', locks))
  end.

Definition releaseLock (lockKey : string) : M (W * gset string) unit := fun '(w, locks) =>
  match Unlock lockKey w with
  | (Ok u, w') => (Ok u, (w', locks ∖ {[lockKey]}))
  | (r, w') => (r, (w', locks))
  end.

(** The loop of [CleanUpOwnLocks], over the keys in the order of the map
    iteration. *)
Fixpoint clean_up (keys : list string) : M (W * gset string) unit := fun wl =>
  match keys with
  | [] => (Ok (), wl)
  | lockKey :: rest =>
      match Unlock lockKey (fst wl) with
      | (Ok _, w') => clean_up rest (w', snd wl ∖ {[lockKey]})
      | (Err _, w') => clean_up rest (w', snd wl)
      | (Panic m, w') => (Panic m, (w', snd wl))
      end
  end.

Definition CleanUpOwnLocks : M (W * gset string) unit := fun wl =>
  clean_up (elements (snd wl)) wl.

End Tx.

(** * Lemmas *)

(** ** Computations without panics

    [safely R m]: [m] does not panic and relates the state before to the state
    after by [R]. *)
Section Safely.
Context {W : Type} (R : relation W) (Hrefl : forall w, R w w)
        (Htrans : forall w1 w2 w3, R w1 w2 -> R w2 w3 -> R w1 w3).

Definition safely {A} (m : M W A) : Prop :=
  forall w, (forall s, fst (m w) <> Panic s) /\ R w (snd (m w)).

Lemma safely_intro {A} (m : M W A) :
  (forall w, exists r w', m w = (r, w') /\ (forall s, r <> Panic s) /\ R w w') -> safely m.
Proof. intros Hm w. destruct (Hm w) as (r & w' & -> & Hp & HR). by split. Qed.

Lemma safely_ret {A} (a : A) : safely (ret a).
Proof. by intros w. Qed.

Lemma safely_fail {A} e : safely (fail (A:=A) e).
Proof. by intros w. Qed.

Lemma safely_res {A} (r : res A) : (forall s, r <> Panic s) -> safely (of_res r).
Proof. by intros Hr w. Qed.

(** The rest only has to be safe for the values the first part can return. *)
Lemma safely_bind_if {A B} (m : M W A) (f : A -> M W B) :
  safely m -> (forall a w w', m w = (Ok a, w') -> safely (f a)) -> safely (bind m f).
Proof.
  intros Hm Hf w. unfold bind. destruct (Hm w) as [Hp HR].
  destruct (m w) as [[a | e | s] w1] eqn:Hw; cbn [fst snd] in *; [| done | by destruct (Hp s)].
  destruct (Hf a w w1 Hw w1) as [Hp' HR']. split; [done |]. by eapply Htrans.
Qed.

Lemma safely_bind {A B} (m : M W A) (f : A -> M W B) :
  safely m -> (forall a, safely (f a)) -> safely (bind m f).
Proof. intros Hm Hf. apply safely_bind_if; auto. Qed.

Lemma safely_try {A} (m : M W A) : safely m -> safely (try m).
Proof. intros Hm w. unfold try. destruct (Hm w) as [Hp HR]. destruct (m w) as [[] w1]; [done | done |]. by destruct (Hp msg). Qed.

Lemma safely_wrap {A} f (m : M W A) : safely m -> safely (wrap_err f m).
Proof. intros Hm w. unfold wrap_err. destruct (Hm w) as [Hp HR]. destruct (m w) as [[] w1]; [done | done |]. by destruct (Hp msg). Qed.

(** What [try] of such a computation returns. *)
Lemma safely_try_Ok {A} (m : M W A) w : safely m ->
  exists x w', try m w = (Ok x, w') /\ R w w' /\
    ((exists a, x = inl a /\ m w = (Ok a, w')) \/ (exists e, x = inr e /\ m w = (Err e, w'))).
Proof.
  intros Hm. unfold try. destruct (Hm w) as [Hp HR]. destruct (m w) as [[a | e | s] w1]; cbn [fst snd] in *.
  - exists (inl a), w1. eauto 6.
  - exists (inr e), w1. eauto 6.
  - by destruct (Hp s).
Qed.
End Safely.

(** Prove [safely] along the structure of an operation. *)
Ltac safe_steps :=
  repeat lazymatch goal with
  | |- safely _ (bind _ _) => apply safely_bind; [eauto | | intros ?]
  | |- safely _ (try _) => apply safely_try
  | |- safely _ (wrap_err _ _) => apply safely_wrap
  | |- safely _ (ret _) => apply safely_ret; auto
  | |- safely _ (fail _) => apply safely_fail; auto
  | |- safely _ (of_res _) => apply safely_res; auto
  | |- safely _ (if ?b then _ else _) => destruct b
  | |- safely _ (match ?x with _ => _ end) => destruct x
  end.

(** ** Triples

    [triple P m Q]: from a state with [P], if [m] returns a value, then [Q]
    holds of it and of the state after. *)
Section Triples.
Context {W : Type}.

Definition triple {A} (P : W -> Prop) (m : M W A) (Q : A -> W -> Prop) : Prop :=
  forall w a w', P w -> m w = (Ok a, w') -> Q a w'.

Lemma triple_ret {A} (Q : A -> W -> Prop) a : triple (Q a) (ret a) Q.
Proof. by intros w b w' HQ [= -> ->]. Qed.

Lemma triple_bind {A B} P (Q : A -> W -> Prop) (R : B -> W -> Prop) m f :
  triple P m Q -> (forall a, triple (Q a) (f a) R) -> triple P (bind m f) R.
Proof.
  intros Hm Hf w b w' HP. unfold bind. specialize (Hm w). destruct (m w) as [[a | |] w1]; [| done | done].
  apply Hf. by apply (Hm a w1).
Qed.

Lemma triple_try {A} P (Q : A -> W -> Prop) (X : error -> W -> Prop) m :
  triple P m Q -> (forall w e w', P w -> m w = (Err e, w') -> X e w') ->
  triple P (try m) (fun x w => match x with inl a => Q a w | inr e => X e w end).
Proof.
  intros Hm He w x w' HP. unfold try. specialize (Hm w). specialize (He w).
  destruct (m w) as [[a | e |] w1]; [| | done]; intros [= <- <-]; [by apply (Hm a w1) | by apply (He e w1)].
Qed.

Lemma triple_weaken {A} (P P' : W -> Prop) (Q Q' : A -> W -> Prop) m :
  (forall w, P w -> P' w) -> (forall a w, Q' a w -> Q a w) -> triple P' m Q' -> triple P m Q.
Proof. intros HP HQ Hm w a w' HPw Hw. eapply HQ, Hm; eauto. Qed.

Lemma triple_fail {A} P (Q : A -> W -> Prop) e : triple P (fail e) Q.
Proof. by intros w a w'. Qed.

(** [never_fails m]: [m] returns no error (it may panic). *)
Definition never_fails {A} (m : M W A) : Prop := forall w e w', m w <> (Err e, w').

Lemma never_fails_bind {A B} (m : M W A) (f : A -> M W B) :
  never_fails m -> (forall a, never_fails (f a)) -> never_fails (bind m f).
Proof.
  intros Hm Hf w e w'. unfold bind. specialize (Hm w). destruct (m w) as [[a | e' |] w1]; [apply Hf | | done].
  by destruct (Hm e' w1).
Qed.

Lemma never_fails_try {A} (m : M W A) : never_fails (try m).
Proof. intros w e w'. unfold try. by destruct (m w) as [[] ?]. Qed.

Lemma never_fails_ret {A} (a : A) : never_fails (ret a).
Proof. by intros w e w'. Qed.

Lemma never_fails_panic {A} x : never_fails (panic (A:=A) x).
Proof. by intros w e w'. Qed.

Lemma triple_panic {A} P (Q : A -> W -> Prop) x : triple P (panic x) Q.
Proof. by intros w a w'. Qed.
End Triples.

#[export] Hint Resolve never_fails_bind never_fails_try never_fails_ret never_fails_panic : otomatik.

Definition store_all (all : list keyValue) (m : gmap string string) : gmap string string :=
  foldl (fun m kp => <[key kp := value kp]> m) m all.

Lemma store_all_other all : forall m k,
  k ∉ (key <$> all) -> store_all all m !! k = m !! k.
Proof.
  induction all as [|p all IH]; intros m k Hk; [done |]. cbn [store_all foldl].
  apply not_elem_of_cons in Hk as [Hne Hk]. fold (store_all all (<[key p := value p]> m)).
  rewrite IH by done. by rewrite lookup_insert_ne.
Qed.

Section Facts.
Context {W : Type} {S : Storage W} {L : StorageLaws S}.

(** Rolling back touches nothing but the given keys, which it can only remove. *)
Lemma rollback_spec done : forall w r w',
  rollback done w = (r, w') ->
  r = Ok () /\ locked w' = locked w /\
  (forall k, k ∉ (key <$> done) -> kv w' !! k = kv w !! k) /\
  (forall k, kv w' !! k = kv w !! k \/ kv w' !! k = None) /\
  ((forall k w, fst (Delete k w) = Ok ()) -> forall k, k ∈ (key <$> done) -> kv w' !! k = None).
Proof.
  induction done as [|p done IH]; intros w r w' Hr; cbn [rollback] in Hr.
  { injection Hr as <- <-. repeat split; try done; [by left |]. by intros _ k ?%elem_of_nil. }
  unfold bind, try in Hr. destruct (Delete (key p) w) as [rd w1] eqn:Hd.
  destruct (Delete_law _ _ _ _ Hd) as (Hp & Hl & Hkv & Hok).
  assert (rollback done w1 = (r, w')) as Hr' by (by destruct rd as [[] | |]; [| | destruct (Hp msg)]).
  destruct (IH _ _ _ Hr') as (-> & Hl' & Ho & Hn & Hdel).
  assert (forall k, kv w1 !! k = kv w !! k \/ kv w1 !! k = None) as H1.
  { intros k. destruct Hkv as [-> | ->]; [| by left]. rewrite lookup_delete. case_decide; tauto. }
  split; [done |]. split; [by rewrite Hl' |]. split; [| split].
  - intros k Hk. cbn in Hk. apply not_elem_of_cons in Hk as [Hne Hk]. rewrite Ho by done.
    destruct Hkv as [-> | ->]; [by rewrite lookup_delete_ne | done].
  - intros k. destruct (Hn k) as [-> | ->]; [apply H1 | by right].
  - intros Hall k Hk. cbn in Hk. destruct (decide (k ∈ (key <$> done))) as [Hin | Hin]; [by apply Hdel |].
    apply elem_of_cons in Hk as [-> | ?]; [| done].
    rewrite Ho by done. rewrite Hok; [apply lookup_delete_eq |].
    specialize (Hall (key p) w). by rewrite Hd in Hall.
Qed.

(** The outcome of a [storeTx] that has stored [done] already. *)
Lemma storeTx_from_spec all : forall done w r w',
  storeTx_from done all w = (r, w') ->
  locked w' = locked w /\
  ((r = Ok () /\ kv w' = store_all all (kv w)) \/
   (exists e before kp after, r = Err e /\ all = (before ++ kp :: after)%list /\
      (forall k, k ∉ (key <$> (done ++ before)%list) -> k <> key kp -> kv w' !! k = kv w !! k) /\
      ((forall k w, fst (Delete k w) = Ok ()) ->
       forall k, k ∈ (key <$> (done ++ before)%list) -> kv w' !! k = None))).
Proof.
  induction all as [|p all IH]; intros done w r w' Hr; cbn [storeTx_from] in Hr.
  { injection Hr as <- <-. split; [done |]. by left. }
  unfold bind at 1, try at 1 in Hr. destruct (Store (key p) (value p) w) as [rs w1] eqn:Hs.
  destruct (Store_law _ _ _ _ _ Hs) as (Hp & Hl & Hok & Ho).
  destruct rs as [[] | e | m]; [| | by destruct (Hp m)].
  - destruct (IH _ _ _ _ Hr) as (Hl' & Hc). split; [congruence |].
    specialize (Hok eq_refl). destruct Hc as [[-> Hkv] | (e & before & kp & after & -> & -> & Hoth & Hdel)].
    + left. split; [done |]. by rewrite Hkv, Hok.
    + right. exists e, (p :: before), kp, after. split; [done |]. split; [done |].
      rewrite fmap_app, fmap_cons in *. split.
      * intros k Hk Hne. rewrite Hoth; [| set_solver | done].
        rewrite Hok, lookup_insert_ne; [done |]. set_solver.
      * intros Hall k Hk. apply Hdel; [done |]. set_solver.
  - unfold bind in Hr. destruct (rollback done w1) as [rr w2] eqn:Hb.
    destruct (rollback_spec _ _ _ _ Hb) as (-> & Hl' & Hoth & _ & Hdel). injection Hr as <- <-.
    split; [congruence |]. right. exists e, [], p, all. split; [done |]. split; [done |].
    rewrite app_nil_r. split; [| done]. intros k Hk Hne. by rewrite Hoth, Ho.
Qed.
End Facts.

(** ** The lock registry *)

Section Registry.
Context {W : Type} {S : Storage W} {L : StorageLaws S}.

(** Every registered lock is held. *)
Definition registered (wl : W * gset string) : Prop := snd wl ⊆ locked (fst wl).

Lemma obtainLock_spec k w locks r wl' :
  obtainLock k (w, locks) = (r, wl') ->
  (forall m, r <> Panic m) /\ kv (fst wl') = kv w /\
  (r = Ok () -> (k ∉ locked w) /\ locked (fst wl') = {[k]} ∪ locked w /\ snd wl' = {[k]} ∪ locks) /\
  (r <> Ok () -> locked (fst wl') = locked w /\ snd wl' = locks).
Proof.
  unfold obtainLock. destruct (Lock k w) as [rl w'] eqn:Hl.
  destruct (Lock_law _ _ _ _ Hl) as (Hp & Hkv & Hok & Hne).
  destruct rl as [[] | e | m]; intros [= <- <-]; cbn [fst snd]; (split; [done |]); (split; [done |]);
    (split; [intros ?; simplify_eq; naive_solver | intros ?; split; by try apply Hne]).
Qed.

Lemma releaseLock_spec k w locks r wl' :
  releaseLock k (w, locks) = (r, wl') ->
  (forall m, r <> Panic m) /\ kv (fst wl') = kv w /\
  (r = Ok () -> locked (fst wl') = locked w ∖ {[k]} /\ snd wl' = locks ∖ {[k]}) /\
  (r <> Ok () -> locked (fst wl') = locked w /\ snd wl' = locks).
Proof.
  unfold releaseLock. destruct (Unlock k w) as [rl w'] eqn:Hl.
  destruct (Unlock_law _ _ _ _ Hl) as (Hp & Hkv & Hok & Hne).
  destruct rl as [[] | e | m]; intros [= <- <-]; cbn [fst snd]; (split; [done |]); (split; [done |]);
    (split; [intros ?; simplify_eq; split; by try apply Hok | intros ?; split; by try apply Hne]).
Qed.

(** [clean_up] releases what it can and forgets exactly what it released. *)
Lemma clean_up_spec keys : forall w locks r wl',
  clean_up keys (w, locks) = (r, wl') ->
  r = Ok () /\ kv (fst wl') = kv w /\
  (exists freed, freed ⊆ list_to_set keys /\
     locked (fst wl') = locked w ∖ freed /\ snd wl' = locks ∖ freed) /\
  ((forall k w, fst (Unlock k w) = Ok ()) -> snd wl' = locks ∖ list_to_set keys).
Proof.
  induction keys as [|k keys IH]; intros w locks r wl'; cbn [clean_up fst snd].
  { intros [= <- <-]. split; [done |]. split; [done |]. split; [exists ∅; set_solver | set_solver]. }
  destruct (Unlock k w) as [ru w1] eqn:Hu.
  destruct (Unlock_law _ _ _ _ Hu) as (Hp & Hkv & Hok & Hne).
  destruct ru as [[] | e | m]; [| | by destruct (Hp m)]; intros Hr; apply IH in Hr as (-> & Hkv' & (freed & Hf & Hl & Hs) & Hall);
    cbn [fst snd] in *; (split; [done |]); (split; [congruence |]); split.
  - exists ({[k]} ∪ freed). rewrite Hl, Hs, (Hok eq_refl). set_solver.
  - intros Hun. rewrite (Hall Hun). set_solver.
  - exists freed. rewrite Hl, Hs, (Hne ltac:(done)). set_solver.
  - intros Hun. specialize (Hun k w). by rewrite Hu in Hun.
Qed.
End Registry.

(** * A storage in memory *)

(** [m_fail] are the keys whose [Store] fails without effect. *)
Record mem := mkMem { m_kv : gmap string string; m_locked : gset string; m_fail : gset string }.

Definition on_kv (f : gmap string string -> gmap string string) (w : mem) : mem :=
  {| m_kv := f (m_kv w); m_locked := m_locked w; m_fail := m_fail w |}.
Definition on_locked (f : gset string -> gset string) (w : mem) : mem :=
  {| m_kv := m_kv w; m_locked := f (m_locked w); m_fail := m_fail w |}.

#[export] Instance mem_storage : Storage mem := {|
  Store k v w := if bool_decide (k ∈ m_fail w) then (Err (ErrStr "store failed"), w)
                 else (Ok (), on_kv <[k := v]> w);
  Load k w := match m_kv w !! k with Some v => (Ok v, w) | None => (Err ErrIsNotExist, w) end;
  Delete k w := (Ok (), on_kv (delete k) w);
  Exists k w := (bool_decide (is_Some (m_kv w !! k)), w);
  List prefix recursive w := (Ok (filter (fun k => HasPrefix k (prefix +:+ "/") = true)
                                        (elements (dom (m_kv w)))), w);
  Stat k w := match m_kv w !! k with
              | Some v => (Ok (mkKeyInfo k 0 (Z.of_nat (String.length v)) true), w)
              | None => (Err ErrIsNotExist, w)
              end;
  Lock k w := if bool_decide (k ∈ m_locked w) then (Err (ErrStr "held"), w)
              else (Ok (), on_locked (union {[k]}) w);
  Unlock k w := (Ok (), on_locked (fun l => l ∖ {[k]}) w)
|}.

#[export] Instance mem_laws : StorageLaws mem_storage.
Proof.
  refine {| kv := m_kv; locked := m_locked |}.
  - intros k v w r w'. cbn. case_bool_decide; intros [= <- <-]; (split; [done |]); (split; [done |]);
      (split; [done |]); [done |]. intros j Hj. cbn. by rewrite lookup_insert_ne.
  - intros k w r w'. cbn. destruct (m_kv w !! k) eqn:Hk; intros [= <- <-];
      (split; [done |]); (split; [done |]); (split; [done |]); naive_solver.
  - intros k w r w' [= <- <-]. split; [done |]. split; [done |]. split; [by left | done].
  - intros k w b w' [= <- <-]. split; [done |]. apply bool_decide_eq_true_1.
  - intros p b w r w' [= <- <-]. by repeat split.
  - intros k w r w'. cbn. destruct (m_kv w !! k); intros [= <- <-]; by repeat split.
  - intros k w r w'. cbn. case_bool_decide; intros [= <- <-]; by repeat split.
  - intros k w r w' [= <- <-]. by repeat split.
Defined.

(** * Properties *)

(** C26: what [storeTx] really guarantees. On success every pair is stored, in
    order. On failure at some pair, the pairs after it and all other keys are
    untouched, but the keys before it are deleted (when deletions work), so
    values they had before the transaction are lost: it is "all or none"
    only for keys that did not exist. *)
Theorem storeTx_outcome {W} {S : Storage W} {L : StorageLaws S} all (w w' : W) r :
  storeTx all w = (r, w') ->
  locked w' = locked w /\
  ((r = Ok () /\ kv w' = store_all all (kv w)) \/
   (exists e before kp after, r = Err e /\ all = (before ++ kp :: after)%list /\
      (forall k, k ∉ (key <$> before) -> k <> key kp -> kv w' !! k = kv w !! k) /\
      ((forall k w, fst (Delete k w) = Ok ()) ->
       forall k, k ∈ (key <$> before) -> kv w' !! k = None))).
Proof. apply storeTx_from_spec. Qed.

Definition full_disk : mem :=
  {| m_kv := {["site.crt" := "old cert"]}; m_locked := ∅; m_fail := {["site.key"]} |}.

Lemma storeTx_outcome_witness :
  exists r w', storeTx [mkKV "site.crt" "new cert"; mkKV "site.key" "new key"] full_disk = (r, w') /\
    kv w' !! "site.crt" = None /\ locked w' = locked full_disk.
Proof.
  eexists _, _. split; [vm_compute; reflexivity |]. split; [vm_compute; reflexivity |].
  apply (storeTx_outcome [mkKV "site.crt" "new cert"; mkKV "site.key" "new key"] full_disk _
           (Err (ErrStr "store failed"))).
  vm_compute. reflexivity.
Defined.

(** The lock registry is sound: starting from a registry of locks that are
    held, obtaining, releasing and cleaning up keep every registered lock
    held; and when unlocking works, [CleanUpOwnLocks] empties the registry
    and releases exactly the locks that were in it. *)
Theorem lock_registry_sound {W} {S : Storage W} {L : StorageLaws S} (wl wl' : W * gset string) r :
  registered wl ->
  ((exists k, obtainLock k wl = (r, wl') \/ releaseLock k wl = (r, wl')) \/ CleanUpOwnLocks wl = (r, wl')) ->
  registered wl' /\ kv (fst wl') = kv (fst wl) /\
  (CleanUpOwnLocks wl = (r, wl') -> (forall k w, fst (Unlock k w) = Ok ()) ->
   snd wl' = ∅ /\ locked (fst wl') = locked (fst wl) ∖ snd wl).
Proof.
  destruct wl as [w locks]. unfold registered. cbn [fst snd]. intros Hreg Hop.
  assert (forall r wl', CleanUpOwnLocks (w, locks) = (r, wl') ->
            snd wl' ⊆ locked (fst wl') /\ kv (fst wl') = kv w /\
            ((forall k w, fst (Unlock k w) = Ok ()) ->
             snd wl' = ∅ /\ locked (fst wl') = locked w ∖ locks)) as Hclean.
  { clear -Hreg. intros r wl' Hc. apply clean_up_spec in Hc as (_ & Hkv & (freed & Hf & Hl & Hs) & Hall).
    cbn [fst snd] in *. split; [rewrite Hl, Hs; set_solver |]. split; [done |]. intros Hun.
    specialize (Hall Hun). rewrite list_to_set_elements_L in *.
    split; [set_solver |]. rewrite Hl. set_solver. }
  destruct Hop as [[k [Ho | Ho]] | Hc].
  - split; [| split; [apply obtainLock_spec in Ho; tauto |]; intros Hc; exact (proj2 (proj2 (Hclean _ _ Hc)))].
    apply obtainLock_spec in Ho as (Hp & _ & Hok & Hne).
    destruct r as [[] | e | m]; [| | by destruct (Hp m)];
      [destruct (Hok eq_refl) as (_ & -> & ->) | destruct (Hne ltac:(done)) as [-> ->]]; set_solver.
  - split; [| split; [apply releaseLock_spec in Ho; tauto |]; intros Hc; exact (proj2 (proj2 (Hclean _ _ Hc)))].
    apply releaseLock_spec in Ho as (Hp & _ & Hok & Hne).
    destruct r as [[] | e | m]; [| | by destruct (Hp m)];
      [destruct (Hok eq_refl) as [-> ->] | destruct (Hne ltac:(done)) as [-> ->]]; set_solver.
  - destruct (Hclean _ _ Hc) as (H1 & H2 & H3). split; [done |]. by split.
Qed.

Definition three_locks : mem * gset string :=
  (on_locked (fun _ => {["a"; "b"; "c"]}) full_disk, {["a"; "b"]}).

Lemma lock_registry_sound_witness :
  exists wl', CleanUpOwnLocks three_locks = (Ok (), wl') /\
    snd wl' = ∅ /\ locked (fst wl') = locked (fst three_locks) ∖ snd three_locks.
Proof.
  assert (CleanUpOwnLocks three_locks = (Ok (), snd (CleanUpOwnLocks three_locks))) as Hc
    by (vm_compute; reflexivity).
  exists (snd (CleanUpOwnLocks three_locks)). split; [exact Hc |].
  destruct (lock_registry_sound three_locks (snd (CleanUpOwnLocks three_locks)) (Ok ())) as (_ & _ & H).
  - unfold registered. apply (bool_decide_unpack _). vm_compute. exact I.
  - by right.
  - by apply H.
Defined.
