(* ===== verification/FileStore.v ===== *)
(** The values of a [FileStorage] ([src/filestorage.go]; its locks are in
    [FileLock.v]): [Store], [Load], [Delete], [Exists], [List], [Stat] and
    [Filename] over a model of the file system.

    A file system maps the components of a path to a file or a directory. A
    path in [broken] fails with an input/output error; on a full disk a file
    can be created but not written. *)
From Stdlib Require Import Ascii.
From stdpp Require Import base tactics list strings gmap sets.
From Stdlib Require Import ZArith Lia.
From S2P Require Import Prelude GoTime GoStrings StorageKeys Storage.

Local Open Scope string_scope.
Local Open Scope go_scope.

(** * The file system *)

Inductive node := File (contents : string) (mtime : Z) | Dir (mtime : Z).

Record fsys := mkFs {
  nodes : gmap (list string) node;
  broken : gset (list string);
  disk_full : bool;
  dir_size : Z;                       (* what the size of a directory is said to be *)
  fs_now : Z
}.

Definition set_nodes (m : gmap (list string) node) (fs : fsys) : fsys :=
  {| nodes := m; broken := broken fs; disk_full := disk_full fs; dir_size := dir_size fs; fs_now := fs_now fs |}.

(** The root directory always exists. *)
Definition node_at (p : list string) (fs : fsys) : option node :=
  match p with [] => Some (Dir 0) | _ => nodes fs !! p end.

(** Adding or removing an entry sets the time of its directory. *)
Definition touch (p : list string) (fs : fsys) : fsys :=
  match nodes fs !! p with
  | Some (Dir _) => set_nodes (<[p := Dir (fs_now fs)]> (nodes fs)) fs
  | _ => fs
  end.

Definition parent (p : list string) : list string := removelast p.

Definition put_node (p : list string) (n : node) (fs : fsys) : fsys :=
  touch (parent p) (set_nodes (<[p := n]> (nodes fs)) fs).

Definition ErrNotDir : error := ErrStr "not a directory".
Definition ErrIO : error := ErrStr "input/output error".

(** Some ancestor of the path is a file. *)
Definition under_file (p : list string) (fs : fsys) : bool :=
  existsb (fun k => match node_at (take k p) fs with Some (File _ _) => true | _ => false end) (seq 0 (length p)).

(** Looking up a path: an error if it is broken, absent or below a file. *)
Definition lookup_path (p : list string) (fs : fsys) : res node :=
  if bool_decide (p ∈ broken fs) then Err ErrIO
  else match node_at p fs with
       | Some n => Ok n
       | None => if under_file p fs then Err ErrNotDir else Err ErrIsNotExist
       end.

(** [os.MkdirAll]: the components of [todo] below [done]. *)
Fixpoint mkdir_all (todo done : list string) : M fsys unit := fun fs =>
  match todo with
  | [] => (Ok (), fs)
  | c :: todo' =>
      let p := (done ++ [c])%list in
      match lookup_path p fs with
      | Ok (Dir _) => mkdir_all todo' p fs
      | Ok (File _ _) => (Err ErrNotDir, fs)
      | Err ErrIsNotExist => mkdir_all todo' p (put_node p (Dir (fs_now fs)) fs)
      | Err e => (Err e, fs)
      | Panic m => (Panic m, fs)
      end
  end.

(** [ioutil.WriteFile] with its truncation. *)
Definition WriteFile (p : list string) (value : string) : M fsys unit := fun fs =>
  let write n := if disk_full fs then (Err (ErrStr "no space left on device"), n "") else (Ok (), n value) in
  match lookup_path p fs with
  | Ok (Dir _) => (Err (ErrStr "is a directory"), fs)
  | Ok (File _ _) => write (fun v => set_nodes (<[p := File v (fs_now fs)]> (nodes fs)) fs)
  | Err ErrIsNotExist =>
      match node_at (parent p) fs with
      | Some (Dir _) => write (fun v => put_node p (File v (fs_now fs)) fs)
      | _ => (Err ErrIsNotExist, fs)
      end
  | Err e => (Err e, fs)
  | Panic m => (Panic m, fs)
  end.

(** [ioutil.ReadFile]. *)
Definition os_ReadFile (p : list string) : M fsys string := fun fs =>
  (match lookup_path p fs with
   | Ok (File c _) => Ok c
   | Ok (Dir _) => Err (ErrStr "is a directory")
   | Err e => Err e
   | Panic m => Panic m
   end, fs).

(** The paths strictly below a directory. *)
Definition is_below (p q : list string) : bool :=
  bool_decide (take (length p) q = p) && (length p <? length q)%nat.

Definition below (p : list string) (fs : fsys) : list (list string) :=
  filter (fun q => is_below p q = true) (fst <$> map_to_list (nodes fs)).

(** [os.Remove]. *)
Definition os_Remove (p : list string) : M fsys unit := fun fs =>
  match lookup_path p fs with
  | Ok n =>
      let removed := (Ok (), touch (parent p) (set_nodes (delete p (nodes fs)) fs)) in
      match n with
      | File _ _ => removed
      | Dir _ => if bool_decide (below p fs = []) then removed else (Err (ErrStr "directory not empty"), fs)
      end
  | Err e => (Err e, fs)
  | Panic m => (Panic m, fs)
  end.

(** The order of [filepath.Walk]: by names, a directory before its entries. *)
Fixpoint path_leb (p q : list string) : bool :=
  match p, q with
  | [], _ => true
  | _, [] => false
  | a :: p', b :: q' => if bool_decide (a = b) then path_leb p' q' else Stdlib.Strings.String.leb a b
  end.

Fixpoint insert_path (x : list string) (l : list (list string)) : list (list string) :=
  match l with
  | [] => [x]
  | y :: rest => if path_leb x y then x :: l else y :: insert_path x rest
  end.

Definition sort_paths (l : list (list string)) : list (list string) := foldr insert_path [] l.

(** * [FileStorage] *)

Record FileStorage := mkFileStorage { Path : string }.

(** The components that the kernel resolves a path to. *)
Definition components (p : string) : list string := filter (fun c => c <> "") (Split p slash).

Section Values.
Context (storage : FileStorage).

Definition Filename (key : string) : string := path_Join [Path storage; key].

Definition path_of (key : string) : list string := components (Filename key).

(** [os.IsNotExist]. *)
Definition IsNotExist (e : error) : bool := bool_decide (e = ErrIsNotExist).

(** True unless [Stat] says that the file does not exist. *)
Definition fs_Exists (key : string) (fs : fsys) : bool :=
  match lookup_path (path_of key) fs with
  | Err e => negb (IsNotExist e)
  | _ => true
  end.

Definition fs_Store (key value : string) : M fsys unit :=
  let* _ := mkdir_all (parent (path_of key)) [] in
  WriteFile (path_of key) value.

(** Only "does not exist" is returned; with any other error the contents are
    nil. *)
Definition fs_Load (key : string) : M fsys string :=
  let* contents := try (os_ReadFile (path_of key)) in
  match contents with
  | inl contents => ret contents
  | inr err => if IsNotExist err then fail err else ret ""
  end.

Definition fs_Delete (key : string) : M fsys unit := os_Remove (path_of key).

(** The walk: the root itself is not listed; without [recursive] a directory is
    listed and skipped. *)
Definition fs_List (prefix : string) (recursive : bool) : M fsys (list string) := fun fs =>
  let walkPrefix := path_of prefix in
  let visited := filter (fun q => recursive = true \/ length q = Datatypes.S (length walkPrefix))
                   (sort_paths (below walkPrefix fs)) in
  (match lookup_path walkPrefix fs with
   | Ok (Dir _) =>
       if existsb (fun q => bool_decide (q ∈ broken fs)) visited then Err ErrIO
       else Ok ((fun q => path_Join [prefix; Join (drop (length walkPrefix) q) "/"]) <$> visited)
   | Ok (File _ _) => Ok []
   | Err e => Err e
   | Panic m => Panic m
   end, fs).

Definition fs_Stat (key : string) : M fsys KeyInfo := fun fs =>
  (match lookup_path (path_of key) fs with
   | Ok (File c t) => Ok (mkKeyInfo key t (Z.of_nat (String.length c)) true)
   | Ok (Dir t) => Ok (mkKeyInfo key t (dir_size fs) false)
   | Err e => Err e
   | Panic m => Panic m
   end, fs).

End Values.

(** ** Where the data is kept *)

(** Environment variables and the operating system. *)
Class OsEnv := { Getenv : string -> string; is_windows : bool }.

Definition homeDir {V : OsEnv} : string :=
  let home := Getenv "HOME" in
  let home :=
    if bool_decide (home = "") && is_windows then
      let drive := Getenv "HOMEDRIVE" in
      let path := Getenv "HOMEPATH" in
      if bool_decide (drive = "") || bool_decide (path = "") then Getenv "USERPROFILE" else drive +:+ path
    else home in
  if bool_decide (home = "") then "." else home.

Definition dataDir {V : OsEnv} : string :=
  let baseDir := path_Join [homeDir; ".local"; "share"] in
  let xdgData := Getenv "XDG_DATA_HOME" in
  let baseDir := if negb (bool_decide (xdgData = "")) then xdgData else baseDir in
  path_Join [baseDir; "otomatik"].

(** * Lemmas *)

(** ** Paths *)

Lemma Split_slash_Join l : l <> [] -> Forall plain l -> Split ("/" +:+ Join l "/") slash = "" :: l.
Proof.
  intros Hne HF. change ("/" +:+ Join l "/") with (String "/" (Join l "/")). cbn [Split].
  rewrite bool_decide_eq_true_2 by done. f_equal. apply Split_Join_slash; [done | by apply plain_free].
Qed.

Lemma filter_nonempty l : Forall plain l -> filter (fun c => c <> "") l = l.
Proof.
  induction 1 as [|e l (He & _) HF IH]; [done |]. rewrite filter_cons_True by done. by rewrite IH.
Qed.

Lemma components_rooted l : l <> [] -> Forall plain l -> components ("/" +:+ Join l "/") = l.
Proof.
  intros Hne HF. unfold components. rewrite Split_slash_Join by done.
  rewrite filter_cons_False by (by intros []). by apply filter_nonempty.
Qed.

(** A storage whose root is the absolute path of [r]. *)
Definition rooted_at (storage : FileStorage) (r : list string) : Prop :=
  r <> [] /\ Forall plain r /\ Path storage = "/" +:+ Join r "/".

Lemma Filename_plain storage r l : rooted_at storage r -> l <> [] -> Forall plain l ->
  Filename storage (Join l "/") = "/" +:+ Join (r ++ l)%list "/".
Proof.
  intros (Hr & HFr & Hp) Hl HF. unfold Filename. rewrite Hp. cbn [path_Join].
  rewrite bool_decide_eq_false_2 by done.
  assert (Join ["/" +:+ Join r "/"; Join l "/"] "/" = "/" +:+ Join (r ++ l)%list "/") as ->.
  { rewrite Join_app by done. cbn [Join]. by rewrite app_assoc_str. }
  assert (Forall plain (r ++ l)) as HFa by (by apply Forall_app_2).
  assert (r ++ l <> [])%list as Hne by (by destruct r).
  unfold Clean. rewrite (HasPrefix_app "/" (Join (r ++ l)%list "/")), Split_slash_Join by done.
  cbn [foldl]. assert (clean_elem true [] "" = []) as -> by done.
  by rewrite clean_elems_plain, app_nil_r, rev_involutive.
Qed.

Lemma path_of_plain storage r l : rooted_at storage r -> l <> [] -> Forall plain l ->
  path_of storage (Join l "/") = (r ++ l)%list.
Proof.
  intros Hr Hl HF. unfold path_of. rewrite (Filename_plain storage r) by done. destruct Hr as (Hr & HFr & _).
  apply components_rooted; [by destruct r | by apply Forall_app_2].
Qed.

(** ** Nodes *)

(** Every entry is in a directory. *)
Definition tree (fs : fsys) : Prop :=
  forall p n, nodes fs !! p = Some n -> p <> [] /\ exists t, node_at (parent p) fs = Some (Dir t).

(** The contents of a file. *)
Definition contents (p : list string) (fs : fsys) : option string :=
  match nodes fs !! p with Some (File c _) => Some c | _ => None end.

Definition same_disk (fs fs' : fsys) : Prop :=
  broken fs' = broken fs /\ disk_full fs' = disk_full fs.

Definition is_Dir (o : option node) : Prop := exists t, o = Some (Dir t).

Lemma touch_at p q fs : p <> [] ->
  node_at p (touch q fs) = node_at p fs \/ (p = q /\ is_Dir (node_at p fs) /\ is_Dir (node_at p (touch q fs))).
Proof.
  intros Hp. destruct p as [|c p]; [done |]. unfold touch. cbn [node_at].
  destruct (nodes fs !! q) as [[|t]|] eqn:Hq; [by left | | by left].
  destruct (decide (q = c :: p)) as [-> | Hne].
  - right. split; [done |]. rewrite Hq. cbn. rewrite lookup_insert_eq. split; by eexists.
  - left. cbn. by rewrite lookup_insert_ne.
Qed.

Lemma contents_at p fs : p <> [] -> contents p fs = match node_at p fs with Some (File c _) => Some c | _ => None end.
Proof. by destruct p. Qed.

Lemma touch_contents p q fs : p <> [] -> contents p (touch q fs) = contents p fs.
Proof.
  intros Hp. rewrite !contents_at by done. destruct (touch_at p q fs Hp) as [-> | (_ & [t ->] & [t' ->])]; done.
Qed.

Lemma touch_Dir p q fs : is_Dir (node_at p (touch q fs)) <-> is_Dir (node_at p fs).
Proof.
  destruct p as [|c p]; [done |]. destruct (touch_at (c :: p) q fs) as [-> | (_ & H1 & H2)]; done.
Qed.

Lemma touch_tree q fs : tree fs -> tree (touch q fs).
Proof.
  intros Ht p n Hp. assert (p <> []) as Hne.
  { intros ->. unfold touch in Hp. destruct (nodes fs !! q) as [[|]|] eqn:Hq; try (by destruct (Ht _ _ Hp)).
    cbn in Hp. apply lookup_insert_Some in Hp as [[-> _] | [_ Hp]]; [by destruct (Ht _ _ Hq) | by destruct (Ht _ _ Hp)]. }
  split; [done |]. apply touch_Dir.
  assert (exists n', nodes fs !! p = Some n') as [n' Hn'].
  { unfold touch in Hp. destruct (nodes fs !! q) as [[|]|] eqn:Hq; [eauto | | eauto]. cbn in Hp.
    apply lookup_insert_Some in Hp as [[-> _] | [_ Hp]]; eauto. }
  by apply (Ht p n').
Qed.

Lemma parent_app (q : list string) c : parent (q ++ [c])%list = q.
Proof. apply removelast_last. Qed.

Lemma parent_split (p : list string) : p <> [] -> exists c, p = (parent p ++ [c])%list.
Proof. intros Hp. exists (List.last p ""). by apply app_removelast_last. Qed.

(** Putting a node where its parent is a directory. A directory may not be
    overwritten by a file. *)
Lemma put_node_spec p n fs :
  p <> [] -> is_Dir (node_at (parent p) fs) -> tree fs -> nodes fs !! p = None ->
  tree (put_node p n fs) /\ same_disk fs (put_node p n fs) /\
  node_at p (put_node p n fs) = Some n /\
  (forall q, q <> [] -> q <> p -> contents q (put_node p n fs) = contents q fs /\
     (is_Dir (node_at q (put_node p n fs)) <-> is_Dir (node_at q fs))).
Proof.
  intros Hp Hd Ht Hno. unfold put_node. set (fs1 := set_nodes _ fs).
  assert (forall q, q <> p -> node_at q fs1 = node_at q fs) as Hother
    by (intros [|c q] Hq; [done | cbn; by rewrite lookup_insert_ne]).
  assert (node_at p fs1 = Some n) as Hat by (destruct p; [done | cbn; by rewrite lookup_insert_eq]).
  assert (parent p <> p) as Hpp.
  { destruct (parent_split p Hp) as [c Hc]. intros He. apply (f_equal length) in Hc. rewrite He, length_app in Hc.
    cbn in Hc. lia. }
  split; [| split; [| split]].
  - apply touch_tree. intros q m Hq. cbn in Hq. apply lookup_insert_Some in Hq as [[<- _] | [Hne Hq]].
    + split; [done |]. by rewrite Hother.
    + destruct (Ht q m Hq) as [Hq0 Hqd]. split; [done |]. rewrite Hother; [done |]. intros He.
      destruct Hqd as [t Hqd]. rewrite He in Hqd. destruct p; [done |]. cbn in Hqd. congruence.
  - unfold touch. by destruct (nodes fs1 !! _) as [[]|].
  - destruct (touch_at p (parent p) fs1 Hp) as [-> | (He & _)]; [done | by destruct Hpp].
  - intros q Hq Hqp. rewrite touch_contents, touch_Dir, Hother by done. split; [| done].
    by rewrite !contents_at, Hother by done.
Qed.

Lemma lookup_path_cases p fs :
  (exists n, lookup_path p fs = Ok n /\ node_at p fs = Some n /\ p ∉ broken fs) \/
  (lookup_path p fs = Err ErrIsNotExist /\ node_at p fs = None /\ p ∉ broken fs) \/
  (exists e, lookup_path p fs = Err e /\ e <> ErrIsNotExist /\ (p ∈ broken fs \/ node_at p fs = None)).
Proof.
  unfold lookup_path. case_bool_decide as Hb; [right; right; by exists ErrIO; eauto |].
  destruct (node_at p fs) as [n|]; [left; eauto |]. destruct (under_file p fs); [| by right; left].
  right; right. exists ErrNotDir. eauto.
Qed.

(** An ancestor of a directory is a directory. *)
Lemma ancestor_Dir p fs k : tree fs -> is_Dir (node_at p fs) -> is_Dir (node_at (take k p) fs).
Proof.
  intros Ht. induction p as [|x p IH] using rev_ind; intros Hd; [by rewrite take_nil |].
  destruct (decide (length (p ++ [x]) <= k)%nat) as [Hle | Hlt]; [by rewrite take_ge |].
  rewrite length_app in Hlt. cbn in Hlt. rewrite take_app_le by lia. apply IH. destruct Hd as [t Hd].
  assert (nodes fs !! (p ++ [x])%list = Some (Dir t)) as Hnd by (by destruct p).
  destruct (Ht _ _ Hnd) as [_ Hpar]. by rewrite parent_app in Hpar.
Qed.

Lemma take_parent k (p : list string) : (k < length p)%nat -> take k p = take k (parent p).
Proof.
  intros Hk. destruct (parent_split p) as [x Hx]; [intros ->; cbn in Hk; lia |].
  pose proof Hk as Hk'. rewrite Hx, length_app in Hk'. cbn in Hk'.
  rewrite Hx at 1. by rewrite take_app_le by lia.
Qed.

Lemma length_parent (p : list string) : p <> [] -> length p = Datatypes.S (length (parent p)).
Proof. intros Hp. destruct (parent_split p Hp) as [x Hx]. rewrite Hx at 1. rewrite length_app. cbn. lia. Qed.

Lemma not_under_file p fs : tree fs -> p <> [] -> is_Dir (node_at (parent p) fs) -> under_file p fs = false.
Proof.
  intros Ht Hp Hd. unfold under_file. apply not_true_is_false. intros (k & [_ Hk]%in_seq & Hf)%existsb_exists.
  destruct (ancestor_Dir (parent p) fs k Ht Hd) as [t Hdt]. rewrite take_parent in Hf by lia. by rewrite Hdt in Hf.
Qed.


Lemma mkdir_all_spec todo : forall done fs r fs',
  tree fs -> is_Dir (node_at done fs) -> mkdir_all todo done fs = (r, fs') ->
  tree fs' /\ same_disk fs fs' /\ (forall m, r <> Panic m) /\
  (forall q, q <> [] -> contents q fs' = contents q fs) /\
  (forall q, (length (done ++ todo) < length q)%nat -> is_Dir (node_at q fs') -> is_Dir (node_at q fs)) /\
  (r = Ok () -> is_Dir (node_at (done ++ todo)%list fs')).
Proof.
  induction todo as [|c todo IH]; intros done fs r fs' Ht Hd; cbn [mkdir_all].
  { intros [= <- <-]. rewrite app_nil_r. by split_and!. }
  set (p := (done ++ [c])%list). assert (p <> []) as Hp by (by destruct done).
  assert ((done ++ c :: todo)%list = (p ++ todo)%list) as -> by (subst p; by rewrite <- app_assoc).
  destruct (lookup_path_cases p fs) as [(n & -> & Hn & _) | [(-> & Hn & _) | (e & -> & He & _)]].
  - destruct n as [k t | t]; [by intros [= <- <-] |]. apply IH; [done | rewrite Hn; by eexists].
  - assert (nodes fs !! p = None) as Hno by (destruct p; [done | exact Hn]).
    assert (is_Dir (node_at (parent p) fs)) as Hpd by (subst p; by rewrite parent_app).
    destruct (put_node_spec p (Dir (fs_now fs)) fs Hp Hpd Ht Hno) as (Ht1 & [Hb1 Hf1] & Hat & Hoth).
    intros Hm. apply IH in Hm as (Ht2 & [Hb2 Hf2] & Hpan & Hc & Hdir & Hok); [| done | rewrite Hat; by eexists].
    assert (contents p fs = None) as Hcp by (by rewrite contents_at, Hn).
    split_and!; [done | split; congruence | done | | | done].
    + intros q Hq. rewrite Hc by done. destruct (decide (q = p)) as [-> | Hne]; [| by apply Hoth].
      by rewrite contents_at, Hat, Hcp.
    + intros q Hl Hq. rewrite length_app in Hl. apply Hoth; [intros -> ; cbn in Hl; lia | intros -> ; lia |].
      apply Hdir; [by rewrite length_app | done].
  - assert (forall r, match e with ErrIsNotExist => r | e' => (Err e', fs) end = (Err (A:=unit) e, fs)) as ->
      by (by destruct e). by intros [= <- <-].
Qed.

Lemma WriteFile_spec p v fs r fs' :
  tree fs -> p <> [] -> WriteFile p v fs = (r, fs') ->
  tree fs' /\ same_disk fs fs' /\ (forall m, r <> Panic m) /\ (r = Ok () -> contents p fs' = Some v) /\
  (forall q, q <> [] -> q <> p -> contents q fs' = contents q fs).
Proof.
  intros Ht Hp. unfold WriteFile. cbv zeta.
  destruct (lookup_path_cases p fs) as [(n & -> & Hn & _) | [(-> & Hn & _) | (e & -> & He & _)]].
  - destruct n as [k t | t]; [| by intros [= <- <-]].
    assert (forall v', let fs1 := set_nodes (<[p := File v' (fs_now fs)]> (nodes fs)) fs in
      tree fs1 /\ same_disk fs fs1 /\ contents p fs1 = Some v' /\
      (forall q, q <> [] -> q <> p -> contents q fs1 = contents q fs)) as Hw.
    { intros v' fs1. split_and!; try done.
      - intros q m Hq. cbn in Hq. apply lookup_insert_Some in Hq as [[<- _] | [Hne Hq]].
        + assert (nodes fs !! p = Some (File k t)) as Hnp by (destruct p; [done | exact Hn]).
          destruct (Ht _ _ Hnp) as [_ [t' Hpar]]. split; [done |]. exists t'.
          destruct (parent p) as [|x pp] eqn:Hpp; [done |]. cbn. rewrite lookup_insert_ne; [done |].
          intros ->. cbn in Hpar. congruence.
        + destruct (Ht _ _ Hq) as [Hq0 [t' Hpar]]. split; [done |]. exists t'.
          destruct (parent q) as [|x pp] eqn:Hpp; [done |]. cbn. rewrite lookup_insert_ne; [done |].
          intros ->. cbn in Hpar, Hn. congruence.
      - unfold contents, fs1. cbn. by rewrite lookup_insert_eq.
      - intros q _ Hq. unfold contents, fs1. cbn. by rewrite lookup_insert_ne. }
    destruct (disk_full fs); intros [= <- <-]; [destruct (Hw "") as (? & ? & ? & ?) | destruct (Hw v) as (? & ? & ? & ?)];
      by split_and!.
  - assert (nodes fs !! p = None) as Hno by (destruct p; [done | exact Hn]).
    destruct (node_at (parent p) fs) as [[|t]|] eqn:Hpar; [by intros [= <- <-] | | by intros [= <- <-]].
    assert (forall v', let fs1 := put_node p (File v' (fs_now fs)) fs in
      tree fs1 /\ same_disk fs fs1 /\ contents p fs1 = Some v' /\
      (forall q, q <> [] -> q <> p -> contents q fs1 = contents q fs)) as Hw.
    { intros v' fs1. destruct (put_node_spec p (File v' (fs_now fs)) fs Hp) as (? & ? & Hat & Hoth);
        [rewrite Hpar; by eexists | done | done |]. split_and!; try done.
      - unfold fs1. by rewrite contents_at, Hat.
      - intros q Hq Hne. by apply Hoth. }
    destruct (disk_full fs); intros [= <- <-]; [destruct (Hw "") as (? & ? & ? & ?) | destruct (Hw v) as (? & ? & ? & ?)];
      by split_and!.
  - assert (forall r, match e with ErrIsNotExist => r | e' => (Err e', fs) end = (Err (A:=unit) e, fs)) as ->
      by (by destruct e). by intros [= <- <-].
Qed.

Lemma os_Remove_spec p fs r fs' :
  tree fs -> p <> [] -> os_Remove p fs = (r, fs') ->
  tree fs' /\ same_disk fs fs' /\ (forall m, r <> Panic m) /\ (r = Ok () -> contents p fs' = None) /\
  (forall q, q <> [] -> q <> p -> contents q fs' = contents q fs).
Proof.
  intros Ht Hp. unfold os_Remove.
  set (fs1 := touch (parent p) (set_nodes (delete p (nodes fs)) fs)).
  assert ((forall q n, nodes fs !! q = Some n -> parent q <> p) ->
    tree fs1 /\ same_disk fs fs1 /\ contents p fs1 = None /\
    (forall q, q <> [] -> q <> p -> contents q fs1 = contents q fs)) as Hrem.
  { intros Hleaf. subst fs1. set (fs2 := set_nodes (delete p (nodes fs)) fs). split_and!.
    - apply touch_tree. intros q n Hq. cbn in Hq. apply lookup_delete_Some in Hq as [Hne Hq].
      destruct (Ht _ _ Hq) as [Hq0 [t Hpar]]. split; [done |]. exists t.
      specialize (Hleaf _ _ Hq). destruct (parent q) as [|x pp] eqn:Hpp; [done |]. cbn.
      by rewrite lookup_delete_ne.
    - unfold touch. by destruct (nodes fs2 !! _) as [[]|].
    - rewrite touch_contents by done. unfold contents, fs2. cbn. by rewrite lookup_delete_eq.
    - intros q Hq Hne. rewrite touch_contents by done. unfold contents, fs2. cbn. by rewrite lookup_delete_ne. }
  destruct (lookup_path_cases p fs) as [(n & -> & Hn & _) | [(-> & Hn & _) | (e & -> & He & _)]];
    [| by intros [= <- <-] | by intros [= <- <-]].
  assert (nodes fs !! p = Some n) as Hnp by (destruct p; [done | exact Hn]).
  destruct n as [k t | t].
  - intros [= <- <-]. destruct Hrem as (? & ? & ? & ?); [| by split_and!].
    intros q n Hq Hpar. destruct (Ht _ _ Hq) as [_ [t' Hd]]. rewrite Hpar in Hd. congruence.
  - case_bool_decide as Hb; [| by intros [= <- <-]]. intros [= <- <-].
    destruct Hrem as (? & ? & ? & ?); [| by split_and!].
    intros q n Hq Hpar. destruct (Ht _ _ Hq) as [Hq0 _]. destruct (parent_split q Hq0) as [c Hc].
    assert (q ∈ below p fs) as Hin; [| rewrite Hb in Hin; by apply not_elem_of_nil in Hin].
    unfold below. apply list_elem_of_filter. split.
    + unfold is_below. rewrite Hc, Hpar, length_app, take_app_length. cbn.
      rewrite bool_decide_eq_true_2 by done. apply Nat.ltb_lt. lia.
    + apply list_elem_of_fmap. exists (q, n). split; [done |]. by apply elem_of_map_to_list.
Qed.

(** With nothing broken and no file in the way the directories are made. *)
Lemma mkdir_all_works todo : forall done fs,
  tree fs -> is_Dir (node_at done fs) -> broken fs = ∅ ->
  (forall k, contents (done ++ take k todo)%list fs = None) ->
  exists fs', mkdir_all todo done fs = (Ok (), fs').
Proof.
  induction todo as [|c todo IH]; intros done fs Ht Hd Hb Hc; cbn [mkdir_all]; [by eexists |].
  set (p := (done ++ [c])%list). assert (p <> []) as Hp by (by destruct done).
  assert (forall k, contents (p ++ take k todo)%list fs = None) as Hc'
    by (intros k; specialize (Hc (Datatypes.S k)); subst p; by rewrite <- app_assoc).
  unfold lookup_path. rewrite Hb. rewrite bool_decide_eq_false_2 by (by apply not_elem_of_empty).
  destruct (node_at p fs) as [n|] eqn:Hn.
  - pose proof (Hc' 0%nat) as H0. rewrite app_nil_r, contents_at, Hn in H0 by done.
    destruct n as [k t | t]; [done |]. apply IH; [done | rewrite Hn; by eexists | done | exact Hc'].
  - assert (is_Dir (node_at (parent p) fs)) as Hpd by (subst p; by rewrite parent_app).
    rewrite (not_under_file p fs Ht Hp Hpd).
    assert (nodes fs !! p = None) as Hno by (destruct p; [done | exact Hn]).
    destruct (put_node_spec p (Dir (fs_now fs)) fs Hp Hpd Ht Hno) as (Ht1 & [Hb1 _] & Hat & Hoth).
    apply IH; [done | rewrite Hat; by eexists | by rewrite Hb1 |].
    intros k. destruct (decide ((p ++ take k todo)%list = p)) as [-> | Hne].
    + by rewrite contents_at, Hat.
    + destruct (Hoth (p ++ take k todo)%list) as [-> _]; [by destruct p | done | apply Hc'].
Qed.

(** A file is written where its parent is a directory and no directory is in
    its place. *)
Lemma WriteFile_works p v fs : tree fs -> p <> [] -> is_Dir (node_at (parent p) fs) -> ~ is_Dir (node_at p fs) ->
  broken fs = ∅ -> disk_full fs = false -> exists fs', WriteFile p v fs = (Ok (), fs').
Proof.
  intros Ht Hp Hpd Hd Hb Hf. unfold WriteFile. cbv zeta. rewrite Hf.
  unfold lookup_path. rewrite Hb, bool_decide_eq_false_2 by (by apply not_elem_of_empty).
  destruct (node_at p fs) as [[c t|t]|]; [by eexists | by destruct Hd; eexists |].
  rewrite (not_under_file p fs Ht Hp Hpd). destruct Hpd as [t Hpd]. rewrite Hpd. by eexists.
Qed.

(** ** Listing *)

Lemma path_Join_plains l l' : l <> [] -> l' <> [] -> Forall plain l -> Forall plain l' ->
  path_Join [Join l "/"; Join l' "/"] = Join (l ++ l')%list "/".
Proof.
  intros Hl Hl' HF HF'. cbn [path_Join]. rewrite bool_decide_eq_false_2.
  2: { destruct l as [|w l]; [done |]. inversion HF; subst. by apply (Join_plain_head w l). }
  assert (Join [Join l "/"; Join l' "/"] "/" = Join (l ++ l')%list "/") as -> by (by rewrite Join_app).
  apply Clean_plain; [by destruct l | by apply Forall_app_2].
Qed.

Lemma elem_of_insert_path x y l : y ∈ insert_path x l <-> y = x \/ y ∈ l.
Proof.
  induction l as [|z l IH]; cbn [insert_path]; [set_solver |].
  destruct (path_leb x z); [set_solver |]. rewrite elem_of_cons, IH. set_solver.
Qed.

Lemma elem_of_sort_paths y l : y ∈ sort_paths l <-> y ∈ l.
Proof.
  induction l as [|x l IH]; [done |]. change (sort_paths (x :: l)) with (insert_path x (sort_paths l)).
  by rewrite elem_of_insert_path, IH, elem_of_cons.
Qed.

Lemma elem_of_below q p fs : q ∈ below p fs <->
  is_Some (nodes fs !! q) /\ exists l, l <> [] /\ q = (p ++ l)%list.
Proof.
  unfold below. rewrite list_elem_of_filter. split.
  - intros [Hb Hin]. apply list_elem_of_fmap in Hin as ([q' n] & -> & Hin). apply elem_of_map_to_list in Hin.
    split; [by eexists |]. unfold is_below in Hb. apply andb_true_iff in Hb as [Ht%bool_decide_eq_true_1 Hl%Nat.ltb_lt].
    exists (drop (length p) q'). split.
    + intros Hd. apply (f_equal length) in Hd. rewrite length_drop in Hd. cbn in *. lia.
    + cbn [fst] in *. rewrite <- Ht at 1. by rewrite take_drop.
  - intros [[n Hn] (l & Hl & ->)]. split.
    + unfold is_below. rewrite take_app_length, bool_decide_eq_true_2 by done. apply Nat.ltb_lt.
      rewrite length_app. destruct l; [done | cbn; lia].
    + apply list_elem_of_fmap. exists ((p ++ l)%list, n). split; [done |]. by apply elem_of_map_to_list.
Qed.

(** * Properties *)

(** A storage at ["/data"] with one value. *)
Definition data : FileStorage := mkFileStorage "/data".

Definition one_value : fsys :=
  {| nodes := {[ ["data"] := Dir 1; ["data"; "a"] := Dir 1; ["data"; "a"; "k"] := File "v" 1 ]};
     broken := ∅; disk_full := false; dir_size := 0; fs_now := 5 |}.

Lemma data_rooted : rooted_at data ["data"].
Proof. split; [done |]. split; [by repeat constructor | done]. Qed.

Lemma plain_key (l : list string) :
  forallb (fun e => negb (bool_decide (e = "")) && negb (bool_decide (e = ".")) && negb (bool_decide (e = "..")) &&
                    free_of slash e) l = true -> Forall plain l.
Proof.
  intros H. apply Forall_forall. intros e He. apply list_elem_of_In in He. rewrite forallb_forall in H.
  specialize (H e He). bool_hyps. repeat split; try done; by apply bool_decide_eq_false_1, negb_true_iff.
Qed.


Lemma one_value_tree : tree one_value.
Proof.
  intros p n Hp. cbn in Hp. rewrite !lookup_insert_Some, lookup_singleton_Some in Hp.
  destruct Hp as [[<- _] | [_ [[<- _] | [_ [<- _]]]]]; (split; [done | by eexists]).
Qed.




(** [Load] returns an error only for a file that does not exist: a key
    that is a directory, a path that cannot be read and a path below a file
    all load as an empty value without an error. *)
Theorem Load_hides_errors storage key (fs : fsys) e :
  lookup_path (path_of storage key) fs = Err e \/ (e = ErrStr "is a directory" /\
    is_Dir (node_at (path_of storage key) fs) /\ path_of storage key ∉ broken fs) ->
  e <> ErrIsNotExist ->
  fs_Load storage key fs = (Ok "", fs) /\ fs_Exists storage key fs = true.
Proof.
  intros He Hne. unfold fs_Load, fs_Exists, bind, try, os_ReadFile.
  assert (IsNotExist e = false) as Hn by (by apply bool_decide_eq_false_2).
  destruct He as [-> | (-> & [t Hd] & Hb)]; [by rewrite Hn |].
  unfold lookup_path. by rewrite Hd, bool_decide_eq_false_2.
Qed.

Lemma Load_hides_errors_witness :
  fs_Load data "a" one_value = (Ok "", one_value) /\ fs_Exists data "a" one_value = true /\
  fs_Load data "a/k/x" one_value = (Ok "", one_value).
Proof.
  destruct (Load_hides_errors data "a" one_value (ErrStr "is a directory")) as [H1 H2];
    [right; split_and!; [done | by eexists | by vm_compute] | done |].
  destruct (Load_hides_errors data "a/k/x" one_value ErrNotDir) as [H3 _]; [left; by vm_compute | done |].
  by split_and!.
Defined.
