(* ===== verification/Ocsp.v ===== *)
(** OCSP stapling, [src/ocsp.go]: when a staple is fresh, where it comes from
    (the cache in storage or the responder) and when it is stapled.

    The network and golang.org/x/crypto/ocsp are the methods of [Http] and
    [OcspLib]. A response body is the bytes it delivers followed by the end of
    file or an error. *)
From Stdlib Require Import Ascii.
From stdpp Require Import base tactics list strings gmap sets.
From Stdlib Require Import ZArith Lia.
From S2P Require Import Prelude GoTime GoStrings StorageKeys Certificates Crypto Storage.

Local Open Scope string_scope.
Local Open Scope go_scope.

(** * The environment *)

Record Body := mkBody { content : string; read_err : option error }.

Class Http (W : Type) := {
  http_Get : string -> M W Body;
  http_Post : string -> string -> string -> M W Body   (* URL, content type, body *)
}.

Class OcspLib := {
  ParseResponse : string -> option x509Cert -> res ocspResponse;
  CreateRequest : x509Cert -> x509Cert -> res string
}.

(** [time.Now()]. *)
Class Clock (W : Type) := time_Now : W -> Z.

(** * Definitions *)

(** [ioutil.ReadAll(io.LimitReader(body, 1024*1024))]: after the limit the
    reader reports the end of file, and an error beyond it is never seen. *)
Definition body_limit : Z := 1024 * 1024.

Definition read_limited (b : Body) : res string :=
  if (body_limit <=? Z.of_nat (String.length (content b)))%Z
  then Ok (take_bytes (Z.to_nat body_limit) (content b))
  else match read_err b with Some e => Err e | None => Ok (content b) end.

Definition freshOCSP (now : Z) (resp : ocspResponse) : bool :=
  let nextUpdate :=
    match responder resp with
    | Some c => if Before (NotAfter c) (NextUpdate resp) then NotAfter c else NextUpdate resp
    | None => NextUpdate resp
    end in
  let refreshTime := Add (ThisUpdate resp) (Z.quot (Sub nextUpdate (ThisUpdate resp)) 2) in
  Before now refreshTime.

(** [cert.Certificate.OCSPStaple = ocspBytes; cert.ocsp = ocspResp]. *)
Definition with_staple (ocspBytes : string) (ocspResp : option ocspResponse) (cert : Certificate)
    : Certificate :=
  {| tls := {| chain := chain (tls cert); Certificates.PrivateKey := Certificates.PrivateKey (tls cert); Leaf := Leaf (tls cert);
               staple := ocspBytes |};
     Names := Names cert; Tags := Tags cert; ocsp := ocspResp; hash := hash cert;
     managed := managed cert |}.

(** The PEM encoding of a DER chain. *)
Definition pem_chain {K : KeyLib} (derChain : list string) : string :=
  foldr (fun der rest => pem_encode "CERTIFICATE" der +:+ rest) "" derChain.

Section Ocsp.
Context {U : UnicodeTables} {L : CertLib} {K : KeyLib} {O : OcspLib} {W : Type} {S : Storage W}
        {H : Http W} {C : Clock W}.

(** The certificate that issued [issuedCert]: the next of the bundle, or the
    one at the leaf's issuer URL. *)
Definition get_issuer (issuedCert : x509Cert) (rest : list x509Cert) : M W x509Cert :=
  match rest with
  | issuerCert :: _ => ret issuerCert
  | [] =>
      match IssuingCertificateURL issuedCert with
      | [] => fail (ErrStr "no URL to issuing certificate")
      | url :: _ =>
          let* resp := wrap_err (fun _ => ErrStr "getting issuer certificate") (http_Get url) in
          let* issuerBytes := wrap_err (fun _ => ErrStr "reading issuer certificate")
                                (of_res (read_limited resp)) in
          wrap_err (fun _ => ErrStr "parsing issuer certificate") (of_res (ParseCertificate issuerBytes))
      end
  end.

Definition getOCSPForCert (bundle : string) : M W (string * ocspResponse) :=
  let* certificates := of_res (parseCertsFromPEMBundle bundle) in
  match certificates with
  | [] => panic "index out of range"
  | issuedCert :: rest =>
      match OCSPServer issuedCert with
      | [] => fail (ErrStr "no OCSP server specified in certificate")
      | server :: _ =>
          let* issuerCert := get_issuer issuedCert rest in
          let* ocspReq := wrap_err (fun _ => ErrStr "creating OCSP request")
                            (of_res (CreateRequest issuedCert issuerCert)) in
          let* req := wrap_err (fun _ => ErrStr "making OCSP request")
                        (http_Post server "application/ocsp-request" ocspReq) in
          let* ocspResBytes := wrap_err (fun _ => ErrStr "reading OCSP response")
                                 (of_res (read_limited req)) in
          let* ocspRes := wrap_err (fun _ => ErrStr "parsing OCSP response")
                            (of_res (ParseResponse ocspResBytes (Some issuerCert))) in
          ret (ocspResBytes, ocspRes)
      end
  end.

(** The staple in storage, if it is fresh; a corrupt one is deleted. *)
Definition cached_staple (ocspStapleKey : string) : M W (option (string * ocspResponse)) :=
  let* loaded := try (Load ocspStapleKey) in
  match loaded with
  | inr _ => ret None
  | inl cachedOCSP =>
      match ParseResponse cachedOCSP None with
      | Ok resp => fun w =>
          (Ok (if freshOCSP (time_Now w) resp then Some (cachedOCSP, resp) else None), w)
      | Err _ => let* _ := try (Delete ocspStapleKey) in ret None
      | Panic m => panic m
      end
  end.

(** The end of [stapleOCSP]: staple and persist a good response. *)
Definition finish_staple (cert : Certificate) (ocspStapleKey ocspBytes : string) (ocspResp : ocspResponse)
    (gotNewOCSP : bool) : M W (Certificate * option ocspResponse * option error) :=
  if bool_decide (Status ocspResp = Good) then
    match Leaf (tls cert) with
    | None => panic "nil pointer dereference"
    | Some leaf =>
        if After (NextUpdate ocspResp) (NotAfter leaf)
        then ret (cert, Some ocspResp, Some (ErrStr "invalid: OCSP response valid after certificate expiration"))
        else
          let cert' := with_staple ocspBytes (Some ocspResp) cert in
          if gotNewOCSP then
            let* stored := try (Store ocspStapleKey ocspBytes) in
            ret (cert', Some ocspResp,
                 match stored with
                 | inl _ => None
                 | inr _ => Some (ErrStr "unable to write OCSP staple file")
                 end)
          else ret (cert', Some ocspResp, None)
    end
  else ret (cert, Some ocspResp, None).

(** The certificate as the function leaves it, the response and the error; a
    nil [pemBundle] is [None]. *)
Definition stapleOCSP (cert : Certificate) (pemBundle : option string)
    : M W (Certificate * option ocspResponse * option error) :=
  let pemBundle := match pemBundle with Some b => b | None => pem_chain (chain (tls cert)) end in
  let ocspStapleKey := OCSPStaple (Names cert) pemBundle in
  let* cached := cached_staple ocspStapleKey in
  let usable := match cached with Some ("", _) => None | _ => cached end in
  let* got := match usable with
              | Some (b, resp) => ret (inl (b, resp, false))
              | None =>
                  let* r := try (getOCSPForCert pemBundle) in
                  ret (match r with
                       | inl (b, resp) => inl (b, resp, true)
                       | inr _ => inr (ErrStr "no OCSP stapling")
                       end)
              end in
  match got with
  | inr e => ret (cert, None, Some e)
  | inl (ocspBytes, ocspResp, gotNewOCSP) =>
      finish_staple cert ocspStapleKey ocspBytes ocspResp gotNewOCSP
  end.

End Ocsp.

(** * Laws *)

(** The network leaves the storage alone, and neither it nor the parsers
    panic. *)
Definition same_storage {W} {S : Storage W} {SL : StorageLaws S} (w w' : W) : Prop :=
  kv w' = kv w /\ locked w' = locked w.

Class CertLibLaws (L : CertLib) : Prop := {
  ParseCertificate_safe b m : ParseCertificate b <> Panic m;
  X509KeyPair_safe c k m : X509KeyPair c k <> Panic m
}.

Class OcspLibLaws (O : OcspLib) : Prop := {
  ParseResponse_safe b c m : ParseResponse b c <> Panic m;
  CreateRequest_safe c i m : CreateRequest c i <> Panic m
}.

Class HttpLaws {W} {S : Storage W} {SL : StorageLaws S} (H : Http W) : Prop := {
  http_Get_law u : safely same_storage (http_Get u);
  http_Post_law u t b : safely same_storage (http_Post u t b)
}.

(** * Lemmas *)

Section Facts.
Context {U : UnicodeTables} {L : CertLib} {LL : CertLibLaws L} {K : KeyLib} {KL : KeyLibLaws K}
        {O : OcspLib} {OL : OcspLibLaws O} {W : Type} {S : Storage W} {SL : StorageLaws S}
        {H : Http W} {HL : HttpLaws H} {C : Clock W}.

Lemma same_storage_refl (w : W) : same_storage w w.
Proof. done. Qed.

Lemma same_storage_trans (w1 w2 w3 : W) : same_storage w1 w2 -> same_storage w2 w3 -> same_storage w1 w3.
Proof. unfold same_storage. intros [] []. split; congruence. Qed.

#[local] Hint Resolve same_storage_refl same_storage_trans ParseResponse_safe CreateRequest_safe
  ParseCertificate_safe http_Get_law http_Post_law : core.

Lemma read_limited_safe b m : read_limited b <> Panic m.
Proof. unfold read_limited. destruct (_ <=? _)%Z; [done |]. by destruct (read_err b). Qed.

#[local] Hint Resolve read_limited_safe : core.

Lemma parse_bundle_safe : forall fuel bundle certs m, parse_bundle fuel bundle certs <> Some (Panic m).
Proof.
  induction fuel as [|fuel IH]; intros bundle certs m; [done |]. cbn [parse_bundle].
  destruct (pem_decode bundle) as [[[t der] rest]|]; [| by case_bool_decide].
  case_bool_decide; [| done]. destruct (ParseCertificate der) eqn:Hp; [done | done |].
  by apply ParseCertificate_safe in Hp.
Qed.

(** A bundle parses without panic, and not to an empty list. *)
Lemma parseCertsFromPEMBundle_safe bundle m : parseCertsFromPEMBundle bundle <> Panic m.
Proof.
  unfold parseCertsFromPEMBundle. destruct (parse_bundle _ _ _) as [r|] eqn:Hb.
  - cbn. intros ->. by apply parse_bundle_safe in Hb.
  - by apply parse_bundle_enough in Hb; [| lia].
Qed.

Lemma parseCertsFromPEMBundle_nonempty bundle : parseCertsFromPEMBundle bundle <> Ok [].
Proof.
  unfold parseCertsFromPEMBundle. destruct (parse_bundle _ _ _) as [r|] eqn:Hb; [| done].
  cbn. intros ->. by apply parse_bundle_Ok in Hb as [? _].
Qed.

#[local] Hint Resolve parseCertsFromPEMBundle_safe : core.

(** Fetching a staple never panics and never touches the storage. *)
Lemma getOCSPForCert_safe bundle : safely same_storage (getOCSPForCert bundle).
Proof.
  unfold getOCSPForCert. apply safely_bind_if; [eauto | apply safely_res; auto |].
  intros [|c rest] w w' Hw.
  - injection Hw as Hw _. by apply parseCertsFromPEMBundle_nonempty in Hw.
  - destruct (OCSPServer c); [by apply safely_fail |].
    assert (safely same_storage (get_issuer (W:=W) c rest)) as Hi by (unfold get_issuer; safe_steps; auto).
    safe_steps; auto.
Qed.

(** The response a fetch returns is what its bytes parse to. *)
Lemma getOCSPForCert_Ok bundle (w w' : W) b resp :
  getOCSPForCert bundle w = (Ok (b, resp), w') -> exists issuer, ParseResponse b (Some issuer) = Ok resp.
Proof.
  unfold getOCSPForCert. unfold bind at 1, of_res at 1.
  destruct (parseCertsFromPEMBundle bundle) as [[|c rest] | e | m]; [done | | done | done].
  destruct (OCSPServer c) as [|server]; [done |].
  unfold bind at 1. destruct (get_issuer c rest w) as [[issuer | |] w1]; [| done | done].
  unfold bind at 1. destruct (wrap_err _ _ w1) as [[req | |] w2]; [| done | done].
  unfold bind at 1. destruct (wrap_err _ _ w2) as [[body | |] w3]; [| done | done].
  unfold bind at 1. destruct (wrap_err _ _ w3) as [[bytes | |] w4]; [| done | done].
  unfold bind, wrap_err, of_res. destruct (ParseResponse bytes (Some issuer)) eqn:Hp; [| done | done].
  intros [= <- <- <-]. by exists issuer.
Qed.

(** The staple read from storage is there, parses and is fresh; nothing but a
    corrupt one is removed. *)
Lemma cached_staple_spec key w : exists o w',
  cached_staple key w = (Ok o, w') /\ locked w' = locked w /\
  (forall k, k <> key -> kv w' !! k = kv w !! k) /\
  (kv w' !! key = kv w !! key \/
   (exists b e, kv w !! key = Some b /\ ParseResponse b None = Err e /\ kv w' !! key = None)) /\
  (forall b resp, o = Some (b, resp) ->
     kv w !! key = Some b /\ kv w' = kv w /\ ParseResponse b None = Ok resp /\
     freshOCSP (time_Now (snd (Load key w))) resp = true).
Proof.
  unfold cached_staple, bind, try. destruct (Load key w) as [r w1] eqn:Hl.
  destruct (Load_law _ _ _ _ Hl) as (Hp & Hk & Hkv & Hv).
  destruct r as [b | e | m]; [| by exists None, w1; rewrite Hkv; split_and!; [| | | left |] | by destruct (Hp m)].
  specialize (Hv b eq_refl). destruct (ParseResponse b None) as [resp | e | m] eqn:Hr.
  - exists (if freshOCSP (time_Now w1) resp then Some (b, resp) else None), w1.
    rewrite Hkv. destruct (freshOCSP (time_Now w1) resp) eqn:Hf; (split_and!; [done | done | done | by left |]);
      intros b' resp' Heq; by simplify_eq.
  - destruct (Delete key w1) as [rd w2] eqn:Hd.
    destruct (Delete_law _ _ _ _ Hd) as (Hpd & Hld & Hkd & _).
    assert (forall k, k <> key -> kv w2 !! k = kv w !! k) as Ho.
    { intros k Hne. destruct Hkd as [-> | ->]; by rewrite ?lookup_delete_ne, Hkv by done. }
    assert (kv w2 !! key = kv w !! key \/
            exists b e, kv w !! key = Some b /\ ParseResponse b None = Err e /\ kv w2 !! key = None) as Hat.
    { destruct Hkd as [-> | ->]; [right | by left; rewrite Hkv].
      exists b, e. by rewrite lookup_delete_eq. }
    destruct rd as [u | e' | m]; [| | by destruct (Hpd m)]; exists None, w2;
      (split; [done |]); (split; [congruence |]); (split; [exact Ho |]); by split.
  - by apply ParseResponse_safe in Hr.
Qed.
(** Stapling changes nothing of the certificate but the staple, and only to a
    good response that does not outlive it. *)
Definition restapled (cert cert' : Certificate) : Prop :=
  cert' = cert \/
  exists b r leaf, Leaf (tls cert) = Some leaf /\ Status r = Good /\ (NextUpdate r <= NotAfter leaf)%Z /\
    cert' = with_staple b (Some r) cert.

Lemma finish_staple_resp cert key b r new (w w' : W) cert' resp err :
  finish_staple cert key b r new w = (Ok (cert', Some resp, err), w') -> resp = r.
Proof.
  unfold finish_staple. case_bool_decide; [| by intros [= _ <- _ _]].
  destruct (Leaf (tls cert)); [| done]. destruct (After _ _); [by intros [= _ <- _ _] |].
  destruct new; [| by intros [= _ <- _ _]]. unfold bind. destruct (try _ w) as [[] ?]; [by intros [= _ <- _ _] | done | done].
Qed.

Lemma stapleOCSP_cert cert pem (w w' : W) cert' resp err :
  stapleOCSP cert pem w = (Ok (cert', resp, err), w') -> restapled cert cert'.
Proof.
  unfold stapleOCSP. unfold bind at 1. destruct (cached_staple _ w) as [[o | |] w1]; [| done | done].
  unfold bind at 1. set (m := match match o with Some ("", _) => None | _ => o end with Some _ => _ | None => _ end).
  destruct (m w1) as [[[[[b r] new]|e] | |] w2]; [| by intros [= <- _ _ _]; left | done | done].
  unfold finish_staple. case_bool_decide as Hg; [| intros [= <- _ _ _]; by left].
  destruct (Leaf (tls cert)) as [leaf|] eqn:Hl; [| done].
  destruct (After _ _) eqn:Ha; [intros [= <- _ _ _]; by left |]. apply Z.ltb_ge in Ha.
  assert (restapled cert (with_staple b (Some r) cert)) as Hr by (right; by exists b, r, leaf).
  destruct new; [| by intros [= <- _ _ _]].
  unfold bind, try. destruct (Store _ b w2) as [[] w3]; try done; by intros [= <- _ _ _].
Qed.

(** Whatever response it returns was parsed. *)
Lemma cached_staple_resp key (w w' : W) b r :
  cached_staple key w = (Ok (Some (b, r)), w') -> ParseResponse b None = Ok r.
Proof.
  unfold cached_staple, bind at 1, try at 1. destruct (Load key w) as [[v | |] w1]; [| done | done].
  destruct (ParseResponse v None) as [resp | |] eqn:Hp; [| | done].
  - destruct (freshOCSP _ _); [| done]. by intros [= <- <- _].
  - unfold bind. destruct (try _ w1) as [[] ?]; done.
Qed.

Lemma stapleOCSP_resp cert pem (w w' : W) cert' resp err :
  stapleOCSP cert pem w = (Ok (cert', Some resp, err), w') -> exists b i, ParseResponse b i = Ok resp.
Proof.
  unfold stapleOCSP. unfold bind at 1. destruct (cached_staple _ w) as [[o | |] w1] eqn:Hc; [| done | done].
  unfold bind at 1.
  destruct (match o with Some ("", _) => None | _ => o end) as [[b r]|] eqn:Hu.
  - assert (o = Some (b, r)) as -> by (by destruct o as [[[|] ]|]; simplify_eq). cbn [ret].
    intros Hf. exists b, None. apply cached_staple_resp in Hc. by rewrite (finish_staple_resp _ _ _ _ _ _ _ _ _ _ Hf).
  - unfold bind at 1, try. destruct (getOCSPForCert _ w1) as [[[b r] | |] w2] eqn:Hg; cbn [ret]; [| done | done].
    intros Hf. apply getOCSPForCert_Ok in Hg as [i Hp]. exists b, (Some i).
    by rewrite (finish_staple_resp _ _ _ _ _ _ _ _ _ _ Hf).
Qed.

(** The part of [stapleOCSP] that finds a response: either a fresh staple from
    storage or one that was just fetched. *)
Definition found (key : string) (w w1 : W) (b : string) (resp : ocspResponse) (new : bool) : Prop :=
  if new then exists issuer, ParseResponse b (Some issuer) = Ok resp
  else kv w1 = kv w /\ kv w !! key = Some b /\ ParseResponse b None = Ok resp /\
       freshOCSP (time_Now (snd (Load key w))) resp = true.

(** The storage changed at most at [key]; there, an entry was at most removed
    because it does not parse. *)
Definition purged (key : string) (w w1 : W) : Prop :=
  locked w1 = locked w /\ (forall k, k <> key -> kv w1 !! k = kv w !! k) /\
  (kv w1 !! key = kv w !! key \/
   (exists b e, kv w !! key = Some b /\ ParseResponse b None = Err e /\ kv w1 !! key = None)).

Lemma stapleOCSP_found cert pem w :
  let bundle := default (pem_chain (chain (tls cert))) pem in
  let key := OCSPStaple (Names cert) bundle in
  exists w1, purged key w w1 /\
    ((exists e, stapleOCSP cert pem w = (Ok (cert, None, Some e), w1)) \/
     (exists b resp new, found key w w1 b resp new /\
        stapleOCSP cert pem w = finish_staple cert key b resp new w1)).
Proof.
  intros bundle key. destruct (cached_staple_spec key w) as (o & w1 & Hc & Hl & Ho & Hk & Hf).
  assert (stapleOCSP cert pem w = (bind (match match o with Some ("", _) => None | _ => o end with
              | Some (b, resp) => ret (inl (b, resp, false))
              | None => let* r := try (getOCSPForCert bundle) in
                        ret (match r with
                             | inl (b, resp) => inl (b, resp, true)
                             | inr _ => inr (ErrStr "no OCSP stapling")
                             end)
              end) (fun got => match got with
                    | inr e => ret (cert, None, Some e)
                    | inl (b, resp, new) => finish_staple cert key b resp new
                    end)) w1) as ->.
  { unfold stapleOCSP.
    replace (match pem with Some b => b | None => pem_chain (chain (tls cert)) end) with bundle by (by destruct pem).
    fold key. unfold bind at 1. by rewrite Hc. }
  destruct (match o with Some ("", _) => None | _ => o end) as [[b resp]|] eqn:Hu.
  - assert (o = Some (b, resp)) as -> by (by destruct o as [[[|c b'] r]|]; simplify_eq).
    exists w1. split; [done |]. right. exists b, resp, false. split; [| done].
    destruct (Hf b resp eq_refl) as (? & ? & ? & ?). done.
  - destruct (safely_try_Ok same_storage (getOCSPForCert bundle) w1 (getOCSPForCert_safe bundle))
      as (x & w2 & Ht & [Hkv2 Hl2] & Hx).
    exists w2. split; [unfold purged; rewrite Hkv2, Hl2; done |]. unfold bind at 1 2. rewrite Ht.
    destruct Hx as [([b resp] & -> & Hg) | (e & -> & _)]; [right | left; by eexists].
    exists b, resp, true. split; [by eapply getOCSPForCert_Ok |]. unfold bind. by rewrite Ht.
Qed.
End Facts.

(** * An example environment *)

(** A leaf with an OCSP responder and an issuer URL; the network serves the
    issuer and a response valid from 0 to 100, and it is 10 o'clock. *)
Definition stapled_leaf : x509Cert :=
  {| NotBefore := 0; NotAfter := 1000; CommonName := "a.com"; DNSNames := []; IPAddresses := [];
     EmailAddresses := []; URIs := []; OCSPServer := ["http://ocsp"]; IssuingCertificateURL := ["http://ca"] |}.

Definition responder_lib : CertLib := {|
  ParseCertificate der := if bool_decide (der = "LEAF") || bool_decide (der = "CA") then Ok stapled_leaf
                          else Err (ErrStr "malformed certificate");
  X509KeyPair c _ := if bool_decide (c = "PEM") then
      Ok {| chain := ["LEAF"]; Certificates.PrivateKey := "KEY"; Leaf := None; staple := "" |}
    else Err (ErrStr "no certificate");
  sha256 s := s
|}.

Definition good_response : ocspResponse := mkOCSP Good 0 100 None.

Definition responder_ocsp : OcspLib := {|
  ParseResponse b _ := if bool_decide (b = "GOOD") then Ok good_response
                       else if bool_decide (b = "OLD") then Ok (mkOCSP Good (-100) 0 None)
                       else if bool_decide (b = "REVOKED") then Ok (mkOCSP Revoked 0 100 None)
                       else Err (ErrStr "malformed response");
  CreateRequest _ _ := Ok "REQ"
|}.

Definition mem_http : Http mem := {|
  http_Get u w := (Ok (mkBody "CA" None), w);
  http_Post _ _ _ w := (Ok (mkBody "GOOD" None), w)
|}.

Definition mem_clock : Clock mem := fun _ => 10%Z.

Lemma responder_lib_laws : CertLibLaws responder_lib.
Proof. split; cbn; intros; by repeat case_bool_decide. Qed.

Lemma responder_ocsp_laws : OcspLibLaws responder_ocsp.
Proof. split; cbn; intros; by repeat case_bool_decide. Qed.

Lemma mem_http_laws : HttpLaws mem_http.
Proof. by split; intros; intros w. Qed.

#[local] Existing Instance ascii_tables.
#[local] Existing Instance responder_lib.
#[local] Existing Instance responder_lib_laws.
#[local] Existing Instance responder_ocsp.
#[local] Existing Instance responder_ocsp_laws.
#[local] Existing Instance tag_lib.
#[local] Existing Instance tag_laws.
#[local] Existing Instance mem_http.
#[local] Existing Instance mem_http_laws.
#[local] Existing Instance mem_clock.

Definition unstapled : Certificate :=
  {| tls := {| chain := ["LEAF"]; Certificates.PrivateKey := "KEY"; Leaf := Some stapled_leaf; staple := "" |};
     Names := ["a.com"]; Tags := []; ocsp := None; hash := "h"; managed := true |}.

Definition blank_disk : mem := {| m_kv := ∅; m_locked := ∅; m_fail := ∅ |}.

(** * Properties *)

(** C23: a staple is fresh exactly during the first half of its validity, which
    ends when the responder's certificate does if that is earlier; so a fresh
    staple has not expired, and neither has the responder's certificate. *)
Theorem freshOCSP_first_half now resp :
  let ends := match responder resp with
              | Some c => Z.min (NotAfter c) (NextUpdate resp)
              | None => NextUpdate resp
              end in
  (ThisUpdate resp <= ends)%Z -> is_int64 (ends - ThisUpdate resp) ->
  (freshOCSP now resp = true <-> (2 * (now - ThisUpdate resp + 1) <= ends - ThisUpdate resp)%Z) /\
  (freshOCSP now resp = true -> (ThisUpdate resp <= now)%Z -> (now < NextUpdate resp)%Z).
Proof.
  intros ends Hle H64.
  assert (freshOCSP now resp = (now <? ThisUpdate resp + Z.quot (ends - ThisUpdate resp) 2)%Z) as ->.
  { unfold freshOCSP, Before, Add. rewrite <- (Sub_exact _ _ H64). do 4 f_equal. subst ends.
    destruct (responder resp) as [c|]; [| done]. destruct (Z.ltb_spec (NotAfter c) (NextUpdate resp)); lia. }
  set (d := (ends - ThisUpdate resp)%Z) in *.
  rewrite Z.ltb_lt, Z.quot_div_nonneg by lia.
  pose proof (Z.div_mod d 2 ltac:(lia)). pose proof (Z.mod_pos_bound d 2 ltac:(lia)).
  assert (ends <= NextUpdate resp)%Z by (subst ends; destruct (responder resp); lia).
  split; [lia |]. subst d. lia.
Qed.

Lemma freshOCSP_first_half_witness :
  freshOCSP 49 good_response = true /\ freshOCSP 50 good_response = false /\ (49 < 100)%Z.
Proof.
  split; [reflexivity |]. split; [reflexivity |].
  apply (freshOCSP_first_half 49 good_response); [done | by vm_compute | reflexivity | done].
Defined.


