(* ===== verification/Account.v ===== *)
(** ACME accounts: the manager's settings and storage keys
    ([src/acmemanager.go]) and the accounts of [src/user.go].

    An operation works on the world, on the manager it is a method of and on
    the package variable [DefaultACME], which the program writes to. *)
From Stdlib Require Import Ascii.
From stdpp Require Import base tactics list strings gmap sets.
From Stdlib Require Import ZArith Lia.
From S2P Require Import Prelude GoTime GoStrings Net StorageKeys Certificates Crypto Storage Ocsp.

Local Open Scope string_scope.
Local Open Scope go_scope.

(** * Data *)

(** [url.URL]: the fields that are read. *)
Record URL := mkURL { url_Scheme : string; url_Host : string; url_Path : string }.

Class UrlLib := url_Parse : string -> option URL.

Record ExternalAccountBinding := mkEAB { KeyID : string; HMAC : string }.

(** Interface values and pointers (DNS provider, options, roots, the
    configuration) are handles; [None] is nil. *)
Record ACMEManager := mkACME {
  CA : string;
  TestCA : string;
  Email : string;
  Agreed : bool;
  ExternalAccount : option ExternalAccountBinding;
  DisableHTTPChallenge : bool;
  DisableTLSALPNChallenge : bool;
  ListenHost : string;
  AltHTTPPort : Z;
  AltTLSALPNPort : Z;
  DNSProvider : option nat;
  DNSChallengeOption : option nat;
  TrustedRoots : option nat;
  CertObtainTimeout : Z;
  config : option nat
}.

Definition with_account (email : string) (agreed : bool) (m : ACMEManager) : ACMEManager :=
  {| CA := CA m; TestCA := TestCA m; Email := email; Agreed := agreed;
     ExternalAccount := ExternalAccount m; DisableHTTPChallenge := DisableHTTPChallenge m;
     DisableTLSALPNChallenge := DisableTLSALPNChallenge m; ListenHost := ListenHost m;
     AltHTTPPort := AltHTTPPort m; AltTLSALPNPort := AltTLSALPNPort m; DNSProvider := DNSProvider m;
     DNSChallengeOption := DNSChallengeOption m; TrustedRoots := TrustedRoots m;
     CertObtainTimeout := CertObtainTimeout m; config := config m |}.

Definition LetsEncryptStagingCA : string := "https://acme-staging-v02.api.letsencrypt.org/directory".
Definition LetsEncryptProductionCA : string := "https://acme-v02.api.letsencrypt.org/directory".

Definition prefixACME : string := "acme".
Definition emptyEmail : string := "default".

(** The initial value of the package variable [DefaultACME]. *)
Definition initial_DefaultACME : ACMEManager :=
  {| CA := LetsEncryptProductionCA; TestCA := LetsEncryptStagingCA; Email := ""; Agreed := false;
     ExternalAccount := None; DisableHTTPChallenge := false; DisableTLSALPNChallenge := false;
     ListenHost := ""; AltHTTPPort := 0; AltTLSALPNPort := 0; DNSProvider := None;
     DNSChallengeOption := None; TrustedRoots := None; CertObtainTimeout := 0; config := None |}.

Record user := mkUser {
  user_Email : string;
  Registration : option string;     (* the account resource, in its JSON form *)
  user_key : PrivateKey
}.

(** * The environment *)

(** What [reader.ReadString] returns: a line, the text before the end of
    input, or an error. *)
Inductive line := Line (s : string) | LineEOF (s : string) | LineErr (e : error).

Class AccountEnv (W : Type) := {
  generate_P384 : M W string;                                    (* ecdsa.GenerateKey *)
  marshal_user : string -> option string -> res string;          (* json.MarshalIndent *)
  unmarshal_user : string -> res (option (string * option string)); (* json.Unmarshal; null gives nil *)
  decode_directory : Body -> res string;                         (* the terms of service of a directory *)
  read_line : W -> line * W;
  agreementTestURL : string
}.

(** * Names in storage *)

Section Account.
Context {U : UnicodeTables} {UL : UrlLib} {K : KeyLib} {W : Type} {S : Storage W} {H : Http W}
        {A : AccountEnv W}.

Definition hyphenate (c : ascii) : ascii :=
  if bool_decide (c = "/"%char) || bool_decide (c = "\"%char) then "-"%char else c.

(** [issuerKey] does not read the manager. *)
Definition issuerKey (ca : string) : string :=
  match url_Parse ca with
  | None => ca
  | Some caURL =>
      if bool_decide (url_Path caURL = "") then url_Host caURL
      else
        let path := Trim (map_bytes hyphenate (url_Path caURL)) "-" in
        if bool_decide (path = "") then url_Host caURL else url_Host caURL +:+ "-" +:+ path
  end.

Definition storageKeyCAPrefix (caURL : string) : string := path_Join [prefixACME; Safe (issuerKey caURL)].

Definition storageKeyUsersPrefix (caURL : string) : string :=
  path_Join [storageKeyCAPrefix caURL; "users"].

Definition storageKeyUserPrefix (caURL email : string) : string :=
  let email := if bool_decide (email = "") then emptyEmail else email in
  path_Join [storageKeyUsersPrefix caURL; Safe email].

Definition emailUsername (email : string) : string :=
  match IndexByte email "@" with
  | None => email
  | Some O => drop_bytes 1 email
  | Some at_ => take_bytes at_ email
  end.

Definition storageSafeUserKey (ca email defaultFilename extension : string) : string :=
  let email := if bool_decide (email = "") then emptyEmail else email in
  let email := ToLower email in
  let filename := emailUsername email in
  let filename := if bool_decide (filename = "") then defaultFilename else filename in
  path_Join [storageKeyUserPrefix ca email; Safe filename +:+ extension].

Definition storageKeyUserReg (caURL email : string) : string :=
  storageSafeUserKey caURL email "registration" ".json".

Definition storageKeyUserPrivateKey (caURL email : string) : string :=
  storageSafeUserKey caURL email "private" ".key".

(** * Accounts *)

Definition newUser (email : string) : M W user :=
  let* privateKey := wrap_err (fun _ => ErrStr "generating private key") generate_P384 in
  ret (mkUser email None (EcdsaKey privateKey)).

(** [err.(ErrNotExist)], which every non-nil error satisfies. *)
Definition is_ErrNotExist (err : error) : bool := true.

Definition getUser (ca email : string) : M W user :=
  let* reg := try (Load (storageKeyUserReg ca email)) in
  match reg with
  | inr err => if is_ErrNotExist err then newUser email else fail err
  | inl regBytes =>
      let* key := try (Load (storageKeyUserPrivateKey ca email)) in
      match key with
      | inr err => if is_ErrNotExist err then newUser email else fail err
      | inl keyBytes =>
          let* u := of_res (unmarshal_user regBytes) in
          match u with
          | None => panic "nil pointer dereference"     (* u.key *)
          | Some (email', registration) =>
              let* k := of_res (decodePrivateKey keyBytes) in
              ret (mkUser email' registration k)
          end
      end
  end.

Definition saveUser (ca : string) (u : user) : M W unit :=
  let* regBytes := of_res (marshal_user (user_Email u) (Registration u)) in
  let* keyBytes := of_res (encodePrivateKey (user_key u)) in
  storeTx [mkKV (storageKeyUserReg ca (user_Email u)) regBytes;
           mkKV (storageKeyUserPrivateKey ca (user_Email u)) keyBytes].

(** ** The most recent account *)

(** The loop over the users: [backing] is the array under [userList], [len] the
    length of [userList], and the range clause goes over the original slice.
    [userList[i+1:]] past the end panics. *)
Fixpoint stat_users (todo i : nat) (backing : list string) (len : nat) (stats : gmap string KeyInfo)
    : M W (list string * gmap string KeyInfo) :=
  match todo with
  | O => ret (take len backing, stats)
  | Datatypes.S todo' =>
      match backing !! i with
      | None => panic "index out of range"
      | Some u =>
          let* keyInfo := try (Stat u) in
          match keyInfo with
          | inr _ => stat_users todo' (Datatypes.S i) backing len stats
          | inl info =>
              if IsTerminal info then
                if (len <? Datatypes.S i)%nat then panic "slice bounds out of range"
                else
                  let moved := take (len - Datatypes.S i) (drop (Datatypes.S i) backing) in
                  let len' := (i + length moved)%nat in
                  stat_users todo' (Datatypes.S i) (take i backing ++ moved ++ drop len' backing)%list len' stats
              else stat_users todo' (Datatypes.S i) backing len (<[u := info]> stats)
          end
      end
  end.

(** [stats[u].Modified]; a missing entry reads as the zero [KeyInfo]. *)
Definition modified (stats : gmap string KeyInfo) (u : string) : Z :=
  match stats !! u with Some info => Modified info | None => zeroTime end.

(** [sort.Slice], most recent first; it is not stable, the order of equal times
    is not specified. *)
Fixpoint insert_user (stats : gmap string KeyInfo) (u : string) (l : list string) : list string :=
  match l with
  | [] => [u]
  | v :: rest => if Before (modified stats u) (modified stats v) then v :: insert_user stats u rest else u :: l
  end.

Definition sort_users (stats : gmap string KeyInfo) (l : list string) : list string :=
  foldr (insert_user stats) [] l.

Definition mostRecentUserEmail (caURL : string) : M W (string * bool) :=
  let* listed := try (List (storageKeyUsersPrefix caURL) false) in
  match listed with
  | inr _ | inl [] => ret ("", false)
  | inl userList =>
      let* (userList, stats) := stat_users (length userList) 0 userList (length userList) ∅ in
      match sort_users stats userList with
      | [] => panic "index out of range"
      | recent :: _ =>
          let* u := try (getUser caURL (path_Base recent)) in
          match u with
          | inl u => ret (user_Email u, true)
          | inr _ => ret ("", false)
          end
      end
  end.

(** ** The e-mail address *)

(** The world with the manager and [DefaultACME]. *)
Record acme := mkAcme { a_world : W; mgr : ACMEManager; DefaultACME : ACMEManager }.

Definition lift_acme {B} (m : M W B) : M acme B := fun s =>
  let '(r, w') := m (a_world s) in (r, mkAcme w' (mgr s) (DefaultACME s)).

Definition getAgreementURL : M acme string := fun s =>
  if negb (bool_decide (agreementTestURL = "")) then (Ok agreementTestURL, s)
  else
    let caURL := if bool_decide (CA (mgr s) = "") then CA (DefaultACME s) else CA (mgr s) in
    (let* response := lift_acme (http_Get caURL) in of_res (decode_directory response)) s.

(** [promptUserAgreement] only prints. *)
Definition promptUserForEmail : M acme string :=
  let* _ := wrap_err (fun _ => ErrStr "get Agreement URL") getAgreementURL in
  fun s =>
    let '(l, w') := read_line (a_world s) in
    match l with
    | LineErr _ => (Err (ErrStr "reading email address"), mkAcme w' (mgr s) (DefaultACME s))
    | Line leEmail | LineEOF leEmail =>
        (Ok (TrimSpace leEmail),
         mkAcme w' (mgr s) (with_account (Email (DefaultACME s)) true (DefaultACME s)))
    end.

Definition askUserAgreement (agreementURL : string) : M acme bool := fun s =>
  let '(l, w') := read_line (a_world s) in
  (Ok (match l with
       | Line answer =>
           let answer := ToLower (TrimSpace answer) in
           bool_decide (answer = "y") || bool_decide (answer = "yes")
       | _ => false
       end), mkAcme w' (mgr s) (DefaultACME s)).

(** The last lines of [getEmail]. *)
Definition remember_email (leEmail : string) : M acme unit := fun s =>
  let email := TrimSpace (ToLower leEmail) in
  (Ok (), mkAcme (a_world s) (with_account email (Agreed (mgr s)) (mgr s))
                 (with_account email (Agreed (DefaultACME s)) (DefaultACME s))).

Definition getEmail (allowPrompts : bool) : M acme unit := fun s =>
  let leEmail := Email (mgr s) in
  let leEmail := if bool_decide (leEmail = "") then Email (DefaultACME s) else leEmail in
  (let* (leEmail, gotRecentEmail) :=
     if bool_decide (leEmail = "") then lift_acme (mostRecentUserEmail (CA (mgr s))) else ret (leEmail, false) in
   if negb gotRecentEmail && bool_decide (leEmail = "") && allowPrompts then
     let* leEmail := promptUserForEmail in
     let* _ := fun s => (Ok (), mkAcme (a_world s)
                           (with_account (Email (mgr s)) (Agreed (DefaultACME s)) (mgr s)) (DefaultACME s)) in
     remember_email leEmail
   else remember_email leEmail) s.

(** ** Managers *)

(** [NewACMEManager]: [None] is a nil configuration. *)
Definition NewACMEManager (cfg : option nat) (template : ACMEManager) (default : ACMEManager) : res ACMEManager :=
  match cfg with
  | None => Panic "cannot make valid ACMEManager without an associated otomatik config"
  | Some c =>
      let str x y := if bool_decide (x = "") then y else x in
      let flag (x y : bool) := if negb x then y else x in
      let num (x y : Z) := if (x =? 0)%Z then y else x in
      let ptr (x y : option nat) := match x with None => y | _ => x end in
      Ok {| CA := str (CA template) (CA default); TestCA := str (TestCA template) (TestCA default);
            Email := str (Email template) (Email default); Agreed := flag (Agreed template) (Agreed default);
            ExternalAccount := ExternalAccount template;
            DisableHTTPChallenge := flag (DisableHTTPChallenge template) (DisableHTTPChallenge default);
            DisableTLSALPNChallenge := flag (DisableTLSALPNChallenge template) (DisableTLSALPNChallenge default);
            ListenHost := str (ListenHost template) (ListenHost default);
            AltHTTPPort := num (AltHTTPPort template) (AltHTTPPort default);
            AltTLSALPNPort := num (AltTLSALPNPort template) (AltTLSALPNPort default);
            DNSProvider := ptr (DNSProvider template) (DNSProvider default);
            DNSChallengeOption := ptr (DNSChallengeOption template) (DNSChallengeOption default);
            TrustedRoots := ptr (TrustedRoots template) (TrustedRoots default);
            CertObtainTimeout := num (CertObtainTimeout template) (CertObtainTimeout default);
            config := Some c |}
  end.

(** [PreCheck]. *)
Fixpoint all_qualify (names : list string) : M acme unit :=
  match names with
  | [] => ret ()
  | name :: rest =>
      if negb (SubjectQualifiesForPublicCert name)
      then fail (ErrStr "subject does not qualify for a Let's Encrypt certificate")
      else all_qualify rest
  end.

Definition PreCheck (names : list string) (interactive : bool) : M acme unit := fun s =>
  (let* _ := if Contains (CA (mgr s)) "api.letsencrypt.org" then all_qualify names else ret () in
   getEmail interactive) s.

End Account.

(** * Lemmas *)

(** What JSON gives back of an account. *)
Class AccountLaws {W} (A : AccountEnv W) : Prop := {
  user_law e r b : marshal_user e r = Ok b -> unmarshal_user b = Ok (Some (e, r))
}.

Section Facts.
Context {U : UnicodeTables} {UL : UrlLib} {K : KeyLib} {KL : KeyLibLaws K} {W : Type} {S : Storage W}
        {SL : StorageLaws S} {H : Http W} {A : AccountEnv W} {AL : AccountLaws A}.

(** ** Keys *)

(** The e-mail address an account is stored under. *)
Definition stored_email (email : string) : string :=
  ToLower (if bool_decide (email = "") then emptyEmail else email).

(** Neither the CA nor the address reduces to nothing, a dot or two dots. *)
Definition proper_account (ca email : string) : Prop :=
  proper (issuerKey ca) /\ proper (stored_email email).

Definition account_folder (ca email : string) : list string :=
  [prefixACME; Safe (issuerKey ca); "users"; Safe (stored_email email)].

Lemma account_folder_plain ca email : proper_account ca email -> Forall plain (account_folder ca email).
Proof.
  intros [Hc He]. constructor; [by repeat constructor |]. constructor; [by apply proper_plain |].
  constructor; [by repeat constructor |]. constructor; [by apply proper_plain | constructor].
Qed.

Lemma users_prefix_shape ca : proper (issuerKey ca) ->
  storageKeyUsersPrefix ca = Join [prefixACME; Safe (issuerKey ca); "users"] "/".
Proof.
  intros Hc. unfold storageKeyUsersPrefix, storageKeyCAPrefix.
  pose proof (proper_plain _ Hc) as Hpl.
  assert (path_Join [prefixACME; Safe (issuerKey ca)] = Join [prefixACME; Safe (issuerKey ca)] "/") as ->
    by (apply (path_Join_plain [prefixACME]); [done | by repeat constructor | done]).
  apply (path_Join_plain [prefixACME; Safe (issuerKey ca)]); [done | | done].
  constructor; [by repeat constructor | by constructor].
Qed.

Lemma file_plain name ext :
  free_of slash ext = true -> (4 <= String.length ext)%nat -> plain (Safe name +:+ ext).
Proof.
  intros He Hl. assert (4 <= String.length (Safe name +:+ ext))%nat as Hlen by (rewrite length_app_str; lia).
  repeat split; try (intros Heq; rewrite Heq in Hlen; cbn in Hlen; lia).
  unfold free_of. rewrite all_bytes_app. apply andb_true_intro. split; [apply Safe_no_slash | done].
Qed.

(** An account file is a file of the account's folder. *)
Lemma user_key_shape ca email def ext :
  proper_account ca email -> stored_email email <> "" ->
  free_of slash ext = true -> (4 <= String.length ext)%nat ->
  storageSafeUserKey ca email def ext =
    Join (account_folder ca email ++
          [Safe (if bool_decide (emailUsername (stored_email email) = "") then def
                 else emailUsername (stored_email email)) +:+ ext])%list "/".
Proof.
  intros Hp Hne He Hl. pose proof (account_folder_plain ca email Hp) as HF. destruct Hp as [Hc Hm].
  unfold storageSafeUserKey. fold (stored_email email). unfold storageKeyUserPrefix.
  rewrite (bool_decide_eq_false_2 _ Hne), users_prefix_shape by done.
  rewrite (path_Join_plain [prefixACME; Safe (issuerKey ca); "users"] (Safe (stored_email email))).
  - apply (path_Join_plain (account_folder ca email)); [done | done |]. by apply file_plain.
  - done.
  - by apply (Forall_app plain [prefixACME; Safe (issuerKey ca); "users"] [Safe (stored_email email)]) in HF as [? _].
  - by apply proper_plain.
Qed.

Lemma reg_not_key ca email :
  proper_account ca email -> stored_email email <> "" ->
  storageKeyUserReg ca email <> storageKeyUserPrivateKey ca email.
Proof.
  intros Hp Hne. unfold storageKeyUserReg, storageKeyUserPrivateKey.
  rewrite !user_key_shape by (try done; cbn; lia).
  intros Heq%Join_plain_inj; try done.
  - apply app_inv_head in Heq. injection Heq as Heq. case_bool_decide.
    + by vm_compute in Heq.
    + by apply app_inv_l_str in Heq.
  - apply Forall_app_2; [by apply account_folder_plain |]. constructor; [apply file_plain; cbn; (done || lia) | constructor].
  - apply Forall_app_2; [by apply account_folder_plain |]. constructor; [apply file_plain; cbn; (done || lia) | constructor].
Qed.

(** ** Saving and loading *)

Lemma saveUser_stores ca u (w w' : W) :
  proper_account ca (user_Email u) -> stored_email (user_Email u) <> "" ->
  saveUser ca u w = (Ok (), w') ->
  exists b k, marshal_user (user_Email u) (Registration u) = Ok b /\ encodePrivateKey (user_key u) = Ok k /\
    kv w' !! storageKeyUserReg ca (user_Email u) = Some b /\
    kv w' !! storageKeyUserPrivateKey ca (user_Email u) = Some k.
Proof.
  intros Hp Hne. unfold saveUser, bind at 1, of_res at 1.
  destruct (marshal_user _ _) as [b | |]; [| done | done]. unfold bind, of_res.
  destruct (encodePrivateKey (user_key u)) as [k | |]; [| done | done]. intros Htx.
  apply storeTx_from_spec in Htx as [_ [[_ Hkv] | (e & ? & ? & ? & ? & _)]]; [| done].
  exists b, k. split; [done |]. split; [done |]. rewrite Hkv. cbn [store_all foldl key value].
  pose proof (reg_not_key ca (user_Email u) Hp Hne). split.
  - by rewrite lookup_insert_ne, lookup_insert_eq.
  - by rewrite lookup_insert_eq.
Qed.

Lemma newUser_fresh email (w w' : W) u :
  newUser email w = (Ok u, w') -> user_Email u = email /\ Registration u = None.
Proof.
  unfold newUser, bind, wrap_err. destruct generate_P384 as [[k | |] w1]; [| done | done]. by intros [= <- _].
Qed.

(** An account that is returned with a registration was loaded. *)
Lemma getUser_loaded ca email (w w' : W) u :
  getUser ca email w = (Ok u, w') -> Registration u <> None ->
  exists b k, kv w !! storageKeyUserReg ca email = Some b /\ kv w !! storageKeyUserPrivateKey ca email = Some k /\
    unmarshal_user b = Ok (Some (user_Email u, Registration u)) /\ decodePrivateKey k = Ok (user_key u).
Proof.
  unfold getUser, bind at 1, try at 1. destruct (Load _ w) as [r1 w1] eqn:H1.
  apply Load_law in H1 as (_ & _ & Hkv1 & V1). destruct r1 as [b | e | m]; [| | done].
  2: { cbn [is_ErrNotExist]. intros [_ Hr]%newUser_fresh Hn. by rewrite Hr in Hn. }
  unfold bind at 1, try at 1. destruct (Load _ w1) as [r2 w2] eqn:H2.
  apply Load_law in H2 as (_ & _ & _ & V2). destruct r2 as [k | e | m]; [| | done].
  2: { cbn [is_ErrNotExist]. intros [_ Hr]%newUser_fresh Hn. by rewrite Hr in Hn. }
  unfold bind at 1, of_res at 1. destruct (unmarshal_user b) as [[[e r]|] | |] eqn:Hb; [| done..].
  unfold bind, of_res. destruct (decodePrivateKey k) as [k' | |] eqn:Hk; [| done | done].
  intros [= <- _] _. exists b, k. rewrite <- Hkv1. split; [rewrite Hkv1; by apply V1 |]. split; [by apply V2 |]. done.
Qed.

(** ** The most recent account *)

Section Stats.
Context (info : string -> KeyInfo).
(** [Stat] finds every key. *)
Definition stat_works : Prop :=
  forall u (w : W), exists w', Stat u w = (Ok (info u), w').

Lemma stat_step (Hs : stat_works) u w : exists w', try (Stat u) w = (Ok (inl (info u)), w').
Proof. destruct (Hs u w) as [w' He]. exists w'. unfold try. by rewrite He. Qed.

(** Without stray files the list is as it was, with everything looked up. *)
Lemma stat_users_all (Hs : stat_works) todo : forall i l stats w,
  Forall (fun u => IsTerminal (info u) = false) l -> (i + todo = length l)%nat ->
  (forall u, u ∈ take i l -> stats !! u = Some (info u)) ->
  exists stats' w', stat_users todo i l (length l) stats w = (Ok (l, stats'), w') /\
    forall u, u ∈ l -> stats' !! u = Some (info u).
Proof.
  induction todo as [|todo IH]; intros i l stats w HF Hi Hst; cbn [stat_users].
  - exists stats, w. rewrite firstn_all. split; [done |]. intros u Hu. apply Hst.
    by rewrite take_ge by lia.
  - destruct (lookup_lt_is_Some_2 l i ltac:(lia)) as [u Hu]. rewrite Hu. unfold bind.
    destruct (stat_step Hs u w) as [w1 ->].
    assert (IsTerminal (info u) = false) as -> by (rewrite Forall_lookup in HF; by eapply HF).
    apply IH; [done | lia |]. intros v Hv. rewrite (take_S_r _ _ _ Hu) in Hv.
    rewrite lookup_insert. case_decide as Hd; [by rewrite Hd |].
    apply elem_of_app in Hv as [Hv | ->%list_elem_of_singleton]; [by apply Hst | done].
Qed.

(** A folder of stray files only: the loop slices past the end, or nothing is
    left of the list. *)
Lemma stat_users_stray (Hs : stat_works) todo : forall i backing stats w,
  Forall (fun u => IsTerminal (info u) = true) backing -> (i + todo = length backing)%nat ->
  exists r w', stat_users todo i backing (length backing - i) stats w = (r, w') /\
    ((exists m, r = Panic m) \/ (exists stats', r = Ok ([], stats'))).
Proof.
  induction todo as [|todo IH]; intros i backing stats w HF Hi; cbn [stat_users].
  - eexists _, w. split; [reflexivity |]. right. exists stats. by replace (length backing - i)%nat with 0%nat by lia.
  - destruct (lookup_lt_is_Some_2 backing i ltac:(lia)) as [u Hu]. rewrite Hu. unfold bind.
    destruct (stat_step Hs u w) as [w1 ->].
    assert (IsTerminal (info u) = true) as -> by (rewrite Forall_lookup in HF; by eapply HF).
    destruct (_ <? _)%nat eqn:Hlt; [eexists _, w1; split; [reflexivity |]; left; by eexists |].
    apply Nat.ltb_ge in Hlt. cbv zeta. rewrite length_take, length_drop.
    set (moved := take _ (drop _ backing)).
    assert (length moved = length backing - i - Datatypes.S i)%nat as Hm
      by (subst moved; rewrite length_take, length_drop; lia).
    replace (i + Nat.min _ _)%nat with (length backing - Datatypes.S i)%nat by lia.
    set (backing' := (_ ++ _)%list).
    assert (length backing' = length backing) as Hl
      by (subst backing'; rewrite !length_app, length_take, length_drop, Hm; lia).
    rewrite <- Hl. apply IH; [| lia]. subst backing' moved.
    apply Forall_app_2; [by apply Forall_take | apply Forall_app_2]; [by apply Forall_take, Forall_drop | by apply Forall_drop].
Qed.

(** The most recent of a list. *)
Lemma insert_user_spec stats u l :
  (forall x, x ∈ insert_user stats u l <-> x = u \/ x ∈ l) /\
  exists h t, insert_user stats u l = h :: t /\ (l = [] -> h = u) /\
    (modified stats u <= modified stats h)%Z /\
    forall h0 t0, l = h0 :: t0 -> (modified stats h0 <= modified stats h)%Z.
Proof.
  split.
  - induction l as [|v l IH]; intros x; cbn [insert_user]; [set_solver |].
    destruct (Before _ _); [rewrite elem_of_cons, IH |]; set_solver.
  - destruct l as [|v l]; cbn [insert_user]; [by exists u, [] |].
    unfold Before. destruct (Z.ltb_spec (modified stats u) (modified stats v)).
    + exists v, (insert_user stats u l). split_and!; [done | done | lia |]. intros h0 t0 [= <- _]. lia.
    + exists u, (v :: l). split_and!; [done | done | lia |]. intros h0 t0 [= <- _]. lia.
Qed.

Lemma elem_of_sort_users stats l x : x ∈ sort_users stats l <-> x ∈ l.
Proof.
  induction l as [|v l IH]; [done |].
  change (sort_users stats (v :: l)) with (insert_user stats v (sort_users stats l)).
  destruct (insert_user_spec stats v (sort_users stats l)) as [-> _]. by rewrite IH, elem_of_cons.
Qed.

Lemma sort_users_head stats l :
  (l = [] /\ sort_users stats l = []) \/
  exists u rest, sort_users stats l = u :: rest /\ u ∈ l /\
    forall v, v ∈ l -> (modified stats v <= modified stats u)%Z.
Proof.
  induction l as [|u l IH]; [by left | right].
  change (sort_users stats (u :: l)) with (insert_user stats u (sort_users stats l)).
  destruct (insert_user_spec stats u (sort_users stats l)) as [Hin (h & t & He & H0 & H1 & H2)].
  exists h, t. split; [done |].
  assert (h = u \/ h ∈ sort_users stats l) as Hmem by (apply Hin; rewrite He; by left). split.
  - apply elem_of_cons. destruct Hmem as [-> | Hx%elem_of_sort_users]; [by left | by right].
  - intros v [-> | Hv]%elem_of_cons; [done |]. destruct IH as [[-> _] | (h0 & t0 & Hs & _ & Hmax)].
    + by apply not_elem_of_nil in Hv.
    + specialize (H2 _ _ Hs). specialize (Hmax v Hv). lia.
Qed.
End Stats.
End Facts.

(** * An example environment *)

(** A storage whose account folders are listed with given times. *)
Definition folder_storage (listed : list string) (info : string -> KeyInfo) : Storage mem := {|
  Store := @Store mem mem_storage; Load := @Load mem mem_storage; Delete := @Delete mem mem_storage;
  Exists := @Exists mem mem_storage; List _ _ w := (Ok listed, w); Stat k w := (Ok (info k), w);
  Lock := @Lock mem mem_storage; Unlock := @Unlock mem mem_storage
|}.

(** ["u/.DS_Store"] is a file, the other keys are folders; ["u/new"] is newer. *)
Definition user_info (k : string) : KeyInfo :=
  mkKeyInfo k (if bool_decide (k = "u/new") then 20 else 10) 0 (bool_decide (k = "u/.DS_Store")).

Definition url_lib : UrlLib := fun s =>
  if bool_decide (s = "https://ca/dir") then Some (mkURL "https" "ca" "/dir") else None.

(** The JSON of an account is its address, a line break and the registration. *)
Definition account_env : AccountEnv mem := {|
  generate_P384 w := (Ok "NEW", w);
  marshal_user e r := match r with
                      | Some r => if bool_decide (e = "me@a.com") && bool_decide (r = "reg") then Ok "me@a.com reg"
                                  else Err (ErrStr "unsupported")
                      | None => Err (ErrStr "unsupported")
                      end;
  unmarshal_user b := if bool_decide (b = "me@a.com reg") then Ok (Some ("me@a.com", Some "reg"))
                      else Err (ErrStr "malformed");
  decode_directory b := Ok "terms";
  read_line w := (Line "You@a.com ", w);
  agreementTestURL := ""
|}.

Lemma account_env_laws : AccountLaws account_env.
Proof.
  split. intros e [r|] b; cbn; [| done]. do 2 case_bool_decide; cbn; [| done..]. intros [= <-]. by subst.
Qed.

#[local] Existing Instance ascii_tables.
#[local] Existing Instance url_lib.
#[local] Existing Instance tag_lib.
#[local] Existing Instance tag_laws.
#[local] Existing Instance mem_http.
#[local] Existing Instance account_env.
#[local] Existing Instance account_env_laws.

Definition me : user := mkUser "me@a.com" (Some "reg") (EcdsaKey "K").

Definition no_manager : ACMEManager := with_account "" false initial_DefaultACME.

(** * Properties *)

(** C19: an account that was saved is loaded back unchanged, key and
    registration included, under its own address. *)
Theorem account_roundtrip {U : UnicodeTables} {UL : UrlLib} {K : KeyLib} {KL : KeyLibLaws K} {W} {S : Storage W}
    {SL : StorageLaws S} {A : AccountEnv W} {AL : AccountLaws A} ca u k (w w1 : W) :
  proper_account ca (user_Email u) -> stored_email (user_Email u) <> "" -> user_key u = EcdsaKey k ->
  (forall key v (w : W), kv w !! key = Some v -> exists w', Load key w = (Ok v, w')) ->
  saveUser ca u w = (Ok (), w1) ->
  exists w2, getUser ca (user_Email u) w1 = (Ok u, w2).
Proof.
  intros Hp Hne Hk HL Hs.
  destruct (saveUser_stores ca u w w1 Hp Hne Hs) as (b & kb & Hm & He & Hb & Hkb).
  unfold getUser, bind, try. destruct (HL _ _ _ Hb) as [w2 H2]. rewrite H2.
  apply Load_law in H2 as (_ & _ & Hkv & _). rewrite <- Hkv in Hkb.
  destruct (HL _ _ _ Hkb) as [w3 ->]. unfold of_res. rewrite (user_law _ _ _ Hm).
  rewrite Hk in He. rewrite (decode_encode_EC k kb He). exists w3. unfold ret. by destruct u; cbn in *; subst.
Qed.

Lemma account_roundtrip_witness :
  exists w2, getUser (W:=mem) "https://ca/dir" "me@a.com"
    (snd (saveUser (W:=mem) "https://ca/dir" me blank_disk)) = (Ok me, w2).
Proof.
  apply (account_roundtrip "https://ca/dir" me "K" blank_disk).
  - split; split; by vm_compute.
  - by vm_compute.
  - reflexivity.
  - intros key v w Hk. exists w. cbn in *. by rewrite Hk.
  - vm_compute. reflexivity.
Defined.

(** With account folders only, the account that is chosen is one that was
    modified last; an error while loading it is swallowed. *)
Theorem recent_user_of_folders {U : UnicodeTables} {UL : UrlLib} {K : KeyLib} {W} {S : Storage W}
    {A : AccountEnv W} ca info l (w w1 : W) :
  stat_works (W:=W) info -> List (storageKeyUsersPrefix ca) false w = (Ok l, w1) -> l <> [] ->
  Forall (fun u => IsTerminal (info u) = false) l ->
  exists u w2, u ∈ l /\ (forall v, v ∈ l -> (Modified (info v) <= Modified (info u))%Z) /\
    mostRecentUserEmail ca w =
      match getUser ca (path_Base u) w2 with
      | (Ok x, w3) => (Ok (user_Email x, true), w3)
      | (Err _, w3) => (Ok ("", false), w3)
      | (Panic m, w3) => (Panic m, w3)
      end.
Proof.
  intros Hs HL Hne HF. unfold mostRecentUserEmail, bind at 1, try at 1. rewrite HL.
  destruct l as [|u0 l0]; [done |]. set (l := u0 :: l0) in *. unfold bind at 1.
  destruct (stat_users_all info Hs (length l) 0 l ∅ w1 HF eq_refl) as (stats & w2 & -> & Hst).
  { intros u Hu. by apply not_elem_of_nil in Hu. }
  destruct (sort_users_head info stats l) as [[? _] | (u & rest & -> & Hu & Hmax)]; [done |].
  exists u, w2. split; [done |]. split.
  - intros v Hv. specialize (Hmax v Hv). unfold modified in Hmax. by rewrite (Hst v Hv), (Hst u Hu) in Hmax.
  - unfold bind, try. by destruct getUser as [[x | e | m] w3].
Qed.

Lemma recent_user_of_folders_witness :
  exists u w2, u ∈ ["u/old"; "u/new"] /\
    (forall v, v ∈ ["u/old"; "u/new"] -> (Modified (user_info v) <= Modified (user_info u))%Z) /\
    mostRecentUserEmail (S:=folder_storage ["u/old"; "u/new"] user_info) "https://ca/dir" blank_disk =
      match getUser (S:=folder_storage ["u/old"; "u/new"] user_info) "https://ca/dir" (path_Base u) w2 with
      | (Ok x, w3) => (Ok (user_Email x, true), w3)
      | (Err _, w3) => (Ok ("", false), w3)
      | (Panic m, w3) => (Panic m, w3)
      end.
Proof.
  apply (recent_user_of_folders (S:=folder_storage ["u/old"; "u/new"] user_info)
           "https://ca/dir" user_info ["u/old"; "u/new"] blank_disk blank_disk).
  - intros u w. by exists w.
  - reflexivity.
  - done.
  - by repeat constructor.
Defined.

(** A stray file among the account folders. If there is nothing else, the
    program panics instead of skipping it; and if it is listed before two
    folders, the first of these is never looked at, so the second is chosen
    however old it is. *)
Theorem stray_file_breaks_recent_user {U : UnicodeTables} {UL : UrlLib} {K : KeyLib} {W} {S : Storage W}
    {A : AccountEnv W} ca info l (w w1 : W) :
  stat_works (W:=W) info -> List (storageKeyUsersPrefix ca) false w = (Ok l, w1) ->
  (l <> [] -> Forall (fun u => IsTerminal (info u) = true) l ->
     exists m w2, mostRecentUserEmail ca w = (Panic m, w2)) /\
  (forall stray a b, l = [stray; a; b] -> IsTerminal (info stray) = true ->
     IsTerminal (info b) = false -> a <> b -> (zeroTime < Modified (info b))%Z ->
     exists w2, mostRecentUserEmail ca w =
       match getUser ca (path_Base b) w2 with
       | (Ok x, w3) => (Ok (user_Email x, true), w3)
       | (Err _, w3) => (Ok ("", false), w3)
       | (Panic m, w3) => (Panic m, w3)
       end).
Proof.
  intros Hs HL. split.
  - intros Hne HF. unfold mostRecentUserEmail, bind at 1, try at 1. rewrite HL.
    destruct l as [|u0 l0]; [done |]. set (l := u0 :: l0) in *. unfold bind at 1.
    destruct (stat_users_stray info Hs (length l) 0 l ∅ w1 HF eq_refl) as (r & w2 & He & Hr).
    rewrite Nat.sub_0_r in He. rewrite He. destruct Hr as [[m ->] | [stats ->]]; [by eexists _, _ |].
    by eexists _, w2.
  - intros s a b -> Ht Hb Hab Hz. unfold mostRecentUserEmail, bind at 1, try at 1. rewrite HL.
    unfold bind at 1. cbn [length stat_users lookup list_lookup].
    destruct (stat_step info Hs s w1) as [w2 Hw2]. unfold bind at 1. rewrite Hw2, Ht. cbn [Nat.ltb Nat.leb].
    cbn [stat_users lookup list_lookup app take drop length Nat.sub Nat.add].
    destruct (stat_step info Hs b w2) as [w3 Hw3]. unfold bind at 1. rewrite Hw3, Hb.
    destruct (stat_step info Hs b w3) as [w4 Hw4]. unfold bind at 1. rewrite Hw4, Hb. unfold ret at 1.
    cbn [take sort_users foldr insert_user]. unfold modified at 1 2.
    rewrite lookup_insert_eq, !lookup_insert_ne, lookup_empty by done. unfold Before.
    destruct (Z.ltb_spec zeroTime (Modified (info b))); [| lia].
    exists w4. unfold bind, try. by destruct getUser as [[x | e | m] w5].
Qed.

Lemma stray_file_breaks_recent_user_witness :
  (exists m w2, mostRecentUserEmail (S:=folder_storage ["u/.DS_Store"] user_info) "https://ca/dir" blank_disk =
    (Panic m, w2)) /\
  exists w2, mostRecentUserEmail (S:=folder_storage ["u/.DS_Store"; "u/new"; "u/old"] user_info)
               "https://ca/dir" blank_disk =
    match getUser (S:=folder_storage ["u/.DS_Store"; "u/new"; "u/old"] user_info) "https://ca/dir" "old" w2 with
    | (Ok x, w3) => (Ok (user_Email x, true), w3)
    | (Err _, w3) => (Ok ("", false), w3)
    | (Panic m, w3) => (Panic m, w3)
    end.
Proof.
  split.
  - refine (proj1 (stray_file_breaks_recent_user (S:=folder_storage ["u/.DS_Store"] user_info)
             "https://ca/dir" user_info ["u/.DS_Store"] blank_disk blank_disk _ eq_refl) _ _).
    + intros u w. by exists w.
    + done.
    + by repeat constructor.
  - refine (proj2 (stray_file_breaks_recent_user
             (S:=folder_storage ["u/.DS_Store"; "u/new"; "u/old"] user_info) "https://ca/dir" user_info
             ["u/.DS_Store"; "u/new"; "u/old"] blank_disk blank_disk _ eq_refl) _ _ _ eq_refl eq_refl eq_refl _ _).
    + intros u w. by exists w.
    + done.
    + reflexivity.
Defined.

(** After [getEmail] the manager and the package default hold the same
    trimmed lower-case address. A configured address (the manager's before the
    default's) is taken without storage or a prompt; and no agreement is
    recorded unless prompting was allowed. *)
Theorem getEmail_settles {U : UnicodeTables} {UL : UrlLib} {K : KeyLib} {W} {S : Storage W}
    {H : Http W} {A : AccountEnv W} allowPrompts (s s' : acme (W:=W)) r :
  getEmail allowPrompts s = (r, s') ->
  let known := if bool_decide (Email (mgr s) = "") then Email (DefaultACME s) else Email (mgr s) in
  (r = Ok () -> Email (mgr s') = Email (DefaultACME s') /\ exists e, Email (mgr s') = TrimSpace (ToLower e)) /\
  (known <> "" -> r = Ok () /\ a_world s' = a_world s /\ Email (mgr s') = TrimSpace (ToLower known)) /\
  (allowPrompts = false -> Agreed (mgr s') = Agreed (mgr s) /\ Agreed (DefaultACME s') = Agreed (DefaultACME s)).
Proof.
  intros He known. unfold getEmail in He. cbv zeta in He. fold known in He.
  destruct (decide (known = "")) as [Hk | Hk].
  2: { rewrite !(bool_decide_eq_false_2 _ Hk) in He. unfold bind, ret in He. cbn in He.
       rewrite (bool_decide_eq_false_2 _ Hk) in He. injection He as <- <-. cbn. split_and!; eauto. }
  rewrite (bool_decide_eq_true_2 _ Hk) in He. unfold bind at 1, lift_acme at 1 in He.
  destruct (mostRecentUserEmail _ _) as [[[e got] | e | m] w1].
  2,3: by injection He as <- <-.
  destruct (negb got && bool_decide (e = "") && allowPrompts) eqn:Hc.
  2: { injection He as <- <-. cbn. split_and!; [eauto | done | done]. }
  assert (allowPrompts = true) as -> by (by destruct allowPrompts; rewrite ?andb_false_r in Hc).
  split; [| by split]. intros ->. unfold bind in He.
  destruct promptUserForEmail as [[x | x | x] s1]; [| done | done]. injection He as <-. cbn. eauto.
Qed.

Lemma getEmail_settles_witness :
  exists s', getEmail false (mkAcme blank_disk (with_account " Me@A.com" false no_manager) initial_DefaultACME) =
    (Ok (), s') /\ Email (DefaultACME s') = "me@a.com" /\ Agreed (mgr s') = false.
Proof.
  eexists. split; [vm_compute; reflexivity |]. split; [reflexivity |].
  refine (proj1 (proj2 (proj2 (getEmail_settles false
    (mkAcme blank_disk (with_account " Me@A.com" false no_manager) initial_DefaultACME) _ (Ok ()) _)) eq_refl)).
  vm_compute. reflexivity.
Defined.
