(* ===== verification/Config.v ===== *)
(** The certificate operations of [src/config.go], [src/crypto.go] and
    [src/certificates.go] on storage: saving, loading, obtaining, renewing and
    revoking the certificate of a name.

    The world is a [Storage] together with the [Env] of a configuration:
    clock, issuer, key source, X.509 and JSON. [prog] adds what the process
    itself keeps, its lock registry, its certificate cache and the events it
    has emitted. *)
From Stdlib Require Import Ascii.
From stdpp Require Import base tactics list strings gmap sets.
From Stdlib Require Import ZArith Lia SpecFloat.
From S2P Require Import Prelude GoTime GoStrings Net Retry StorageKeys Certificates Cache Crypto Storage.

Local Open Scope string_scope.
Local Open Scope go_scope.

(** * Data *)

Record IssuedCertificate := mkIssued { issued_pem : string; issued_meta : string }.

Record CertificateResource := mkResource {
  SANs : list string;
  CertificatePEM : string;
  PrivateKeyPEM : string;
  IssuerData : string
}.

(** [Issuer] is the issuer's key, [None] the nil interface. *)
Record Config := mkConfig {
  RenewalWindowRatio : float64;
  MustStaple : bool;
  Issuer : option string
}.

(** The parts of the world a configuration calls. *)
Class Env (W : Type) := {
  env_now : W -> Z;
  Issue : nat -> CertificateRequest -> M W IssuedCertificate;   (* the number of earlier attempts *)
  PreCheck : option (list string -> bool -> M W unit);          (* if the issuer is a PreChecker *)
  Revoke : CertificateResource -> M W unit;
  key_source : M W PrivateKey;
  CreateCSR : PrivateKey -> CertificateRequest -> M W CertificateRequest;
  parse_url : string -> option string;                          (* url.Parse, then String *)
  encode_meta : CertificateResource -> res string;              (* json.MarshalIndent *)
  decode_meta : string -> res (list string * string);           (* json.Unmarshal: SANs, issuer data *)
  random_test : M W (string * string);                          (* a key and contents *)
  timer : Z -> W -> bool * W;                                   (* true: the context was cancelled *)
  retry_log : W -> W
}.

(** What [emit] hands to the callback: a name, the names of a certificate or a
    ClientHello, of which the server name is kept. *)
Inductive eventData := EvName (s : string) | EvNames (l : list string) | EvHello (serverName : string).
Coercion EvName : string >-> eventData.

Section Config.
Context {U : UnicodeTables} {L : CertLib} {K : KeyLib} {W : Type} {S : Storage W} {E : Env W}.

Record prog := mkProg {
  world : W;
  locks : gset string;
  certs : cacheMaps;
  events : list (string * eventData)
}.

Definition on_world (w : W) (s : prog) : prog := mkProg w (locks s) (certs s) (events s).

Definition lift {A} (m : M W A) : M prog A := fun s =>
  let '(r, w') := m (world s) in (r, on_world w' s).

(** A call that also has the lock registry. *)
Definition lift_locks {A} (m : M (W * gset string) A) : M prog A := fun s =>
  let '(r, (w', l')) := m (world s, locks s) in (r, mkProg w' l' (certs s) (events s)).

Definition emit (eventName : string) (data : eventData) : M prog unit := fun s =>
  (Ok (), mkProg (world s) (locks s) (certs s) (events s ++ [(eventName, data)])%list).

Definition exists_key (k : string) : M prog bool := fun s =>
  let '(b, w') := Exists k (world s) in (Ok b, on_world w' s).

(** [cfg.Issuer.IssuerKey()]. *)
Definition IssuerKey (cfg : Config) : M prog string :=
  match Issuer cfg with
  | Some k => ret k
  | None => panic "nil pointer dereference"
  end.

(** * Names *)

Fixpoint insert_string (x : string) (l : list string) : list string :=
  match l with
  | [] => [x]
  | y :: rest => if Stdlib.Strings.String.leb x y then x :: l else y :: insert_string x rest
  end.

(** [sort.Strings]. *)
Definition sort_strings (l : list string) : list string := foldr insert_string [] l.

Definition NamesKey (sans : list string) : string :=
  let result := Join (sort_strings sans) "," in
  if (1024 <? String.length result)%nat
  then take_bytes (1024 - String.length "_trunc") result +:+ "_trunc" else result.

Definition lockKey (op domainName issuerKey : string) : string :=
  op +:+ "_" +:+ domainName +:+ "_" +:+ issuerKey.

(** * Certificate requests *)

(** One iteration of the loop of [generateCSR]. *)
Definition add_subject (csr : CertificateRequest) (name : string) : CertificateRequest :=
  match ParseIP name with
  | Some ip => mkCSR (csr_DNSNames csr) (csr_EmailAddresses csr) (csr_IPAddresses csr ++ [ip])%list
                 (csr_URIs csr) (csr_MustStaple csr)
  | None =>
      if Contains name "@" then
        mkCSR (csr_DNSNames csr) (csr_EmailAddresses csr ++ [name])%list (csr_IPAddresses csr)
          (csr_URIs csr) (csr_MustStaple csr)
      else
        match parse_url name, Contains name "/" with
        | Some u, true => mkCSR (csr_DNSNames csr) (csr_EmailAddresses csr) (csr_IPAddresses csr)
                            (csr_URIs csr ++ [u])%list (csr_MustStaple csr)
        | _, _ => mkCSR (csr_DNSNames csr ++ [name])%list (csr_EmailAddresses csr) (csr_IPAddresses csr)
                    (csr_URIs csr) (csr_MustStaple csr)
        end
  end.

Definition csr_template (cfg : Config) (sans : list string) : CertificateRequest :=
  let csr := foldl add_subject (mkCSR [] [] [] [] false) sans in
  mkCSR (csr_DNSNames csr) (csr_EmailAddresses csr) (csr_IPAddresses csr) (csr_URIs csr) (MustStaple cfg).

Definition generateCSR (cfg : Config) (privateKey : PrivateKey) (sans : list string)
    : M prog CertificateRequest := lift (CreateCSR privateKey (csr_template cfg sans)).

(** * Resources in storage *)

Definition saveCertResource (cfg : Config) (cert : CertificateResource) : M prog unit :=
  let* metaBytes := wrap_err (fun _ => ErrStr "encoding certificate metadata") (of_res (encode_meta cert)) in
  let* issuerKey := IssuerKey cfg in
  let certKey := NamesKey (SANs cert) in
  lift (storeTx [mkKV (SiteCert issuerKey certKey) (CertificatePEM cert);
                 mkKV (SitePrivateKey issuerKey certKey) (PrivateKeyPEM cert);
                 mkKV (SiteMeta issuerKey certKey) metaBytes]).

Definition loadCertResource (cfg : Config) (certNamesKey : string) : M prog CertificateResource :=
  let* issuerKey := IssuerKey cfg in
  let* certBytes := lift (Load (SiteCert issuerKey certNamesKey)) in
  let* keyBytes := lift (Load (SitePrivateKey issuerKey certNamesKey)) in
  let* metaBytes := lift (Load (SiteMeta issuerKey certNamesKey)) in
  let* (sans, data) := wrap_err (fun _ => ErrStr "decoding certificate metadata")
                         (of_res (decode_meta metaBytes)) in
  ret (mkResource sans certBytes keyBytes data).

Definition storageHasCertResources (cfg : Config) (domain : string) : M prog bool :=
  let* issuerKey := IssuerKey cfg in
  let* c := exists_key (SiteCert issuerKey domain) in
  if negb c then ret false
  else
    let* k := exists_key (SitePrivateKey issuerKey domain) in
    if negb k then ret false else exists_key (SiteMeta issuerKey domain).

(** Only the decision; the remaining time is logged. *)
Definition managedCertNeedsRenewal (cfg : Config) (certRes : CertificateResource) : M prog bool := fun s =>
  match makeCertificate (CertificatePEM certRes) (PrivateKeyPEM certRes) with
  | Err _ => (Ok true, s)
  | Panic m => (Panic m, s)
  | Ok cert => (NeedsRenewal (env_now (world s)) (RenewalWindowRatio cfg) cert, s)
  end.

Definition checkStorage : M prog unit :=
  let* (key, contents) := lift random_test in
  let* _ := lift (Store key contents) in
  fun s =>
    let '(r, s1) := lift (Load key) s in
    let result := match r with
                  | Ok loaded => if bool_decide (contents = loaded) then Ok ()
                                 else Err (ErrStr "load yielded different value than was stored")
                  | Err e => Err e
                  | Panic m => Panic m
                  end in
    (* the deferred Delete; its error does not reach the unnamed result *)
    let '(_, s2) := lift (Delete key) s1 in (result, s2).

(** [None] is a nil issuer with a nil error. *)
Definition getPrecheckedIssuer (cfg : Config) (names : list string) (interactive : bool)
    : M prog (option string) :=
  let* _ := wrap_err (fun _ => ErrStr "failed storage check") checkStorage in
  let* _ := match Issuer cfg, PreCheck with
            | Some _, Some precheck => lift (precheck names interactive)
            | _, _ => ret ()
            end in
  ret (Issuer cfg).

(** * Retries *)

(** A panic of [f] unwinds the loop: it is recorded next to the state and the
    loop is left by an error it returns at once. *)
#[local] Instance retry_env (f : nat -> M prog unit) : RetryEnv (prog * option string) := {|
  clock st := env_now (world (fst st));
  select_timer d st := let '(b, w') := timer d (world (fst st)) in (b, (on_world w' (fst st), snd st));
  attempt n st :=
    match f n (fst st) with
    | (Ok _, s') => (None, (s', snd st))
    | (Err e, s') => (Some e, (s', snd st))
    | (Panic m, s') => (Some ErrCanceled, (s', Some m))
    end;
  log_line st := (on_world (retry_log (world (fst st))) (fst st), snd st)
|}.

Definition with_retry (f : nat -> M prog unit) : M prog unit := fun s =>
  match doWithRetry (E:=retry_env f) (s, None) with
  | Some (Ok (_, _, (s', Some m))) => (Panic m, s')
  | Some (Ok (None, _, (s', None))) => (Ok (), s')
  | Some (Ok (Some e, _, (s', None))) => (Err e, s')
  | Some (Err e) => (Err e, s)
  | Some (Panic m) => (Panic m, s)
  | None => (Panic "out of fuel", s)
  end.

(** * Obtaining *)

(** [f] of [obtainWithIssuer]. *)
Definition obtain_once (cfg : Config) (name : string) (attempts : nat) : M prog unit :=
  let* has := storageHasCertResources cfg name in
  if has then ret ()
  else
    let* privateKey := lift key_source in
    let* privKeyPEM := of_res (encodePrivateKey privateKey) in
    let* csr := generateCSR cfg privateKey [name] in
    let* issuedCert := wrap_err (ErrWrap ("[" +:+ name +:+ "] Obtain")) (lift (Issue attempts csr)) in
    wrap_err (fun _ => ErrStr ("[" +:+ name +:+ "] Obtain: saving assets"))
      (saveCertResource cfg (mkResource (namesFromCSR csr) (issued_pem issuedCert) privKeyPEM
                               (issued_meta issuedCert))).

(** The lock is released when the function returns, whatever it returns; an
    error of [releaseLock] is logged. *)
Definition with_lock (lockKey : string) (body : M prog unit) : M prog unit :=
  let* _ := lift_locks (obtainLock lockKey) in
  defer (let* _ := try (lift_locks (releaseLock lockKey)) in ret ()) body.

Definition obtainWithIssuer (cfg : Config) (name : string) (interactive : bool) : M prog unit :=
  let* issuerKey := IssuerKey cfg in
  with_lock (lockKey "cert_acme" name issuerKey)
    (let* _ := if interactive then obtain_once cfg name 0 else with_retry (obtain_once cfg name) in
     emit "cert_obtained" name).

Definition ObtainCert (cfg : Config) (name : string) (interactive : bool) : M prog unit :=
  let* has := storageHasCertResources cfg name in
  if has then ret ()
  else
    let* issuer := getPrecheckedIssuer cfg [name] interactive in
    match issuer with
    | None => ret ()
    | Some _ => obtainWithIssuer cfg name interactive
    end.

(** * Renewing *)

(** [f] of [renewWithIssuer]. *)
Definition renew_once (cfg : Config) (name : string) (attempts : nat) : M prog unit :=
  let* certRes := loadCertResource cfg name in
  let* needsRenew := managedCertNeedsRenewal cfg certRes in
  if negb needsRenew then ret ()
  else
    let* privateKey := of_res (decodePrivateKey (PrivateKeyPEM certRes)) in
    let* csr := generateCSR cfg privateKey [name] in
    let* issuedCert := wrap_err (ErrWrap ("[" +:+ name +:+ "] Renew")) (lift (Issue attempts csr)) in
    wrap_err (fun _ => ErrStr ("[" +:+ name +:+ "] Renew: saving assets"))
      (saveCertResource cfg (mkResource (namesFromCSR csr) (issued_pem issuedCert)
                               (PrivateKeyPEM certRes) (issued_meta issuedCert))).

Definition renewWithIssuer (cfg : Config) (name : string) (interactive : bool) : M prog unit :=
  let* issuerKey := IssuerKey cfg in
  with_lock (lockKey "cert_acme" name issuerKey)
    (let* _ := if interactive then renew_once cfg name 0 else with_retry (renew_once cfg name) in
     emit "cert_renewed" name).

Definition RenewCert (cfg : Config) (name : string) (interactive : bool) : M prog unit :=
  let* issuer := getPrecheckedIssuer cfg [name] interactive in
  match issuer with
  | None => ret ()
  | Some _ => renewWithIssuer cfg name interactive
  end.

(** * Revoking *)

Definition RevokeCert (cfg : Config) (domain : string) : M prog unit :=
  let* certRes := loadCertResource cfg domain in
  let* issuerKey := IssuerKey cfg in
  let* haveKey := exists_key (SitePrivateKey issuerKey domain) in
  if negb haveKey then fail (ErrStr "private key not found")
  else
    let* _ := lift (Revoke certRes) in
    let* _ := emit "cert_revoked" domain in
    let* _ := wrap_err (fun _ => ErrStr "certificate revoked, but unable to delete certificate file")
                (lift (Delete (SiteCert issuerKey domain))) in
    let* _ := wrap_err (fun _ => ErrStr "certificate revoked, but unable to delete private key")
                (lift (Delete (SitePrivateKey issuerKey domain))) in
    wrap_err (fun _ => ErrStr "certificate revoked, but unable to delete certificate metadata")
      (lift (Delete (SiteMeta issuerKey domain))).

End Config.

(** * Laws of the environment *)

(** A key below the folder of the certificates. *)
Definition site_area (k : string) : bool := HasPrefix k "certificates/".

Section Quiet.
Context {W : Type} {S : Storage W} {SL : StorageLaws S}.

(** No lock changes hands and no certificate asset is touched. *)
Definition quiet (w w' : W) : Prop :=
  locked w' = locked w /\ forall k, site_area k = true -> kv w' !! k = kv w !! k.
End Quiet.

(** What obtaining and renewing rely on: the parts of the environment leave the
    locks and the certificate folder alone, the request that is signed has
    the subjects that were asked for, the test key of [checkStorage] lies
    outside of the certificate folder and JSON metadata can be read back. *)
Class EnvLaws {W} {S : Storage W} {SL : StorageLaws S} (E : Env W) : Prop := {
  Issue_law n csr w : quiet w (snd (Issue n csr w));
  PreCheck_law f names i w : PreCheck = Some f -> quiet w (snd (f names i w));
  Revoke_law r w : quiet w (snd (Revoke r w));
  key_source_law w : quiet w (snd (key_source w));
  CreateCSR_law key t w : quiet w (snd (CreateCSR key t w)) /\
                          (forall c, fst (CreateCSR key t w) = Ok c -> c = t);
  random_test_law w : quiet w (snd (random_test w)) /\
                      (forall k c, fst (random_test w) = Ok (k, c) -> site_area k = false);
  timer_law d w : quiet w (snd (timer d w));
  retry_log_law w : quiet w (retry_log w);
  meta_law r b : encode_meta r = Ok b -> decode_meta b = Ok (SANs r, IssuerData r)
}.

(** * Lemmas *)

Section Preserve.
Context {U : UnicodeTables} {L : CertLib} {K : KeyLib} {W : Type} {S : Storage W} {E : Env W}.

Definition preserves {A} (R : relation prog) (m : M (prog (W:=W)) A) : Prop := forall s, R s (snd (m s)).

Section Rules.
Context (R : relation (prog (W:=W))) (Hrefl : forall s, R s s)
        (Htrans : forall s1 s2 s3, R s1 s2 -> R s2 s3 -> R s1 s3).

Lemma preserves_pure {A} (r : res A) : preserves R (of_res r).
Proof. intros s. apply Hrefl. Qed.

Lemma preserves_ret {A} (a : A) : preserves R (ret a).
Proof. intros s. apply Hrefl. Qed.

Lemma preserves_bind {A B} (m : M prog A) (f : A -> M prog B) :
  preserves R m -> (forall a, preserves R (f a)) -> preserves R (bind m f).
Proof.
  intros Hm Hf s. unfold bind. specialize (Hm s). destruct (m s) as [[a | e | p] s1]; cbn [snd] in *; try done.
  eapply Htrans; [exact Hm | apply Hf].
Qed.

(** The rest only has to preserve [R] for the values the first part can
    return. *)
Lemma preserves_bind_val {A B} (m : M prog A) (f : A -> M prog B) :
  preserves R m -> (forall s a s1, m s = (Ok a, s1) -> preserves R (f a)) -> preserves R (bind m f).
Proof.
  intros Hm Hf s. unfold bind. pose proof (Hm s) as H1. pose proof (Hf s) as H2.
  destruct (m s) as [[a | e | p] s1]; cbn [snd] in *; try done.
  eapply Htrans; [exact H1 | by eapply H2].
Qed.

Lemma preserves_try {A} (m : M prog A) : preserves R m -> preserves R (try m).
Proof. intros Hm s. unfold try. specialize (Hm s). by destruct (m s) as [[] s1]. Qed.

Lemma preserves_wrap {A} f (m : M prog A) : preserves R m -> preserves R (wrap_err f m).
Proof. intros Hm s. unfold wrap_err. specialize (Hm s). by destruct (m s) as [[] s1]. Qed.

Lemma preserves_IssuerKey cfg : preserves R (IssuerKey cfg).
Proof. intros s. unfold IssuerKey. destruct (Issuer cfg); apply Hrefl. Qed.

Lemma preserves_needs cfg r : preserves R (managedCertNeedsRenewal cfg r).
Proof. intros s. unfold managedCertNeedsRenewal. case_match; apply Hrefl. Qed.

Lemma retry_env_timer (f : nat -> M prog unit) :
  (forall d s, R s (on_world (snd (timer d (world s))) s)) ->
  forall d x, R (fst x) (fst (snd (select_timer (RetryEnv:=retry_env f) d x))).
Proof.
  intros Ht d [x m]. cbn [select_timer retry_env fst]. specialize (Ht d x).
  by destruct (timer d (world x)).
Qed.

Lemma retry_env_attempt (f : nat -> M prog unit) :
  (forall n, preserves R (f n)) ->
  forall n x, R (fst x) (fst (snd (attempt (RetryEnv:=retry_env f) n x))).
Proof.
  intros Hf n [x m]. cbn [attempt retry_env fst]. specialize (Hf n x).
  by destruct (f n x) as [[] x'].
Qed.

Lemma preserves_retry (f : nat -> M prog unit) :
  (forall n, preserves R (f n)) ->
  (forall d s, R s (on_world (snd (timer d (world s))) s)) ->
  (forall s, R s (on_world (retry_log (world s)) s)) ->
  preserves R (with_retry f).
Proof.
  intros Hf Ht Hl s. unfold with_retry.
  pose proof (fun e k st => doWithRetry_preserves (retry_env f) (fun x y => R (fst x) (fst y))
                (fun x => Hrefl (fst x)) (fun x y z => Htrans (fst x) (fst y) (fst z))
                (retry_env_timer f Ht) (retry_env_attempt f Hf) (fun x => Hl (fst x)) (s, None) e k st) as Hp.
  destruct (doWithRetry (s, None)) as [[[[e k] [s' pm]] | e | p]|]; try apply Hrefl.
  specialize (Hp e k (s', pm) eq_refl). by destruct pm, e.
Qed.
End Rules.
End Preserve.

(** What [preserves] says of a predicate that [R] carries along. *)
Lemma preserves_triple {U : UnicodeTables} {L : CertLib} {K : KeyLib} {W} {S : Storage W} {E : Env W} {A}
    (R : relation (prog (W:=W))) (P : prog -> Prop) (m : M prog A) :
  preserves R m -> (forall s s', R s s' -> P s -> P s') -> triple P m (fun _ => P).
Proof. intros Hm HP s a s' Hs Hr. specialize (Hm s). rewrite Hr in Hm. by eapply HP. Qed.

(** Prove [preserves] along the structure of an operation. *)
Ltac preserve :=
  repeat lazymatch goal with
  | |- preserves _ (bind _ _) => apply preserves_bind; [intuition eauto | | intros ?]
  | |- preserves _ (try _) => apply preserves_try
  | |- preserves _ (wrap_err _ _) => apply preserves_wrap
  | |- preserves _ (ret _) => apply preserves_ret; auto
  | |- preserves _ (fail _) => apply preserves_pure; auto
  | |- preserves _ (of_res _) => apply preserves_pure; auto
  | |- preserves _ (IssuerKey _) => apply preserves_IssuerKey; auto
  | |- preserves _ (managedCertNeedsRenewal _ _) => apply preserves_needs; auto
  | |- preserves _ (if ?b then _ else _) => destruct b
  | |- preserves _ (match ?x with _ => _ end) => destruct x
  end.

(** ** Locks *)

Section Locks.
Context {U : UnicodeTables} {L : CertLib} {K : KeyLib} {W : Type} {S : Storage W} {SL : StorageLaws S}
        {E : Env W} {EL : EnvLaws E}.
Context (Hunlock : forall k (w : W), fst (Unlock k w) = Ok ()).

(** The process holds every lock it has registered. *)
Definition locks_held (s : prog (W:=W)) : Prop := locks s ⊆ locked (world s).

(** From a sound registry, no lock is gained or lost. *)
Definition locks_kept (s s' : prog (W:=W)) : Prop :=
  locks_held s -> locked (world s') = locked (world s) /\ locks s' = locks s.

Lemma locks_kept_refl s : locks_kept s s.
Proof. done. Qed.

Lemma locks_kept_trans s1 s2 s3 : locks_kept s1 s2 -> locks_kept s2 s3 -> locks_kept s1 s3.
Proof.
  unfold locks_kept, locks_held. intros H1 H2 H. destruct (H1 H) as [E1 E2].
  rewrite <- E1, <- E2. apply H2. by rewrite E1, E2.
Qed.

#[local] Hint Resolve locks_kept_refl locks_kept_trans : core.

Lemma lift_locked {A} (m : M W A) :
  (forall w, locked (snd (m w)) = locked w) -> preserves locks_kept (lift m).
Proof.
  intros Hm s _. unfold lift. specialize (Hm (world s)). by destruct (m (world s)) as [r w'].
Qed.

Lemma Store_locked k v (w : W) : locked (snd (Store k v w)) = locked w.
Proof. destruct (Store k v w) eqn:Hs. by apply Store_law in Hs as (_ & ? & _). Qed.

Lemma Load_locked k (w : W) : locked (snd (Load k w)) = locked w.
Proof. destruct (Load k w) eqn:Hs. by apply Load_law in Hs as (_ & ? & _). Qed.

Lemma Delete_locked k (w : W) : locked (snd (Delete k w)) = locked w.
Proof. destruct (Delete k w) eqn:Hs. by apply Delete_law in Hs as (_ & ? & _). Qed.

Lemma storeTx_locked all (w : W) : locked (snd (storeTx all w)) = locked w.
Proof. destruct (storeTx all w) eqn:Hs. by apply storeTx_from_spec in Hs as [? _]. Qed.

Lemma lift_quiet {A} (m : M W A) : (forall w, quiet w (snd (m w))) -> preserves locks_kept (lift m).
Proof. intros Hm. apply lift_locked. intros w. apply Hm. Qed.

Lemma on_world_quiet w s : quiet (world s) w -> locks_kept s (on_world w s).
Proof. intros [Hl _] _. done. Qed.

Lemma exists_key_kept k : preserves locks_kept (exists_key k).
Proof.
  intros s _. unfold exists_key. destruct (Exists k (world s)) as [b w'] eqn:He.
  by apply Exists_law in He as [-> _].
Qed.

Lemma emit_kept ev d : preserves locks_kept (emit ev d).
Proof. by intros s _. Qed.

#[local] Hint Resolve lift_locked lift_quiet Store_locked Load_locked Delete_locked storeTx_locked
  exists_key_kept emit_kept Issue_law Revoke_law key_source_law on_world_quiet timer_law
  retry_log_law : core.

Lemma generateCSR_kept cfg key sans : preserves locks_kept (generateCSR cfg key sans).
Proof. apply lift_quiet. intros w. apply CreateCSR_law. Qed.

Lemma save_kept cfg r : preserves locks_kept (saveCertResource cfg r).
Proof. unfold saveCertResource. preserve; auto. Qed.

Lemma load_kept cfg n : preserves locks_kept (loadCertResource cfg n).
Proof. unfold loadCertResource. preserve; auto. Qed.

Lemma has_kept cfg n : preserves locks_kept (storageHasCertResources cfg n).
Proof. unfold storageHasCertResources. preserve; auto. Qed.

Lemma checkStorage_kept : preserves locks_kept checkStorage.
Proof.
  unfold checkStorage. apply preserves_bind; [eauto | |].
  { apply lift_quiet. intros w. apply random_test_law. }
  intros [k c]. apply preserves_bind; [eauto | auto |]. intros _ s. unfold lift.
  pose proof (Load_locked k (world s)) as H1. destruct (Load k (world s)) as [r w1].
  cbn [world on_world snd] in *.
  pose proof (Delete_locked k w1) as H2. destruct (Delete k w1) as [r2 w2]. cbn [snd] in *.
  intros _. cbn. by rewrite H2.
Qed.

#[local] Hint Resolve generateCSR_kept save_kept load_kept has_kept checkStorage_kept : core.

Lemma prechecked_kept cfg names i : preserves locks_kept (getPrecheckedIssuer cfg names i).
Proof.
  unfold getPrecheckedIssuer. apply preserves_bind; [eauto | by apply preserves_wrap |]. intros _.
  apply preserves_bind; [eauto | | intros _; by apply preserves_ret].
  destruct (Issuer cfg), PreCheck eqn:Hp; try by apply preserves_ret.
  apply lift_quiet. intros w. by apply PreCheck_law.
Qed.

Lemma obtain_once_kept cfg name n : preserves locks_kept (obtain_once cfg name n).
Proof. unfold obtain_once. preserve; auto. Qed.

Lemma renew_once_kept cfg name n : preserves locks_kept (renew_once cfg name n).
Proof. unfold renew_once. preserve; auto. Qed.

Lemma with_lock_kept k body : preserves locks_kept body -> preserves locks_kept (with_lock k body).
Proof.
  intros Hb s Hheld. destruct (with_lock k body s) as [r0 s0] eqn:Hw. cbn [snd].
  unfold with_lock, bind at 1 in Hw.
  destruct (lift_locks (obtainLock k) s) as [r s1] eqn:Hx. unfold lift_locks in Hx.
  destruct (obtainLock k (world s, locks s)) as [r1 [w1 l1]] eqn:Ho. injection Hx as -> <-.
  apply obtainLock_spec in Ho as (_ & _ & Hok & Hne). cbn [fst snd] in *.
  destruct r as [[] | e | m]; [| injection Hw as _ <-; by apply Hne | injection Hw as _ <-; by apply Hne].
  destruct (Hok eq_refl) as (Hfresh & Hl1 & Hr1). unfold defer in Hw.
  specialize (Hb (mkProg w1 l1 (certs s) (events s))). destruct (body _) as [r2 s2].
  unfold locks_kept, locks_held in *. cbn [snd world locks] in *.
  destruct Hb as [Hl2 Hr2]; [rewrite Hl1, Hr1; set_solver |].
  unfold bind, try, lift_locks in Hw. pose proof (Hunlock k (world s2)) as Hu.
  destruct (releaseLock k (world s2, locks s2)) as [r3 [w3 l3]] eqn:Hr.
  assert (r3 = Ok ()) as ->.
  { unfold releaseLock in Hr. destruct (Unlock k (world s2)) as [ru w4]. cbn in Hu. subst ru. by simplify_eq. }
  apply releaseLock_spec in Hr as (_ & _ & Hok3 & _). destruct (Hok3 eq_refl) as [Hl3 Hr3].
  cbn [fst snd ret] in *. injection Hw as _ <-. cbn [world locks].
  rewrite Hl3, Hr3, Hl2, Hr2, Hl1, Hr1. set_solver.
Qed.

Lemma ObtainCert_kept cfg name i : preserves locks_kept (ObtainCert cfg name i).
Proof.
  unfold ObtainCert, obtainWithIssuer. preserve; auto using prechecked_kept.
  apply with_lock_kept. preserve; auto using obtain_once_kept.
  apply (preserves_retry _ locks_kept_refl locks_kept_trans); auto using obtain_once_kept.
Qed.

Lemma RenewCert_kept cfg name i : preserves locks_kept (RenewCert cfg name i).
Proof.
  unfold RenewCert, renewWithIssuer. preserve; auto using prechecked_kept.
  apply with_lock_kept. preserve; auto using renew_once_kept.
  apply (preserves_retry _ locks_kept_refl locks_kept_trans); auto using renew_once_kept.
Qed.

Lemma RevokeCert_kept cfg name : preserves locks_kept (RevokeCert cfg name).
Proof. unfold RevokeCert. preserve; auto. Qed.
End Locks.

(** ** Values *)

Section Values.
Context {U : UnicodeTables} {L : CertLib} {K : KeyLib} {W : Type} {S : Storage W} {SL : StorageLaws S}
        {E : Env W} {EL : EnvLaws E}.
Implicit Types (s : prog (W:=W)).

(** The value stored at [k] in a state. *)
Definition at_key (k : string) (s : prog (W:=W)) : option string := kv (world s) !! k.

Lemma load_lift k s r s' :
  lift (Load k) s = (r, s') ->
  kv (world s') = kv (world s) /\ forall v, r = Ok v -> at_key k s = Some v.
Proof.
  unfold lift. destruct (Load k (world s)) as [r1 w1] eqn:Hl. intros [= -> <-].
  apply Load_law in Hl as (_ & _ & Hkv & Hv). by split.
Qed.

Lemma loadCertResource_Ok cfg ik n s r s' :
  Issuer cfg = Some ik -> loadCertResource cfg n s = (Ok r, s') ->
  at_key (SiteCert ik n) s = Some (CertificatePEM r) /\
  at_key (SitePrivateKey ik n) s = Some (PrivateKeyPEM r) /\
  exists b, at_key (SiteMeta ik n) s = Some b /\ decode_meta b = Ok (SANs r, IssuerData r).
Proof.
  intros Hi. unfold loadCertResource, IssuerKey. rewrite Hi. unfold bind at 1, ret at 1.
  unfold bind at 1. destruct (lift (Load (SiteCert ik n)) s) as [[c | |] s1] eqn:H1; try done.
  unfold bind at 1. destruct (lift (Load (SitePrivateKey ik n)) s1) as [[k | |] s2] eqn:H2; try done.
  unfold bind at 1. destruct (lift (Load (SiteMeta ik n)) s2) as [[b | |] s3] eqn:H3; try done.
  unfold bind, wrap_err, of_res. destruct (decode_meta b) as [[sans data] | |] eqn:Hd; try done.
  intros [= <- <-]. cbn [CertificatePEM PrivateKeyPEM SANs IssuerData].
  apply load_lift in H1 as [E1 V1], H2 as [E2 V2], H3 as [_ V3].
  unfold at_key in *. rewrite E2, E1 in V3. rewrite E1 in V2. split; [by apply V1 |].
  split; [by apply V2 |]. exists b. split; [by apply V3 | done].
Qed.

(** The transaction of [saveCertResource]. *)
Definition site_pairs (ik n : string) (cert : CertificateResource) (b : string) : list keyValue :=
  [mkKV (SiteCert ik n) (CertificatePEM cert); mkKV (SitePrivateKey ik n) (PrivateKeyPEM cert);
   mkKV (SiteMeta ik n) b].

Lemma saveCertResource_run cfg ik cert b s :
  Issuer cfg = Some ik -> encode_meta cert = Ok b ->
  saveCertResource cfg cert s = lift (storeTx (site_pairs ik (NamesKey (SANs cert)) cert b)) s.
Proof.
  intros Hi Hb. unfold saveCertResource, IssuerKey. rewrite Hi, Hb. reflexivity.
Qed.

Lemma saveCertResource_encodes cfg cert s s' :
  saveCertResource cfg cert s = (Ok (), s') -> exists b, encode_meta cert = Ok b.
Proof.
  unfold saveCertResource, bind at 1, wrap_err, of_res.
  destruct (encode_meta cert) as [b | |]; [by exists b | done | done].
Qed.

Lemma site_key_differ a1 a2 ik n : proper ik -> proper n -> a1 <> a2 -> site_key a1 ik n <> site_key a2 ik n.
Proof. intros Hi Hn Hne Heq. by apply site_key_inj in Heq as [? _]. Qed.

Lemma store_site_pairs ik n cert b (m : gmap string string) :
  proper ik -> proper n ->
  store_all (site_pairs ik n cert b) m !! SiteCert ik n = Some (CertificatePEM cert) /\
  store_all (site_pairs ik n cert b) m !! SitePrivateKey ik n = Some (PrivateKeyPEM cert) /\
  store_all (site_pairs ik n cert b) m !! SiteMeta ik n = Some b.
Proof.
  intros Hi Hn. cbn [store_all site_pairs foldl key value].
  pose proof (site_key_differ ACert AKey ik n Hi Hn ltac:(done)) as H1.
  pose proof (site_key_differ ACert AMeta ik n Hi Hn ltac:(done)) as H2.
  pose proof (site_key_differ AKey AMeta ik n Hi Hn ltac:(done)) as H3.
  cbn [site_key] in *. split; [| split].
  - by rewrite lookup_insert_ne, lookup_insert_ne, lookup_insert_eq.
  - by rewrite lookup_insert_ne, lookup_insert_eq.
  - by rewrite lookup_insert_eq.
Qed.

(** ** What obtaining leaves alone *)

Section Untouched.
Context (k : string) (Hk : site_area k = true).

(** The value at [k] is the same. *)
Definition untouched (s s' : prog (W:=W)) : Prop := at_key k s' = at_key k s.

Lemma untouched_refl s : untouched s s.
Proof. done. Qed.

Lemma untouched_trans s1 s2 s3 : untouched s1 s2 -> untouched s2 s3 -> untouched s1 s3.
Proof. unfold untouched. congruence. Qed.

#[local] Hint Resolve untouched_refl untouched_trans : core.

Lemma lift_untouched {A} (m : M W A) :
  (forall w, kv (snd (m w)) !! k = kv w !! k) -> preserves untouched (lift m).
Proof.
  intros Hm s. unfold lift. specialize (Hm (world s)). by destruct (m (world s)) as [r w'].
Qed.

Lemma lift_quiet_untouched {A} (m : M W A) :
  (forall w, quiet w (snd (m w))) -> preserves untouched (lift m).
Proof. intros Hm. apply lift_untouched. intros w. by apply Hm. Qed.

Lemma on_world_untouched w s : quiet (world s) w -> untouched s (on_world w s).
Proof. intros [_ Hq]. by apply Hq. Qed.

Lemma Load_kv j (w : W) : kv (snd (Load j w)) !! k = kv w !! k.
Proof. destruct (Load j w) eqn:Hs. apply Load_law in Hs as (_ & _ & Hkv & _). cbn [snd]. by rewrite Hkv. Qed.

Lemma exists_untouched j : preserves untouched (exists_key j).
Proof.
  intros s. unfold exists_key. destruct (Exists j (world s)) as [b w'] eqn:He.
  by apply Exists_law in He as [-> _].
Qed.

Lemma emit_untouched ev d : preserves untouched (emit ev d).
Proof. by intros s. Qed.

#[local] Hint Resolve lift_untouched lift_quiet_untouched Load_kv exists_untouched emit_untouched
  Issue_law key_source_law on_world_untouched timer_law retry_log_law : core.

Lemma has_untouched cfg n : preserves untouched (storageHasCertResources cfg n).
Proof. unfold storageHasCertResources. preserve; auto. Qed.

Lemma Store_untouched j v (w : W) : j <> k -> kv (snd (Store j v w)) !! k = kv w !! k.
Proof. intros Hj. destruct (Store j v w) eqn:Hs. apply Store_law in Hs as (_ & _ & _ & Ho). by apply Ho. Qed.

Lemma Delete_untouched j (w : W) : j <> k -> kv (snd (Delete j w)) !! k = kv w !! k.
Proof.
  intros Hj. destruct (Delete j w) eqn:Hs. apply Delete_law in Hs as (_ & _ & [Hd | Hd] & _); cbn [snd];
    rewrite Hd; [by rewrite lookup_delete_ne | done].
Qed.

Lemma storeTx_untouched all (w : W) : k ∉ (key <$> all) -> kv (snd (storeTx all w)) !! k = kv w !! k.
Proof.
  intros Hn. destruct (storeTx all w) as [r w'] eqn:Hs.
  apply storeTx_from_spec in Hs as [_ [[_ Hkv] | (e & before & kp & after & _ & -> & Ho & _)]]; cbn [snd].
  - rewrite Hkv. by apply store_all_other.
  - rewrite fmap_app, fmap_cons in Hn. apply Ho; cbn [app]; set_solver.
Qed.

Lemma save_untouched cfg ik cert :
  Issuer cfg = Some ik ->
  (forall a, site_key a ik (NamesKey (SANs cert)) <> k) -> preserves untouched (saveCertResource cfg cert).
Proof.
  intros Hi Hne s. destruct (encode_meta cert) as [b | e | m] eqn:Hb.
  - rewrite (saveCertResource_run cfg ik cert b s Hi Hb). apply lift_untouched. intros w.
    apply storeTx_untouched. cbn [fmap list_fmap site_pairs key].
    apply not_elem_of_cons; split; [apply not_eq_sym, (Hne ACert) |].
    apply not_elem_of_cons; split; [apply not_eq_sym, (Hne AKey) |].
    apply not_elem_of_cons; split; [apply not_eq_sym, (Hne AMeta) | apply not_elem_of_nil].
  - unfold saveCertResource, bind at 1, wrap_err, of_res. by rewrite Hb.
  - unfold saveCertResource, bind at 1, wrap_err, of_res. by rewrite Hb.
Qed.

(** [preserves_bind] when something is known of the value. *)
Lemma preserves_bind_if {A B} (P : A -> Prop) (m : M (prog (W:=W)) A) (f : A -> M prog B) :
  preserves untouched m -> (forall s a s1, m s = (Ok a, s1) -> P a) ->
  (forall a, P a -> preserves untouched (f a)) -> preserves untouched (bind m f).
Proof.
  intros Hm HP Hf. apply (preserves_bind_val untouched untouched_trans); [done |].
  intros s a s1 Ha. apply Hf. by eapply HP.
Qed.

Lemma generateCSR_Ok cfg key sans s c s1 :
  generateCSR cfg key sans s = (Ok c, s1) -> c = csr_template cfg sans.
Proof.
  unfold generateCSR, lift. pose proof (CreateCSR_law key (csr_template cfg sans) (world s)) as [_ Hc].
  destruct (CreateCSR _ _ _) as [r w']. intros [= -> _]. by apply Hc.
Qed.

Lemma generateCSR_untouched cfg key sans : preserves untouched (generateCSR cfg key sans).
Proof. apply lift_quiet_untouched. intros w. apply CreateCSR_law. Qed.

Lemma checkStorage_untouched : preserves untouched checkStorage.
Proof.
  unfold checkStorage. apply preserves_bind_if with (P := fun kc => fst kc <> k).
  - apply lift_quiet_untouched. intros w. apply random_test_law.
  - intros s [j c] s1. unfold lift. pose proof (random_test_law (world s)) as [_ Hj].
    destruct (random_test (world s)) as [r w']. intros [= -> _]. cbn [fst] in *. intros ->.
    specialize (Hj k c eq_refl). congruence.
  - intros [j c] Hj. cbn [fst] in Hj. apply preserves_bind; [eauto | |].
    + apply lift_untouched. intros w. by apply Store_untouched.
    + intros _ s. unfold lift. pose proof (Load_kv j (world s)) as H1.
      destruct (Load j (world s)) as [r w1]. cbn [world on_world snd] in *.
      pose proof (Delete_untouched j w1 Hj) as H2. destruct (Delete j w1) as [r2 w2].
      unfold untouched, at_key. cbn [snd on_world world] in *. by rewrite H2.
Qed.

Lemma prechecked_untouched cfg names i : preserves untouched (getPrecheckedIssuer cfg names i).
Proof.
  unfold getPrecheckedIssuer. apply preserves_bind; [eauto | apply preserves_wrap, checkStorage_untouched |].
  intros _. apply preserves_bind; [eauto | | intros _; by apply preserves_ret].
  destruct (Issuer cfg), PreCheck eqn:Hp; try by apply preserves_ret.
  apply lift_quiet_untouched. intros w. by apply PreCheck_law.
Qed.

Lemma with_lock_untouched key body : preserves untouched body -> preserves untouched (with_lock key body).
Proof.
  intros Hb. unfold with_lock. apply preserves_bind; [eauto | |].
  - intros s. unfold lift_locks. destruct (obtainLock key (world s, locks s)) as [r [w1 l1]] eqn:Ho.
    apply obtainLock_spec in Ho as (_ & Hkv & _). unfold untouched, at_key. cbn [snd world fst] in *.
    by rewrite Hkv.
  - intros _ s. unfold defer. specialize (Hb s). destruct (body s) as [r s1]. cbn [snd] in *.
    eapply untouched_trans; [exact Hb |].
    apply (preserves_bind untouched untouched_trans _ _); [| intros ?; by apply preserves_ret].
    apply preserves_try. intros s2. unfold lift_locks.
    destruct (releaseLock key (world s2, locks s2)) as [r2 [w2 l2]] eqn:Hr.
    apply releaseLock_spec in Hr as (_ & Hkv & _). unfold untouched, at_key. cbn [snd world fst] in *.
    by rewrite Hkv.
Qed.

(** The name under which a certificate obtained for [name] is stored. *)
Definition stored_name (cfg : Config) (name : string) : string :=
  NamesKey (namesFromCSR (csr_template cfg [name])).

Lemma obtain_once_untouched cfg ik name n :
  Issuer cfg = Some ik -> (forall a, site_key a ik (stored_name cfg name) <> k) ->
  preserves untouched (obtain_once cfg name n).
Proof.
  intros Hi Hne. unfold obtain_once.
  apply preserves_bind; [eauto | apply has_untouched |]. intros [|]; [by apply preserves_ret |].
  apply preserves_bind; [eauto | auto |]. intros key.
  apply preserves_bind; [eauto | by apply preserves_pure |]. intros pem.
  apply preserves_bind_if with (P := fun c => c = csr_template cfg [name]).
  - apply generateCSR_untouched.
  - intros s a s1. apply generateCSR_Ok.
  - intros csr ->. apply preserves_bind; [eauto | apply preserves_wrap; auto |]. intros issued.
    apply preserves_wrap. by apply (save_untouched cfg ik).
Qed.

Lemma ObtainCert_untouched cfg ik name i :
  Issuer cfg = Some ik -> (forall a, site_key a ik (stored_name cfg name) <> k) ->
  preserves untouched (ObtainCert cfg name i).
Proof.
  intros Hi Hne. pose proof (fun n => obtain_once_untouched cfg ik name n Hi Hne) as Hobt.
  unfold ObtainCert. apply preserves_bind; [eauto | apply has_untouched |].
  intros [|]; [by apply preserves_ret |].
  apply preserves_bind; [eauto | apply prechecked_untouched |].
  intros [x|]; [| by apply preserves_ret]. unfold obtainWithIssuer.
  apply preserves_bind; [eauto | by apply preserves_IssuerKey |]. intros ik'.
  apply with_lock_untouched. apply preserves_bind; [eauto | | intros _; apply emit_untouched].
  destruct i; [apply Hobt |].
  apply (preserves_retry _ untouched_refl untouched_trans); auto.
Qed.

End Untouched.
End Values.

(** * An example environment *)

(** Over the storage in memory: an issuer that always issues, a clock that
    stands still, metadata for certificates with one name. *)
Definition frame (n d : string) : string := pem_encode (KeyLib:=tag_lib) n d.
Definition unframe (b : string) : option (string * string * string) := pem_decode (KeyLib:=tag_lib) b.

Lemma unframe_frame n d : unframe (frame n d) = Some (n, d, "").
Proof. exact (pem_roundtrip (KeyLibLaws:=tag_laws) n d). Qed.

Definition mem_env : Env mem := {|
  env_now _ := 0%Z;
  Issue _ _ w := (Ok (mkIssued "PEM" "meta"), w);
  PreCheck := None;
  Revoke _ w := (Ok (), w);
  key_source w := (Ok (EcdsaKey "secret"), w);
  CreateCSR _ t w := (Ok t, w);
  parse_url _ := None;
  encode_meta r := match SANs r with
                   | [n] => Ok (frame n (IssuerData r))
                   | _ => Err (ErrStr "unsupported")
                   end;
  decode_meta b := match unframe b with
                   | Some (n, d, _) => Ok ([n], d)
                   | None => Err (ErrStr "unsupported")
                   end;
  random_test w := (Ok ("rw_test_1", "contents"), w);
  timer _ w := (false, w);
  retry_log w := w
|}.

Lemma mem_env_laws : @EnvLaws mem mem_storage mem_laws mem_env.
Proof.
  split; try done.
  - intros key t w. split; [done |]. by intros c [= <-].
  - intros w. split; [done |]. by intros k c [= <- _].
  - intros r b. cbn [encode_meta decode_meta mem_env]. destruct (SANs r) as [|n [|]]; try done.
    intros [= <-]. by rewrite unframe_frame.
Qed.

#[local] Existing Instance ascii_tables.
#[local] Existing Instance example_lib.
#[local] Existing Instance tag_lib.
#[local] Existing Instance mem_env.
#[local] Existing Instance mem_env_laws.

Definition example_cfg : Config :=
  {| RenewalWindowRatio := S754_zero false; MustStaple := false; Issuer := Some "ca" |}.

Definition empty_disk : prog (W:=mem) :=
  {| world := {| m_kv := ∅; m_locked := {["other"]}; m_fail := ∅ |}; locks := ∅;
     certs := empty_maps; events := [] |}.

(** * Properties *)

(** C6: no lock leaks. Obtaining, renewing and revoking, with or without
    retries, leave the set of held locks and the registry of the process as
    they found them on every path: success, error, cancellation or panic
    (provided that unlocking itself works). *)
Theorem locks_always_released {U : UnicodeTables} {L : CertLib} {K : KeyLib} {W}
    {S : Storage W} {SL : StorageLaws S} {E : Env W} {EL : EnvLaws E} cfg name interactive
    (s s' : prog (W:=W)) r :
  (forall k (w : W), fst (Unlock k w) = Ok ()) ->
  locks_held s ->
  ObtainCert cfg name interactive s = (r, s') \/ RenewCert cfg name interactive s = (r, s') \/
    RevokeCert cfg name s = (r, s') ->
  locked (world s') = locked (world s) /\ locks s' = locks s.
Proof.
  intros Hu Hh Hop.
  pose proof (ObtainCert_kept Hu cfg name interactive s Hh) as H1.
  pose proof (RenewCert_kept Hu cfg name interactive s Hh) as H2.
  pose proof (RevokeCert_kept cfg name s Hh) as H3.
  destruct Hop as [Hop | [Hop | Hop]]; rewrite Hop in *; done.
Qed.

Lemma locks_always_released_witness :
  exists s', ObtainCert example_cfg "example.com" true empty_disk = (Ok (), s') /\
    locked (world s') = {["other"]}.
Proof.
  eexists. split; [vm_compute; reflexivity |].
  edestruct (locks_always_released example_cfg "example.com" true empty_disk) as [Hl _];
    [done | | left; vm_compute; reflexivity | exact Hl].
  unfold locks_held. apply (bool_decide_unpack _). vm_compute. exact I.
Defined.


Definition example_resource : CertificateResource :=
  mkResource ["example.com"] "PEM" "KEY" "meta".


(** A failed save can cost the certificate that was there. When
    [saveCertResource] fails after its first [Store] (deletions working), the
    certificate stored under that name before, if any, is deleted and loading
    it fails from then on; a renewal whose new key or metadata cannot be
    written thereby loses the still valid certificate. *)
Theorem failed_save_deletes_certificate {U : UnicodeTables} {W} {S : Storage W} {SL : StorageLaws S}
    {E : Env W} {EL : EnvLaws E} cfg ik cert e (s s1 : prog (W:=W)) :
  Issuer cfg = Some ik -> is_Some (match encode_meta cert with Ok b => Some b | _ => None end) ->
  (forall k (w : W), fst (Delete k w) = Ok ()) ->
  saveCertResource cfg cert s = (Err e, s1) ->
  let n := NamesKey (SANs cert) in
  (forall k, k <> SiteCert ik n -> at_key k s1 = at_key k s) \/
  (at_key (SiteCert ik n) s1 = None /\ forall r s2, loadCertResource cfg n s1 <> (Ok r, s2)).
Proof.
  intros Hi [b Hb] Hdel Hsave n. destruct (encode_meta cert) as [b' | |] eqn:He; [| done | done].
  rewrite (saveCertResource_run cfg ik cert b' s Hi He) in Hsave. unfold lift in Hsave.
  destruct (storeTx _ (world s)) as [r w1] eqn:Htx. injection Hsave as -> <-.
  apply storeTx_from_spec in Htx as [_ [[? _] | (e' & before & kp & after & _ & Hall & Ho & Hn)]]; [done |].
  destruct before as [|p before]; cbn [app] in *.
  - left. injection Hall as <- _. intros k Hk. apply Ho; [apply not_elem_of_nil | done].
  - right. assert (p = mkKV (SiteCert ik n) (CertificatePEM cert)) as -> by (by injection Hall).
    assert (kv w1 !! SiteCert ik n = None) as Hnone by (apply (Hn Hdel); by left).
    split; [exact Hnone |]. intros r s2 Hload.
    apply (loadCertResource_Ok cfg ik) in Hload as [Hc _]; [| done].
    unfold at_key in Hc. cbn [world on_world] in Hc. congruence.
Qed.

Definition disk_with_old_cert : prog (W:=mem) :=
  {| world := {| m_kv := {[SiteCert "ca" "example.com" := "old"; SitePrivateKey "ca" "example.com" := "KEY";
                           SiteMeta "ca" "example.com" := "m"]};
                 m_locked := ∅; m_fail := {[SitePrivateKey "ca" "example.com"]} |};
     locks := ∅; certs := empty_maps; events := [] |}.

Lemma failed_save_deletes_certificate_witness :
  exists s1, saveCertResource example_cfg example_resource disk_with_old_cert =
               (Err (ErrStr "store failed"), s1) /\
    at_key (SiteCert "ca" "example.com") disk_with_old_cert = Some "old" /\
    at_key (SiteCert "ca" "example.com") s1 = None.
Proof.
  eexists. split; [vm_compute; reflexivity |]. split; [vm_compute; reflexivity |].
  edestruct (failed_save_deletes_certificate example_cfg "ca" example_resource (ErrStr "store failed")
               disk_with_old_cert) as [H | [H _]];
    [reflexivity | eexists; reflexivity | done | vm_compute; reflexivity | | exact H].
  vm_compute. reflexivity.
Defined.

(** For a name whose certificate request spells it differently (an IPv6
    address that is not in canonical form), the certificate is stored under
    the canonical spelling only: [ObtainCert] never creates the asset it looks
    for under the given name, whether it reports success or not, so every
    call for that name obtains another certificate. *)
Theorem noncanonical_name_never_stored {U : UnicodeTables} {L : CertLib} {K : KeyLib} {W}
    {S : Storage W} {SL : StorageLaws S} {E : Env W} {EL : EnvLaws E} cfg ik name interactive
    (s s' : prog (W:=W)) r :
  Issuer cfg = Some ik -> proper ik -> proper name -> proper (stored_name cfg name) ->
  Safe (stored_name cfg name) <> Safe name ->
  ObtainCert cfg name interactive s = (r, s') ->
  at_key (SiteCert ik name) s' = at_key (SiteCert ik name) s.
Proof.
  intros Hi Hpi Hpn Hps Hne Hob.
  assert (site_area (SiteCert ik name) = true) as Harea.
  { change (SiteCert ik name) with (site_key ACert ik name). rewrite site_key_shape by done.
    apply (HasPrefix_app "certificates/"). }
  pose proof (ObtainCert_untouched (SiteCert ik name) Harea cfg ik name interactive Hi) as Hu.
  assert (preserves (untouched (SiteCert ik name)) (ObtainCert (W:=W) cfg name interactive)) as Hp.
  { apply Hu. intros a Heq. change (SiteCert ik name) with (site_key ACert ik name) in Heq.
    apply site_key_inj in Heq as (_ & _ & Hsafe); done. }
  specialize (Hp s). by rewrite Hob in Hp.
Qed.

Lemma noncanonical_name_never_stored_witness :
  exists s', ObtainCert example_cfg "2001:db8:0::1" true empty_disk = (Ok (), s') /\
    at_key (SiteCert "ca" "2001:db8::1") s' = Some "PEM" /\
    at_key (SiteCert "ca" "2001:db8:0::1") s' = None.
Proof.
  eexists. split; [vm_compute; reflexivity |]. split; [vm_compute; reflexivity |].
  transitivity (at_key (SiteCert "ca" "2001:db8:0::1") empty_disk); [| vm_compute; reflexivity].
  eapply (noncanonical_name_never_stored example_cfg "ca" "2001:db8:0::1" true empty_disk _ (Ok ())).
  - reflexivity.
  - repeat split; vm_compute; discriminate.
  - repeat split; vm_compute; discriminate.
  - repeat split; vm_compute; discriminate.
  - vm_compute. discriminate.
  - vm_compute. reflexivity.
Defined.
