(* ===== verification/WaitChans.v ===== *)
(** The coordination of on-demand issuance in [src/handshake.go]: the map
    [obtainCertWaitChans] that [obtainOnDemandCertificate] and
    [renewDynamicCertificate] share.

    Goroutines of concurrent handshakes interleave; a critical section of
    [obtainCertWaitChansMu] is one step. What they do to the certificate in
    between ([ObtainCert], [RenewCert]) takes any number of other steps. *)
From stdpp Require Import base tactics list gmap strings relations functions.
From Stdlib Require Import ZArith Lia.
From S2P Require Import Prelude.

(** [obtainOnDemandCertificate] or [renewDynamicCertificate]. *)
Inductive operation := Obtain | Renew.

(** Where the goroutine of a handshake is. *)
Inductive gopc :=
| Outside
| Entering (op : operation) (name : string)       (* about to look the name up in the map *)
| Waiting (name : string) (ch : nat)              (* <-wait *)
| Checking (name : string) (ch : nat)             (* renew: checkIfCertShouldBeObtained *)
| Working (name : string) (ch : nat).             (* in ObtainCert or RenewCert *)

(** The map, the closed channels, and a counter for [make(chan struct{})]. *)
Record sys := mkSys {
  obtainCertWaitChans : gmap string nat;
  closed : gset nat;
  next_chan : nat;
  gos : nat -> gopc
}.

Definition set_go (p : nat) (c : gopc) (s : sys) : sys :=
  {| obtainCertWaitChans := obtainCertWaitChans s; closed := closed s; next_chan := next_chan s;
     gos := <[p := c]> (gos s) |}.

(** The first critical section: wait for the goroutine that is at work, or
    become it. *)
Definition enter (op : operation) (name : string) (p : nat) (s : sys) : sys :=
  match obtainCertWaitChans s !! name with
  | Some wait => set_go p (Waiting name wait) s
  | None =>
      let wait := next_chan s in
      {| obtainCertWaitChans := <[name := wait]> (obtainCertWaitChans s); closed := closed s;
         next_chan := S wait;
         gos := <[p := match op with Obtain => Working name wait | Renew => Checking name wait end]> (gos s) |}
  end.

(** The second one: close the channel and delete the entry. *)
Definition leave (name : string) (wait p : nat) (s : sys) : sys :=
  {| obtainCertWaitChans := delete name (obtainCertWaitChans s); closed := {[wait]} ∪ closed s;
     next_chan := next_chan s; gos := <[p := Outside]> (gos s) |}.

(** Every step but the refusal. *)
Inductive good_step : sys -> sys -> Prop :=
| StepCall s p op name : gos s p = Outside -> good_step s (set_go p (Entering op name) s)
| StepEnter s p op name : gos s p = Entering op name -> good_step s (enter op name p s)
| StepWake s p name ch :
    gos s p = Waiting name ch -> ch ∈ closed s -> good_step s (set_go p Outside s)
| StepAllowed s p name ch :
    gos s p = Checking name ch -> good_step s (set_go p (Working name ch) s)
| StepLeave s p name ch :
    gos s p = Working name ch -> good_step s (leave name ch p s).

(** [renewDynamicCertificate] returns as soon as [checkIfCertShouldBeObtained]
    refuses the name. *)
Inductive step : sys -> sys -> Prop :=
| StepGood s s' : good_step s s' -> step s s'
| StepRefused s p name ch : gos s p = Checking name ch -> step s (set_go p Outside s).

Definition init : sys :=
  {| obtainCertWaitChans := ∅; closed := ∅; next_chan := 0; gos := fun _ => Outside |}.

(** * Lemmas *)

(** The goroutine that has the work to do for [name], and its channel. *)
Definition owner (c : gopc) (name : string) (ch : nat) : Prop :=
  c = Checking name ch \/ c = Working name ch.

Record inv (s : sys) : Prop := {
  inv_open : forall name ch, obtainCertWaitChans s !! name = Some ch -> ch ∉ closed s;
  inv_fresh : forall name ch, obtainCertWaitChans s !! name = Some ch -> (ch < next_chan s)%nat;
  inv_fresh_closed : forall ch, ch ∈ closed s -> (ch < next_chan s)%nat;
  inv_inj : forall n1 n2 ch, obtainCertWaitChans s !! n1 = Some ch ->
              obtainCertWaitChans s !! n2 = Some ch -> n1 = n2;
  inv_owner : forall p name ch, owner (gos s p) name ch -> obtainCertWaitChans s !! name = Some ch;
  inv_one : forall p q name ch ch', owner (gos s p) name ch -> owner (gos s q) name ch' -> p = q;
  inv_waiting : forall p name ch, gos s p = Waiting name ch ->
                  ch ∈ closed s \/ obtainCertWaitChans s !! name = Some ch
}.

(** Without refusals every entry has its owner. *)
Definition owned (s : sys) : Prop :=
  forall name ch, obtainCertWaitChans s !! name = Some ch -> exists p, owner (gos s p) name ch.

Lemma chans_init_inv : inv init.
Proof. split; try done. all: by intros ? ? ? [? | ?] || by intros ? ? ? ? ? [? | ?]. Qed.

Lemma gos_set p c s q : gos (set_go p c s) q = if decide (q = p) then c else gos s q.
Proof.
  cbn. destruct (decide (q = p)) as [-> | Hne];
    [by rewrite fn_lookup_insert | by rewrite fn_lookup_insert_ne].
Qed.

Lemma gos_insert p c (g : nat -> gopc) q : (<[p := c]> g) q = if decide (q = p) then c else g q.
Proof.
  destruct (decide (q = p)) as [-> | Hne]; [by rewrite fn_lookup_insert | by rewrite fn_lookup_insert_ne].
Qed.

(** A goroutine moves without touching the map and without becoming an owner
    it was not. *)
Lemma inv_set_go p c s :
  inv s -> (forall name ch, owner c name ch -> owner (gos s p) name ch) ->
  (forall name ch, c = Waiting name ch -> ch ∈ closed s \/ obtainCertWaitChans s !! name = Some ch) ->
  inv (set_go p c s).
Proof.
  intros [H1 H2 H3 H4 H5 H6 H7] Ho Hw.
  assert (forall q name ch, owner (gos (set_go p c s) q) name ch -> owner (gos s q) name ch) as Ho'.
  { intros q name ch. rewrite gos_set. case_decide; [subst; apply Ho | done]. }
  split; try done.
  - intros q name ch Hq. by eapply H5, Ho'.
  - intros q1 q2 name ch ch' Hq1 Hq2. eapply H6; by apply Ho'.
  - intros q name ch. rewrite gos_set. case_decide; [apply Hw | apply H7].
Qed.

Lemma inv_enter s p op name : inv s -> gos s p = Entering op name -> inv (enter op name p s).
Proof.
  intros Hinv Hp. unfold enter. destruct (obtainCertWaitChans s !! name) as [wait|] eqn:Hn.
  { apply inv_set_go; [done | by intros ? ? [? | ?] | intros ? ? [= <- <-]; by right]. }
  destruct Hinv as [H1 H2 H3 H4 H5 H6 H7].
  assert (forall q n ch, owner ((<[p := match op with Obtain => Working name (next_chan s)
                                           | Renew => Checking name (next_chan s) end]> (gos s)) q) n ch ->
            (q = p /\ n = name /\ ch = next_chan s) \/ (q <> p /\ owner (gos s q) n ch)) as Ho.
  { intros q n ch. rewrite gos_insert. case_decide; [| tauto]. left. unfold owner in *.
    destruct op; naive_solver. }
  split; cbn [obtainCertWaitChans closed next_chan gos].
  - intros n ch. rewrite lookup_insert. case_decide; [intros [= <-] Hc; apply H3 in Hc; lia | apply H1].
  - intros n ch. rewrite lookup_insert. case_decide; [intros [= <-]; lia | intros Hl; apply H2 in Hl; lia].
  - intros ch Hc. apply H3 in Hc. lia.
  - intros n1 n2 ch. rewrite !lookup_insert. repeat case_decide; try congruence.
    + intros [= <-] Hl. apply H2 in Hl. lia.
    + intros Hl [= <-]. apply H2 in Hl. lia.
    + apply H4.
  - intros q n ch [(-> & -> & ->) | [_ Hq]]%Ho; [by rewrite lookup_insert_eq |].
    apply H5 in Hq. rewrite lookup_insert_ne; [done | congruence].
  - intros q1 q2 n ch ch' [(-> & -> & ->) | [_ Hq1]]%Ho [(-> & E & _) | [_ Hq2]]%Ho; try done.
    + apply H5 in Hq2. congruence.
    + apply H5 in Hq1. congruence.
    + by eapply H6.
  - intros q n ch. rewrite gos_insert. case_decide; [destruct op; done |].
    intros [Hc | Hl]%H7; [by left | right]. rewrite lookup_insert_ne; [done | congruence].
Qed.

Lemma inv_leave s p name ch : inv s -> gos s p = Working name ch -> inv (leave name ch p s).
Proof.
  intros [H1 H2 H3 H4 H5 H6 H7] Hp.
  assert (obtainCertWaitChans s !! name = Some ch) as Hn by (eapply (H5 p); right; done).
  assert (forall q n c, owner ((<[p := Outside]> (gos s)) q) n c -> q <> p /\ owner (gos s q) n c) as Ho.
  { intros q n c. rewrite gos_insert. case_decide; [by intros [? | ?] | tauto]. }
  split; cbn [leave obtainCertWaitChans closed next_chan gos].
  - intros n c [Hne Hl]%lookup_delete_Some [->%elem_of_singleton | Hc]%elem_of_union.
    + by apply Hne, (H4 _ _ ch).
    + by apply H1 in Hl.
  - intros n c [_ Hl]%lookup_delete_Some. by eapply H2.
  - intros c [->%elem_of_singleton | Hc]%elem_of_union; [by eapply H2 | by apply H3].
  - intros n1 n2 c [_ Hl1]%lookup_delete_Some [_ Hl2]%lookup_delete_Some. by eapply H4.
  - intros q n c [Hq Hown]%Ho. apply lookup_delete_Some. split; [| by eapply H5].
    intros ->. apply Hq. eapply H6; [exact Hown | by right].
  - intros q1 q2 n c c' [_ Hq1]%Ho [_ Hq2]%Ho. by eapply H6.
  - intros q n c. rewrite gos_insert. case_decide; [done |].
    intros [Hc | Hl]%H7; [left; set_solver |].
    destruct (decide (n = name)) as [-> | Hne].
    + left. assert (c = ch) as -> by congruence. set_solver.
    + right. by rewrite lookup_delete_ne.
Qed.

Lemma chans_inv_step s s' : inv s -> step s s' -> inv s'.
Proof.
  intros Hinv Hs. destruct Hs as [s s' Hg | s p name ch Hp].
  - destruct Hg as [s p op name Hp | s p op name Hp | s p name ch Hp Hc | s p name ch Hp | s p name ch Hp].
    + apply inv_set_go; [done | by intros ? ? [? | ?] | done].
    + by apply inv_enter.
    + apply inv_set_go; [done | by intros ? ? [? | ?] | done].
    + apply inv_set_go; [done | | done]. intros n c [? | [= <- <-]]; [done |]. by left.
    + by apply inv_leave.
  - apply inv_set_go; [done | by intros ? ? [? | ?] | done].
Qed.

Lemma owned_step s s' : inv s -> owned s -> good_step s s' -> owned s'.
Proof.
  intros Hinv Hown Hs.
  assert (forall p c, (forall name ch, owner (gos s p) name ch -> owner c name ch) ->
            owned (set_go p c s)) as Hset.
  { intros p c Hc name ch Hl. destruct (Hown name ch Hl) as [q Hq]. exists q. rewrite gos_set.
    case_decide; [subst; by apply Hc | done]. }
  destruct Hs as [s p op name Hp | s p op name Hp | s p name ch Hp Hc | s p name ch Hp | s p name ch Hp].
  - apply Hset. rewrite Hp. by intros ? ? [? | ?].
  - unfold enter. destruct (obtainCertWaitChans s !! name) as [wait|] eqn:Hn.
    { apply Hset. rewrite Hp. by intros ? ? [? | ?]. }
    intros n ch. cbn [obtainCertWaitChans gos]. rewrite lookup_insert. case_decide as Hd.
    + intros [= <-]. exists p. rewrite gos_insert, decide_True by done. unfold owner. destruct op; naive_solver.
    + intros Hl. destruct (Hown n ch Hl) as [q Hq]. exists q. rewrite gos_insert.
      case_decide; [subst; rewrite Hp in Hq; by destruct Hq | done].
  - apply Hset. rewrite Hp. by intros ? ? [? | ?].
  - apply Hset. rewrite Hp. intros n c [[= <- <-] | ?]; [by right | done].
  - intros n c. cbn [leave obtainCertWaitChans]. intros [Hne Hl]%lookup_delete_Some.
    destruct (Hown n c Hl) as [q Hq]. exists q. unfold leave; cbn [gos].
    rewrite gos_insert. case_decide; [subst; rewrite Hp in Hq | done].
    destruct Hq as [? | [= -> ->]]; done.
Qed.

Lemma reachable_inv s : rtc step init s -> inv s.
Proof. intros Hr. eapply rtc_invariant; [apply chans_inv_step | exact Hr | apply chans_init_inv]. Qed.

Lemma reachable_owned s : rtc good_step init s -> inv s /\ owned s.
Proof.
  intros Hr. eapply (rtc_invariant good_step (fun s => inv s /\ owned s)); [| exact Hr |].
  - intros x y [Hi Ho] Hs. split; [eapply chans_inv_step; [exact Hi | by constructor] | by eapply owned_step].
  - split; [apply chans_init_inv | by intros ? ?].
Qed.

(** An entry without an owner: nobody works on the name, and the channel is open. *)
Record orphaned (name : string) (ch : nat) (s : sys) : Prop := {
  orph_inv : inv s;
  orph_entry : obtainCertWaitChans s !! name = Some ch;
  orph_free : forall p c, ~ owner (gos s p) name c
}.

Lemma orphaned_step name ch s s' : orphaned name ch s -> step s s' -> orphaned name ch s'.
Proof.
  intros [Hinv He Hf] Hs. pose proof (chans_inv_step _ _ Hinv Hs) as Hinv'. split; [done | |].
  - destruct Hs as [s s' Hg | s p n c Hp]; [| done].
    destruct Hg as [s p op n Hp | s p op n Hp | s p n c Hp Hc | s p n c Hp | s p n c Hp]; try done.
    + unfold enter. destruct (obtainCertWaitChans s !! n) eqn:Hn; [done |].
      cbn [obtainCertWaitChans]. rewrite lookup_insert_ne; [done | congruence].
    + cbn [leave obtainCertWaitChans]. rewrite lookup_delete_ne; [done |]. intros ->.
      apply (Hf p c). by right.
  - intros q c Hq. destruct Hs as [s s' Hg | s p n c' Hp].
    + destruct Hg as [s p op n Hp | s p op n Hp | s p n c' Hp Hc | s p n c' Hp | s p n c' Hp].
      * rewrite gos_set in Hq. case_decide; [by destruct Hq | by apply (Hf q c)].
      * unfold enter in Hq. destruct (obtainCertWaitChans s !! n) eqn:Hn.
        -- rewrite gos_set in Hq. case_decide; [by destruct Hq | by apply (Hf q c)].
        -- cbn [gos] in Hq. rewrite gos_insert in Hq. case_decide; [| by apply (Hf q c)].
           destruct op; destruct Hq as [[= -> _] | [= -> _]] || destruct Hq; congruence.
      * rewrite gos_set in Hq. case_decide; [by destruct Hq | by apply (Hf q c)].
      * rewrite gos_set in Hq. case_decide; [| by apply (Hf q c)].
        destruct Hq as [? | [= -> ->]]; [done |]. apply (Hf p c). by left.
      * cbn [leave gos] in Hq. rewrite gos_insert in Hq. case_decide; [by destruct Hq | by apply (Hf q c)].
    + rewrite gos_set in Hq. case_decide; [by destruct Hq | by apply (Hf q c)].
Qed.

(** Whoever waits on the orphaned channel goes on waiting. *)
Lemma orphaned_waiter name ch p s s' :
  orphaned name ch s -> gos s p = Waiting name ch -> step s s' -> gos s' p = Waiting name ch.
Proof.
  intros [Hinv He Hf] Hw Hs.
  assert (forall q c, q <> p -> gos (set_go q c s) p = Waiting name ch) as Hset
    by (intros q c Hq; rewrite gos_set; case_decide; congruence).
  destruct Hs as [s s' Hg | s q n c Hp]; [| apply Hset; congruence].
  destruct Hg as [s q op n Hp | s q op n Hp | s q n c Hp Hc | s q n c Hp | s q n c Hp].
  - apply Hset. congruence.
  - unfold enter. destruct (obtainCertWaitChans s !! n); [apply Hset; congruence |].
    cbn [gos]. rewrite gos_insert. case_decide; congruence.
  - apply Hset. intros ->. rewrite Hw in Hp. injection Hp as <- <-. by apply (inv_open s Hinv name ch).
  - apply Hset. congruence.
  - cbn [leave gos]. rewrite gos_insert. case_decide; congruence.
Qed.

(** * Properties *)


(** Two handshakes of one name: the first renews, the second waits. *)
Definition two_renewals : sys :=
  enter Renew "a.com" 1 (set_go 1 (Entering Renew "a.com")
    (enter Renew "a.com" 0 (set_go 0 (Entering Renew "a.com") init))).

Lemma two_renewals_reachable : rtc good_step init two_renewals.
Proof.
  eapply rtc_l; [by apply (StepCall _ 0 Renew "a.com") |].
  eapply rtc_l; [by apply (StepEnter _ 0 Renew "a.com") |].
  eapply rtc_l; [by apply (StepCall _ 1 Renew "a.com") |].
  apply rtc_once. by apply (StepEnter _ 1 Renew "a.com").
Qed.


(** A refused renewal blocks its name. [renewDynamicCertificate] returns on
    the refusal without closing its channel or deleting it from the map: from
    then on, in every execution, nobody ever obtains or renews a certificate
    for that name again and whoever waits for it, waits for ever. *)
Theorem refusal_blocks_name :
  exists s0, rtc step init s0 /\ gos s0 1%nat = Waiting "a.com" 0 /\
    forall s, rtc step s0 s ->
      (forall p ch, ~ owner (gos s p) "a.com" ch) /\ gos s 1%nat = Waiting "a.com" 0.
Proof.
  exists (set_go 0 Outside two_renewals).
  assert (rtc step init (set_go 0 Outside two_renewals)) as Hr.
  { eapply rtc_r; [eapply rtc_mono; [| apply two_renewals_reachable]; by constructor |].
    by apply (StepRefused _ 0 "a.com" 0). }
  split; [exact Hr |]. split; [reflexivity |]. intros s Hs.
  assert (orphaned "a.com" 0 s /\ gos s 1%nat = Waiting "a.com" 0) as [Ho Hw].
  { eapply (rtc_invariant step (fun s => orphaned "a.com" 0 s /\ gos s 1%nat = Waiting "a.com" 0));
      [| exact Hs |].
    - intros x y [Ho Hw] Hst. split; [by eapply orphaned_step | by eapply orphaned_waiter].
    - split; [| reflexivity]. split; [by apply reachable_inv | reflexivity |].
      intros [|[|p]] c Hc; vm_compute in Hc; by destruct Hc. }
  split; [apply Ho | exact Hw].
Qed.
