(* ===== verification/Handshake.v ===== *)
(** Certificate selection during TLS handshakes: the lookups and decisions of
    [src/handshake.go] that work on the certificate cache. The coordination
    of concurrent handshakes is in [WaitChans.v]. *)
From Stdlib Require Import Ascii.
From stdpp Require Import base tactics list strings gmap sets.
From Stdlib Require Import ZArith Lia.
From S2P Require Import Prelude GoTime GoStrings Net Certificates Cache.

Local Open Scope string_scope.
Local Open Scope go_scope.

(** * Data *)

(** [tls.ClientHelloInfo]: the local address of the connection ([None] when
    [Conn] is nil), and [SupportsCertificate] returning nil. *)
Record ClientHelloInfo := mkHello {
  ServerName : string;
  LocalAddr : option string;
  SupportedProtos : list string;
  SupportsCertificate : tlsCert -> bool
}.

Record OnDemandConfig := mkOnDemand {
  DecisionFunc : option (string -> option error);
  hostWhitelist : list string
}.

(** The fields of a [Config] that matter here. *)
Record handshakeConfig := mkHandshake {
  DefaultServerName : string;
  OnDemand : option OnDemandConfig;
  CertSelection : option (ClientHelloInfo -> list Certificate -> res Certificate)
}.

Section Handshake.
Context {U : UnicodeTables}.

(** * Names *)

Definition NormalizedName (serverName : string) : string := ToLower (TrimSpace serverName).

Definition getNameFromClientHello (hello : ClientHelloInfo) : string :=
  let name := NormalizedName (ServerName hello) in
  match LocalAddr hello with
  | None => name
  | Some localAddr =>
      if negb (bool_decide (name = "")) then name
      else match SplitHostPort localAddr with Some (host, _) => host | None => localAddr end
  end.

(** * Selection *)

(** The loop of [DefaultCertificateSelector]. *)
Fixpoint select_loop (now : Z) (hello : ClientHelloInfo) (best : Certificate)
    (choices : list Certificate) : res Certificate :=
  match choices with
  | [] => Ok best
  | choice :: rest =>
      if negb (SupportsCertificate hello (tls choice)) then select_loop now hello best rest
      else
        match Leaf (tls choice) with
        | None => Panic "nil pointer dereference"
        | Some leaf =>
            if After now (NotBefore leaf) && Before now (NotAfter leaf) then Ok choice
            else select_loop now hello choice rest
        end
  end.

Definition DefaultCertificateSelector (now : Z) (hello : ClientHelloInfo)
    (choices : list Certificate) : res Certificate :=
  match choices with
  | [] => Err (ErrStr "no certificates available")
  | best :: _ => select_loop now hello best choices
  end.

(** What [cert, err == nil] makes of a selector's result; a selector returns the
    zero certificate with its error. *)
Definition selected (r : res Certificate) : res (Certificate * bool) :=
  match r with
  | Ok cert => Ok (cert, true)
  | Err _ => Ok (zeroCert, false)
  | Panic m => Panic m
  end.

Definition selectCert (cfg : handshakeConfig) (now : Z) (c : cacheMaps) (hello : ClientHelloInfo)
    (name : string) : res (Certificate * bool) :=
  let choices := getAllMatchingCerts c name in
  match CertSelection cfg with
  | None =>
      if (length choices =? 0)%nat then Ok (zeroCert, false)
      else selected (DefaultCertificateSelector now hello choices)
  | Some select =>
      let choices := if (length choices =? 0)%nat then getAllCerts c else choices in
      selected (select hello choices)
  end.

(** The wildcard loop of [getCertificate]: the first candidate that selects a
    certificate. *)
Fixpoint first_candidate (cfg : handshakeConfig) (now : Z) (c : cacheMaps) (hello : ClientHelloInfo)
    (cert : Certificate) (candidates : list string) : res (Certificate * bool) :=
  match candidates with
  | [] => Ok (cert, false)
  | candidate :: rest =>
      let! (cert', matched) := selectCert cfg now c hello candidate in
      if matched then Ok (cert', true) else first_candidate cfg now c hello cert' rest
  end.

(** [(cert, matched, defaulted)]. *)
Definition getCertificate (cfg : handshakeConfig) (now : Z) (c : cacheMaps) (hello : ClientHelloInfo)
    : res (Certificate * bool * bool) :=
  let name := NormalizedName (ServerName hello) in
  if bool_decide (name = "") then
    let! (cert, matched) :=
      match LocalAddr hello with
      | None => Ok (zeroCert, false)
      | Some addr =>
          let addr := match SplitHostPort addr with Some (ip, _) => ip | None => addr end in
          selectCert cfg now c hello addr
      end in
    if matched then Ok (cert, true, false)
    else if bool_decide (DefaultServerName cfg = "") then Ok (cert, false, false)
    else
      let! (cert, defaulted) := selectCert cfg now c hello (NormalizedName (DefaultServerName cfg)) in
      Ok (cert, false, defaulted)
  else
    let! (cert, matched) := selectCert cfg now c hello name in
    if matched then Ok (cert, true, false)
    else
      let! (cert, matched) := first_candidate cfg now c hello cert (wildcard_candidates name) in
      if matched then Ok (cert, true, false)
      else
        match cache c !! name with
        | Some directCert => Ok (directCert, true, false)
        | None => Ok (cert, false, false)
        end.

(** * On-demand issuance *)

Definition whitelistContains (o : OnDemandConfig) (name : string) : bool :=
  existsb (fun n => EqualFold n name) (hostWhitelist o).

(** [None] is a nil error: the certificate may be obtained. *)
Definition checkIfCertShouldBeObtained (cfg : handshakeConfig) (name : string) : option error :=
  match OnDemand cfg with
  | None => Some (ErrStr "not configured for on-demand certificate issuance")
  | Some o =>
      if negb (SubjectQualifiesForCert name)
      then Some (ErrStr "subject name does not qualify for certificate")
      else
        match DecisionFunc o with
        | Some decide => decide name
        | None =>
            if (0 <? length (hostWhitelist o))%nat && negb (whitelistContains o name)
            then Some (ErrStr "certificate is not managed") else None
        end
  end.

(** [manageAll] when on-demand TLS is configured: the names are whitelisted. *)
Definition whitelist_all (o : OnDemandConfig) (domainNames : list string) : OnDemandConfig :=
  foldl (fun o domainName =>
           if whitelistContains o domainName then o
           else {| DecisionFunc := DecisionFunc o;
                   hostWhitelist := (hostWhitelist o ++ [domainName])%list |}) o domainNames.

(** * Lemmas *)

(** A certificate that can be served without restriction at [now]. *)
Definition ideal (now : Z) (hello : ClientHelloInfo) (cert : Certificate) : Prop :=
  SupportsCertificate hello (tls cert) = true /\
  exists leaf, Leaf (tls cert) = Some leaf /\ (NotBefore leaf < now < NotAfter leaf)%Z.

Definition supported (hello : ClientHelloInfo) (cert : Certificate) : Prop :=
  SupportsCertificate hello (tls cert) = true.

#[export] Instance supported_dec hello cert : Decision (supported hello cert).
Proof. unfold supported. apply _. Defined.

Lemma select_loop_spec now hello choices : forall best,
  Forall (fun c => Leaf (tls c) <> None) choices ->
  exists cert, select_loop now hello best choices = Ok cert /\
    ((exists l1 l2, choices = (l1 ++ cert :: l2)%list /\ ideal now hello cert /\
                    Forall (fun c => ~ ideal now hello c) l1) \/
     (Forall (fun c => ~ ideal now hello c) choices /\
      cert = default best (last (filter (supported hello) choices)))).
Proof.
  induction choices as [|choice choices IH]; intros best HF; cbn [select_loop].
  { exists best. split; [done |]. right. by split. }
  apply Forall_cons in HF as [Hl HF].
  destruct (SupportsCertificate hello (tls choice)) eqn:Hs; cbn [negb].
  - destruct (Leaf (tls choice)) as [leaf|] eqn:Hleaf; [| done].
    destruct (After now (NotBefore leaf) && Before now (NotAfter leaf)) eqn:Ht.
    + exists choice. split; [done |]. left. exists [], choices. split; [done |].
      unfold After, Before in Ht. bool_hyps. split; [| constructor].
      split; [done |]. exists leaf. split; [done | lia].
    + assert (~ ideal now hello choice) as Hni.
      { intros (_ & leaf' & Hl' & Hn). rewrite Hleaf in Hl'. injection Hl' as <-.
        unfold After, Before in Ht. apply andb_false_iff in Ht as [Ht | Ht]; bool_hyps; lia. }
      destruct (IH choice HF) as (cert & -> & [(l1 & l2 & -> & Hi & Hn) | [Hn ->]]);
        eexists; (split; [reflexivity |]).
      * left. exists (choice :: l1), l2. split; [done |]. split; [done |]. by constructor.
      * right. split; [by constructor |]. rewrite filter_cons_True by done.
        rewrite last_cons. by destruct (last (filter (supported hello) choices)).
  - assert (~ ideal now hello choice) as Hni by (intros [? _]; congruence).
    destruct (IH best HF) as (cert & -> & [(l1 & l2 & -> & Hi & Hn) | [Hn ->]]);
      eexists; (split; [reflexivity |]).
    + left. exists (choice :: l1), l2. split; [done |]. split; [done |]. by constructor.
    + right. split; [by constructor |]. rewrite filter_cons_False; [done |]. unfold supported. congruence.
Qed.

Lemma select_loop_in now hello choices : forall best cert,
  select_loop now hello best choices = Ok cert -> cert = best \/ cert ∈ choices.
Proof.
  induction choices as [|choice choices IH]; intros best cert; cbn [select_loop].
  { intros [= <-]. by left. }
  destruct (negb _); [intros [? | ?]%IH; [by left | right; by right] |].
  destruct (Leaf (tls choice)); [| done]. destruct (_ && _).
  - intros [= <-]. right. by left.
  - intros [-> | ?]%IH; right; [by left | by right].
Qed.

(** Every cached certificate has a parsed leaf. *)
Definition leaves (c : cacheMaps) : Prop :=
  forall h cert, cache c !! h = Some cert -> Leaf (tls cert) <> None.

Lemma selectCert_spec cfg now c hello name :
  wf c -> leaves c -> CertSelection cfg = None ->
  (exists cert, selectCert cfg now c hello name = Ok (cert, true) /\
                cache c !! hash cert = Some cert /\ name ∈ Names cert) \/
  (selectCert cfg now c hello name = Ok (zeroCert, false) /\
   forall h cert, cache c !! h = Some cert -> name ∉ Names cert).
Proof.
  intros Hwf Hl Hs. unfold selectCert. rewrite Hs.
  assert (Forall (fun cert => Leaf (tls cert) <> None) (getAllMatchingCerts c name)) as HF.
  { apply Forall_forall. intros cert [Hc _]%elem_of_matching; [| done]. by eapply Hl. }
  pose proof (fun cert => elem_of_matching c name cert Hwf) as Hm.
  destruct (getAllMatchingCerts c name) as [|best rest] eqn:Hg.
  - right. split; [done |]. intros h cert Hc Hn.
    destruct (wf_cert c Hwf h cert Hc) as [<- _]. by apply (not_elem_of_nil cert), Hm.
  - left. cbn [length Nat.eqb]. unfold DefaultCertificateSelector.
    destruct (select_loop_spec now hello (best :: rest) best HF) as (cert & He & _).
    exists cert. rewrite He. split; [done |]. apply Hm.
    apply select_loop_in in He as [-> | ?]; [by left | done].
Qed.

Lemma first_candidate_spec cfg now c hello : wf c -> leaves c -> CertSelection cfg = None ->
  forall candidates cert0,
  (exists cert, first_candidate cfg now c hello cert0 candidates = Ok (cert, true) /\
                cache c !! hash cert = Some cert /\ exists n, n ∈ candidates /\ n ∈ Names cert) \/
  (exists cert, first_candidate cfg now c hello cert0 candidates = Ok (cert, false) /\
   forall n h cert, n ∈ candidates -> cache c !! h = Some cert -> n ∉ Names cert).
Proof.
  intros Hwf Hl Hs candidates. induction candidates as [|n candidates IH]; intros cert0; cbn [first_candidate].
  { right. exists cert0. split; [done |]. by intros n h cert ?%elem_of_nil. }
  destruct (selectCert_spec cfg now c hello n Hwf Hl Hs) as [(cert & -> & Hc & Hn) | [-> Hno]]; cbn [res_bind].
  - left. exists cert. split; [done |]. split; [done |]. exists n. split; [by left | done].
  - destruct (IH zeroCert) as [(cert & -> & Hc & m & Hm & Hn) | (cert & -> & Hno')].
    + left. exists cert. split; [done |]. split; [done |]. exists m. split; [by right | done].
    + right. exists cert. split; [done |]. intros m h cert' [-> | Hm]%elem_of_cons Hc; [by eapply Hno | by eapply Hno'].
Qed.

End Handshake.

(** * Properties *)

#[local] Existing Instance ascii_tables.

(** The default selector never fails on a nonempty list of parsed
    certificates, and picks in this order: the first certificate that the
    client supports and that is valid now; if there is none, the last one the
    client supports; if there is none, the first of the list. *)
Theorem DefaultCertificateSelector_spec now hello first rest :
  Forall (fun c => Leaf (tls c) <> None) (first :: rest) ->
  exists cert, DefaultCertificateSelector now hello (first :: rest) = Ok cert /\
    ((exists l1 l2, first :: rest = (l1 ++ cert :: l2)%list /\ ideal now hello cert /\
                    Forall (fun c => ~ ideal now hello c) l1) \/
     (Forall (fun c => ~ ideal now hello c) (first :: rest) /\
      cert = default first (last (filter (supported hello) (first :: rest))))).
Proof. apply select_loop_spec. Qed.

Definition any_hello (name : string) : ClientHelloInfo :=
  {| ServerName := name; LocalAddr := None; SupportedProtos := []; SupportsCertificate _ := true |}.

Lemma DefaultCertificateSelector_spec_witness :
  exists cert, DefaultCertificateSelector 5 (any_hello "a.com") [cert_of "h" ["a.com"]] = Ok cert.
Proof.
  destruct (DefaultCertificateSelector_spec 5 (any_hello "a.com") (cert_of "h" ["a.com"]) [])
    as (cert & H & _); [by repeat constructor | by exists cert].
Defined.


