(* ===== verification/Managed.v ===== *)
(** Certificates in memory: making a [Certificate] with its staple, loading
    managed ones from storage into the cache, caching unmanaged ones, reloading
    renewed ones (the second half of [src/certificates.go]), and the
    management of names, [manageOne] and [manageAll] of [src/config.go].

    Background jobs are data: [job] lists the closures the program submits and
    [run_job] is their bodies. A process, [proc], is the [prog] of [Config.v]
    with the job manager of [JobManager.v]. *)
From Stdlib Require Import Ascii.
From stdpp Require Import base tactics list strings gmap sets.
From Stdlib Require Import ZArith Lia SpecFloat.
From S2P Require Import Prelude GoTime GoStrings Net JobManager Retry StorageKeys Certificates Cache.
From S2P Require Import Crypto Storage Ocsp Config Handshake.

Local Open Scope string_scope.
Local Open Scope go_scope.

(** * Certificates *)

Definition with_managed (b : bool) (cert : Certificate) : Certificate :=
  {| tls := tls cert; Names := Names cert; Tags := Tags cert; ocsp := ocsp cert; hash := hash cert;
     managed := b |}.

Definition with_tags (tags : list string) (cert : Certificate) : Certificate :=
  {| tls := tls cert; Names := Names cert; Tags := tags; ocsp := ocsp cert; hash := hash cert;
     managed := managed cert |}.

(** The clock of a configuration's environment. *)
#[export] Instance env_clock {W} {E : Env W} : Clock W := env_now.

(** [ioutil.ReadFile]. *)
Class Disk (W : Type) := ReadFile : string -> M W string.

Section Managed.
Context {U : UnicodeTables} {L : CertLib} {K : KeyLib} {O : OcspLib} {W : Type} {S : Storage W}
        {E : Env W} {H : Http W} {D : Disk W}.


(** The error of [stapleOCSP] is logged. *)
Definition makeCertificateWithOCSP (certPEMBlock keyPEMBlock : string) : M W Certificate :=
  let* cert := of_res (makeCertificate certPEMBlock keyPEMBlock) in
  let* (cert, _, _) := stapleOCSP cert (Some certPEMBlock) in
  ret cert.

Definition makeCertificateFromDiskWithOCSP (certFile keyFile : string) : M W Certificate :=
  let* certPEMBlock := ReadFile certFile in
  let* keyPEMBlock := ReadFile keyFile in
  makeCertificateWithOCSP certPEMBlock keyPEMBlock.

(** * The cache *)

(** A critical section of the cache's mutex. *)
Definition on_cache (f : cacheMaps -> res cacheMaps) : M (prog (W:=W)) unit := fun s =>
  match f (certs s) with
  | Ok c => (Ok (), mkProg (world s) (locks s) c (events s))
  | Err e => (Err e, s)
  | Panic m => (Panic m, s)
  end.

Definition cacheCertificate (cert : Certificate) : M (prog (W:=W)) unit :=
  on_cache (fun c => Ok (unsyncedCacheCertificate cert c)).

Definition loadManagedCertificate (cfg : Config) (domain : string) : M (prog (W:=W)) Certificate :=
  let* certRes := loadCertResource cfg domain in
  let* cert := lift (makeCertificateWithOCSP (CertificatePEM certRes) (PrivateKeyPEM certRes)) in
  ret (with_managed true cert).

Definition CacheManagedCertificate (cfg : Config) (domain : string) : M (prog (W:=W)) Certificate :=
  let* cert := loadManagedCertificate cfg domain in
  let* _ := cacheCertificate cert in
  let* _ := emit "cached_managed_cert" (EvNames (Names cert)) in
  ret cert.

Definition CacheUnmanagedCertificatePEMFile (certFile keyFile : string) (tags : list string) : M (prog (W:=W)) unit :=
  let* cert := lift (makeCertificateFromDiskWithOCSP certFile keyFile) in
  let cert := with_tags tags cert in
  let* _ := cacheCertificate cert in
  emit "cached_unmanaged_cert" (EvNames (Names cert)).

Definition CacheUnmanagedTLSCertificate (tlsCert : tlsCert) (tags : list string) : M (prog (W:=W)) unit :=
  let* cert := of_res (fillCertFromLeaf tlsCert) in
  let* (cert, _, _) := lift (stapleOCSP cert None) in
  let* _ := emit "cached_unmanaged_cert" (EvNames (Names cert)) in
  cacheCertificate (with_tags tags cert).

Definition CacheUnmanagedCertificatePEMBytes (certBytes keyBytes : string) (tags : list string) : M (prog (W:=W)) unit :=
  let* cert := lift (makeCertificateWithOCSP certBytes keyBytes) in
  let cert := with_tags tags cert in
  let* _ := cacheCertificate cert in
  emit "cached_unmanaged_cert" (EvNames (Names cert)).

(** [cert.Names[0]]. *)
Definition first_name (cert : Certificate) : M (prog (W:=W)) string :=
  match Names cert with
  | n :: _ => ret n
  | [] => panic "index out of range"
  end.

Definition managedCertInStorageExpiresSoon (cfg : Config) (cert : Certificate) : M (prog (W:=W)) bool :=
  let* name := first_name cert in
  let* certRes := loadCertResource cfg name in
  let* tlsCert := of_res (X509KeyPair (CertificatePEM certRes) (PrivateKeyPEM certRes)) in
  match chain tlsCert with
  | [] => panic "index out of range"
  | der :: _ =>
      let* leaf := of_res (ParseCertificate der) in
      fun s => (Ok (currentlyInRenewalWindow (env_now (world s)) (NotBefore leaf) (NotAfter leaf)
                      (RenewalWindowRatio cfg)), s)
  end.

Definition reloadManagedCertificate (cfg : Config) (oldCert : Certificate) : M (prog (W:=W)) unit :=
  let* name := first_name oldCert in
  let* newCert := wrap_err (fun _ => ErrStr "loading managed certificate from storage")
                    (loadManagedCertificate cfg name) in
  on_cache (replaceCertificate oldCert newCert).

(** [cert.NeedsRenewal(cfg)]. *)
Definition needsRenewal (cfg : Config) (cert : Certificate) : M (prog (W:=W)) bool := fun s =>
  (NeedsRenewal (env_now (world s)) (RenewalWindowRatio cfg) cert, s).

(** * Jobs *)

(** The closures given to [jobmanager.Submit]: [obtain] and [renew] of
    [manageOne], and the renewal of [queueRenewalTask] ([onDemand]: the
    configuration has on-demand TLS). *)
Inductive job :=
| JobObtain (cfg : Config) (domainName : string) (async : bool)
| JobRenew (cfg : Config) (domainName : string) (cert : Certificate) (async : bool)
| JobMaintain (cfg : Config) (onDemand : bool) (oldCert : Certificate) (renewName : string).

Definition run_job (j : job) : M (prog (W:=W)) unit :=
  match j with
  | JobObtain cfg domainName async =>
      let* _ := wrap_err (ErrWrap (domainName +:+ ": obtaining certificate"))
                  (ObtainCert cfg domainName (negb async)) in
      let* _ := wrap_err (fun _ => ErrStr (domainName +:+ ": caching certificate after obtaining it"))
                  (CacheManagedCertificate cfg domainName) in
      ret ()
  | JobRenew cfg domainName cert async =>
      let* _ := wrap_err (ErrWrap (domainName +:+ ": renewing certificate"))
                  (RenewCert cfg domainName (negb async)) in
      wrap_err (fun _ => ErrStr (domainName +:+ ": reloading renewed certificate into memory"))
        (reloadManagedCertificate cfg cert)
  | JobMaintain cfg onDemand oldCert renewName =>
      let* renewed := try (RenewCert cfg renewName false) in
      match renewed with
      | inr err =>
          let* _ := if onDemand then on_cache (removeCertificate oldCert) else ret () in
          fail (ErrStr "renewing managed certificate")
      | inl _ =>
          wrap_err (fun _ => ErrNoRetry (ErrStr "reloading renewed certificate"))
            (reloadManagedCertificate cfg oldCert)
      end
  end.

(** A process: the program with its job manager; [spawned] counts the worker
    goroutines it has started. *)
Record proc := mkProc {
  program : prog (W:=W);
  manager : jobManager (J:=job);
  spawned : nat
}.

(** Code that does not submit jobs. *)
Definition inside {A} (m : M (prog (W:=W)) A) : M proc A := fun p =>
  let '(r, s') := m (program p) in (r, mkProc s' (manager p) (spawned p)).

(** [jobmanager.Submit(name, job)]. *)
Definition submit (nm : string) (j : job) : M proc unit := fun p =>
  let '(m', spawn) := Submit nm j (manager p) in
  (Ok (), mkProc (program p) m' (if spawn then Datatypes.S (spawned p) else spawned p)).

(** * Managing names *)

(** [err.(ErrNotExist)]: the interface has no method of its own, so every
    non-nil error satisfies it. *)
Definition isErrNotExist (err : error) : bool := true.

Definition manageOne (cfg : Config) (domainName : string) (async : bool) : M proc unit :=
  let* loaded := inside (try (CacheManagedCertificate cfg domainName)) in
  match loaded with
  | inr err =>
      if negb (isErrNotExist err) then fail (ErrStr (domainName +:+ ": caching certificate"))
      else
        let obtain := JobObtain cfg domainName async in
        if async then submit "" obtain else inside (run_job obtain)
  | inl cert =>
      let renew := JobRenew cfg domainName cert async in
      let* needsRenew := inside (needsRenewal cfg cert) in
      if needsRenew then
        if async then submit ("renew_" +:+ domainName) renew else inside (run_job renew)
      else ret ()
  end.

(** The loop of [manageAll] without on-demand TLS. *)
Fixpoint manage_names (cfg : Config) (domainNames : list string) (async : bool) : M proc unit :=
  match domainNames with
  | [] => ret ()
  | domainName :: rest => let* _ := manageOne cfg domainName async in manage_names cfg rest async
  end.

(** The on-demand configuration [onDemand] points to, as the call leaves it. *)
Definition manageAll (cfg : Config) (onDemand : option OnDemandConfig) (domainNames : list string)
    (async : bool) : M proc (option OnDemandConfig) :=
  match onDemand with
  | Some o => ret (Some (whitelist_all o domainNames))
  | None => let* _ := manage_names cfg domainNames async in ret None
  end.

Definition ManageSync (cfg : Config) (onDemand : option OnDemandConfig) (domainNames : list string) :=
  manageAll cfg onDemand domainNames false.

Definition ManageAsync (cfg : Config) (onDemand : option OnDemandConfig) (domainNames : list string) :=
  manageAll cfg onDemand domainNames true.

End Managed.

(** * Laws of the certificates *)

(** A certificate never bears a name twice (the cache cannot remove one that
    does) and chains with the same hash have the same leaf: what a CA that
    follows the baseline requirements and a collision-free hash provide. *)
Class ChainLaws {U : UnicodeTables} (L : CertLib) : Prop := {
  leaf_names_nodup der leaf : ParseCertificate der = Ok leaf -> NoDup (leaf_names leaf);
  hash_names t1 t2 c1 c2 :
    fillCertFromLeaf t1 = Ok c1 -> fillCertFromLeaf t2 = Ok c2 -> hash c1 = hash c2 -> Names c1 = Names c2
}.

(** * Lemmas *)

(** ** Certificates that come from a chain *)

Section Genuine.
Context {U : UnicodeTables} {L : CertLib} {K : KeyLib} {O : OcspLib} {W : Type} {S : Storage W}
        {E : Env W} {H : Http W} {D : Disk W}.

Definition genuine (cert : Certificate) : Prop :=
  Leaf (tls cert) <> None /\
  exists t c, fillCertFromLeaf t = Ok c /\ hash cert = hash c /\ Names cert = Names c.

Lemma genuine_fill t cert : fillCertFromLeaf t = Ok cert -> genuine cert.
Proof.
  intros Hf. split; [| by exists t, cert].
  apply fillCertFromLeaf_Ok in Hf as (der & ders & leaf & _ & _ & -> & _). done.
Qed.

Lemma genuine_restapled cert cert' : restapled cert cert' -> genuine cert -> genuine cert'.
Proof. intros [-> | (b & r & leaf & _ & _ & _ & ->)]; [done |]. intros [Hl Hg]. by split. Qed.

Lemma genuine_managed b cert : genuine cert -> genuine (with_managed b cert).
Proof. intros [Hl Hg]. by split. Qed.

Lemma genuine_tags tags cert : genuine cert -> genuine (with_tags tags cert).
Proof. intros [Hl Hg]. by split. Qed.

Lemma makeCertificate_genuine c k cert : makeCertificate c k = Ok cert -> genuine cert.
Proof. unfold makeCertificate. destruct (X509KeyPair c k); [apply genuine_fill | done | done]. Qed.

Lemma makeCertificateWithOCSP_genuine c k (w w' : W) cert :
  makeCertificateWithOCSP c k w = (Ok cert, w') -> genuine cert.
Proof.
  unfold makeCertificateWithOCSP, bind at 1, of_res. destruct (makeCertificate c k) as [c0 | |] eqn:Hm; [| done | done].
  unfold bind. destruct (stapleOCSP c0 (Some c) w) as [[[[c1 resp] e] | |] w1] eqn:Hs; [| done | done].
  intros [= <- _]. eapply genuine_restapled; [by eapply stapleOCSP_cert | by eapply makeCertificate_genuine].
Qed.

Lemma fromDisk_genuine c k (w w' : W) cert :
  makeCertificateFromDiskWithOCSP c k w = (Ok cert, w') -> genuine cert.
Proof.
  unfold makeCertificateFromDiskWithOCSP, bind at 1. destruct (ReadFile c w) as [[cb | |] w1]; [| done | done].
  unfold bind at 1. destruct (ReadFile k w1) as [[kb | |] w2]; [| done | done].
  apply makeCertificateWithOCSP_genuine.
Qed.

Lemma lift_genuine (m : M W Certificate) (s s' : prog (W:=W)) cert :
  (forall w w', m w = (Ok cert, w') -> genuine cert) -> lift m s = (Ok cert, s') -> genuine cert.
Proof. unfold lift. intros Hm. destruct (m (world s)) as [r w'] eqn:Hw. intros [= -> _]. by eapply Hm. Qed.

Lemma loadManagedCertificate_genuine cfg domain (s s' : prog (W:=W)) cert :
  loadManagedCertificate cfg domain s = (Ok cert, s') -> genuine cert.
Proof.
  unfold loadManagedCertificate, bind at 1. destruct (loadCertResource cfg domain s) as [[r | |] s1]; [| done | done].
  unfold bind. destruct (lift _ s1) as [[c | |] s2] eqn:Hl; [| done | done]. intros [= <- _].
  apply genuine_managed. eapply lift_genuine; [| exact Hl]. intros w w'. apply makeCertificateWithOCSP_genuine.
Qed.

(** ** The cache *)

(** A well-formed cache of certificates that come from chains. *)
Definition good_cache (c : cacheMaps) : Prop :=
  wf c /\ forall h cert, cache c !! h = Some cert -> genuine cert.

Context {CL : ChainLaws L}.

Lemma genuine_nodup cert : genuine cert -> NoDup (Names cert).
Proof.
  intros (_ & t & c & Hf & _ & ->). apply fillCertFromLeaf_Ok in Hf as (der & ders & leaf & _ & Hp & _ & -> & _).
  by eapply leaf_names_nodup.
Qed.

Lemma genuine_same_names cert c : good_cache c -> genuine cert -> same_names cert c.
Proof.
  intros [Hwf Hg] (_ & t & c0 & Hf & Hh & Hn) cert' Hc. destruct (Hg _ _ Hc) as (_ & t' & c1 & Hf' & Hh' & Hn').
  rewrite Hn', Hn. apply (hash_names t' t); try done. rewrite <- Hh', <- Hh.
  by destruct (wf_cert _ Hwf _ _ Hc) as [-> _].
Qed.

Lemma cache_good cert c : good_cache c -> genuine cert -> good_cache (unsyncedCacheCertificate cert c).
Proof.
  intros [Hwf Hg] Hc. split; [by apply cacheCertificate_wf, genuine_nodup |].
  intros h cert'. rewrite cacheCertificate_cache. unfold put_new.
  destruct (cache c !! hash cert); [apply Hg |]. rewrite lookup_insert. case_decide; [by intros [= <-] | apply Hg].
Qed.

Lemma remove_good cert c :
  good_cache c -> genuine cert -> exists c', removeCertificate cert c = Ok c' /\ good_cache c' /\
    cache c' = delete (hash cert) (cache c).
Proof.
  intros Hgc Hc. pose proof (genuine_same_names cert c Hgc Hc) as Hs. destruct Hgc as [Hwf Hg].
  destruct (removeCertificate_wf cert c Hwf Hs) as (c' & Hr & Hwf' & Hd). exists c'. split; [done |].
  split; [| done]. split; [done |]. intros h cert'. rewrite Hd. intros [_ Hl]%lookup_delete_Some. by eapply Hg.
Qed.

Lemma replace_good oldCert newCert c :
  good_cache c -> genuine oldCert -> genuine newCert ->
  exists c', replaceCertificate oldCert newCert c = Ok c' /\ good_cache c' /\
    cache c' = put_new newCert (delete (hash oldCert) (cache c)).
Proof.
  intros Hgc Ho Hn. destruct (remove_good oldCert c Hgc Ho) as (c1 & Hr & Hg1 & Hd).
  unfold replaceCertificate. rewrite Hr. cbn [res_bind]. pose proof Hn as [Hl _].
  destruct (Leaf (tls newCert)) eqn:Heq; [| done]. eexists. split; [done |].
  split; [by apply cache_good |]. by rewrite cacheCertificate_cache, Hd.
Qed.
End Genuine.

(** ** What only changes the rest of the program *)

(** A relation that ignores the world, the locks and the events is preserved by
    everything that does not write to the cache. *)
Section Outside.
Context {U : UnicodeTables} {L : CertLib} {K : KeyLib} {O : OcspLib} {W : Type} {S : Storage W}
        {E : Env W} {H : Http W} {D : Disk W}.
Context (R : relation (prog (W:=W))) (Hrefl : forall s, R s s)
        (Htrans : forall s1 s2 s3, R s1 s2 -> R s2 s3 -> R s1 s3)
        (Hout : forall s w l ev, R s (mkProg w l (certs s) ev)).

Lemma out_lift {A} (m : M W A) : preserves R (lift m).
Proof. intros s. unfold lift. destruct (m (world s)) as [r w']. apply Hout. Qed.

Lemma out_locks {A} (m : M (W * gset string) A) : preserves R (lift_locks m).
Proof. intros s. unfold lift_locks. destruct (m (world s, locks s)) as [r [w' l']]. apply Hout. Qed.

Lemma out_exists k : preserves R (exists_key k).
Proof. intros s. unfold exists_key. destruct (Exists k (world s)) as [b w']. apply Hout. Qed.

Lemma out_emit ev d : preserves R (emit ev d).
Proof. intros s. apply Hout. Qed.

#[local] Hint Resolve out_lift out_locks out_exists out_emit : core.

Lemma out_save cfg r : preserves R (saveCertResource cfg r).
Proof. unfold saveCertResource. preserve; auto. Qed.

Lemma out_load cfg n : preserves R (loadCertResource cfg n).
Proof. unfold loadCertResource. preserve; auto. Qed.

Lemma out_has cfg n : preserves R (storageHasCertResources cfg n).
Proof. unfold storageHasCertResources. preserve; auto. Qed.

Lemma out_csr cfg key sans : preserves R (generateCSR cfg key sans).
Proof. unfold generateCSR. auto. Qed.

Lemma out_check : preserves R checkStorage.
Proof.
  unfold checkStorage. apply preserves_bind; [eauto | auto |]. intros [k c].
  apply preserves_bind; [eauto | auto |]. intros _ s.
  pose proof (out_lift (Load k) s) as H1. destruct (lift (Load k) s) as [r s1].
  pose proof (out_lift (Delete k) s1) as H2. destruct (lift (Delete k) s1) as [r2 s2].
  cbn [snd] in *. by eapply Htrans.
Qed.

#[local] Hint Resolve out_save out_load out_has out_csr out_check : core.

Lemma out_prechecked cfg names i : preserves R (getPrecheckedIssuer cfg names i).
Proof. unfold getPrecheckedIssuer. preserve; auto. Qed.

Lemma out_with_lock k body : preserves R body -> preserves R (with_lock k body).
Proof.
  intros Hb. unfold with_lock. apply preserves_bind; [eauto | auto |]. intros _ s. unfold defer.
  specialize (Hb s). destruct (body s) as [r s1]. cbn [snd] in *. eapply Htrans; [exact Hb |].
  apply (preserves_bind R Htrans); [apply preserves_try, out_locks | intros ?; by apply preserves_ret].
Qed.

Lemma out_retry f : (forall n, preserves R (f n)) -> preserves R (with_retry f).
Proof. intros Hf. apply (preserves_retry R Hrefl Htrans); [exact Hf | intros; apply Hout | intros; apply Hout]. Qed.

Lemma out_obtain_once cfg name n : preserves R (obtain_once cfg name n).
Proof. unfold obtain_once. preserve; auto. Qed.

Lemma out_renew_once cfg name n : preserves R (renew_once cfg name n).
Proof. unfold renew_once. preserve; auto. Qed.

#[local] Hint Resolve out_prechecked out_with_lock out_retry out_obtain_once out_renew_once : core.

Lemma out_ObtainCert cfg name i : preserves R (ObtainCert cfg name i).
Proof. unfold ObtainCert, obtainWithIssuer. preserve; auto. apply out_with_lock. preserve; auto. Qed.

Lemma out_RenewCert cfg name i : preserves R (RenewCert cfg name i).
Proof. unfold RenewCert, renewWithIssuer. preserve; auto. apply out_with_lock. preserve; auto. Qed.

Lemma out_first_name cert : preserves R (first_name cert).
Proof. intros s. unfold first_name. destruct (Names cert); apply Hrefl. Qed.

Lemma out_loadManaged cfg n : preserves R (loadManagedCertificate cfg n).
Proof. unfold loadManagedCertificate. preserve; auto. Qed.

Lemma out_expires cfg cert : preserves R (managedCertInStorageExpiresSoon cfg cert).
Proof.
  unfold managedCertInStorageExpiresSoon. apply preserves_bind; [eauto | apply out_first_name |]. intros n.
  preserve; auto; try (intros s; apply Hrefl).
Qed.
End Outside.

(** ** What keeps the cache good *)

Section Good.
Context {U : UnicodeTables} {L : CertLib} {CL : ChainLaws L} {K : KeyLib} {O : OcspLib} {W : Type}
        {S : Storage W} {E : Env W} {H : Http W} {D : Disk W}.

Definition keeps_good (s s' : prog (W:=W)) : Prop := good_cache (certs s) -> good_cache (certs s').

Lemma keeps_refl s : keeps_good s s.
Proof. exact (fun x => x). Qed.

Lemma keeps_trans s1 s2 s3 : keeps_good s1 s2 -> keeps_good s2 s3 -> keeps_good s1 s3.
Proof. unfold keeps_good. auto. Qed.

Lemma keeps_out s w l ev : keeps_good s (mkProg w l (certs s) ev).
Proof. exact (fun x => x). Qed.

#[local] Hint Resolve keeps_refl keeps_trans keeps_out : core.

Lemma keeps_cache cert : genuine cert -> preserves keeps_good (cacheCertificate cert).
Proof. intros Hc s Hg. by apply cache_good. Qed.

Lemma keeps_remove cert : genuine cert -> preserves keeps_good (on_cache (removeCertificate cert)).
Proof. intros Hc s Hg. unfold on_cache. by destruct (remove_good cert _ Hg Hc) as (c' & -> & ? & _). Qed.

Lemma keeps_replace oldCert newCert :
  genuine oldCert -> genuine newCert -> preserves keeps_good (on_cache (replaceCertificate oldCert newCert)).
Proof. intros Ho Hn s Hg. unfold on_cache. by destruct (replace_good _ _ _ Hg Ho Hn) as (c' & -> & ? & _). Qed.

Lemma CacheManaged_loads cfg domain s cert s' :
  CacheManagedCertificate cfg domain s = (Ok cert, s') ->
  exists s1, loadManagedCertificate cfg domain s = (Ok cert, s1).
Proof.
  unfold CacheManagedCertificate, bind at 1.
  destruct (loadManagedCertificate cfg domain s) as [[c | |] s1]; [| done | done].
  intros [= -> _]. by exists s1.
Qed.

Lemma keeps_CacheManaged cfg domain : preserves keeps_good (CacheManagedCertificate cfg domain).
Proof.
  unfold CacheManagedCertificate. apply preserves_bind_val; [eauto | apply out_loadManaged; eauto |].
  intros s cert s' Hl. apply loadManagedCertificate_genuine in Hl. preserve; auto.
  - by apply keeps_cache.
  - apply out_emit; eauto.
Qed.

Lemma keeps_reload cfg oldCert : genuine oldCert -> preserves keeps_good (reloadManagedCertificate cfg oldCert).
Proof.
  intros Ho. unfold reloadManagedCertificate. apply preserves_bind; [eauto | apply out_first_name; eauto |].
  intros n. apply preserves_bind_val; [eauto | apply preserves_wrap, out_loadManaged; eauto |].
  intros s cert s' Hl. apply keeps_replace; [done |]. unfold wrap_err in Hl.
  destruct (loadManagedCertificate cfg n s) as [[] s1] eqn:Hlm; try done. injection Hl as -> _.
  by eapply loadManagedCertificate_genuine.
Qed.

Lemma keeps_unmanaged (m : M W Certificate) tags :
  (forall w w' cert, m w = (Ok cert, w') -> genuine cert) ->
  preserves keeps_good (let* cert := lift m in
                        let cert := with_tags tags cert in
                        let* _ := cacheCertificate cert in
                        emit "cached_unmanaged_cert" (EvNames (Names cert))).
Proof.
  intros Hm. apply preserves_bind_val; [eauto | apply out_lift; eauto |]. intros s cert s' Hl.
  apply preserves_bind; [eauto | | intros _; apply out_emit; eauto].
  apply keeps_cache, genuine_tags. eapply lift_genuine; [intros w w'; apply Hm | exact Hl].
Qed.

Lemma keeps_PEMFile c k tags : preserves keeps_good (CacheUnmanagedCertificatePEMFile c k tags).
Proof. apply keeps_unmanaged. intros w w' cert. apply fromDisk_genuine. Qed.

Lemma keeps_PEMBytes c k tags : preserves keeps_good (CacheUnmanagedCertificatePEMBytes c k tags).
Proof. apply keeps_unmanaged. intros w w' cert. apply makeCertificateWithOCSP_genuine. Qed.

Lemma keeps_TLS t tags : preserves keeps_good (CacheUnmanagedTLSCertificate t tags).
Proof.
  unfold CacheUnmanagedTLSCertificate. apply preserves_bind_val; [eauto | apply preserves_pure; eauto |].
  intros s cert s' [= Hf _]. apply preserves_bind_val; [eauto | apply out_lift; eauto |].
  intros s1 [[cert' resp] e] s2 Hs. apply preserves_bind; [eauto | apply out_emit; eauto | intros _].
  apply keeps_cache, genuine_tags. unfold lift in Hs.
  destruct (stapleOCSP cert None (world s1)) as [r w'] eqn:Ho. injection Hs as -> _.
  eapply genuine_restapled; [by eapply stapleOCSP_cert | by eapply genuine_fill].
Qed.

(** Jobs carry certificates that have been in the cache. *)
Definition good_job (j : job) : Prop :=
  match j with
  | JobObtain _ _ _ => True
  | JobRenew _ _ cert _ => genuine cert
  | JobMaintain _ _ oldCert _ => genuine oldCert
  end.

Lemma keeps_run_job j : good_job j -> preserves keeps_good (run_job j).
Proof.
  destruct j as [cfg d a | cfg d cert a | cfg od old n]; cbn [good_job run_job]; intros Hg.
  - preserve; eauto using out_ObtainCert, keeps_CacheManaged.
  - preserve; eauto using out_RenewCert, keeps_reload.
  - apply preserves_bind; [eauto | apply preserves_try, out_RenewCert; eauto |]. intros [[]|err].
    + by apply preserves_wrap, keeps_reload.
    + apply preserves_bind; [eauto | | intros _; apply preserves_pure; eauto].
      destruct od; [by apply keeps_remove | apply preserves_ret; eauto].
Qed.

(** ** Processes *)

Definition good_proc (p : proc (W:=W)) : Prop :=
  good_cache (certs (program p)) /\ Forall (fun nj => good_job (JobManager.job nj)) (queue (manager p)).

Lemma Submit_queue nm (j : job) m : queue (fst (Submit nm j m)) = queue m \/
  queue (fst (Submit nm j m)) = (queue m ++ [mkJob nm j])%list.
Proof. unfold Submit. destruct (_ && _); [by left |]. destruct (_ <? _)%Z; by right. Qed.

Lemma good_submit nm j p : good_proc p -> good_job j -> good_proc (snd (submit nm j p)).
Proof.
  intros [Hc Hq] Hj. unfold submit. destruct (Submit_queue nm j (manager p)) as [Hs | Hs];
    destruct (Submit nm j (manager p)) as [m' b]; (split; [done |]); cbn [snd manager fst] in *; rewrite Hs; [done |].
  apply Forall_app_2; [done |]. by constructor.
Qed.

Lemma good_inside {A} (m : M (prog (W:=W)) A) p :
  preserves keeps_good m -> good_proc p -> good_proc (snd (inside m p)).
Proof.
  intros Hm [Hc Hq]. unfold inside. specialize (Hm (program p) Hc). destruct (m (program p)) as [r s']. by split.
Qed.

Lemma good_bind {A B} (m : M (proc (W:=W)) A) (f : A -> M proc B) p :
  good_proc p -> good_proc (snd (m p)) ->
  (forall a p', m p = (Ok a, p') -> good_proc p' -> good_proc (snd (f a p'))) -> good_proc (snd (bind m f p)).
Proof. intros Hp Hm Hf. unfold bind. destruct (m p) as [[a | e | x] p']; [by apply Hf | done | done]. Qed.

Lemma manageOne_good cfg name async p : good_proc p -> good_proc (snd (manageOne cfg name async p)).
Proof.
  intros Hp. unfold manageOne. apply good_bind; [done | by apply good_inside; [apply preserves_try, keeps_CacheManaged |] |].
  intros [cert | err] p1 Hc Hp1; cbn [isErrNotExist negb].
  - assert (genuine cert) as Hgen.
    { unfold inside, try in Hc. destruct (CacheManagedCertificate cfg name (program p)) as [[c | |] s1] eqn:Hl;
        [| done | done]. injection Hc as -> _. apply CacheManaged_loads in Hl as [s2 Hl].
      by eapply loadManagedCertificate_genuine. }
    apply good_bind; [done | by apply good_inside; [intros s |] |].
    intros [|] p2 _ Hp2; [| done]. destruct async; [by apply good_submit |].
    apply good_inside; [by apply keeps_run_job | done].
  - destruct async; [by apply good_submit |]. apply good_inside; [by apply keeps_run_job | done].
Qed.

Lemma manage_names_good cfg names async : forall p,
  good_proc p -> good_proc (snd (manage_names cfg names async p)).
Proof.
  induction names as [|name names IH]; intros p Hp; [done |]. cbn [manage_names].
  apply good_bind; [done | by apply manageOne_good |]. intros _ p' _ Hp'. by apply IH.
Qed.
End Good.

(** ** What is served after managing a name *)

Section Serves.
Context {U : UnicodeTables} {L : CertLib} {CL : ChainLaws L} {K : KeyLib} {O : OcspLib} {W : Type}
        {S : Storage W} {E : Env W} {H : Http W} {D : Disk W}.
Implicit Types (s : prog (W:=W)).

Definition same_certs s s' : Prop := certs s' = certs s.

Lemma RenewCert_same cfg name i : preserves same_certs (RenewCert cfg name i).
Proof. apply out_RenewCert; unfold same_certs; try done; intros; congruence. Qed.

Lemma ObtainCert_same cfg name i : preserves same_certs (ObtainCert cfg name i).
Proof. apply out_ObtainCert; unfold same_certs; try done; intros; congruence. Qed.

Lemma loadManaged_same cfg name : preserves same_certs (loadManagedCertificate cfg name).
Proof. apply out_loadManaged; unfold same_certs; try done; intros; congruence. Qed.

(** A handshake for [name] finds a certificate in the cache. *)
Definition served (name : string) (c : cacheMaps) : Prop := getAllMatchingCerts c name <> [].

Lemma put_new_served cert name c :
  good_cache c -> genuine cert -> name ∈ Names cert ->
  (exists m, cache c = put_new cert m) -> served name c.
Proof.
  intros Hgc Hc Hn [m Hm]. assert (exists cert', cache c !! hash cert = Some cert') as [cert' Hl].
  { rewrite Hm. unfold put_new. destruct (m !! hash cert) eqn:Heq; [by eexists | rewrite lookup_insert_eq; by eexists]. }
  pose proof (genuine_same_names cert c Hgc Hc cert' Hl) as Hsn. destruct Hgc as [Hwf _].
  assert (cert' ∈ getAllMatchingCerts c name) as Hin.
  { apply elem_of_matching; [done |]. destruct (wf_cert _ Hwf _ _ Hl) as [-> _]. by rewrite Hsn. }
  unfold served. destruct (getAllMatchingCerts c name); [by apply not_elem_of_nil in Hin | done].
Qed.

Lemma CacheManaged_Ok cfg domain s cert s' :
  CacheManagedCertificate cfg domain s = (Ok cert, s') ->
  exists s1, loadManagedCertificate cfg domain s = (Ok cert, s1) /\
             certs s' = unsyncedCacheCertificate cert (certs s).
Proof.
  unfold CacheManagedCertificate, bind at 1. pose proof (loadManaged_same cfg domain s) as Hs.
  destruct (loadManagedCertificate cfg domain s) as [[c | |] s1]; [| done | done].
  intros [= -> <-]. exists s1. split; [done |]. cbn. by rewrite <- Hs.
Qed.

(** The stored certificate of [name] covers exactly that name. *)
Definition one_name (cfg : Config) (name : string) : Prop :=
  forall s cert s', loadManagedCertificate cfg name s = (Ok cert, s') -> Names cert = [name].

Lemma CacheManaged_served cfg name s cert s' :
  one_name cfg name -> good_cache (certs s) -> CacheManagedCertificate cfg name s = (Ok cert, s') ->
  good_cache (certs s') /\ served name (certs s') /\ genuine cert /\ Names cert = [name].
Proof.
  intros Hone Hg Hc. apply CacheManaged_Ok in Hc as (s1 & Hl & Hcs).
  pose proof (loadManagedCertificate_genuine _ _ _ _ _ Hl) as Hgen. specialize (Hone _ _ _ Hl).
  assert (good_cache (certs s')) as Hg' by (rewrite Hcs; by apply cache_good).
  split; [done |]. split; [| done]. eapply put_new_served; [done | exact Hgen | rewrite Hone; by left |].
  exists (cache (certs s)). by rewrite Hcs, cacheCertificate_cache.
Qed.

Lemma reload_served cfg name old s s' :
  one_name cfg name -> good_cache (certs s) -> genuine old -> Names old = [name] ->
  reloadManagedCertificate cfg old s = (Ok (), s') -> served name (certs s').
Proof.
  intros Hone Hg Ho Hn. unfold reloadManagedCertificate, first_name. rewrite Hn.
  unfold bind at 1, ret. unfold bind, wrap_err. pose proof (loadManaged_same cfg name s) as Hs.
  destruct (loadManagedCertificate cfg name s) as [[c | |] s1] eqn:Hl; [| done | done]. cbn [snd] in Hs.
  pose proof (loadManagedCertificate_genuine _ _ _ _ _ Hl) as Hgen. specialize (Hone _ _ _ Hl).
  unfold on_cache. rewrite Hs. destruct (replace_good old c (certs s) Hg Ho Hgen) as (c' & -> & Hg' & Hc').
  intros [= <-]. cbn [certs]. eapply put_new_served; [done | exact Hgen | rewrite Hone; by left | by eexists].
Qed.

Lemma run_obtain_served cfg name a s s' :
  one_name cfg name -> good_cache (certs s) ->
  run_job (JobObtain cfg name a) s = (Ok (), s') -> served name (certs s').
Proof.
  intros Hone Hg. cbn [run_job]. unfold bind at 1, wrap_err at 1.
  pose proof (ObtainCert_same cfg name (negb a) s) as Hs.
  destruct (ObtainCert cfg name (negb a) s) as [[[] | |] s1]; [| done | done]. cbn [snd] in Hs.
  unfold bind, wrap_err. destruct (CacheManagedCertificate cfg name s1) as [[c | |] s2] eqn:Hc; [| done | done].
  intros [= <-]. apply CacheManaged_served in Hc as (_ & ? & _); [done | done |]. by rewrite Hs.
Qed.

Lemma run_renew_served cfg name cert a s s' :
  one_name cfg name -> good_cache (certs s) -> genuine cert -> Names cert = [name] ->
  run_job (JobRenew cfg name cert a) s = (Ok (), s') -> served name (certs s').
Proof.
  intros Hone Hg Hgen Hn. cbn [run_job]. unfold bind, wrap_err at 1.
  pose proof (RenewCert_same cfg name (negb a) s) as Hs.
  destruct (RenewCert cfg name (negb a) s) as [[[] | |] s1]; [| done | done]. cbn [snd] in Hs.
  unfold wrap_err. destruct (reloadManagedCertificate cfg cert s1) as [[[] | |] s2] eqn:Hr; [| done | done].
  intros [= <-]. eapply reload_served; [done | | done | done | exact Hr]. by rewrite Hs.
Qed.
End Serves.

(** * An example environment *)

#[local] Existing Instance ascii_tables.
#[local] Existing Instance responder_lib.
#[local] Existing Instance responder_ocsp.
#[local] Existing Instance tag_lib.
#[local] Existing Instance mem_env.
#[local] Existing Instance mem_http.

Definition mem_files : Disk mem := fun f w =>
  if bool_decide (f = "cert.pem") then (Ok "PEM", w)
  else if bool_decide (f = "key.pem") then (Ok "KEY", w) else (Err ErrIsNotExist, w).

#[local] Existing Instance mem_files.

Lemma responder_names der leaf : ParseCertificate der = Ok leaf -> leaf = stapled_leaf.
Proof. cbn. destruct (_ || _); by intros [= <-]. Qed.

Lemma responder_chain_laws : ChainLaws responder_lib.
Proof.
  split.
  - intros der leaf ->%responder_names. apply (bool_decide_unpack _). vm_compute. exact I.
  - intros t1 t2 c1 c2 H1 H2 _.
    apply fillCertFromLeaf_Ok in H1 as (d1 & ? & l1 & _ & ->%responder_names & _ & -> & _).
    by apply fillCertFromLeaf_Ok in H2 as (d2 & ? & l2 & _ & ->%responder_names & _ & -> & _).
Qed.

#[local] Existing Instance responder_chain_laws.

Definition idle : jobManager (J:=job) :=
  {| maxConcurrentJobs := 1000; activeWorkers := 0; queue := []; names := ∅ |}.

Definition fresh_proc : proc (W:=mem) := {| program := empty_disk; manager := idle; spawned := 0 |}.

Lemma fresh_proc_good : good_proc fresh_proc.
Proof. split; [| constructor]. split; [apply empty_wf |]. intros h cert. cbn [fresh_proc program certs empty_disk empty_maps cache]. by rewrite lookup_empty. Qed.

Lemma responder_one_name : one_name (W:=mem) example_cfg "a.com".
Proof.
  intros s cert s' Hl. apply loadManagedCertificate_genuine in Hl as (_ & t & c & Hf & _ & ->).
  apply fillCertFromLeaf_Ok in Hf as (d & ? & l & _ & ->%responder_names & _ & -> & _).
  vm_compute. reflexivity.
Qed.

(** * Properties *)




