(* ===== verification/Maintain.v ===== *)
(** Certificate maintenance, [src/maintain.go]: the renewal scan, the OCSP
    scan, the loop that runs them, and the cleaning of storage.

    A scan of the cache goes over its entries in the unspecified order of a Go
    map iteration; the model takes the order of [map_to_list]. *)
From Stdlib Require Import Ascii.
From stdpp Require Import base tactics list strings gmap sets.
From Stdlib Require Import ZArith Lia SpecFloat.
From S2P Require Import Prelude GoTime GoStrings Net JobManager Retry StorageKeys Certificates Cache.
From S2P Require Import Crypto Storage Ocsp Config Handshake Managed.

Local Open Scope string_scope.
Local Open Scope go_scope.

(** * Loops *)

(** [for _, x := range l], with what the body carries from one round to the
    next; an error or a panic leaves the loop. *)
Fixpoint for_each {W A B} (body : A -> B -> M W B) (l : list A) (acc : B) : M W B :=
  match l with
  | [] => ret acc
  | x :: rest => let* acc := body x acc in for_each body rest acc
  end.

(** [_, err := m] where the error is logged and the loop goes on. *)
Definition logged {W} (m : M W unit) : M W unit := let* _ := try m in ret ().

(** * Cleaning storage *)

Record CleanStorageOptions := mkClean {
  OCSPStaples : bool;
  ExpiredCerts : bool;
  ExpiredCertGracePeriod : Z
}.

Section Clean.
Context {U : UnicodeTables} {L : CertLib} {K : KeyLib} {O : OcspLib} {W : Type} {S : Storage W} {C : Clock W}.

Definition now_is : M W Z := fun w => (Ok (time_Now w), w).

(** The body of the loop of [deleteOldOCSPStaples]. *)
Definition clean_staple (key : string) (_ : unit) : M W unit :=
  let* loaded := try (Load key) in
  match loaded with
  | inr _ => ret ()
  | inl ocspBytes =>
      match ParseResponse ocspBytes None with
      | Err _ => logged (Delete key)
      | Panic m => panic m
      | Ok resp =>
          let* now := now_is in
          if After now (NextUpdate resp) then logged (Delete key) else ret ()
      end
  end.

Definition deleteOldOCSPStaples : M W unit :=
  let* listed := try (List prefixOCSP false) in
  match listed with
  | inr _ => ret ()
  | inl ocspKeys => for_each clean_staple ocspKeys ()
  end.

(** One asset of a site: an expired certificate is deleted with its key and its
    metadata. *)
Definition clean_asset (gracePeriod : Z) (assetKey : string) (_ : unit) : M W unit :=
  if negb (bool_decide (path_Ext assetKey = ".crt")) then ret ()
  else
    let* certFile := wrap_err (fun _ => ErrStr "loading certificate file") (Load assetKey) in
    match pem_decode certFile with
    | None => fail (ErrStr "certificate file does not contain PEM-encoded certificate")
    | Some (blockType, der, _) =>
        if negb (bool_decide (blockType = "CERTIFICATE"))
        then fail (ErrStr "certificate file does not contain PEM-encoded certificate")
        else
          let* cert := wrap_err (fun _ => ErrStr "certificate file is malformed") (of_res (ParseCertificate der)) in
          let* now := now_is in
          if (gracePeriod <=? Since now (NotAfter cert))%Z then
            let baseName := TrimSuffix assetKey ".crt" in
            for_each (fun relatedAsset _ => logged (Delete relatedAsset))
              [assetKey; baseName +:+ ".key"; baseName +:+ ".json"] ()
          else ret ()
    end.

(** One site folder: its assets, then the folder itself if nothing is left. *)
Definition clean_site (gracePeriod : Z) (siteKey : string) (_ : unit) : M W unit :=
  let* listed := try (List siteKey false) in
  match listed with
  | inr _ => ret ()
  | inl siteAssets =>
      let* _ := for_each (clean_asset gracePeriod) siteAssets () in
      let* relisted := try (List siteKey false) in
      match relisted with
      | inl [] => wrap_err (fun _ => ErrStr "deleting empty site folder") (Delete siteKey)
      | _ => ret ()
      end
  end.

Definition clean_issuer (gracePeriod : Z) (issuerKey : string) (_ : unit) : M W unit :=
  let* listed := try (List issuerKey false) in
  match listed with
  | inr _ => ret ()
  | inl siteKeys => for_each (clean_site gracePeriod) siteKeys ()
  end.

Definition deleteExpiredCerts (gracePeriod : Z) : M W unit :=
  let* listed := try (List prefixCerts false) in
  match listed with
  | inr _ => ret ()
  | inl issuerKeys => for_each (clean_issuer gracePeriod) issuerKeys ()
  end.

Definition CleanStorage (opts : CleanStorageOptions) : M W unit :=
  let* _ := if OCSPStaples opts then logged deleteOldOCSPStaples else ret () in
  if ExpiredCerts opts then logged (deleteExpiredCerts (ExpiredCertGracePeriod opts)) else ret ().

End Clean.

(** * Scans of the cache *)

(** What the maintenance needs of a [Config]: whether it has on-demand TLS and
    the cache it belongs to (nil is [None]). *)
Record MaintConfig := mkMaint {
  m_cfg : Config;
  m_onDemand : bool;
  m_cache : option nat
}.

Section Maintain.
Context {U : UnicodeTables} {L : CertLib} {K : KeyLib} {O : OcspLib} {W : Type} {S : Storage W}
        {E : Env W} {H : Http W} {D : Disk W}.
(** The cache and its options. *)
Context (self : nat) (opts : CacheOptions (Config:=MaintConfig)).

Definition entries (c : cacheMaps) : list (string * Certificate) := map_to_list (cache c).

(** ** Renewal *)

Record queues := mkQueues {
  renewQueue : list Certificate;
  reloadQueue : list Certificate;
  deleteQueue : list Certificate;
  configs : gmap string MaintConfig
}.

Definition empty_queues : queues := mkQueues [] [] [] ∅.

Definition scan_cert (entry : string * Certificate) (q : queues) : M (prog (W:=W)) queues :=
  let cert := snd entry in
  if negb (managed cert) then ret q
  else
    match Names cert with
    | [] => ret (mkQueues (renewQueue q) (reloadQueue q) (deleteQueue q ++ [cert])%list (configs q))
    | name :: _ =>
        let* got := try (of_res (getConfig m_cache self opts cert)) in
        match got with
        | inr _ | inl None => ret q
        | inl (Some cfg) =>
            let* due := needsRenewal (m_cfg cfg) cert in
            if negb due then ret q
            else
              let configs' := <[name := cfg]> (configs q) in
              let* storedCertExpiring := try (managedCertInStorageExpiresSoon (m_cfg cfg) cert) in
              match storedCertExpiring with
              | inl false =>
                  ret (mkQueues (renewQueue q) (reloadQueue q ++ [cert])%list (deleteQueue q) configs')
              | _ => ret (mkQueues (renewQueue q ++ [cert])%list (reloadQueue q) (deleteQueue q) configs')
              end
        end
    end.

(** [cert.Leaf.NotAfter] in a log line. *)
Definition leaf_read (cert : Certificate) : M (prog (W:=W)) unit :=
  match Leaf (tls cert) with
  | Some _ => ret ()
  | None => panic "nil pointer dereference"
  end.

(** [configs[cert.Names[0]]]. *)
Definition config_of (configs : gmap string MaintConfig) (cert : Certificate) : M (prog (W:=W)) MaintConfig :=
  let* name := first_name cert in
  match configs !! name with
  | Some cfg => ret cfg
  | None => panic "nil pointer dereference"
  end.

Definition reload_queued (configs : gmap string MaintConfig) (oldCert : Certificate) (_ : unit)
    : M (prog (W:=W)) unit :=
  let* _ := leaf_read oldCert in
  let* cfg := config_of configs oldCert in
  logged (reloadManagedCertificate (m_cfg cfg) oldCert).

Definition queueRenewalTask (oldCert : Certificate) (cfg : MaintConfig) : M (proc (W:=W)) unit :=
  let* _ := inside (leaf_read oldCert) in
  let* renewName := inside (first_name oldCert) in
  submit ("renew_" +:+ renewName) (JobMaintain (m_cfg cfg) (m_onDemand cfg) oldCert renewName).

Definition queue_renewal (configs : gmap string MaintConfig) (oldCert : Certificate) (_ : unit)
    : M (proc (W:=W)) unit :=
  let* cfg := inside (config_of configs oldCert) in
  queueRenewalTask oldCert cfg.

Definition RenewManagedCertificates : M (proc (W:=W)) unit :=
  let* q := inside (fun s => for_each scan_cert (entries (certs s)) empty_queues s) in
  let* _ := inside (for_each (reload_queued (configs q)) (reloadQueue q) ()) in
  let* _ := for_each (queue_renewal (configs q)) (renewQueue q) () in
  inside (for_each (fun cert _ => on_cache (removeCertificate cert)) (deleteQueue q) ()).

(** ** OCSP *)

(** [updateQueueEntry]: the certificate, its key and the [NextUpdate] of its
    staple. *)
Definition updateQueueEntry : Type := Certificate * string * Z.

Definition scan_staple (now : Z) (entry : string * Certificate) (updateQueue : list updateQueueEntry)
    : M (prog (W:=W)) (list updateQueueEntry) :=
  let '(certHash, cert) := entry in
  match Leaf (tls cert) with
  | None => panic "nil pointer dereference"
  | Some leaf =>
      if After now (NotAfter leaf) then ret updateQueue
      else
        match ocsp cert with
        | Some resp =>
            if freshOCSP now resp then ret updateQueue
            else ret (updateQueue ++ [(cert, certHash, NextUpdate resp)])%list
        | None => ret (updateQueue ++ [(cert, certHash, zeroTime)])%list
        end
  end.

Record updates := mkUpdates {
  updated : gmap string (string * option ocspResponse);
  revokedQueue : list Certificate;
  revokedConfigs : gmap string MaintConfig
}.

(** [cert.ocsp != nil && (lastNextUpdate.IsZero() || lastNextUpdate != cert.ocsp.NextUpdate)]. *)
Definition advanced (cert : Certificate) (lastNextUpdate : Z) : bool :=
  match ocsp cert with
  | None => false
  | Some resp => IsZero lastNextUpdate || negb (lastNextUpdate =? NextUpdate resp)%Z
  end.

Definition update_staple (qe : updateQueueEntry) (u : updates) : M (prog (W:=W)) updates :=
  let '(cert, certHash, lastNextUpdate) := qe in
  let* got := try (of_res (getConfig m_cache self opts cert)) in
  match got with
  | inr _ | inl None => ret u
  | inl (Some cfg) =>
      let* (cert, ocspResp, err) := lift (stapleOCSP cert None) in
      match err with
      | Some _ => ret u
      | None =>
          let updated' := if advanced cert lastNextUpdate
                          then <[certHash := (staple (tls cert), ocsp cert)]> (updated u) else updated u in
          if managed cert then
            match ocspResp with
            | None => panic "nil pointer dereference"
            | Some resp =>
                match Names cert with
                | name :: _ =>
                    if bool_decide (Status resp = Revoked)
                    then ret (mkUpdates updated' (revokedQueue u ++ [cert])%list
                                (<[name := cfg]> (revokedConfigs u)))
                    else ret (mkUpdates updated' (revokedQueue u) (revokedConfigs u))
                | [] => ret (mkUpdates updated' (revokedQueue u) (revokedConfigs u))
                end
            end
          else ret (mkUpdates updated' (revokedQueue u) (revokedConfigs u))
      end
  end.

(** One round of the loop that applies the updates: a certificate that has left
    the cache reads as the zero value, and is written. *)
Definition apply_update (update : string * (string * option ocspResponse)) (c : cacheMaps) : cacheMaps :=
  let '(certKey, (rawBytes, parsed)) := update in
  {| cache := <[certKey := with_staple rawBytes parsed (get c certKey)]> (cache c);
     cacheIndex := cacheIndex c |}.

Definition replace_revoked (configs : gmap string MaintConfig) (oldCert : Certificate) (_ : unit)
    : M (prog (W:=W)) unit :=
  let* _ := leaf_read oldCert in
  let* renewName := first_name oldCert in
  let* cfg := config_of configs oldCert in
  let* renewed := try (RenewCert (m_cfg cfg) renewName false) in
  match renewed with
  | inr _ => on_cache (removeCertificate oldCert)
  | inl _ => logged (reloadManagedCertificate (m_cfg cfg) oldCert)
  end.

Definition updateOCSPStaples : M (prog (W:=W)) unit :=
  let* updateQueue := fun s => for_each (scan_staple (env_now (world s))) (entries (certs s)) [] s in
  let* u := for_each update_staple updateQueue (mkUpdates ∅ [] ∅) in
  let* _ := for_each (fun update _ => on_cache (fun c => Ok (apply_update update c)))
              (map_to_list (updated u)) () in
  for_each (replace_revoked (revokedConfigs u)) (revokedQueue u) ().

(** ** The maintenance loop *)

(** What the loop of [maintainAssets] receives: a tick of one of its tickers or
    the closing of [stopChan]. *)
Inductive signal := RenewalTick | OCSPTick | StopSignal.

(** [Some b]: still waiting after the signals ([false]) or returned with
    [doneChan] closed ([true]). *)
Fixpoint maintainAssets (signals : list signal) : M (proc (W:=W)) bool :=
  match signals with
  | [] => ret false
  | RenewalTick :: rest => let* _ := try RenewManagedCertificates in maintainAssets rest
  | OCSPTick :: rest => let* _ := inside updateOCSPStaples in maintainAssets rest
  | StopSignal :: _ => ret true
  end.

End Maintain.

(** * Lemmas *)

(** ** Loops *)

Lemma safely_for_each {W A B} (R : relation W) (body : A -> B -> M W B) l : forall acc,
  (forall w, R w w) -> (forall w1 w2 w3, R w1 w2 -> R w2 w3 -> R w1 w3) ->
  (forall x acc, safely R (body x acc)) -> safely R (for_each body l acc).
Proof.
  induction l as [|x l IH]; intros acc Hr Ht Hb; cbn [for_each]; [by apply safely_ret |].
  apply safely_bind; [done | apply Hb |]. intros acc'. by apply IH.
Qed.

(** ** Cleaning *)

(** Storage operations do not turn the clock back. *)
Class ClockLaws {W} (S : Storage W) (C : Clock W) : Prop := {
  Load_clock k (w : W) : (time_Now w <= time_Now (snd (Load k w)))%Z;
  Delete_clock k (w : W) : (time_Now w <= time_Now (snd (Delete k w)))%Z;
  List_clock p b (w : W) : (time_Now w <= time_Now (snd (List p b w)))%Z
}.

Section CleanFacts.
Context {U : UnicodeTables} {L : CertLib} {LL : CertLibLaws L} {K : KeyLib} {O : OcspLib} {OL : OcspLibLaws O}
        {W : Type} {S : Storage W} {SL : StorageLaws S} {C : Clock W} {CL : ClockLaws S C}.
Context (opts : CleanStorageOptions).

(** What may be deleted at [now] from storage [m]: a staple that is corrupt or
    past its next update; the certificate, key and metadata files of a
    certificate that expired the grace period ago; a folder that lists empty. *)
Inductive useless (now : Z) (m : gmap string string) (k : string) : Prop :=
| UselessStaple v :
    m !! k = Some v ->
    (exists e, ParseResponse v None = Err e) \/
      (exists resp, ParseResponse v None = Ok resp /\ (NextUpdate resp < now)%Z) ->
    OCSPStaples opts = true -> useless now m k
| UselessCert asset v der rest cert :
    m !! asset = Some v -> path_Ext asset = ".crt" -> pem_decode v = Some ("CERTIFICATE", der, rest) ->
    ParseCertificate der = Ok cert -> (ExpiredCertGracePeriod opts <= Since now (NotAfter cert))%Z ->
    k ∈ [asset; TrimSuffix asset ".crt" +:+ ".key"; TrimSuffix asset ".crt" +:+ ".json"] ->
    ExpiredCerts opts = true -> useless now m k
| UselessSite w : fst (List k false w) = Ok [] -> ExpiredCerts opts = true -> useless now m k.

Definition cleaned (w w' : W) : Prop :=
  locked w' = locked w /\ (time_Now w <= time_Now w')%Z /\
  forall k, kv w' !! k = kv w !! k \/ (kv w' !! k = None /\ useless (time_Now w') (kv w) k).

Lemma useless_later now now' (m m' : gmap string string) k :
  (now <= now')%Z -> (forall k v, m !! k = Some v -> m' !! k = Some v) -> useless now m k -> useless now' m' k.
Proof.
  intros Hn Hm [v Hk Hs Ho | asset v der rest cert Hk He Hd Hp Hg Hin Ho | w Hl Ho].
  - eapply UselessStaple; [by apply Hm | | done]. destruct Hs as [? | (r & ? & ?)]; [by left |].
    right. exists r. split; [done | lia].
  - eapply UselessCert; eauto. unfold Since, Sub in *. lia.
  - by eapply UselessSite.
Qed.

Lemma cleaned_kept w w' k v : cleaned w w' -> kv w' !! k = Some v -> kv w !! k = Some v.
Proof. intros (_ & _ & Hk). destruct (Hk k) as [-> | [-> _]]; done. Qed.

Lemma cleaned_refl w : cleaned w w.
Proof. split; [done |]. split; [lia |]. intros k. by left. Qed.

Lemma cleaned_trans w1 w2 w3 : cleaned w1 w2 -> cleaned w2 w3 -> cleaned w1 w3.
Proof.
  intros H12 H23. pose proof (cleaned_kept w1 w2) as Hsub.
  destruct H12 as (Hl1 & Hc1 & Hk1), H23 as (Hl2 & Hc2 & Hk2).
  split; [congruence |]. split; [lia |]. intros k.
  destruct (Hk2 k) as [E2 | [E2 U2]], (Hk1 k) as [E1 | [E1 U1]]; rewrite ?E2, ?E1.
  - by left.
  - right. split; [done |]. by eapply useless_later.
  - right. split; [done |]. eapply useless_later; [| | exact U2]; [lia |]. intros j v. by apply Hsub.
  - right. split; [done |]. eapply useless_later; [| | exact U1]; [lia | done].
Qed.

#[local] Hint Resolve cleaned_refl cleaned_trans : core.

Lemma unchanged_cleaned w w' :
  locked w' = locked w -> kv w' = kv w -> (time_Now w <= time_Now w')%Z -> cleaned w w'.
Proof. intros Hl Hk Hc. split; [done |]. split; [done |]. intros k. left. by rewrite Hk. Qed.

Lemma List_safely p b : safely cleaned (List (W:=W) p b).
Proof.
  intros w. pose proof (List_clock p b w) as Hc. destruct (List p b w) as [r w'] eqn:Hl.
  apply List_law in Hl as (Hp & Hl & Hk). split; [done |]. by apply unchanged_cleaned.
Qed.

Lemma now_safely : safely cleaned now_is.
Proof. intros w. split; [done | apply cleaned_refl]. Qed.

(** Loading: the state only moves in time, and the value is what was there. *)
Lemma Load_cases key w :
  exists w1, cleaned w w1 /\ kv w1 = kv w /\
    ((exists v, Load key w = (Ok v, w1) /\ kv w !! key = Some v) \/ (exists e, Load key w = (Err e, w1))).
Proof.
  pose proof (Load_clock key w) as Hc. destruct (Load key w) as [r w1] eqn:Hl.
  apply Load_law in Hl as (Hp & Hl & Hk & Hv). exists w1. split; [by apply unchanged_cleaned |].
  split; [done |]. destruct r as [v | e | m]; [left | right | by destruct (Hp m)]; eexists; [by split; [|apply Hv] | done].
Qed.

(** Deleting something useless. *)
Lemma delete_useless k w w1 :
  cleaned w w1 -> useless (time_Now w1) (kv w) k ->
  exists w2, logged (Delete k) w1 = (Ok (), w2) /\ cleaned w w2 /\ (time_Now w1 <= time_Now w2)%Z.
Proof.
  intros (Hl & Hc & Hk) Hu. pose proof (Delete_clock k w1) as Hc2. unfold logged, bind, try.
  destruct (Delete k w1) as [r w2] eqn:Hd. apply Delete_law in Hd as (Hp & Hl2 & Hk2 & _). cbn [snd] in Hc2.
  exists w2. split; [destruct r; [done | done | by destruct (Hp msg)] |]. split; [| done].
  split; [congruence |]. split; [lia |]. intros j.
  assert (forall j, useless (time_Now w1) (kv w) j -> useless (time_Now w2) (kv w) j) as Hlater
    by (intros i; by apply useless_later).
  destruct Hk2 as [-> | ->]; [rewrite lookup_delete; case_decide; subst |].
  - right. split; [done | by apply Hlater].
  - destruct (Hk j) as [-> | [-> ?]]; [by left | right; split; [done | by apply Hlater]].
  - destruct (Hk j) as [-> | [-> ?]]; [by left | right; split; [done | by apply Hlater]].
Qed.

Lemma delete_all_useless ks w : forall w1,
  cleaned w w1 -> (forall k, k ∈ ks -> useless (time_Now w1) (kv w) k) ->
  exists w2, for_each (fun k _ => logged (Delete k)) ks () w1 = (Ok (), w2) /\ cleaned w w2.
Proof.
  induction ks as [|k ks IH]; intros w1 Hw Hu; [by exists w1 |]. cbn [for_each]. unfold bind at 1.
  destruct (delete_useless k w w1 Hw) as (w2 & -> & Hw2 & Ht); [apply Hu; by left |].
  apply IH; [done |]. intros j Hj. eapply useless_later; [exact Ht | done | apply Hu; by right].
Qed.

Lemma clean_staple_safely k u : OCSPStaples opts = true -> safely cleaned (clean_staple (W:=W) k u).
Proof.
  intros Ho. apply safely_intro. intros w. unfold clean_staple, bind at 1, try at 1.
  destruct (Load_cases k w) as (w1 & Hw & Hkv & [(v & -> & Hv) | (e & ->)]); [| by exists (Ok ()), w1].
  assert (forall now, (exists e, ParseResponse v None = Err e) \/
            (exists resp, ParseResponse v None = Ok resp /\ (NextUpdate resp < now)%Z) -> useless now (kv w) k) as Hu
    by (intros now Hs; by eapply UselessStaple).
  destruct (ParseResponse v None) as [resp | e | m] eqn:Hp.
  - unfold bind, now_is. destruct (After (time_Now w1) (NextUpdate resp)) eqn:Ha; [| by exists (Ok ()), w1].
    destruct (delete_useless k w w1 Hw) as (w2 & -> & ? & _); [| by exists (Ok ()), w2].
    apply Hu. right. exists resp. split; [done |]. by apply Z.ltb_lt.
  - destruct (delete_useless k w w1 Hw) as (w2 & -> & ? & _); [| by exists (Ok ()), w2].
    apply Hu. left. by exists e.
  - by apply ParseResponse_safe in Hp.
Qed.

Lemma clean_asset_safely a u : ExpiredCerts opts = true ->
  safely cleaned (clean_asset (W:=W) (ExpiredCertGracePeriod opts) a u).
Proof.
  intros Ho. apply safely_intro. intros w. unfold clean_asset.
  case_bool_decide as Hext; [| by exists (Ok ()), w; split_and!; [| |apply cleaned_refl]].
  cbn [negb]. unfold bind at 1, wrap_err at 1.
  destruct (Load_cases a w) as (w1 & Hw & Hkv & [(v & -> & Hv) | (e & ->)]); [| by eexists (Err _), w1].
  destruct (pem_decode v) as [[[t der] rest]|] eqn:Hd; [| by eexists (Err _), w1].
  case_bool_decide as Ht; [subst t | by eexists (Err _), w1]. cbn [negb]. unfold bind at 1, wrap_err, of_res.
  destruct (ParseCertificate der) as [cert | |] eqn:Hp;
    [| by eexists (Err _), w1 | by apply ParseCertificate_safe in Hp].
  unfold bind at 1, now_is. destruct (_ <=? _)%Z eqn:Hg; [| by exists (Ok ()), w1]. apply Z.leb_le in Hg.
  cbv zeta. set (ks := [a; _; _]).
  destruct (delete_all_useless ks w w1 Hw) as (w2 & -> & ?); [| by exists (Ok ()), w2].
  intros k Hk. by eapply UselessCert.
Qed.

(** A folder that has just been listed empty. *)
Lemma List_then_delete sk : ExpiredCerts opts = true ->
  safely cleaned (let* relisted := try (List sk false) in
                  match relisted with
                  | inl [] => wrap_err (fun _ => ErrStr "deleting empty site folder") (Delete sk)
                  | _ => ret ()
                  end : M W unit).
Proof.
  intros Ho. apply safely_intro. intros w. destruct (List_safely sk false w) as [Hp Hw]. unfold bind at 1, try at 1.
  destruct (List sk false w) as [[[|a l] | e | m] w1] eqn:Hl; cbn [fst snd] in *;
    [| by exists (Ok ()), w1 | by exists (Ok ()), w1 | by destruct (Hp m)].
  destruct (delete_useless sk w w1 Hw) as (w2 & Hd & ? & _); [by eapply (UselessSite _ _ _ w); [rewrite Hl |] |].
  unfold logged, bind, try in Hd. unfold wrap_err.
  destruct (Delete sk w1) as [[] w3]; try done; injection Hd as <-; [by exists (Ok a), w3 | by eexists (Err _), w3].
Qed.

Lemma clean_site_safely sk u : ExpiredCerts opts = true ->
  safely cleaned (clean_site (W:=W) (ExpiredCertGracePeriod opts) sk u).
Proof.
  intros Ho. unfold clean_site. apply safely_bind; [eauto | apply safely_try, List_safely |].
  intros [assets | e]; [| by apply safely_ret].
  apply safely_bind; [eauto | | intros _; by apply List_then_delete].
  apply safely_for_each; [eauto.. |]. intros a []. by apply clean_asset_safely.
Qed.

Lemma CleanStorage_safely : safely cleaned (CleanStorage (W:=W) opts).
Proof.
  unfold CleanStorage. apply safely_bind; [eauto | |].
  - destruct (OCSPStaples opts) eqn:Ho; [| by apply safely_ret]. unfold logged, deleteOldOCSPStaples.
    apply safely_bind; [eauto | apply safely_try | intros _; by apply safely_ret].
    apply safely_bind; [eauto | apply safely_try, List_safely |]. intros [ks | e]; [| by apply safely_ret].
    apply safely_for_each; [eauto.. |]. intros k acc. by apply clean_staple_safely.
  - intros _. destruct (ExpiredCerts opts) eqn:Ho; [| by apply safely_ret]. unfold logged, deleteExpiredCerts.
    apply safely_bind; [eauto | apply safely_try | intros _; by apply safely_ret].
    apply safely_bind; [eauto | apply safely_try, List_safely |]. intros [iks | e]; [| by apply safely_ret].
    apply safely_for_each; [eauto.. |]. intros ik []. unfold clean_issuer.
    apply safely_bind; [eauto | apply safely_try, List_safely |]. intros [sks | e]; [| by apply safely_ret].
    apply safely_for_each; [eauto.. |]. intros sk []. by apply clean_site_safely.
Qed.
End CleanFacts.

(** ** The maintenance routines *)

Lemma triple_for_each {W A B} (I : B -> W -> Prop) (body : A -> B -> M W B) l : forall acc,
  (forall x acc, x ∈ l -> triple (I acc) (body x acc) I) -> triple (I acc) (for_each body l acc) I.
Proof.
  induction l as [|x l IH]; intros acc Hb; cbn [for_each]; [apply triple_ret |].
  eapply triple_bind; [apply Hb; by left |]. intros acc'. apply IH. intros y a Hy. apply Hb. by right.
Qed.

Section MaintainFacts.
Context {U : UnicodeTables} {L : CertLib} {CL : ChainLaws L} {K : KeyLib} {O : OcspLib} {W : Type}
        {S : Storage W} {E : Env W} {H : Http W} {D : Disk W}.
Context (self : nat) (opts : CacheOptions (Config:=MaintConfig)).
Implicit Types (s : prog (W:=W)) (p : proc (W:=W)).

(** A certificate of a cache. *)
Definition cached (c : cacheMaps) (cert : Certificate) : Prop := exists h, cache c !! h = Some cert.

Lemma entries_cached c h cert : (h, cert) ∈ entries c -> cache c !! h = Some cert.
Proof. unfold entries. apply elem_of_map_to_list. Qed.

Lemma cached_genuine c cert : good_cache c -> cached c cert -> genuine cert.
Proof. intros [_ Hg] [h Hc]. by eapply Hg. Qed.

(** What a renewal scan of [c] may have queued. *)
Record good_queues (c : cacheMaps) (q : queues) : Prop := {
  gq_renew cert : cert ∈ renewQueue q ->
    cached c cert /\ managed cert = true /\ exists cfg, getConfig m_cache self opts cert = Ok (Some cfg);
  gq_reload cert : cert ∈ reloadQueue q -> cached c cert;
  gq_delete cert : cert ∈ deleteQueue q -> cached c cert
}.

Lemma empty_queues_good c : good_queues c empty_queues.
Proof. split; by intros cert ?%elem_of_nil. Qed.

(** The configuration's callback always finds the certificate due, and storage
    never has a newer one. *)
Definition always_due (cert : Certificate) (cfg : MaintConfig) : Prop :=
  (forall w : W, NeedsRenewal (env_now w) (RenewalWindowRatio (m_cfg cfg)) cert = Ok true) /\
  (forall s, fst (managedCertInStorageExpiresSoon (m_cfg cfg) cert s) <> Ok false).

Definition queued (cert : Certificate) (q : queues) : Prop := cert ∈ renewQueue q.

Lemma scan_same entry q : preserves same_certs (scan_cert (W:=W) self opts entry q).
Proof.
  assert (forall s, same_certs s s) as Hr by done.
  assert (forall s1 s2 s3, same_certs s1 s2 -> same_certs s2 s3 -> same_certs s1 s3) as Ht
    by (unfold same_certs; congruence).
  unfold scan_cert. destruct (negb _); [by apply preserves_ret |].
  destruct (Names (snd entry)); [by apply preserves_ret |].
  apply preserves_bind; [eauto | by apply preserves_try, preserves_pure |]. intros [[cfg|]|]; try by apply preserves_ret.
  apply preserves_bind; [eauto | by intros ? |]. intros [|]; [cbn [negb] | by apply preserves_ret].
  apply preserves_bind; [eauto | apply preserves_try, out_expires; by eauto |].
  intros [[|]|]; by apply preserves_ret.
Qed.

(** One round of the scan: what was queued stays queued, what is added is the
    certificate at hand, and a certificate that is due is added. *)
Lemma scan_cert_spec entry q s q' s' :
  scan_cert (W:=W) self opts entry q s = (Ok q', s') ->
  let cert := snd entry in
  (forall x, x ∈ renewQueue q' -> x ∈ renewQueue q \/ x = cert /\ managed cert = true /\
     exists cfg, getConfig m_cache self opts cert = Ok (Some cfg)) /\
  (forall x, x ∈ reloadQueue q' -> x ∈ reloadQueue q \/ x = cert) /\
  (forall x, x ∈ deleteQueue q' -> x ∈ deleteQueue q \/ x = cert) /\
  (forall x, x ∈ renewQueue q -> x ∈ renewQueue q') /\
  (forall cfg, managed cert = true -> Names cert <> [] ->
     getConfig m_cache self opts cert = Ok (Some cfg) -> always_due cert cfg -> cert ∈ renewQueue q').
Proof.
  intros Hs cert. unfold scan_cert in Hs. fold cert in Hs. destruct (managed cert) eqn:Hm; cbn [negb] in Hs.
  2: { injection Hs as <- <-. split_and!; try (intros; by left); try done. }
  destruct (Names cert) as [|n ns] eqn:Hn.
  { injection Hs as <- <-. cbn [renewQueue reloadQueue deleteQueue].
    split_and!; try (intros; by left); try done. intros x [? | ->%list_elem_of_singleton]%elem_of_app; [by left | by right]. }
  unfold bind at 1, try at 1, of_res at 1 in Hs.
  destruct (getConfig m_cache self opts cert) as [[cfg|] | e | pm] eqn:Hg; try done;
    try (injection Hs as <- <-; split_and!; try (intros; by left); try done).
  unfold bind at 1, needsRenewal in Hs.
  destruct (NeedsRenewal _ _ cert) as [[|] | |] eqn:Hd; try done; cbn [negb] in Hs.
  2: { injection Hs as <- <-. split_and!; try (intros; by left); try done.
       intros cfg' _ _ [= <-] [Hdue _]. rewrite Hdue in Hd. done. }
  unfold bind at 1, try at 1 in Hs.
  pose proof (fun Hdue : always_due cert cfg => proj2 Hdue s) as Hst.
  assert (forall x, x ∈ (renewQueue q ++ [cert])%list ->
    x ∈ renewQueue q \/ x = cert /\ true = true /\ exists cfg0, Ok (Some cfg) = Ok (Some cfg0)) as Hr
    by (intros x [? | ->%list_elem_of_singleton]%elem_of_app; [by left | right; eauto]).
  assert (forall x, x ∈ (reloadQueue q ++ [cert])%list -> x ∈ reloadQueue q \/ x = cert) as Hl
    by (intros x [? | ->%list_elem_of_singleton]%elem_of_app; [by left | by right]).
  destruct (managedCertInStorageExpiresSoon (m_cfg cfg) cert s) as [[[|] | e | pm] s1]; try done;
    injection Hs as <- <-; cbn [renewQueue reloadQueue deleteQueue]; split_and!; try done;
    try (intros; by left); try (intros x Hx; apply elem_of_app; by left);
    try (intros cfg' _ _ _ _; apply elem_of_app; right; by left).
  intros cfg' _ _ [= <-] Hdue. by destruct (Hst Hdue).
Qed.

(** The whole scan, over entries in any order. *)
Lemma scan_all_spec l : forall q s q' s',
  for_each (scan_cert (W:=W) self opts) l q s = (Ok q', s') ->
  certs s' = certs s /\
  (forall x, x ∈ renewQueue q' -> x ∈ renewQueue q \/ x ∈ l.*2 /\ managed x = true /\
     exists cfg, getConfig m_cache self opts x = Ok (Some cfg)) /\
  (forall x, x ∈ reloadQueue q' -> x ∈ reloadQueue q \/ x ∈ l.*2) /\
  (forall x, x ∈ deleteQueue q' -> x ∈ deleteQueue q \/ x ∈ l.*2) /\
  (forall x, x ∈ renewQueue q -> x ∈ renewQueue q') /\
  (forall x cfg, x ∈ l.*2 -> managed x = true -> Names x <> [] ->
     getConfig m_cache self opts x = Ok (Some cfg) -> always_due x cfg -> x ∈ renewQueue q').
Proof.
  induction l as [|entry l IH]; intros q s q' s' Hs; cbn [for_each] in Hs.
  { injection Hs as <- <-. split_and!; try (intros; by left); try done. by intros x cfg ?%elem_of_nil. }
  unfold bind at 1 in Hs. pose proof (scan_same entry q s) as Hc.
  destruct (scan_cert self opts entry q s) as [[q1 | |] s1] eqn:Hsc; [| done | done].
  apply scan_cert_spec in Hsc as (A1 & A2 & A3 & A4 & A5). apply IH in Hs as (B0 & B1 & B2 & B3 & B4 & B5).
  rewrite fmap_cons. split_and!.
  - unfold same_certs in Hc. cbn [snd] in Hc. by rewrite B0.
  - intros x [[? | (-> & ? & ?)]%A1 | (? & ? & ?)]%B1; [by left | right | right]; (split; [|done]); [by left | by right].
  - intros x [[? | ->]%A2 | ?]%B2; [by left | right; by left | right; by right].
  - intros x [[? | ->]%A3 | ?]%B3; [by left | right; by left | right; by right].
  - auto.
  - intros x cfg [-> | Hx]%elem_of_cons; [| by apply B5]. intros ? ? ? ?. apply B4. by eapply A5.
Qed.

Lemma entries_snd c x : x ∈ (entries c).*2 -> cached c x.
Proof. intros ([h y] & -> & Hin)%list_elem_of_fmap. exists h. by apply entries_cached. Qed.

Lemma Submit_names nm (j : job) m x : nm <> "" ->
  x ∈ names (fst (Submit nm j m)) <-> x = nm \/ x ∈ names m.
Proof.
  intros Hn. unfold Submit. rewrite (bool_decide_eq_false_2 (nm = "")) by done. cbn [negb andb].
  case_bool_decide; [cbn [fst]; naive_solver |].
  destruct (_ <? _)%Z; cbn [fst names]; rewrite elem_of_union, elem_of_singleton; tauto.
Qed.

(** The renewal job of a certificate. *)
Definition renewal_job (cert : Certificate) (nj : namedJob (J:=job)) : Prop :=
  exists cfg n ns, Names cert = n :: ns /\
    nj = mkJob ("renew_" +:+ n) (JobMaintain (m_cfg cfg) (m_onDemand cfg) cert n).

Lemma queue_renewal_spec configs cert p p' :
  queue_renewal configs cert () p = (Ok (), p') ->
  program p' = program p /\
  (forall x, x ∈ names (manager p) -> x ∈ names (manager p')) /\
  (forall n ns, Names cert = n :: ns -> ("renew_" +:+ n) ∈ names (manager p')) /\
  (forall nj, nj ∈ queue (manager p') -> nj ∈ queue (manager p) \/ renewal_job cert nj).
Proof.
  destruct p as [s m k]. unfold queue_renewal, config_of, first_name, bind at 1, inside at 1, bind at 1.
  cbn [program manager spawned]. destruct (Names cert) as [|n ns] eqn:Hn; [done |]. cbn [ret].
  destruct (configs !! n) as [cfg|]; [| done]. unfold queueRenewalTask, leaf_read, first_name, bind at 1, inside at 1.
  cbn [program manager spawned]. destruct (Leaf (tls cert)) as [leaf|]; [| done]. rewrite Hn.
  unfold bind at 1, inside at 1. cbn [ret program manager spawned]. unfold submit. cbn [program manager spawned].
  set (nm := "renew_" +:+ n). set (j := JobMaintain _ _ _ _).
  pose proof (fun x => Submit_names nm j m x ltac:(done)) as Hnm.
  pose proof (Submit_queue nm j m) as Hq. destruct (Submit nm j m) as [m' b]. cbn [fst] in *. intros [= <-].
  cbn [program manager]. split_and!; [done | intros x Hx; apply Hnm; by right | |].
  - intros n' ns' [= <- _]. apply Hnm. by left.
  - intros nj. destruct Hq as [-> | ->]; [by left |].
    intros [? | ->%list_elem_of_singleton]%elem_of_app; [by left |]. right. by exists cfg, n, ns.
Qed.

Lemma queue_all_spec configs l : forall p p',
  for_each (queue_renewal configs) l () p = (Ok (), p') ->
  program p' = program p /\
  (forall x, x ∈ names (manager p) -> x ∈ names (manager p')) /\
  (forall cert n ns, cert ∈ l -> Names cert = n :: ns -> ("renew_" +:+ n) ∈ names (manager p')) /\
  (forall nj, nj ∈ queue (manager p') -> nj ∈ queue (manager p) \/ exists cert, cert ∈ l /\ renewal_job cert nj).
Proof.
  induction l as [|c l IH]; intros p p' Hq; cbn [for_each] in Hq.
  { injection Hq as <-. split_and!; try done; [by intros ? ? ? ?%elem_of_nil | intros; by left]. }
  unfold bind at 1 in Hq. destruct (queue_renewal configs c () p) as [[[] | |] p1] eqn:H1; [| done | done].
  apply queue_renewal_spec in H1 as (A0 & A1 & A2 & A3). apply IH in Hq as (B0 & B1 & B2 & B3).
  split_and!; [congruence | auto | |].
  - intros cert n ns [-> | Hin]%elem_of_cons Hn; [apply B1; by eapply A2 | by eapply B2].
  - intros nj [[? | ?]%A3 | (cert & ? & ?)]%B3; [by left | right; exists c | right; exists cert];
      (split; [|done]); [by left | by right].
Qed.

Lemma keeps_each (body : Certificate -> unit -> M (prog (W:=W)) unit) l :
  (forall cert, cert ∈ l -> preserves keeps_good (body cert ())) -> preserves keeps_good (for_each body l ()).
Proof.
  induction l as [|c l IH]; intros Hb; cbn [for_each]; [by intros s ? |].
  apply preserves_bind; [intros; by eapply keeps_trans | apply Hb; by left |].
  intros []. apply IH. intros x Hx. apply Hb. by right.
Qed.

Lemma keeps_reload_queued configs cert : genuine cert -> preserves keeps_good (reload_queued (W:=W) configs cert ()).
Proof.
  intros Hg. assert (forall s1 s2 s3 : prog (W:=W), keeps_good s1 s2 -> keeps_good s2 s3 -> keeps_good s1 s3) as Ht
    by (intros; by eapply keeps_trans).
  unfold reload_queued. apply preserves_bind; [done | unfold leaf_read; destruct (Leaf _); by intros s ? | intros _].
  apply preserves_bind; [done | | intros cfg].
  - unfold config_of. apply preserves_bind; [done | unfold first_name; destruct (Names cert); by intros ? ? |].
    intros n. destruct (configs !! n); by intros s ?.
  - unfold logged. apply preserves_bind; [done | by apply preserves_try, keeps_reload | by intros ? s ?].
Qed.

(** The outcome of a renewal scan that completes. *)
Lemma RenewManagedCertificates_spec p p' :
  good_cache (certs (program p)) ->
  RenewManagedCertificates self opts p = (Ok (), p') ->
  good_cache (certs (program p')) /\
  (forall nj, nj ∈ queue (manager p') -> nj ∈ queue (manager p) \/
     exists cert, cached (certs (program p)) cert /\ managed cert = true /\ renewal_job cert nj) /\
  (forall cert cfg n ns, cached (certs (program p)) cert -> managed cert = true -> Names cert = n :: ns ->
     getConfig m_cache self opts cert = Ok (Some cfg) -> always_due cert cfg ->
     ("renew_" +:+ n) ∈ names (manager p')).
Proof.
  intros Hg. unfold RenewManagedCertificates, bind at 1, inside at 1.
  destruct (for_each _ (entries _) _ (program p)) as [[q | |] s1] eqn:Hscan; [| done | done].
  apply scan_all_spec in Hscan as (Hc & Hren & Hrel & Hdel & _ & Hdue). cbn [renewQueue reloadQueue deleteQueue empty_queues] in *.
  assert (forall x, x ∈ (entries (certs (program p))).*2 -> genuine x) as Hgen
    by (intros x Hx; eapply cached_genuine; [exact Hg | by apply entries_snd]).
  unfold bind at 1, inside at 1. cbn [program manager spawned].
  assert (preserves keeps_good (for_each (reload_queued (W:=W) (configs q)) (reloadQueue q) ())) as Hk.
  { apply keeps_each. intros cert [?%elem_of_nil | Hx]%Hrel; [done |]. apply keeps_reload_queued. by apply Hgen. }
  specialize (Hk s1). destruct (for_each _ (reloadQueue q) () s1) as [[[] | |] s2] eqn:Hl; [| done | done].
  cbn [snd] in Hk. assert (good_cache (certs s2)) as Hg2 by (apply Hk; by rewrite Hc).
  unfold bind at 1. destruct (for_each _ (renewQueue q) () _) as [[[] | |] p3] eqn:Hq; [| done | done].
  apply queue_all_spec in Hq as (B0 & B1 & B2 & B3). cbn [program manager] in *.
  unfold inside. assert (preserves keeps_good (for_each (fun cert _ => on_cache (W:=W) (removeCertificate cert)) (deleteQueue q) ())) as Hkd.
  { apply keeps_each. intros cert [?%elem_of_nil | Hx]%Hdel; [done |]. apply keeps_remove. by apply Hgen. }
  specialize (Hkd (program p3)). destruct (for_each _ (deleteQueue q) () (program p3)) as [r4 s4].
  intros [= -> <-]. cbn [program manager snd] in *. split_and!.
  - apply Hkd. by rewrite B0.
  - intros nj [? | (cert & Hin & Hj)]%B3; [by left |]. right. exists cert.
    destruct (Hren cert Hin) as [?%elem_of_nil | (Hx & Hm & _)]; [done |]. split; [by apply entries_snd | done].
  - intros cert cfg n ns [h Hh] Hm Hn Hget Hd. eapply B2; [| exact Hn].
    eapply Hdue; [| done | by rewrite Hn | exact Hget | done].
    apply list_elem_of_fmap. exists (h, cert). split; [done |]. by apply elem_of_map_to_list.
Qed.

(** ** The OCSP scan *)

Lemma scan_staples_cached now l c : (forall e, e ∈ l -> cache c !! fst e = Some (snd e)) ->
  triple (fun s => certs s = c) (for_each (scan_staple (W:=W) now) l [])
    (fun q s => certs s = c /\ forall cert h t, (cert, h, t) ∈ q -> cache c !! h = Some cert).
Proof.
  intros Hl. set (I := fun (q : list updateQueueEntry) s =>
    certs s = c /\ forall cert h t, (cert, h, t) ∈ q -> cache c !! h = Some cert).
  apply (triple_weaken _ (I []) _ I); [intros s Hs; split; [done | by intros ? ? ? ?%elem_of_nil] | done |].
  apply triple_for_each. intros [h cert] q Hin s q' s' [Hs Hq] Hr. specialize (Hl _ Hin). cbn [fst snd] in Hl.
  unfold scan_staple in Hr. destruct (Leaf (tls cert)); [| done].
  destruct (After _ _); [by injection Hr as <- <- |].
  assert (forall t, I (q ++ [(cert, h, t)])%list s) as Happ.
  { intros t. split; [done |]. intros cert' h' t' [? | Heq%list_elem_of_singleton]%elem_of_app; [by eapply Hq |].
    by injection Heq as -> -> ->. }
  destruct (ocsp cert) as [r|]; [destruct (freshOCSP now r) |]; by injection Hr as <- <-.
Qed.

(** The staple of one certificate is replaced by another that [restapled]
    allows. *)
Definition new_staple (c : cacheMaps) (h : string) (u : string * option ocspResponse) : Prop :=
  exists cert, cache c !! h = Some cert /\ restapled cert (with_staple (fst u) (snd u) cert).

(** Updates computed for the cache [c]. *)
Definition good_updates (c : cacheMaps) (u : updates) : Prop :=
  (forall h x, updated u !! h = Some x -> new_staple c h x) /\
  (forall cert, cert ∈ revokedQueue u -> genuine cert).

Lemma with_own_staple cert cert' : restapled cert cert' ->
  with_staple (staple (tls cert')) (ocsp cert') cert = cert'.
Proof. intros [-> | (b & r & leaf & _ & _ & _ & ->)]; [| done]. by destruct cert as [[] ]. Qed.

Lemma update_staple_good c cert h t u : good_cache c -> cache c !! h = Some cert ->
  triple (fun s => certs s = c /\ good_updates c u) (update_staple (W:=W) self opts (cert, h, t) u)
    (fun u' s => certs s = c /\ good_updates c u' /\
       ((forall b i r, ParseResponse b i = Ok r -> Status r <> Revoked) -> revokedQueue u = [] -> revokedQueue u' = [])).
Proof.
  intros Hgc Hh s u' s' [Hs Hu] Hr. unfold update_staple, bind at 1, try at 1, of_res at 1 in Hr.
  destruct (getConfig m_cache self opts cert) as [[cfg|] | |]; try done; try (by injection Hr as <- <-).
  unfold bind at 1, lift in Hr. destruct (stapleOCSP cert None (world s)) as [[[[cert' resp] err] | |] w1] eqn:Ho;
    [| done | done].
  pose proof (stapleOCSP_cert _ _ _ _ _ _ _ Ho) as Hre. pose proof (with_own_staple _ _ Hre) as Hown.
  destruct err; [by injection Hr as <- <- |].
  set (updated' := if advanced cert' t then _ else _) in Hr.
  assert (forall h' x, updated' !! h' = Some x -> new_staple c h' x) as Hup.
  { intros h' x. subst updated'. destruct (advanced cert' t); [| apply Hu].
    rewrite lookup_insert. case_decide; [subst h'; intros [= <-] | apply Hu].
    exists cert. cbn [fst snd]. by rewrite Hown. }
  assert (genuine cert') as Hgen by (eapply genuine_restapled; [exact Hre | eapply cached_genuine; [done | by exists h]]).
  assert (forall cfgs, good_updates c (mkUpdates updated' (revokedQueue u) cfgs)) as Hsame by (intros; split; [done | apply Hu]).
  destruct (managed cert'); [| by injection Hr as <- <-]. destruct resp as [resp|]; [| done].
  destruct (Names cert') as [|n ns]; [by injection Hr as <- <- |].
  case_bool_decide as Hst; [| by injection Hr as <- <-]. injection Hr as <- <-. cbn [certs on_world].
  split; [done |]. split.
  - split; [done |]. cbn [revokedQueue]. intros x [? | ->%list_elem_of_singleton]%elem_of_app; [by apply Hu | done].
  - intros Hno. exfalso. apply stapleOCSP_resp in Ho as (b & i & Hp). by eapply Hno.
Qed.

(** Two caches that differ in staples only. *)
Definition staples_updated (c c' : cacheMaps) : Prop :=
  cacheIndex c' = cacheIndex c /\
  forall h, match cache c !! h, cache c' !! h with
            | Some cert, Some cert' => restapled cert cert'
            | None, None => True
            | _, _ => False
            end.

Lemma staples_updated_good c c' : good_cache c -> staples_updated c c' -> good_cache c'.
Proof.
  intros [[Hc Hne Hnd Hk] Hg] [Hi Hs].
  assert (forall h cert', cache c' !! h = Some cert' -> exists cert, cache c !! h = Some cert /\ restapled cert cert') as Hback.
  { intros h cert' Hl. specialize (Hs h). rewrite Hl in Hs. destruct (cache c !! h); [by eexists | done]. }
  assert (forall cert cert', restapled cert cert' -> hash cert' = hash cert /\ Names cert' = Names cert) as Hre
    by (intros cert cert' [-> | (b & r & leaf & _ & _ & _ & ->)]; done).
  split; [split |]; unfold keys; rewrite ?Hi; try done.
  - intros h cert' (cert & Hl & [-> ->]%Hre)%Hback. by apply Hc.
  - intros name h. fold (keys c name). rewrite Hk. split.
    + intros (cert & Hl & Hn). specialize (Hs h). rewrite Hl in Hs. destruct (cache c' !! h) as [cert'|]; [| done].
      exists cert'. split; [done |]. by destruct (Hre _ _ Hs) as [_ ->].
    + intros (cert' & (cert & Hl & [_ Hn]%Hre)%Hback & Hin). exists cert. by rewrite <- Hn.
  - intros h cert' (cert & Hl & Hr)%Hback. eapply genuine_restapled; [exact Hr | by eapply Hg].
Qed.

(** Applying updates to a cache that still has the certificates. *)
Lemma apply_updates_spec l : forall c0 c s s',
  NoDup l.*1 -> (forall h x, (h, x) ∈ l -> new_staple c0 h x) ->
  (forall h x, (h, x) ∈ l -> cache c !! h = cache c0 !! h) -> staples_updated c0 c -> certs s = c ->
  for_each (fun update _ => on_cache (W:=W) (fun c => Ok (apply_update update c))) l () s = (Ok (), s') ->
  staples_updated c0 (certs s').
Proof.
  induction l as [|[h [b r]] l IH]; intros c0 c s s' Hnd Hl Heq Hsu Hs; cbn [for_each].
  { intros [= <-]. by rewrite Hs. }
  unfold bind at 1, on_cache at 1. rewrite fmap_cons in Hnd. apply NoDup_cons in Hnd as [Hh Hnd].
  destruct (Hl h (b, r)) as (cert & Hc0 & Hre); [by left |].
  assert (cache c !! h = Some cert) as Hc by (rewrite (Heq h (b, r)); [done | by left]).
  eapply (IH c0 (apply_update (h, (b, r)) c)); [done | intros; by apply Hl; right | | | by rewrite <- Hs].
  - intros h' x Hin. cbn [apply_update cache]. rewrite lookup_insert_ne; [eapply Heq; by right |].
    intros ->. apply Hh. apply list_elem_of_fmap. by exists (h', x).
  - destruct Hsu as [Hi Hsu]. split; [done |]. intros h'. cbn [apply_update cache].
    rewrite lookup_insert. case_decide; [subst h' | apply Hsu].
    rewrite Hc0. unfold get. by rewrite Hc.
Qed.

Lemma keeps_replace_revoked configs cert : genuine cert -> preserves keeps_good (replace_revoked (W:=W) configs cert ()).
Proof.
  intros Hg. assert (forall s1 s2 s3 : prog (W:=W), keeps_good s1 s2 -> keeps_good s2 s3 -> keeps_good s1 s3) as Ht
    by (intros; by eapply keeps_trans).
  unfold replace_revoked. apply preserves_bind; [done | unfold leaf_read; destruct (Leaf _); by intros ? ? | intros _].
  apply preserves_bind; [done | unfold first_name; destruct (Names cert); by intros ? ? | intros n].
  apply preserves_bind; [done | | intros cfg].
  - unfold config_of. apply preserves_bind; [done | unfold first_name; destruct (Names cert); by intros ? ? |].
    intros m. destruct (configs !! m); by intros ? ?.
  - apply preserves_bind; [done | apply preserves_try, out_RenewCert; by eauto using keeps_refl, keeps_out |].
    intros [[]|e]; [| by apply keeps_remove].
    unfold logged. apply preserves_bind; [done | by apply preserves_try, keeps_reload | by intros ? ? ?].
Qed.

(** The queue and the updates of a scan; nothing is queued for replacement if
    no response says revoked. *)
Lemma update_all_good c l : good_cache c -> (forall cert h t, (cert, h, t) ∈ l -> cache c !! h = Some cert) ->
  triple (fun s => certs s = c) (for_each (update_staple (W:=W) self opts) l (mkUpdates ∅ [] ∅))
    (fun u s => certs s = c /\ good_updates c u /\
       ((forall b i r, ParseResponse b i = Ok r -> Status r <> Revoked) -> revokedQueue u = [])).
Proof.
  intros Hg Hl. set (I := fun u s => certs s = c /\ good_updates c u /\
       ((forall b i r, ParseResponse b i = Ok r -> Status r <> Revoked) -> revokedQueue u = [])).
  apply (triple_weaken _ (I (mkUpdates ∅ [] ∅)) _ I); [| done |].
  { intros s Hs. split; [done |]. split; [| done]. split; [| by intros x ?%elem_of_nil].
    intros h x. cbn [updated]. by rewrite lookup_empty. }
  apply triple_for_each. intros [[cert h] t] u Hin s u' s' (Hs & Hu & Hr) Hb.
  destruct (update_staple_good c cert h t u Hg (Hl _ _ _ Hin) s u' s' (conj Hs Hu) Hb) as (? & ? & Hn).
  split; [done |]. split; [done |]. auto.
Qed.

Lemma updateOCSPStaples_good s s' :
  good_cache (certs s) -> updateOCSPStaples (W:=W) self opts s = (Ok (), s') ->
  good_cache (certs s') /\
  ((forall b i r, ParseResponse b i = Ok r -> Status r <> Revoked) -> staples_updated (certs s) (certs s')).
Proof.
  intros Hg. unfold updateOCSPStaples, bind at 1.
  destruct (for_each (scan_staple _) _ _ s) as [[q | |] s1] eqn:Hsc; [| done | done].
  apply (scan_staples_cached _ _ (certs s)) in Hsc as [Hs1 Hq]; [| | done].
  2: { intros [h cert] Hin. by apply entries_cached. }
  unfold bind at 1. destruct (for_each (update_staple _ _) _ _ s1) as [[u | |] s2] eqn:Hup; [| done | done].
  apply (update_all_good (certs s)) in Hup as (Hs2 & Hu & Hr); [| done | done | done].
  unfold bind at 1. destruct (for_each _ (map_to_list (updated u)) () s2) as [[[] | |] s3] eqn:Hap; [| done | done].
  apply (apply_updates_spec _ (certs s) (certs s)) in Hap as Hsu;
    [| apply NoDup_fst_map_to_list | | done | split; [done |] | done].
  2: { intros h x Hin%elem_of_map_to_list. by apply Hu. }
  2: { intros h. destruct (cache (certs s) !! h); [by left | done]. }
  pose proof (staples_updated_good _ _ Hg Hsu) as Hg3. intros Hrev. split.
  - assert (preserves keeps_good (for_each (replace_revoked (W:=W) (revokedConfigs u)) (revokedQueue u) ())) as Hk.
    { apply keeps_each. intros cert Hin. apply keeps_replace_revoked. by apply Hu. }
    specialize (Hk s3). rewrite Hrev in Hk. by apply Hk.
  - intros Hno. rewrite (Hr Hno) in Hrev. by injection Hrev as <-.
Qed.

(** A certificate without a parsed leaf. *)
Lemma scan_nil_leaf now h0 cert0 l : forall q s, (h0, cert0) ∈ l -> Leaf (tls cert0) = None ->
  exists m s', for_each (scan_staple (W:=W) now) l q s = (Panic m, s').
Proof.
  induction l as [|[h cert] l IH]; intros q s Hin H0; [by apply not_elem_of_nil in Hin |].
  cbn [for_each]. unfold bind at 1, scan_staple at 1.
  destruct (Leaf (tls cert)) as [leaf|] eqn:Hl; [| by eexists _, _].
  apply elem_of_cons in Hin as [[= -> ->] | Hin]; [by rewrite Hl in H0 |].
  destruct (After _ _); [by apply IH |]. destruct (ocsp cert) as [r|]; [destruct (freshOCSP now r)|]; by apply IH.
Qed.

Lemma updateOCSPStaples_nil_leaf s h cert :
  cache (certs s) !! h = Some cert -> Leaf (tls cert) = None ->
  exists m s', updateOCSPStaples (W:=W) self opts s = (Panic m, s').
Proof.
  intros Hc Hl. unfold updateOCSPStaples, bind at 1.
  destruct (scan_nil_leaf (env_now (world s)) h cert (entries (certs s)) [] s) as (m & s' & ->);
    [by apply elem_of_map_to_list | done | by eexists _, _].
Qed.

(** ** The loop *)

Lemma good_proc_renew p p' : good_proc p ->
  RenewManagedCertificates self opts p = (Ok (), p') -> good_proc p'.
Proof.
  intros [Hg Hq] Hr. apply RenewManagedCertificates_spec in Hr as (Hg' & Hj & _); [| done]. split; [done |].
  apply Forall_forall. intros nj [Hin | (cert & Hc & _ & cfg & n & ns & _ & ->)]%Hj.
  - rewrite Forall_forall in Hq. by apply Hq.
  - cbn. eapply cached_genuine; [exact Hg | exact Hc].
Qed.

Lemma never_fails_each {V A B} (body : A -> B -> M V B) l :
  (forall x acc, never_fails (body x acc)) -> forall acc, never_fails (for_each body l acc).
Proof. intros Hb. induction l as [|x l IH]; intros acc; cbn [for_each]; auto with otomatik. Qed.

Lemma never_fails_inside {A} (m : M (prog (W:=W)) A) : never_fails m -> never_fails (inside m).
Proof. intros Hm p e p'. unfold inside. specialize (Hm (program p)). destruct (m (program p)) as [r s']. intros [= -> _]. by eapply Hm. Qed.

Lemma first_name_total cert : never_fails (first_name (W:=W) cert).
Proof. unfold first_name. destruct (Names cert); auto with otomatik. Qed.

Lemma leaf_read_total cert : never_fails (leaf_read (W:=W) cert).
Proof. unfold leaf_read. destruct (Leaf _); auto with otomatik. Qed.

Lemma config_of_total configs cert : never_fails (config_of (W:=W) configs cert).
Proof.
  unfold config_of. apply never_fails_bind; [apply first_name_total |]. intros n.
  destruct (configs !! n); auto with otomatik.
Qed.

#[local] Hint Resolve never_fails_inside first_name_total leaf_read_total config_of_total : otomatik.

(** The renewal scan always returns nil. *)
Lemma RenewManagedCertificates_total : never_fails (RenewManagedCertificates (W:=W) self opts).
Proof.
  unfold RenewManagedCertificates. apply never_fails_bind; [| intros q; apply never_fails_bind; [| intros _; apply never_fails_bind; [| intros _]]].
  - apply never_fails_inside. intros s. apply never_fails_each. clear s. intros [h cert] q. unfold scan_cert.
    destruct (negb _); [auto with otomatik |]. destruct (Names _); [auto with otomatik |].
    apply never_fails_bind; [auto with otomatik |]. intros [[cfg|]|]; [| auto with otomatik..].
    apply never_fails_bind; [| intros [|]; cbn [negb]; [| auto with otomatik]].
    + intros st e st'. unfold needsRenewal, NeedsRenewal. by destruct (Leaf _).
    + apply never_fails_bind; [auto with otomatik |]. intros [[|]|]; auto with otomatik.
  - apply never_fails_inside, never_fails_each. intros cert []. unfold reload_queued, logged. auto with otomatik.
  - apply never_fails_each. intros cert []. unfold queue_renewal, queueRenewalTask.
    apply never_fails_bind; [auto with otomatik |]. intros cfg. apply never_fails_bind; [auto with otomatik |]. intros _.
    apply never_fails_bind; [auto with otomatik |]. intros n p e p'. unfold submit. by destruct (Submit _ _ _).
  - apply never_fails_inside, never_fails_each. intros cert [] s e s'. unfold on_cache, removeCertificate.
    destruct (remove_names _ _ _) eqn:Hr; [done | | done]. exfalso. revert Hr. generalize (cacheIndex (certs s)).
    induction (Names cert) as [|n ns IH]; intros index; cbn [remove_names]; [done |].
    destruct (remove_key _ _) as [[|]|]; [apply IH | apply IH | done].
Qed.

Lemma maintainAssets_good signals : forall p b p', good_proc p ->
  maintainAssets self opts signals p = (Ok b, p') -> good_proc p'.
Proof.
  induction signals as [|sig signals IH]; intros p b p' Hg; cbn [maintainAssets]; [by intros [= _ <-] |].
  destruct sig; [| | by intros [= _ <-]]; unfold bind.
  - unfold try. destruct (RenewManagedCertificates self opts p) as [[[] | e |] p1] eqn:Hr; [| | done].
    + apply IH. by eapply good_proc_renew.
    + by apply RenewManagedCertificates_total in Hr.
  - unfold inside. destruct Hg as [Hg Hq]. destruct (updateOCSPStaples self opts (program p)) as [[[] | |] s1] eqn:Hu; [| done | done].
    apply IH. apply updateOCSPStaples_good in Hu as [? _]; [| done]. by split.
Qed.
End MaintainFacts.

(** * Properties *)

#[local] Existing Instance ascii_tables.
#[local] Existing Instance responder_lib.
#[local] Existing Instance responder_lib_laws.
#[local] Existing Instance responder_ocsp.
#[local] Existing Instance responder_ocsp_laws.
#[local] Existing Instance responder_chain_laws.
#[local] Existing Instance tag_lib.
#[local] Existing Instance mem_env.
#[local] Existing Instance mem_http.
#[local] Existing Instance mem_files.


Definition late_clock : Clock mem := fun _ => 2000%Z.

Lemma late_clock_laws : ClockLaws mem_storage late_clock.
Proof. by split. Qed.

Definition site_file (ext : string) : string := "certificates/ca/a.com/a.com" +:+ ext.

Definition littered : mem :=
  {| m_kv := {["ocsp/a" := "OLD"; "ocsp/b" := "GARBAGE"; "certificates/other" := "x"]};
     m_locked := ∅; m_fail := ∅ |}.



(** A certificate that was due at once, and a callback that finds its
    configuration. *)
Definition due_leaf : x509Cert :=
  {| NotBefore := -1000; NotAfter := -1; CommonName := "a.com"; DNSNames := []; IPAddresses := [];
     EmailAddresses := []; URIs := []; OCSPServer := []; IssuingCertificateURL := [] |}.

Definition due_cert : Certificate :=
  {| tls := {| chain := ["LEAF"]; Certificates.PrivateKey := "KEY"; Leaf := Some due_leaf; staple := "" |};
     Names := ["a.com"]; Tags := []; ocsp := None; hash := hashCertificateChain ["LEAF"]; managed := true |}.

Definition plain_config : MaintConfig := mkMaint example_cfg true None.

Definition plain_options : CacheOptions (Config:=MaintConfig) :=
  {| GetConfigForCert := Some (fun _ => Ok (Some plain_config)); OCSPCheckInterval := Hour;
     RenewCheckInterval := Hour |}.

Definition proc_with (cert : Certificate) : proc (W:=mem) :=
  {| program := mkProg (world empty_disk) ∅ (unsyncedCacheCertificate cert empty_maps) [];
     manager := idle; spawned := 0 |}.

(** A library that parses every certificate to that leaf. *)
Definition due_lib : CertLib := {|
  ParseCertificate der := if bool_decide (der = "LEAF") then Ok due_leaf else Err (ErrStr "malformed certificate");
  X509KeyPair c _ := if bool_decide (c = "PEM") then
      Ok {| chain := ["LEAF"]; Certificates.PrivateKey := "KEY"; Leaf := None; staple := "" |}
    else Err (ErrStr "no certificate");
  sha256 s := s
|}.

Lemma due_lib_names der leaf : @ParseCertificate due_lib der = Ok leaf -> leaf = due_leaf.
Proof. cbn. case_bool_decide; by intros [= <-]. Qed.

Lemma due_chain_laws : @ChainLaws _ due_lib.
Proof.
  split.
  - intros der leaf ->%due_lib_names. apply (bool_decide_unpack _). vm_compute. exact I.
  - intros t1 t2 c1 c2 H1 H2 _.
    apply fillCertFromLeaf_Ok in H1 as (d1 & ? & l1 & _ & ->%due_lib_names & _ & -> & _).
    by apply fillCertFromLeaf_Ok in H2 as (d2 & ? & l2 & _ & ->%due_lib_names & _ & -> & _).
Qed.

Lemma due_genuine : @genuine _ due_lib due_cert.
Proof.
  split; [done |]. eexists {| chain := ["LEAF"]; Certificates.PrivateKey := ""; Leaf := None; staple := "" |}, _.
  split; [vm_compute; reflexivity |]. by vm_compute.
Qed.

Lemma proc_with_good {L : CertLib} {CL : ChainLaws L} cert : genuine cert -> good_proc (proc_with cert).
Proof.
  intros Hg. split; [| constructor]. apply cache_good; [| done]. split; [apply empty_wf |].
  intros h c. cbn [empty_maps cache]. by rewrite lookup_empty.
Qed.

Lemma due_cert_due : always_due (L:=due_lib) (W:=mem) due_cert plain_config.
Proof.
  split; [intros w; vm_compute; reflexivity |]. intros s.
  unfold managedCertInStorageExpiresSoon, bind at 1, first_name. cbn [Names due_cert ret]. unfold bind at 1.
  destruct (loadCertResource (W:=mem) _ _ s) as [[r | |] s1]; [| done | done].
  unfold bind at 1, of_res at 1. destruct (@X509KeyPair due_lib _ _) as [t | |] eqn:Ht; [| done | done].
  destruct (chain t) as [|der ders]; [done |]. unfold bind, of_res.
  destruct (@ParseCertificate due_lib der) as [leaf | |] eqn:Hp; [| done | done]. apply due_lib_names in Hp as ->.
  by vm_compute.
Qed.



(** A certificate with a responder, not stapled yet. *)
Definition bare_cert : Certificate :=
  {| tls := tls unstapled; Names := ["a.com"]; Tags := []; ocsp := None;
     hash := hashCertificateChain ["LEAF"]; managed := false |}.

Lemma bare_genuine : genuine bare_cert.
Proof.
  split; [done |]. eexists {| chain := ["LEAF"]; Certificates.PrivateKey := ""; Leaf := None; staple := "" |}, _.
  split; [vm_compute; reflexivity |]. by vm_compute.
Qed.




(** A certificate that left the cache during an OCSP scan comes back
    broken. When the update of a key is applied that is no longer in the
    cache, a certificate without names and without leaf is cached under it,
    and every later OCSP scan panics; a TLS-ALPN challenge certificate, which
    has no parsed leaf, does the same while it is cached. *)
Theorem late_staple_crashes_next_scan {L : CertLib} {U : UnicodeTables} {K : KeyLib} {O : OcspLib}
    {W} {S : Storage W} {E : Env W} {H : Http W} self opts (s : prog (W:=W)) certKey update :
  cache (certs s) !! certKey = None ->
  exists s1, on_cache (fun c => Ok (apply_update (certKey, update) c)) s = (Ok (), s1) /\
    (exists cert, cache (certs s1) !! certKey = Some cert /\ Names cert = []) /\
    exists m s2, updateOCSPStaples self opts s1 = (Panic m, s2).
Proof.
  destruct update as [b r]. intros Hn. eexists. split; [reflexivity |]. cbn [certs apply_update cache].
  assert (get (certs s) certKey = zeroCert) as Hz by (unfold get; by rewrite Hn).
  split.
  - eexists. rewrite lookup_insert_eq. split; [done |]. by rewrite Hz.
  - eapply (updateOCSPStaples_nil_leaf self opts _ certKey); cbn [certs apply_update cache];
      [apply lookup_insert_eq | by rewrite Hz].
Qed.

Lemma late_staple_crashes_next_scan_witness :
  exists s2, updateOCSPStaples 1 plain_options
    (mkProg (world empty_disk) ∅ (apply_update ("k", ("GOOD", Some good_response)) empty_maps) [])
    = (Panic "nil pointer dereference", s2).
Proof.
  destruct (late_staple_crashes_next_scan 1 plain_options (mkProg (world empty_disk) ∅ empty_maps [])
              "k" ("GOOD", Some good_response)) as (s1 & Hu & _ & m & s2 & Hp).
  - reflexivity.
  - vm_compute in Hu. injection Hu as <-. exists s2. vm_compute in Hp. injection Hp as _ <-. vm_compute. reflexivity.
Defined.

(** What a queued renewal does to the cache. If the renewal fails, the job
    fails too; the old certificate is then removed if the configuration is
    on-demand and otherwise left alone. If it succeeds, the old certificate is
    replaced by the one now in storage; when that cannot be loaded the cache is
    unchanged and the error is final. No slice of the index is overrun: a panic
    can only come from renewing or loading. *)
Theorem renewal_job_outcome {U : UnicodeTables} {L : CertLib} {CL : ChainLaws L} {K : KeyLib} {O : OcspLib}
    {W} {S : Storage W} {E : Env W} {H : Http W} {D : Disk W} cfg onDemand old n ns (s s' : prog (W:=W)) r :
  good_cache (certs s) -> genuine old -> Names old = n :: ns ->
  run_job (JobMaintain cfg onDemand old n) s = (r, s') ->
  match r with
  | Ok _ => exists new s1 s2, RenewCert cfg n false s = (Ok (), s1) /\
              loadManagedCertificate cfg n s1 = (Ok new, s2) /\
              cache (certs s') = put_new new (delete (hash old) (cache (certs s)))
  | Err e =>
      (exists e1 s1, RenewCert cfg n false s = (Err e1, s1) /\
         cache (certs s') = if onDemand then delete (hash old) (cache (certs s)) else cache (certs s)) \/
      (as_no_retry e = true /\ certs s' = certs s)
  | Panic _ => (exists m s1, RenewCert cfg n false s = (Panic m, s1)) \/
               (exists m s1 s2, loadManagedCertificate cfg n s1 = (Panic m, s2))
  end.
Proof.
  intros Hg Ho Hn. cbn [run_job]. unfold bind at 1, try at 1. pose proof (RenewCert_same cfg n false s) as Hs1.
  destruct (RenewCert cfg n false s) as [[[] | e1 | m] s1] eqn:Hr; unfold same_certs in Hs1; cbn [snd] in Hs1.
  - unfold reloadManagedCertificate, bind at 1, first_name. rewrite Hn. cbn [ret]. unfold wrap_err at 1, bind.
    unfold wrap_err at 1. pose proof (loadManaged_same cfg n s1) as Hs2. unfold same_certs in Hs2.
    destruct (loadManagedCertificate cfg n s1) as [[new | e2 | m] s2] eqn:Hl; cbn [snd] in Hs2.
    + unfold on_cache. pose proof (loadManagedCertificate_genuine _ _ _ _ _ Hl) as Hgen.
      rewrite Hs2, Hs1. destruct (replace_good old new (certs s) Hg Ho Hgen) as (c' & -> & _ & Hc).
      intros [= <- <-]. by exists new, s1, s2.
    + intros [= <- <-]. right. split; [done |]. by rewrite Hs2.
    + intros [= <- <-]. right. by exists m, s1, s2.
  - unfold bind. destruct onDemand.
    + unfold on_cache. rewrite Hs1. destruct (remove_good old (certs s) Hg Ho) as (c' & -> & _ & Hc).
      intros [= <- <-]. left. by exists e1, s1.
    + intros [= <- <-]. left. exists e1, s1. by rewrite Hs1.
  - intros [= <- <-]. left. by exists m, s1.
Qed.

(** The example environment with a context that has been cancelled. *)
Definition cancelled_env : Env mem := {|
  env_now := env_now (Env:=mem_env); Issue := Issue (Env:=mem_env); PreCheck := None;
  Revoke := Revoke (Env:=mem_env); key_source := key_source (Env:=mem_env);
  CreateCSR := CreateCSR (Env:=mem_env); parse_url := parse_url (Env:=mem_env);
  encode_meta := encode_meta (Env:=mem_env); decode_meta := decode_meta (Env:=mem_env);
  random_test := random_test (Env:=mem_env); timer _ w := (true, w); retry_log w := w
|}.

Lemma renewal_job_outcome_witness :
  exists e s', run_job (L:=due_lib) (E:=cancelled_env) (JobMaintain example_cfg true due_cert "a.com") (program (proc_with due_cert)) = (Err e, s') /\
    cache (certs s') = ∅.
Proof.
  eexists _, (snd (run_job (L:=due_lib) (E:=cancelled_env) (JobMaintain example_cfg true due_cert "a.com") (program (proc_with due_cert)))).
  split; [vm_compute; reflexivity |].
  destruct (renewal_job_outcome (L:=due_lib) (E:=cancelled_env) (CL:=due_chain_laws) (D:=mem_files) example_cfg true due_cert "a.com" []
              (program (proc_with due_cert))
              (snd (run_job (L:=due_lib) (E:=cancelled_env) (JobMaintain example_cfg true due_cert "a.com") (program (proc_with due_cert))))
              (Err (ErrStr "renewing managed certificate")))
    as [(e1 & s1 & _ & Hc) | [Hc _]].
  - apply (proc_with_good (L:=due_lib) (CL:=due_chain_laws) due_cert), due_genuine.
  - exact due_genuine.
  - reflexivity.
  - vm_compute. reflexivity.
  - rewrite Hc. vm_compute. reflexivity.
  - discriminate Hc.
Defined.
