(* ===== verification/Solvers.v ===== *)
(** The challenge solvers of [src/solvers.go]: the listeners shared by
    concurrent challenges, the HTTP and TLS-ALPN solvers, the distributed
    solver that keeps challenge information in storage, and the HTTP handler of
    [src/httphandler.go].

    The program's state is the [prog] of [Config.v] with the package variable
    [solvers]. A listener is a handle; the goroutine that serves it ends when
    it is closed, so waiting for it is not a step of its own. *)
From Stdlib Require Import Ascii.
From stdpp Require Import base tactics list strings gmap sets.
From Stdlib Require Import ZArith Lia.
From S2P Require Import Prelude GoTime GoStrings Net StorageKeys Certificates Cache Crypto Storage Ocsp Account.
From S2P Require Import Config Handshake Managed Maintain.

Local Open Scope string_scope.
Local Open Scope go_scope.

(** * Data *)

Record solverInfo := mkSolverInfo { si_closed : bool; count : Z; listener : option nat }.

Record challengeInfo := mkChallenge { Domain : string; Token : string; KeyAuth : string }.

(** The network. [net_Dial] is [DialTimeout] followed by [Close]. *)
Class Sockets (W : Type) := {
  net_Listen : string -> M W nat;
  net_Dial : string -> M W unit;
  ln_Close : nat -> M W unit;
  time_Sleep : Z -> W -> W;
  Error_text : error -> string
}.

(** The challenge helpers of the ACME library and the JSON form of a challenge. *)
Class ChallengeLib (W : Type) := {
  ChallengeCert : string -> string -> M W (option tlsCert);
  ChallengePath : string -> string;
  ACMETLS1Protocol : string;
  marshal_info : challengeInfo -> res string;
  unmarshal_info : string -> res challengeInfo
}.

(** [challenge.Provider]: what an ACME library calls for a domain, a token and
    a key authorization. *)
Record Provider (X : Type) := mkProvider {
  Present : string -> string -> string -> M X unit;
  CleanUp : string -> string -> string -> M X unit
}.
Arguments mkProvider {X} _ _.
Arguments Present {X} _ _ _ _.
Arguments CleanUp {X} _ _ _ _.

(** The requests of the HTTP server, and the answers of the challenge handler. *)
Record Request := mkRequest { Method : string; r_Path : string; r_Host : string }.

Record answer := mkAnswer { content_type : string; body : string; close_connection : bool }.

Section Solvers.
Context {U : UnicodeTables} {UL : UrlLib} {L : CertLib} {W : Type} {S : Storage W} {N : Sockets W}
        {B : ChallengeLib W}.

(** * Listeners *)

(** The loop of [robustTryListen]; [None] is a nil listener. *)
Fixpoint try_listen (todo i : nat) (addr : string) (listenErr : error) : M W (option nat) :=
  match todo with
  | O => fail (ErrStr ("could not start listener for challenge server at " +:+ addr +:+ ": " +:+ Error_text listenErr))
  | Datatypes.S todo' =>
      let* _ := fun w => (Ok (), if (0 <? i)%nat then time_Sleep (100 * Millisecond) w else w) in
      let* ln := try (net_Listen addr) in
      match ln with
      | inl ln => ret (Some ln)
      | inr listenErr =>
          let* connectErr := try (net_Dial addr) in
          match connectErr with
          | inl _ => ret None
          | inr _ =>
              if Contains (Error_text listenErr) "address already in use" ||
                 Contains (Error_text listenErr) "one usage of each socket address"
              then ret None
              else try_listen todo' (Datatypes.S i) addr listenErr
          end
      end
  end.

Definition robustTryListen (addr : string) : M W (option nat) := try_listen 2 0 addr (ErrStr "").

(** The program with the active solvers. *)
Record arena := mkArena { a_prog : prog (W:=W); solvers : gmap string solverInfo }.

Definition in_prog {A} (m : M (prog (W:=W)) A) : M arena A := fun s =>
  let '(r, p) := m (a_prog s) in (r, mkArena p (solvers s)).

Definition in_world {A} (m : M W A) : M arena A := in_prog (lift m).

Definition newSolverInfo : solverInfo := mkSolverInfo false 0 None.

Definition getSolverInfo (address : string) (s : arena) : solverInfo :=
  default newSolverInfo (solvers s !! address).

Definition put_solver (address : string) (si : solverInfo) (s : arena) : arena :=
  mkArena (a_prog s) (<[address := si]> (solvers s)).

(** The part of [Present] that both solvers have under [solversMu]: count the
    challenge, then listen unless this process already does. *)
Definition acquire_listener (address : string) : M arena unit := fun s =>
  let si := getSolverInfo address s in
  let si := mkSolverInfo (si_closed si) (count si + 1) (listener si) in
  match listener si with
  | Some _ => (Ok (), put_solver address si s)
  | None =>
      (let* ln := in_world (robustTryListen address) in
       fun s =>
         match ln with
         | None => (Ok (), s)
         | Some ln =>
             (Ok (), put_solver address (mkSolverInfo (si_closed si) (count si) (Some ln)) s)
         end) (put_solver address si s)
  end.

(** The part of [CleanUp] that both have: the last one out closes the listener. *)
Definition release_listener (address : string) : M arena unit := fun s =>
  let si := getSolverInfo address s in
  let si := mkSolverInfo (si_closed si) (count si - 1) (listener si) in
  if (count si =? 0)%Z then
    let s := put_solver address (mkSolverInfo true (count si) (listener si)) s in
    (let* _ := match listener si with
               | Some ln => let* _ := try (in_world (ln_Close ln)) in ret ()
               | None => ret ()
               end in
     fun s => (Ok (), mkArena (a_prog s) (delete address (solvers s)))) s
  else (Ok (), put_solver address si s).

(** * The solvers *)

(** [httpSolver]; its [closed] field only silences a log line. *)
Definition httpSolver (address : string) : Provider arena :=
  mkProvider (fun _ _ _ => acquire_listener address) (fun _ _ _ => release_listener address).

Definition tlsALPNCertKeyName (sniName : string) : string := sniName +:+ ":acme-tls-alpn".

(** A critical section of the certificate cache. *)
Definition with_certs (f : cacheMaps -> cacheMaps) : M arena unit := fun s =>
  let p := a_prog s in
  (Ok (), mkArena (mkProg (world p) (locks p) (f (certs p)) (events p)) (solvers s)).

Definition tlsALPNSolver (address : string) : Provider arena :=
  mkProvider
    (fun domain token keyAuth =>
       let* cert := in_world (ChallengeCert domain keyAuth) in
       match cert with
       | None => panic "nil pointer dereference"
       | Some cert =>
           let* _ := with_certs (fun c => mkMaps
             (<[tlsALPNCertKeyName domain :=
                {| tls := cert; Names := [domain]; Tags := []; ocsp := None;
                   hash := hashCertificateChain (chain cert); managed := false |}]> (cache c)) (cacheIndex c)) in
           acquire_listener address
       end)
    (fun domain token keyAuth =>
       let* _ := with_certs (fun c => mkMaps (delete (tlsALPNCertKeyName domain) (cache c)) (cacheIndex c)) in
       release_listener address).

(** ** The distributed solver *)

Definition challengeTokensPrefix (caURL : string) : string :=
  path_Join [storageKeyCAPrefix caURL; "challenge_tokens"].

Definition challengeTokensKey (caURL domain : string) : string :=
  path_Join [challengeTokensPrefix caURL; Safe domain +:+ ".json"].

Definition distributedSolver (caURL : string) (providerServer : Provider arena) : Provider arena :=
  mkProvider
    (fun domain token keyAuth =>
       let* infoBytes := of_res (marshal_info (mkChallenge domain token keyAuth)) in
       let* _ := in_world (Store (challengeTokensKey caURL domain) infoBytes) in
       wrap_err (fun err => ErrStr ("presenting with embedded provider: " +:+ Error_text err))
         (Present providerServer domain token keyAuth))
    (fun domain token keyAuth =>
       let* _ := in_world (Delete (challengeTokensKey caURL domain)) in
       wrap_err (fun err => ErrStr ("cleaning up embedded provider: " +:+ Error_text err))
         (CleanUp providerServer domain token keyAuth)).

(** * Answering challenges *)

Definition challengeBasePath : string := "/.well-known/acme-challenge".

Definition LooksLikeHTTPChallenge (r : Request) : bool :=
  bool_decide (Method r = "GET") && HasPrefix (r_Path r) challengeBasePath.

(** [None]: not handled, nothing was written. *)
Definition answerHTTPChallenge (r : Request) (chalInfo : challengeInfo) : option answer :=
  if bool_decide (r_Path r = ChallengePath (Token chalInfo)) &&
     EqualFold (hostOnly (r_Host r)) (Domain chalInfo) && bool_decide (Method r = "GET")
  then Some (mkAnswer "text/plain" (KeyAuth chalInfo) true) else None.

Definition distributedHTTPChallengeSolver (manager : option ACMEManager) (r : Request) : M W (option answer) :=
  match manager with
  | None => ret None
  | Some manager =>
      let host := hostOnly (r_Host r) in
      match config manager with
      | None => panic "nil pointer dereference"
      | Some _ =>
          let* chalInfoBytes := try (Load (challengeTokensKey (CA manager) host)) in
          match chalInfoBytes with
          | inr _ => ret None
          | inl chalInfoBytes =>
              let* chalInfo := try (of_res (unmarshal_info chalInfoBytes)) in
              match chalInfo with
              | inr _ => ret None
              | inl chalInfo => ret (answerHTTPChallenge r chalInfo)
              end
          end
      end
  end.

Definition HandleHTTPChallenge (manager : option ACMEManager) (r : Request) : M W (option answer) :=
  match manager with
  | None => ret None
  | Some m =>
      if DisableHTTPChallenge m then ret None
      else if negb (LooksLikeHTTPChallenge r) then ret None
      else distributedHTTPChallengeSolver manager r
  end.

(** [h] is the wrapped handler. *)
Definition HTTPChallengeHandler (manager : option ACMEManager) (h : Request -> M W answer) (r : Request)
    : M W answer :=
  let* a := HandleHTTPChallenge manager r in
  match a with Some a => ret a | None => h r end.

(** [tryDistributedChallengeSolver]: the configuration's issuer as an
    [*ACMEManager]; [None] is the boolean false. *)
Definition tryDistributedChallengeSolver (issuer : option ACMEManager) (hello : ClientHelloInfo)
    : M W (option Certificate) :=
  match issuer with
  | None => ret None
  | Some am =>
      let* chalInfoBytes := try (Load (challengeTokensKey (CA am) (ServerName hello))) in
      match chalInfoBytes with
      | inr err => if is_ErrNotExist err then ret None else fail (ErrStr "opening distributed challenge token file")
      | inl chalInfoBytes =>
          let* chalInfo := wrap_err (fun _ => ErrStr "decoding challenge token file")
                             (of_res (unmarshal_info chalInfoBytes)) in
          let* cert := wrap_err (fun _ => ErrStr "making TLS-ALPN challenge certificate")
                         (ChallengeCert (Domain chalInfo) (KeyAuth chalInfo)) in
          match cert with
          | None => fail (ErrStr "got nil TLS-ALPN challenge certificate but no error")
          | Some cert => ret (Some (mkCert cert [] [] None "" false))
          end
      end
  end.

End Solvers.

(** * Lemmas *)

(** What the network promises: a listener that is opened was not open before;
    nothing but listening and closing changes which are open, and the network
    is not the storage. *)
Class SocketLaws {W} {S : Storage W} {SL : StorageLaws S} (N : Sockets W) (B : ChallengeLib W) := {
  opened : W -> gset nat;
  Listen_law a w r w' :
    net_Listen a w = (r, w') ->
    (forall m, r <> Panic m) /\ same_storage w w' /\
    (forall ln, r = Ok ln -> (ln ∉ opened w) /\ opened w' = {[ln]} ∪ opened w) /\
    ((forall ln, r <> Ok ln) -> opened w' = opened w);
  Dial_law a : safely (fun w w' => same_storage w w' /\ opened w' = opened w) (net_Dial a);
  Close_law ln : safely (fun w w' => same_storage w w' /\ opened w' = opened w ∖ {[ln]}) (ln_Close ln);
  Sleep_law d w : same_storage w (time_Sleep d w) /\ opened (time_Sleep d w) = opened w;
  ChallengeCert_law d k :
    safely (fun w w' => same_storage w w' /\ opened w' = opened w) (ChallengeCert d k);
  info_law i b : marshal_info i = Ok b -> unmarshal_info b = Ok i;
  unmarshal_info_safe b m : unmarshal_info b <> Panic m
}.

Section Facts.
Context {U : UnicodeTables} {UL : UrlLib} {L : CertLib} {W : Type} {S : Storage W} {SL : StorageLaws S}
        {N : Sockets W} {B : ChallengeLib W} {NL : SocketLaws N B}.

(** ** Listening *)

Definition still (w w' : W) : Prop := same_storage w w' /\ opened w' = opened w.

Lemma still_refl w : still w w.
Proof. by repeat split. Qed.

Lemma still_trans w1 w2 w3 : still w1 w2 -> still w2 w3 -> still w1 w3.
Proof. intros [[] ?] [[] ?]. repeat split; congruence. Qed.

(** At most [todo] attempts; the outcome is a new listener, or nothing was
    opened. *)
Lemma try_listen_spec todo : forall i addr e w,
  exists r w', try_listen todo i addr e w = (r, w') /\ (forall m, r <> Panic m) /\ same_storage w w' /\
    ((exists ln, r = Ok (Some ln) /\ (ln ∉ opened w) /\ opened w' = {[ln]} ∪ opened w) \/
     ((forall ln, r <> Ok (Some ln)) /\ opened w' = opened w)).
Proof.
  induction todo as [|todo IH]; intros i addr e w; cbn [try_listen].
  { eexists _, w. split; [reflexivity |]. split; [done |]. split; [done |]. by right. }
  unfold bind at 1. set (w1 := if (0 <? i)%nat then _ else _).
  assert (still w w1) as Hw1 by (subst w1; destruct (0 <? i)%nat; [apply Sleep_law | apply still_refl]).
  destruct Hw1 as [Hs1 Ho1]. rewrite <- Ho1. unfold bind at 1, try at 1.
  destruct (net_Listen addr w1) as [r2 w2] eqn:H2. apply Listen_law in H2 as (Hp & Hs2 & Hok & Hno).
  assert (same_storage w w2) as Hs12 by (by eapply same_storage_trans).
  destruct r2 as [ln | e2 | m]; [| | by destruct (Hp m)].
  { destruct (Hok ln eq_refl) as [Hn Ho]. eexists _, w2. split; [reflexivity |]. split; [done |].
    split; [done |]. left. by exists ln. }
  specialize (Hno ltac:(done)). unfold bind at 1.
  destruct (safely_try_Ok _ (net_Dial addr) w2 (Dial_law addr)) as (x & w3 & -> & [Hs3 Ho3] & _).
  assert (same_storage w w3) as Hs13 by (by eapply same_storage_trans).
  assert (opened w3 = opened w1) as Ho13 by congruence.
  destruct x as [? | e3].
  { eexists _, w3. split; [reflexivity |]. split; [done |]. split; [done |]. by right. }
  destruct (_ || _).
  { eexists _, w3. split; [reflexivity |]. split; [done |]. split; [done |]. by right. }
  destruct (IH (Datatypes.S i) addr e2 w3) as (r & w4 & -> & Hp4 & Hs4 & Ho4). rewrite Ho13 in Ho4.
  eexists r, w4. split; [reflexivity |]. split; [done |]. split; [by eapply same_storage_trans | done].
Qed.

(** ** The shared listeners *)

Definition net (s : arena (W:=W)) : gset nat := opened (world (a_prog s)).

(** The challenges in progress at each address. *)
Definition counts (s : arena (W:=W)) : gmap string Z := count <$> solvers s.

(** Every entry is in use; its listener, if it has one, is open and its own.
    [foreign] are the listeners of others. *)
Record sound (foreign : gset nat) (s : arena (W:=W)) : Prop := {
  sound_count : forall a si, solvers s !! a = Some si -> (0 < count si)%Z;
  sound_net : forall l, l ∈ net s <->
    l ∈ foreign \/ exists a si, solvers s !! a = Some si /\ listener si = Some l;
  sound_own : forall a si l, solvers s !! a = Some si -> listener si = Some l -> l ∉ foreign;
  sound_inj : forall a1 a2 si1 si2 l, solvers s !! a1 = Some si1 -> listener si1 = Some l ->
    solvers s !! a2 = Some si2 -> listener si2 = Some l -> a1 = a2
}.

Lemma sound_empty p : sound (opened (world p)) (mkArena p ∅).
Proof.
  split; cbn [solvers]; intros; try (by rewrite lookup_empty in *).
  split; [by left |]. intros [? | (a & si & H & _)]; [done |]. by rewrite lookup_empty in H.
Qed.

Lemma sound_nothing foreign s : sound foreign s -> counts s = ∅ -> net s = foreign /\ solvers s = ∅.
Proof.
  intros Hs Hc. apply fmap_empty_inv in Hc. split; [| done]. apply set_eq. intros l.
  rewrite (sound_net foreign s Hs), Hc. split; [| by left]. intros [? | (a & si & H & _)]; [done |].
  by rewrite lookup_empty in H.
Qed.

Definition bump (address : string) (n : gmap string Z) : gmap string Z :=
  <[address := (default 0 (n !! address) + 1)%Z]> n.

Definition drop_one (address : string) (n : gmap string Z) : gmap string Z :=
  match n !! address with
  | Some k => if (k =? 1)%Z then delete address n else <[address := (k - 1)%Z]> n
  | None => n
  end.

(** What the two parts do not touch. *)
Definition same_process (s s' : arena (W:=W)) : Prop :=
  same_storage (world (a_prog s)) (world (a_prog s')) /\ locks (a_prog s') = locks (a_prog s) /\
  certs (a_prog s') = certs (a_prog s) /\ events (a_prog s') = events (a_prog s).

Lemma count_getSolverInfo address s :
  count (getSolverInfo address s) = default 0%Z (counts s !! address).
Proof. unfold getSolverInfo, counts. rewrite lookup_fmap. by destruct (solvers s !! address). Qed.

(** Changing an entry's count, its listener kept. *)
Lemma sound_recount foreign s address n p :
  sound foreign s -> (0 < n)%Z -> opened (world p) = net s ->
  sound foreign (mkArena p (<[address := mkSolverInfo (si_closed (getSolverInfo address s)) n
                                           (listener (getSolverInfo address s))]> (solvers s))).
Proof.
  intros [Hc Hn Ho Hi] Hpos Hp. unfold getSolverInfo.
  set (si := default newSolverInfo (solvers s !! address)).
  assert (forall l, listener si = Some l -> exists si0, solvers s !! address = Some si0 /\ listener si0 = Some l) as Hsi
    by (subst si; intros l; destruct (solvers s !! address) as [si0|]; [cbn; eauto | done]).
  assert (forall a si' l, <[address := mkSolverInfo (si_closed si) n (listener si)]> (solvers s) !! a = Some si' ->
            listener si' = Some l -> exists si0, solvers s !! a = Some si0 /\ listener si0 = Some l) as Hl.
  { intros a si' l. rewrite lookup_insert. case_decide as Ha; [| eauto]. intros [= <-] Hli. subst a. by apply Hsi. }
  split; unfold net; cbn [a_prog solvers].
  - intros a si'. rewrite lookup_insert. case_decide; [by intros [= <-] | by apply Hc].
  - intros l. rewrite Hp. unfold net in Hn. rewrite (Hn l). split; (intros [Hf | (a & si' & Ha & Hli)]; [by left | right]).
    + destruct (decide (a = address)) as [-> | Hne].
      * eexists address, _. rewrite lookup_insert_eq. split; [reflexivity |]. cbn.
        subst si. by rewrite Ha.
      * exists a, si'. by rewrite lookup_insert_ne.
    + destruct (Hl _ _ _ Ha Hli) as (si0 & ? & ?). by exists a, si0.
  - intros a si' l Ha Hli. destruct (Hl _ _ _ Ha Hli) as (si0 & ? & ?). by eapply Ho.
  - intros a1 a2 si1 si2 l H1 L1 H2 L2. destruct (Hl _ _ _ H1 L1) as (? & ? & ?).
    destruct (Hl _ _ _ H2 L2) as (? & ? & ?). by eapply Hi.
Qed.
(** Giving the new listener to an entry that has none. *)
Lemma sound_listener foreign s address si ln p :
  sound foreign s -> solvers s !! address = Some si -> listener si = None ->
  ln ∉ net s -> opened (world p) = {[ln]} ∪ net s ->
  sound foreign (mkArena p (<[address := mkSolverInfo (si_closed si) (count si) (Some ln)]> (solvers s))).
Proof.
  intros [Hc Hn Ho Hi] Hsi Hl0 Hfresh Hp.
  assert (forall a si' l, <[address := mkSolverInfo (si_closed si) (count si) (Some ln)]> (solvers s) !! a = Some si' ->
            listener si' = Some l ->
            (a = address /\ l = ln) \/ (a <> address /\ l <> ln /\ solvers s !! a = Some si')) as Hl.
  { intros a si' l. rewrite lookup_insert. case_decide as Ha.
    - intros [= <-] [= <-]. by left.
    - intros Hs Hli. right. split; [done |]. split; [| done]. intros ->. apply Hfresh, Hn. right. eauto. }
  split; unfold net in *; cbn [a_prog solvers].
  - intros a si'. rewrite lookup_insert. case_decide; [intros [= <-]; cbn; by eapply Hc | by apply Hc].
  - intros l. rewrite Hp, elem_of_union, elem_of_singleton, (Hn l). split.
    + intros [-> | [Hf | (a & si' & Ha & Hli)]].
      * right. eexists address, _. rewrite lookup_insert_eq. by split.
      * by left.
      * right. exists a, si'. rewrite lookup_insert_ne; [done |]. intros <-. congruence.
    + intros [Hf | (a & si' & Ha & Hli)]; [by right; left |].
      destruct (Hl _ _ _ Ha Hli) as [[_ ->] | (_ & _ & Hs)]; [by left |]. right. right. eauto.
  - intros a si' l Ha Hli. destruct (Hl _ _ _ Ha Hli) as [[_ ->] | (_ & _ & Hs)]; [| by eapply Ho].
    intros Hf. apply Hfresh, Hn. by left.
  - intros a1 a2 si1 si2 l H1 L1 H2 L2.
    destruct (Hl _ _ _ H1 L1) as [[-> ->] | (Hne1 & Hl1 & Hs1)], (Hl _ _ _ H2 L2) as [[-> ?] | (Hne2 & Hl2 & Hs2)];
      try done. by eapply Hi.
Qed.

Lemma counts_insert s address si p :
  counts (mkArena p (<[address := si]> (solvers s))) = <[address := count si]> (counts s).
Proof. unfold counts. cbn. apply fmap_insert. Qed.

Lemma getSolverInfo_pos foreign s address : sound foreign s -> (0 <= count (getSolverInfo address s))%Z.
Proof.
  intros Hs. unfold getSolverInfo. destruct (solvers s !! address) as [si|] eqn:H; [| done].
  pose proof (sound_count _ _ Hs _ _ H). cbn. lia.
Qed.

Lemma join_spec foreign s address :
  sound foreign s ->
  exists r s', acquire_listener address s = (r, s') /\ (forall m, r <> Panic m) /\ sound foreign s' /\
    counts s' = bump address (counts s) /\ same_process s s' /\
    (r <> Ok () -> net s' = net s /\ exists si, solvers s' !! address = Some si /\ listener si = None).
Proof.
  intros Hs. unfold acquire_listener. cbv zeta. cbn [listener].
  pose proof (getSolverInfo_pos foreign s address Hs) as Hpos.
  pose proof (sound_recount foreign s address (count (getSolverInfo address s) + 1) (a_prog s) Hs ltac:(lia) eq_refl) as Hs1.
  fold (put_solver address (mkSolverInfo (si_closed (getSolverInfo address s))
    (count (getSolverInfo address s) + 1) (listener (getSolverInfo address s))) s) in Hs1.
  set (s1 := put_solver address _ s) in *.
  assert (counts s1 = bump address (counts s)) as Hc1
    by (subst s1; unfold put_solver; by rewrite counts_insert, count_getSolverInfo).
  destruct (listener (getSolverInfo address s)) as [l|] eqn:Hli.
  { exists (Ok ()), s1. by split_and!. }
  unfold bind, in_world, in_prog, lift.
  destruct (try_listen_spec 2 0 address (ErrStr "") (world (a_prog s1))) as (r & w' & He & Hp & Hst & Hout).
  unfold robustTryListen. rewrite He. cbn [a_prog s1 put_solver] in *.
  assert (same_process s (mkArena (on_world w' (a_prog s)) (solvers s1))) as Hsp by by split_and!.
  assert (solvers s1 !! address = Some (mkSolverInfo (si_closed (getSolverInfo address s))
            (count (getSolverInfo address s) + 1) None)) as Hsi by (subst s1; cbn; apply lookup_insert_eq).
  destruct Hout as [(ln & -> & Hfresh & Ho) | [Hno Ho]].
  - eexists (Ok ()), _. split; [reflexivity |]. split; [done |]. split.
    { apply (sound_listener foreign s1 address _ ln (on_world w' (a_prog s)) Hs1 Hsi); [done | exact Hfresh | exact Ho]. }
    split; [| by split_and!]. unfold put_solver. rewrite <- Hc1. cbn [solvers].
    rewrite (counts_insert s1). apply insert_id. unfold counts. by rewrite lookup_fmap, Hsi.
  - exists (match r with Ok _ => Ok () | Err e => Err e | Panic m => Panic m end),
      (mkArena (on_world w' (a_prog s)) (solvers s1)).
    split; [by destruct r as [[ln|] | e | m]; [destruct (Hno ln) | ..] |].
    split; [by intros m Hm; destruct r; try done; destruct (Hp msg) |].
    split.
    { pose proof (sound_recount foreign s address (count (getSolverInfo address s) + 1) (on_world w' (a_prog s)) Hs
        ltac:(lia) Ho) as Hs2. by rewrite Hli in Hs2. }
    split; [exact Hc1 |]. split; [done |]. intros _. split; [exact Ho |]. eauto.
Qed.

Lemma leave_spec foreign s address si :
  sound foreign s -> solvers s !! address = Some si ->
  exists s', release_listener address s = (Ok (), s') /\ sound foreign s' /\
    counts s' = drop_one address (counts s) /\ same_process s s' /\
    (count si <> 1%Z -> net s' = net s) /\
    (count si = 1%Z -> solvers s' = delete address (solvers s)).
Proof.
  intros Hs Hsi. unfold release_listener. cbv zeta. cbn [count listener si_closed].
  assert (getSolverInfo address s = si) as Hg by (unfold getSolverInfo; by rewrite Hsi).
  pose proof (sound_count _ _ Hs _ _ Hsi) as Hpos. rewrite Hg.
  assert (counts s !! address = Some (count si)) as Hcs by (unfold counts; by rewrite lookup_fmap, Hsi).
  destruct (Z.eqb_spec (count si - 1) 0) as [H0 | H0].
  2: { eexists. split; [reflexivity |]. split.
       { pose proof (sound_recount foreign s address (count si - 1) (a_prog s) Hs ltac:(lia) eq_refl) as H1.
         by rewrite Hg in H1. }
       split; [| split; [by split_and! |]; split; [done | lia]].
       unfold put_solver. rewrite counts_insert. unfold drop_one. rewrite Hcs. cbn [count].
       by destruct (Z.eqb_spec (count si) 1); [lia |]. }
  assert (forall p, counts (mkArena p (delete address (solvers s))) = drop_one address (counts s)) as Hcd.
  { intros p. unfold drop_one. rewrite Hcs. destruct (Z.eqb_spec (count si) 1); [| lia].
    unfold counts. cbn. apply fmap_delete. }
  assert (forall p, (forall l, l ∈ opened (world p) <-> l ∈ net s /\ listener si <> Some l) ->
            sound foreign (mkArena p (delete address (solvers s)))) as Hsound.
  { intros p Hp. destruct Hs as [Hc Hn Ho Hi]. unfold net in *. split; unfold net; cbn [a_prog solvers].
    - intros a si' [_ Ha]%lookup_delete_Some. by eapply Hc.
    - intros l. rewrite Hp, (Hn l). split.
      + intros [[Hf | (a & si' & Ha & Hli)] Hne]; [by left |]. right. exists a, si'.
        rewrite lookup_delete_ne; [done |]. intros <-. congruence.
      + intros [Hf | (a & si' & [Hne Ha]%lookup_delete_Some & Hli)].
        * split; [by left |]. intros Hli. by eapply (Ho address).
        * split; [right; eauto |]. intros Hli'. apply Hne. by eapply (Hi address a).
    - intros a si' l [_ Ha]%lookup_delete_Some. by eapply Ho.
    - intros a1 a2 si1 si2 l [_ H1]%lookup_delete_Some L1 [_ H2]%lookup_delete_Some. by eapply Hi. }
  unfold bind at 1. destruct (listener si) as [l|] eqn:Hli; cbv beta.
  - unfold bind, in_world.
    destruct (Close_law l (world (a_prog s))) as [Hp [Hst Ho]].
    unfold try, in_prog, lift. cbn [a_prog put_solver].
    destruct (ln_Close l (world (a_prog s))) as [r w'] eqn:Hcl. cbn [fst snd] in *.
    exists (mkArena (on_world w' (a_prog s)) (delete address (solvers s))).
    split. { destruct r as [[] | e | m]; [| | by destruct (Hp m)]; cbn; by rewrite delete_insert_eq. }
    split; [apply Hsound; cbn; intros l'; rewrite Ho; unfold net; set_solver |].
    split; [apply Hcd |]. split; [by split_and! |]. split; [lia | done].
  - cbn. exists (mkArena (a_prog s) (delete address (solvers s))). split; [by rewrite delete_insert_eq |].
    split; [apply Hsound; intros l; by split; [| intros []] |].
    split; [apply Hcd |]. split; [by split_and! |]. split; [lia | done].
Qed.

(** ** The solvers *)

(** [Present] of either solver: one more challenge at the address, or the
    challenge certificate could not be made and nothing was counted. *)
Lemma present_spec foreign s sv address d t k :
  sound foreign s -> sv = httpSolver address \/ sv = tlsALPNSolver address ->
  exists r s', Present sv d t k s = (r, s') /\ sound foreign s' /\
    same_storage (world (a_prog s)) (world (a_prog s')) /\
    (counts s' = bump address (counts s) \/ counts s' = counts s /\ r <> Ok ()).
Proof.
  intros Hs [-> | ->]; cbn [Present httpSolver tlsALPNSolver].
  { destruct (join_spec foreign s address Hs) as (r & s' & -> & _ & Hs' & Hc & [Hst _] & _).
    exists r, s'. by split_and!; [.. | left]. }
  unfold bind at 1, in_world, in_prog, lift.
  destruct (ChallengeCert_law d k (world (a_prog s))) as [_ [Hst Ho]].
  destruct (ChallengeCert d k (world (a_prog s))) as [r w'] eqn:Hr. cbn [fst snd] in *.
  assert (sound foreign (mkArena (on_world w' (a_prog s)) (solvers s))) as Hs1
    by (destruct Hs as [Hc Hn Hf Hi]; split; try done; unfold net in *; cbn; by rewrite Ho).
  destruct r as [[cert|] | e | m].
  2-4: eexists _, _; (split; [reflexivity |]); (split; [done |]); (split; [done |]); by right.
  unfold bind, with_certs. cbn [a_prog solvers]. set (s1 := mkArena (mkProg _ _ _ _) _).
  assert (sound foreign s1) as Hs1' by (destruct Hs1 as [Hc Hn Hf Hi]; by split).
  destruct (join_spec foreign s1 address Hs1') as (r & s' & -> & _ & Hs' & Hc & [Hst' _] & _).
  exists r, s'. split; [done |]. split; [done |]. split; [| by left]. by eapply same_storage_trans.
Qed.

Lemma cleanup_spec foreign s sv address d t k si :
  sound foreign s -> sv = httpSolver address \/ sv = tlsALPNSolver address ->
  solvers s !! address = Some si ->
  exists s', CleanUp sv d t k s = (Ok (), s') /\ sound foreign s' /\ counts s' = drop_one address (counts s) /\
    (count si <> 1%Z -> net s' = net s).
Proof.
  intros Hs [-> | ->] Hsi; cbn [CleanUp httpSolver tlsALPNSolver].
  { destruct (leave_spec foreign s address si Hs Hsi) as (s' & -> & ? & ? & _ & ? & _). by exists s'. }
  unfold bind, with_certs. set (s1 := mkArena _ _).
  assert (sound foreign s1) as Hs1 by (destruct Hs as [Hc Hn Hf Hi]; by split).
  destruct (leave_spec foreign s1 address si Hs1 Hsi) as (s' & -> & ? & ? & _ & ? & _). by exists s'.
Qed.

(** The solvers do not write to storage. *)
Lemma join_storage address s : same_storage (world (a_prog s)) (world (a_prog (snd (acquire_listener address s)))).
Proof.
  unfold acquire_listener. cbv zeta. cbn [listener]. destruct (listener (getSolverInfo address s)); [done |].
  unfold bind, in_world, in_prog, lift, robustTryListen.
  destruct (try_listen_spec 2 0 address (ErrStr "") (world (a_prog s))) as (r & w' & He & _ & Hst & _).
  cbn [a_prog put_solver]. rewrite He. by destruct r as [[]| |].
Qed.

Lemma present_storage s sv address d t k :
  sv = httpSolver address \/ sv = tlsALPNSolver address ->
  same_storage (world (a_prog s)) (world (a_prog (snd (Present sv d t k s)))).
Proof.
  intros [-> | ->]; cbn [Present httpSolver tlsALPNSolver]; [apply join_storage |].
  unfold bind at 1, in_world, in_prog, lift. destruct (ChallengeCert_law d k (world (a_prog s))) as [_ [Hst _]].
  destruct (ChallengeCert d k (world (a_prog s))) as [[[cert|] | |] w'] eqn:Hr; [| done..].
  unfold bind, with_certs. eapply same_storage_trans; [exact Hst | apply join_storage].
Qed.

(** What [Present] of the distributed solver leaves in storage. *)
Lemma distributed_stores s s1 sv address caURL d t k :
  sv = httpSolver address \/ sv = tlsALPNSolver address ->
  Present (distributedSolver caURL sv) d t k s = (Ok (), s1) ->
  exists b, unmarshal_info b = Ok (mkChallenge d t k) /\
    kv (world (a_prog s1)) = <[challengeTokensKey caURL d := b]> (kv (world (a_prog s))).
Proof.
  intros Hsv. cbn [Present distributedSolver]. unfold bind at 1, of_res at 1.
  destruct (marshal_info _) as [b | |] eqn:Hm; [| done | done].
  unfold bind, in_world, in_prog, lift.
  destruct (Store _ b (world (a_prog s))) as [rs w2] eqn:Hst. destruct rs as [[] | |]; [| done | done].
  apply Store_law in Hst as (_ & _ & Hkv & _). specialize (Hkv eq_refl).
  set (s2 := mkArena _ _). destruct (present_storage s2 sv address d t k Hsv) as [Hkv2 _].
  unfold wrap_err. destruct (Present sv d t k s2) as [[[] | |] s3]; [| done | done]. intros [= <-].
  exists b. split; [by apply info_law |]. cbn [snd] in Hkv2. rewrite Hkv2. exact Hkv.
Qed.

(** ** Challenge information *)

Lemma token_folder_plain ca : proper (issuerKey ca) ->
  Forall plain [prefixACME; Safe (issuerKey ca); "challenge_tokens"].
Proof.
  intros Hc. constructor; [by repeat constructor |]. constructor; [by apply proper_plain |].
  constructor; [by repeat constructor | constructor].
Qed.

Lemma token_key_plain ca domain : proper (issuerKey ca) ->
  Forall plain ([prefixACME; Safe (issuerKey ca); "challenge_tokens"] ++ [Safe domain +:+ ".json"])%list.
Proof.
  intros Hc. apply Forall_app_2; [by apply token_folder_plain |].
  constructor; [| constructor]. apply file_plain; [done | cbn; lia].
Qed.

Lemma token_key_shape ca domain : proper (issuerKey ca) ->
  challengeTokensKey ca domain =
    Join ([prefixACME; Safe (issuerKey ca); "challenge_tokens"] ++ [Safe domain +:+ ".json"])%list "/".
Proof.
  intros Hc. pose proof (token_folder_plain ca Hc) as HF.
  pose proof (proj1 (Forall_app plain [prefixACME; Safe (issuerKey ca)] ["challenge_tokens"]) HF) as [HF2 _].
  pose proof (proj1 (Forall_app plain [prefixACME] [Safe (issuerKey ca)]) HF2) as [HF1 HI].
  unfold challengeTokensKey, challengeTokensPrefix, storageKeyCAPrefix.
  assert (path_Join [prefixACME; Safe (issuerKey ca)] = Join [prefixACME; Safe (issuerKey ca)] "/") as ->
    by (apply (path_Join_plain [prefixACME]); [done | done | by apply proper_plain]).
  rewrite (path_Join_plain [prefixACME; Safe (issuerKey ca)] "challenge_tokens" ltac:(done) HF2 ltac:(by repeat constructor)).
  apply path_Join_plain; [done | done |]. apply file_plain; [done | cbn; lia].
Qed.

Lemma token_keys_differ ca1 ca2 d1 d2 : proper (issuerKey ca1) -> proper (issuerKey ca2) ->
  Safe (issuerKey ca1) <> Safe (issuerKey ca2) ->
  challengeTokensKey ca1 d1 <> challengeTokensKey ca2 d2.
Proof.
  intros H1 H2 Hne. rewrite !token_key_shape by done.
  intros Heq%Join_plain_inj; try done; try (by apply token_key_plain).
  apply Hne. by injection Heq.
Qed.
End Facts.

(** * An example environment *)

(** The storage in memory with a network: any address can be listened on but
    [":80"], and nothing answers there. *)
Record wired := mkWired { on_disk : mem; open_listeners : gset nat }.

Definition by_mem {A} (m : M mem A) : M wired A := fun w =>
  let '(r, d) := m (on_disk w) in (r, mkWired d (open_listeners w)).

Definition wired_storage : Storage wired := {|
  Store k v := by_mem (Store k v); Load k := by_mem (Load k); Delete k := by_mem (Delete k);
  Exists k w := (fst (Exists k (on_disk w)), w); List p b := by_mem (List p b); Stat k := by_mem (Stat k);
  Lock k := by_mem (Lock k); Unlock k := by_mem (Unlock k)
|}.

Lemma by_mem_inv {A} (m : M mem A) w r w' :
  by_mem m w = (r, w') -> m (on_disk w) = (r, on_disk w') /\ open_listeners w' = open_listeners w.
Proof. unfold by_mem. destruct (m (on_disk w)). by intros [= <- <-]. Qed.

Lemma wired_laws : StorageLaws wired_storage.
Proof.
  refine {| kv w := m_kv (on_disk w); locked w := m_locked (on_disk w) |}.
  - intros k v w r w' [Hm _]%by_mem_inv. exact (Store_law (StorageLaws:=mem_laws) _ _ _ _ _ Hm).
  - intros k w r w' [Hm _]%by_mem_inv. exact (Load_law (StorageLaws:=mem_laws) _ _ _ _ Hm).
  - intros k w r w' [Hm _]%by_mem_inv. exact (Delete_law (StorageLaws:=mem_laws) _ _ _ _ Hm).
  - intros k w b w' [= <- <-]. split; [done |]. apply bool_decide_eq_true_1.
  - intros p b w r w' [Hm _]%by_mem_inv. exact (List_law (StorageLaws:=mem_laws) _ _ _ _ _ Hm).
  - intros k w r w' [Hm _]%by_mem_inv. exact (Stat_law (StorageLaws:=mem_laws) _ _ _ _ Hm).
  - intros k w r w' [Hm _]%by_mem_inv. exact (Lock_law (StorageLaws:=mem_laws) _ _ _ _ Hm).
  - intros k w r w' [Hm _]%by_mem_inv. exact (Unlock_law (StorageLaws:=mem_laws) _ _ _ _ Hm).
Defined.

Definition wired_sockets : Sockets wired := {|
  net_Listen a w := if bool_decide (a = ":80") then (Err (ErrStr "permission denied"), w)
                    else let ln := fresh (open_listeners w) in
                         (Ok ln, mkWired (on_disk w) ({[ln]} ∪ open_listeners w));
  net_Dial _ w := (Err (ErrStr "connection refused"), w);
  ln_Close ln w := (Ok (), mkWired (on_disk w) (open_listeners w ∖ {[ln]}));
  time_Sleep _ w := w;
  Error_text e := match e with ErrStr s => s | _ => "error" end
|}.

(** The challenges of one token, and challenge certificates without a parsed
    leaf. *)
Definition wired_lib : ChallengeLib wired := {|
  ChallengeCert d k w := (Ok (Some (mkTls ["CHALLENGE"] k None "")), w);
  ChallengePath t := "/.well-known/acme-challenge/" +:+ t;
  ACMETLS1Protocol := "acme-tls/1";
  marshal_info i := if bool_decide (Token i = "tok")
                    then Ok (frame (Domain i) (KeyAuth i)) else Err (ErrStr "unsupported");
  unmarshal_info b := match unframe b with
                      | Some (d, k, _) => Ok (mkChallenge d "tok" k)
                      | None => Err (ErrStr "malformed")
                      end
|}.

#[local] Existing Instance wired_storage.
#[local] Existing Instance wired_laws.
#[local] Existing Instance wired_sockets.
#[local] Existing Instance wired_lib.

Lemma wired_socket_laws : SocketLaws wired_sockets wired_lib.
Proof.
  refine {| opened := open_listeners |}.
  - intros a w r w'. cbn. case_bool_decide; intros [= <- <-]; (split; [done |]); (split; [done |]); split.
    + done.
    + done.
    + intros ln [= <-]. split; [apply is_fresh | done].
    + intros Hn. by destruct (Hn (fresh (open_listeners w))).
  - by intros a w.
  - by intros l w.
  - by intros d w.
  - by intros d k w.
  - intros [d t k] b. cbn [marshal_info unmarshal_info wired_lib Token Domain KeyAuth]. case_bool_decide as Ht; [| done].
    intros [= <-]. rewrite unframe_frame. by subst.
  - intros b m. cbn [unmarshal_info wired_lib]. by destruct (unframe b) as [[[] ?]|].
Defined.

#[local] Existing Instance wired_socket_laws.

(** The environment of [Config.v]'s example over this world. *)
Definition wired_env : Env wired := {|
  env_now w := @env_now mem mem_env (on_disk w);
  Config.Issue n csr := by_mem (@Config.Issue mem mem_env n csr);
  Config.PreCheck := None;
  Config.Revoke r := by_mem (@Config.Revoke mem mem_env r);
  key_source := by_mem (@key_source mem mem_env);
  CreateCSR key t := by_mem (@CreateCSR mem mem_env key t);
  parse_url := @parse_url mem mem_env;
  encode_meta := @encode_meta mem mem_env;
  decode_meta := @decode_meta mem mem_env;
  random_test := by_mem (@random_test mem mem_env);
  timer d w := (false, w);
  retry_log w := w
|}.

Definition wired_http : Http wired := {|
  http_Get u := by_mem (@http_Get mem mem_http u);
  http_Post u t b := by_mem (@http_Post mem mem_http u t b)
|}.

#[local] Existing Instance wired_env.
#[local] Existing Instance wired_http.
#[local] Existing Instance responder_ocsp.
#[local] Existing Instance tag_lib.
#[local] Existing Instance ascii_tables.
#[local] Existing Instance url_lib.
#[local] Existing Instance responder_lib.

Definition at_rest : arena (W:=wired) :=
  mkArena (mkProg (mkWired blank_disk {[7%nat]}) ∅ empty_maps []) ∅.

Lemma at_rest_sound : sound {[7%nat]} at_rest.
Proof. exact (sound_empty (mkProg (mkWired blank_disk {[7%nat]}) ∅ empty_maps [])). Qed.

(** A manager for the CA ["https://ca/dir"]. *)
Definition some_manager : ACMEManager :=
  {| CA := "https://ca/dir"; TestCA := "https://test/dir"; Email := "me@a.com"; Agreed := true;
     ExternalAccount := None; DisableHTTPChallenge := false; DisableTLSALPNChallenge := false;
     ListenHost := ""; AltHTTPPort := 0; AltTLSALPNPort := 0; DNSProvider := None;
     DNSChallengeOption := None; TrustedRoots := None; CertObtainTimeout := 0; config := Some 1%nat |}.

Definition probe : Request := mkRequest "GET" "/.well-known/acme-challenge/tok" "A.com:80".

(** * Properties *)

(** C10: the solvers share listeners by counting. Against the abstract state
    that counts the challenges of each address, [Present] of either solver adds
    one (or fails before counting anything), and [CleanUp] of a counted
    challenge takes one away and never fails. Throughout, the open listeners
    are those of others and one per address that listens; so when no challenge
    is left, every listener that was opened is closed again. *)
Theorem solvers_share_listeners {U : UnicodeTables} {UL : UrlLib} {L : CertLib} {W} {S : Storage W}
    {SL : StorageLaws S} {N : Sockets W} {B : ChallengeLib W} {NL : SocketLaws N B} foreign (s : arena (W:=W))
    sv address d t k :
  sound foreign s -> sv = httpSolver address \/ sv = tlsALPNSolver address ->
  (exists r s', Present sv d t k s = (r, s') /\ sound foreign s' /\
     (counts s' = bump address (counts s) \/ counts s' = counts s /\ r <> Ok ())) /\
  (is_Some (counts s !! address) ->
     exists s', CleanUp sv d t k s = (Ok (), s') /\ sound foreign s' /\ counts s' = drop_one address (counts s)) /\
  (counts s = ∅ -> net s = foreign /\ solvers s = ∅).
Proof.
  intros Hs Hsv. split; [| split].
  - destruct (present_spec foreign s sv address d t k Hs Hsv) as (r & s' & ? & ? & _ & ?). by exists r, s'.
  - intros [n Hn]. unfold counts in Hn. apply lookup_fmap_Some in Hn as (si & _ & Hsi).
    destruct (cleanup_spec foreign s sv address d t k si Hs Hsv Hsi) as (s' & ? & ? & ? & _). by exists s'.
  - by apply sound_nothing.
Qed.

Lemma solvers_share_listeners_witness :
  exists s1 s2, Present (tlsALPNSolver ":443") "a.com" "tok" "key" at_rest = (Ok (), s1) /\
    CleanUp (tlsALPNSolver ":443") "a.com" "tok" "key" s1 = (Ok (), s2) /\
    counts s1 !! ":443" = Some 1%Z /\ net s2 = {[7%nat]} /\ sound {[7%nat]} s1.
Proof.
  eexists _, _. split; [vm_compute; reflexivity |]. split; [vm_compute; reflexivity |].
  split; [vm_compute; reflexivity |]. split; [vm_compute; reflexivity |].
  destruct (proj1 (solvers_share_listeners {[7%nat]} at_rest (tlsALPNSolver ":443") ":443" "a.com" "tok" "key"
                     at_rest_sound (or_intror eq_refl))) as (r & s' & He & Hs & _).
  vm_compute in He. injection He as _ <-. exact Hs.
Defined.

(** Two ways in which a listener outlives its challenges. A [Present] that
    fails because it cannot listen has counted its challenge all the same, so
    after it a whole later challenge, presented and cleaned up, leaves its
    listener open; and a [CleanUp] through the distributed solver that cannot
    delete the challenge from storage returns before it counts down. *)
Theorem challenge_listener_leaks {U : UnicodeTables} {UL : UrlLib} {L : CertLib} {W} {S : Storage W}
    {SL : StorageLaws S} {N : Sockets W} {B : ChallengeLib W} {NL : SocketLaws N B} foreign (s : arena (W:=W))
    address d t k e :
  sound foreign s ->
  (forall s1 s2 d' t' k', solvers s !! address = None ->
     Present (httpSolver address) d t k s = (Err e, s1) ->
     Present (httpSolver address) d' t' k' s1 = (Ok (), s2) ->
     exists s3, CleanUp (httpSolver address) d' t' k' s2 = (Ok (), s3) /\ net s3 = net s2 /\
       counts s3 !! address = Some 1%Z) /\
  (forall ca sv, (exists w', Delete (challengeTokensKey ca d) (world (a_prog s)) = (Err e, w')) ->
     exists s', CleanUp (distributedSolver ca sv) d t k s = (Err e, s') /\ solvers s' = solvers s).
Proof.
  intros Hs. split.
  - intros s1 s2 d' t' k' Hno H1 H2. cbn [Present CleanUp httpSolver] in *.
    destruct (join_spec foreign s address Hs) as (r1 & s1' & He1 & _ & Hs1 & Hc1 & _).
    rewrite H1 in He1. injection He1 as <- <-.
    destruct (join_spec foreign s1 address Hs1) as (r2 & s2' & He2 & _ & Hs2 & Hc2 & _).
    rewrite H2 in He2. injection He2 as <- <-.
    assert (counts s !! address = None) as Hn by (unfold counts; by rewrite lookup_fmap, Hno).
    assert (counts s2 !! address = Some 2%Z) as H2n.
    { rewrite Hc2, Hc1. unfold bump. rewrite lookup_insert_eq, lookup_insert_eq, Hn. done. }
    pose proof H2n as Hsi. unfold counts in Hsi. apply lookup_fmap_Some in Hsi as (si & Hcs & Hsi).
    destruct (leave_spec foreign s2 address si Hs2 Hsi) as (s3 & He3 & _ & Hc3 & _ & Hnet & _).
    exists s3. split; [done |]. split; [apply Hnet; lia |].
    rewrite Hc3. unfold drop_one. rewrite H2n. cbn. by rewrite lookup_insert_eq.
  - intros ca sv [w' Hd]. cbn [CleanUp distributedSolver]. unfold bind, in_world, in_prog, lift.
    rewrite Hd. eexists. by split.
Qed.

(** Port 80 cannot be bound for the first challenge. *)
Definition busy : arena (W:=wired) := snd (acquire_listener ":80" at_rest).

Lemma challenge_listener_leaks_witness :
  Present (httpSolver ":80") "a.com" "tok" "key" at_rest =
    (Err (ErrStr "could not start listener for challenge server at :80: permission denied"), busy) /\
  (forall s2 d' t' k', Present (httpSolver ":80") d' t' k' busy = (Ok (), s2) ->
     exists s3, CleanUp (httpSolver ":80") d' t' k' s2 = (Ok (), s3) /\ net s3 = net s2 /\
       counts s3 !! ":80" = Some 1%Z).
Proof.
  split; [vm_compute; reflexivity |]. intros s2 d' t' k'.
  apply (proj1 (challenge_listener_leaks {[7%nat]} at_rest ":80" "a.com" "tok" "key"
    (ErrStr "could not start listener for challenge server at :80: permission denied") at_rest_sound) busy).
  - reflexivity.
  - vm_compute. reflexivity.
Defined.

(** C17: the HTTP handler changes nothing in storage, never panics for a manager
    with a configuration, and answers only what it should: HTTP challenges are
    enabled, it is a GET below the challenge path, storage holds a challenge of
    the manager's CA for the request's host whose domain is that host and whose
    token is the rest of the path, and the answer is its key authorization. *)
Theorem http_challenge_answers {U : UnicodeTables} {UL : UrlLib} {W} {S : Storage W}
    {SL : StorageLaws S} {N : Sockets W} {B : ChallengeLib W} {NL : SocketLaws N B} m r (w : W) :
  config m <> None ->
  exists o w', HandleHTTPChallenge (Some m) r w = (Ok o, w') /\ same_storage w w' /\
    forall a, o = Some a ->
      DisableHTTPChallenge m = false /\ Method r = "GET" /\ HasPrefix (r_Path r) challengeBasePath = true /\
      exists b info, kv w !! challengeTokensKey (CA m) (hostOnly (r_Host r)) = Some b /\
        unmarshal_info b = Ok info /\ r_Path r = ChallengePath (Token info) /\
        EqualFold (hostOnly (r_Host r)) (Domain info) = true /\ a = mkAnswer "text/plain" (KeyAuth info) true.
Proof.
  intros Hc. unfold HandleHTTPChallenge.
  destruct (DisableHTTPChallenge m); [by exists None, w |].
  destruct (LooksLikeHTTPChallenge r) eqn:Hl; [| by exists None, w]. cbn [negb].
  unfold LooksLikeHTTPChallenge in Hl. apply andb_true_iff in Hl as [Hg%bool_decide_eq_true_1 Hpre].
  unfold distributedHTTPChallengeSolver. destruct (config m); [| done].
  set (key := challengeTokensKey _ _). unfold bind at 1, try at 1.
  destruct (Load key w) as [rl w1] eqn:HL. apply Load_law in HL as (Hp & Hlk & Hkv & Hv).
  assert (same_storage w w1) as Hst by done.
  destruct rl as [b | e | x]; [| by exists None, w1 | by destruct (Hp x)].
  unfold bind, try, of_res. pose proof (unmarshal_info_safe b) as Hsafe.
  destruct (unmarshal_info b) as [info | e | x] eqn:Hu; [| by exists None, w1 | by destruct (Hsafe x)].
  exists (answerHTTPChallenge r info), w1. split; [done |]. split; [done |]. intros a Ha.
  unfold answerHTTPChallenge in Ha.
  destruct (bool_decide (r_Path r = _)) eqn:H1; [| done].
  destruct (EqualFold _ _) eqn:H2; [| done]. destruct (bool_decide (Method r = _)); [| done].
  injection Ha as <-. apply bool_decide_eq_true_1 in H1. split_and!; try done.
  exists b, info. by split_and!; [apply Hv | ..].
Qed.

Lemma http_challenge_answers_witness :
  exists o w', HandleHTTPChallenge (W:=wired) (Some some_manager) probe
    (mkWired {| m_kv := {[challengeTokensKey "https://ca/dir" "A.com" := frame "a.com" "key"]};
                m_locked := ∅; m_fail := ∅ |} ∅) = (Ok o, w') /\ o = Some (mkAnswer "text/plain" "key" true) /\
    DisableHTTPChallenge some_manager = false.
Proof.
  destruct (http_challenge_answers (W:=wired) some_manager probe
    (mkWired {| m_kv := {[challengeTokensKey "https://ca/dir" "A.com" := frame "a.com" "key"]};
                m_locked := ∅; m_fail := ∅ |} ∅)) as (o & w' & He & _ & Ha); [done |].
  exists o, w'. split; [exact He |]. vm_compute in He. injection He as <- _.
  split; [done |]. by destruct (Ha _ eq_refl).
Defined.



(** The handler looks for challenges of the manager's CA only. A challenge
    that is presented for another one, which is what every retry with the test
    CA does, is not found through the handler: if storage had none for the
    request's host before, the request is not handled. *)
Theorem test_ca_challenge_unanswered {U : UnicodeTables} {UL : UrlLib} {L : CertLib} {W} {S : Storage W}
    {SL : StorageLaws S} {N : Sockets W} {B : ChallengeLib W} {NL : SocketLaws N B} (s s1 : arena (W:=W))
    sv address testCA m r d t k :
  sv = httpSolver address \/ sv = tlsALPNSolver address ->
  proper (issuerKey testCA) -> proper (issuerKey (CA m)) -> Safe (issuerKey testCA) <> Safe (issuerKey (CA m)) ->
  Present (distributedSolver testCA sv) d t k s = (Ok (), s1) ->
  config m <> None -> kv (world (a_prog s)) !! challengeTokensKey (CA m) (hostOnly (r_Host r)) = None ->
  exists w', HandleHTTPChallenge (Some m) r (world (a_prog s1)) = (Ok None, w').
Proof.
  intros Hsv Ht Hca Hne Hpr Hc Hno.
  destruct (distributed_stores s s1 sv address testCA d t k Hsv Hpr) as (b & _ & Hkv).
  unfold HandleHTTPChallenge. destruct (DisableHTTPChallenge m); [by eexists |].
  destruct (negb _); [by eexists |]. unfold distributedHTTPChallengeSolver. destruct (config m); [| done].
  unfold bind, try. destruct (Load _ (world (a_prog s1))) as [rl w1] eqn:HL.
  apply Load_law in HL as (Hp & _ & _ & Hv). exists w1. destruct rl as [v | |]; [| done | by edestruct Hp].
  specialize (Hv v eq_refl). rewrite Hkv, lookup_insert_ne in Hv; [congruence |].
  by apply token_keys_differ.
Qed.

Lemma test_ca_challenge_unanswered_witness :
  exists s1 w', Present (distributedSolver "https://test/dir" (httpSolver ":8080")) "a.com" "tok" "key" at_rest =
      (Ok (), s1) /\
    HandleHTTPChallenge (Some some_manager) probe (world (a_prog s1)) = (Ok None, w').
Proof.
  set (s1 := snd (Present (distributedSolver "https://test/dir" (httpSolver ":8080")) "a.com" "tok" "key" at_rest)).
  assert (Present (distributedSolver "https://test/dir" (httpSolver ":8080")) "a.com" "tok" "key" at_rest = (Ok (), s1))
    as Hp by (vm_compute; reflexivity).
  destruct (test_ca_challenge_unanswered at_rest s1 (httpSolver ":8080") ":8080" "https://test/dir" some_manager
              probe "a.com" "tok" "key" (or_introl eq_refl)) as [w' Hw'].
  - split; [| split]; by vm_compute.
  - split; [| split]; by vm_compute.
  - by vm_compute.
  - exact Hp.
  - done.
  - reflexivity.
  - exists s1, w'. by split.
Defined.

(** A TLS-ALPN challenge and an OCSP scan do not go together. While a
    challenge certificate without a parsed leaf is presented, it is in the
    certificate cache, and a scan of the cache panics. *)
Theorem tls_alpn_challenge_crashes_scan {U : UnicodeTables} {L : CertLib} {K : KeyLib} {O : OcspLib} {W}
    {S : Storage W} {SL : StorageLaws S} {E : Env W} {H : Http W} {N : Sockets W} {B : ChallengeLib W}
    {NL : SocketLaws N B} self opts foreign (s s1 : arena (W:=W)) address d t k cert w' :
  sound foreign s -> ChallengeCert d k (world (a_prog s)) = (Ok (Some cert), w') -> Leaf cert = None ->
  Present (tlsALPNSolver address) d t k s = (Ok (), s1) ->
  exists m p, updateOCSPStaples self opts (a_prog s1) = (Panic m, p).
Proof.
  intros [Hc Hn Hf Hi] Hcert Hleaf. cbn [Present tlsALPNSolver]. unfold bind at 1, in_world, in_prog, lift.
  rewrite Hcert. destruct (ChallengeCert_law d k (world (a_prog s))) as [_ [_ Ho]]. rewrite Hcert in Ho. cbn [snd] in Ho.
  unfold bind, with_certs. set (s2 := mkArena (mkProg _ _ _ _) _).
  assert (sound foreign s2) as Hs2 by (split; try done; unfold net in *; cbn; by rewrite Ho).
  destruct (join_spec foreign s2 address Hs2) as (r & s3 & -> & _ & _ & _ & (_ & _ & Hcerts & _) & _).
  intros [= -> ->].
  apply (updateOCSPStaples_nil_leaf self opts (a_prog s1) (tlsALPNCertKeyName d)
           {| tls := cert; Names := [d]; Tags := []; ocsp := None;
              hash := hashCertificateChain (chain cert); managed := false |}); [| done].
  rewrite Hcerts. cbn. by rewrite lookup_insert_eq.
Qed.

Lemma tls_alpn_challenge_crashes_scan_witness :
  exists m p, updateOCSPStaples 1 plain_options
    (a_prog (snd (Present (tlsALPNSolver ":443") "a.com" "tok" "key" at_rest))) = (Panic m, p).
Proof.
  apply (tls_alpn_challenge_crashes_scan 1 plain_options {[7%nat]} at_rest _ ":443" "a.com" "tok" "key"
           (mkTls ["CHALLENGE"] "key" None "") (mkWired blank_disk {[7%nat]}) at_rest_sound).
  - reflexivity.
  - reflexivity.
  - vm_compute. reflexivity.
Defined.
