(* ===== verification/Acme.v ===== *)
(** The ACME issuer: the client of [src/acmeclient.go] and the [Issue] and
    [Revoke] methods of [src/acmemanager.go].

    The ACME library is a parameter. A library client is a handle; which
    challenge providers it has is state of the program, and obtaining a
    certificate is given these providers, as computations of [Solvers.v]. *)
From Stdlib Require Import Ascii.
From stdpp Require Import base tactics list strings gmap sets.
From Stdlib Require Import ZArith Lia.
From S2P Require Import Prelude GoTime GoStrings Net RateLimiter StorageKeys Certificates Cache Crypto Storage.
From S2P Require Import Ocsp Account Config Solvers.

Local Open Scope string_scope.
Local Open Scope go_scope.

(** * Data *)

(** [challenge.Type]. *)
Inductive challenge := HTTP01 | TLSALPN01 | DNS01.

#[export] Instance challenge_eq_dec : EqDecision challenge.
Proof. solve_decision. Defined.

(** A provider that [nextChallenge] sets on a library client. *)
Inductive setup :=
| SetHTTP01Provider (caURL address : string)
| SetTLSALPN01Provider (caURL address : string)
| SetDNS01Provider (provider : option nat) (option_ : option nat).

Definition type_of (p : setup) : challenge :=
  match p with
  | SetHTTP01Provider _ _ => HTTP01
  | SetTLSALPN01Provider _ _ => TLSALPN01
  | SetDNS01Provider _ _ => DNS01
  end.

(** The fields of [lego.Config] that are set. *)
Record legoConfig := mkLego {
  lc_user : user;
  CADirURL : string;
  lc_UserAgent : string;
  HTTPClient_Timeout : Z;
  Certificate_Timeout : Z;
  RootCAs : option nat
}.

Record acmeClient := mkClient { caURL : string; client : nat }.

(** The ACME library; [ObtainForCSR] returns the certificate and the resource
    it came in. *)
Class Lego (W : Type) := {
  NewClient : legoConfig -> M W nat;
  GetToSURL : nat -> W -> string;
  Register : nat -> bool -> option (string * string) -> M W string;  (* external account: key and HMAC *)
  ObtainForCSR : nat -> list (challenge * Provider (arena (W:=W))) -> CertificateRequest ->
                 M (arena (W:=W)) (string * string);
  lego_Revoke : nat -> string -> M W unit;
  dns_provider : option nat -> option nat -> Provider (arena (W:=W));
  base64_Std : string -> string
}.

(** Package variables that only the embedding program writes, randomness, and
    waiting on the limiter with a key (which [RateLimiter.v] models). *)
Class AcmeVars (W : Type) := {
  UserAgent : string;
  HTTPTimeout : Z;
  HTTPPort : Z;
  HTTPSPort : Z;
  RateLimitEvents : Z;
  RateLimitEventsWindow : Z;
  Intn : nat -> W -> nat * W;
  limiter_Wait : string -> M W unit;
  resource_fields : string -> option (gmap string (option string)) (* IssuerData as a map; [None] values are not strings *)
}.

Definition HTTPChallengePort : Z := 80.
Definition TLSALPNChallengePort : Z := 443.

Section Acme.
Context {U : UnicodeTables} {UL : UrlLib} {L : CertLib} {K : KeyLib} {W : Type} {S : Storage W} {H : Http W}
        {A : AccountEnv W} {N : Sockets W} {B : ChallengeLib W} {G : Lego W} {V : AcmeVars W}.

(** The program, the manager the methods are called on, and the package
    variables. *)
Record acmeState := mkState {
  a_arena : arena (W:=W);
  manager : ACMEManager;
  default_acme : ACMEManager;
  acmeClients : gmap string nat;
  rateLimiters : gmap string RingBufferRateLimiter;
  providers : gmap nat (list setup)
}.

Definition in_arena {T} (m : M (arena (W:=W)) T) : M acmeState T := fun s =>
  let '(r, a) := m (a_arena s) in
  (r, mkState a (manager s) (default_acme s) (acmeClients s) (rateLimiters s) (providers s)).

Definition on_net {T} (m : M W T) : M acmeState T := in_arena (in_world m).

Definition the_manager : M acmeState ACMEManager := fun s => (Ok (manager s), s).

Definition set_agreed (b : bool) : M acmeState unit := fun s =>
  (Ok (), mkState (a_arena s) (with_account (Email (manager s)) b (manager s)) (default_acme s)
                  (acmeClients s) (rateLimiters s) (providers s)).

(** A method of [Account.v], which works on the world and the manager. *)
Definition with_acme {T} (m : M (acme (W:=W)) T) : M acmeState T := fun s =>
  let p := a_prog (a_arena s) in
  let '(r, s') := m (mkAcme (world p) (manager s) (default_acme s)) in
  (r, mkState (mkArena (on_world (a_world s') p) (solvers (a_arena s))) (mgr s') (Account.DefaultACME s')
              (acmeClients s) (rateLimiters s) (providers s)).

(** * The client *)

Definition buildUAString : string :=
  if bool_decide (UserAgent = "") then "otomatik" else "otomatik" +:+ " " +:+ UserAgent.

(** The endpoint that [newACMEClient] chooses. *)
Definition choose_ca (useTestCA : bool) (m default : ACMEManager) : string :=
  let caURL :=
    if useTestCA then
      if bool_decide (TestCA m = "") && bool_decide (CA m = CA default) then TestCA default else TestCA m
    else "" in
  let caURL := if bool_decide (caURL = "") then CA m else caURL in
  let caURL := if bool_decide (caURL = "") then CA default else caURL in
  if negb (Contains caURL "://") then "https://" +:+ caURL else caURL.

Definition is_secure (u : URL) : bool :=
  bool_decide (url_Scheme u = "https") || isLoopback (url_Host u) || isInternal (url_Host u).

(** The library client of a user: a known one is reused. *)
Definition get_client (caURL : string) (leUser : user) : M acmeState nat := fun s =>
  let clientKey := caURL +:+ user_Email leUser in
  match acmeClients s !! clientKey with
  | Some client => (Ok client, s)
  | None =>
      (let* client := on_net (NewClient
         {| lc_user := leUser; CADirURL := caURL; lc_UserAgent := buildUAString; HTTPClient_Timeout := HTTPTimeout;
            Certificate_Timeout := CertObtainTimeout (manager s); RootCAs := TrustedRoots (manager s) |}) in
       fun s => (Ok client, mkState (a_arena s) (manager s) (default_acme s)
                  (<[clientKey := client]> (acmeClients s)) (rateLimiters s) (providers s))) s
  end.

(** Registration of an account that is not registered yet. *)
Definition register (interactive : bool) (caURL : string) (client : nat) (leUser : user) : M acmeState unit :=
  let* _ :=
    if interactive then
      fun s =>
        let termsURL := GetToSURL client (world (a_prog (a_arena s))) in
        (let* _ := if negb (Agreed (manager s)) && negb (bool_decide (termsURL = "")) then
                     let* answer := with_acme (askUserAgreement termsURL) in set_agreed answer
                   else ret () in
         let* m := the_manager in
         if negb (Agreed m) && negb (bool_decide (termsURL = "")) then fail (ErrStr "user must agree to CA terms")
         else ret ()) s
    else ret () in
  let* m := the_manager in
  let* reg := on_net (Register client (Agreed m)
    match ExternalAccount m with Some e => Some (KeyID e, base64_Std (HMAC e)) | None => None end) in
  wrap_err (fun err => ErrStr ("could not save user: " +:+ Error_text err))
    (on_net (saveUser caURL (mkUser (user_Email leUser) (Some reg) (user_key leUser)))).

(** The default of [certObtainTimeout] is computed but not used. *)
Definition newACMEClient (useTestCA interactive : bool) : M acmeState acmeClient := fun s =>
  let caURL := choose_ca useTestCA (manager s) (default_acme s) in
  match url_Parse caURL with
  | None => (Err (ErrStr "parse error"), s)
  | Some u =>
      if negb (is_secure u) then (Err (ErrStr (caURL +:+ ": insecure CA URL (HTTPS required)")), s)
      else
        (let* leUser := on_net (getUser caURL (Email (manager s))) in
         let* client := get_client caURL leUser in
         let* _ := match Registration leUser with
                   | None => register interactive caURL client leUser
                   | Some _ => ret ()
                   end in
         ret (mkClient caURL client)) s
  end.

(** [err.(acme.ProblemDetails)] with status 429. *)
Definition StatusTooManyRequests : Z := 429.

Definition is_429 (err : error) : bool :=
  match err with ErrProblem status _ => (status =? StatusTooManyRequests)%Z | _ => false end.

Definition sleep (d : Z) : M acmeState unit := on_net (fun w => (Ok (), time_Sleep d w)).

(** The loop of [newACMEClientWithRetry]; [last] is the error of the attempt
    before. *)
Fixpoint try_new_client (todo i : nat) (useTestCA : bool) (last : error) : M acmeState acmeClient :=
  match todo with
  | O => fail last
  | Datatypes.S todo' =>
      let* _ := if (0 <? i)%nat then sleep (2 * Second) else ret () in
      let* client := try (newACMEClient useTestCA false) in
      match client with
      | inl client => ret client
      | inr err =>
          if is_429 err then fail (ErrStr "too many requests making new ACME client - aborting")
          else try_new_client todo' (Datatypes.S i) useTestCA err
      end
  end.

Definition newACMEClientWithRetry (useTestCA : bool) : M acmeState acmeClient :=
  try_new_client 2 0 useTestCA (ErrStr "").

(** * Challenges *)

Definition initialChallenges (m : ACMEManager) : list challenge :=
  match DNSProvider m with
  | Some _ => [DNS01]
  | None =>
      ((if negb (DisableHTTPChallenge m) then [HTTP01] else []) ++
       (if negb (DisableTLSALPNChallenge m) then [TLSALPN01] else []))%list
  end.

(** [net.JoinHostPort] and [strconv.Itoa]. *)
Definition JoinHostPort (host port : string) : string :=
  if Contains host ":" then "[" +:+ host +:+ "]:" +:+ port else host +:+ ":" +:+ port.

Definition Itoa (n : Z) : string :=
  if (n <? 0)%Z then "-" +:+ dec_digits 20 (- n) "" else dec_digits 20 n "".

Definition http_port (m : ACMEManager) : Z :=
  let p := if (0 <? HTTPPort)%Z && negb (HTTPPort =? HTTPChallengePort)%Z then HTTPPort else HTTPChallengePort in
  if (0 <? AltHTTPPort m)%Z then AltHTTPPort m else p.

Definition tls_alpn_port (m : ACMEManager) : Z :=
  let p := if (0 <? HTTPSPort)%Z && negb (HTTPSPort =? TLSALPNChallengePort)%Z then HTTPSPort
           else TLSALPNChallengePort in
  if (0 <? AltTLSALPNPort m)%Z then AltTLSALPNPort m else p.

Definition setup_for (c : acmeClient) (m : ACMEManager) (ch : challenge) : setup :=
  match ch with
  | HTTP01 => SetHTTP01Provider (caURL c) (JoinHostPort (ListenHost m) (Itoa (http_port m)))
  | TLSALPN01 => SetTLSALPN01Provider (caURL c) (JoinHostPort (ListenHost m) (Itoa (tls_alpn_port m)))
  | DNS01 => SetDNS01Provider (DNSProvider m) (DNSChallengeOption m)
  end.

(** What a provider does: the HTTP and TLS-ALPN solvers behind a distributed one. *)
Definition provider_of (p : setup) : Provider (arena (W:=W)) :=
  match p with
  | SetHTTP01Provider ca address => distributedSolver ca (httpSolver address)
  | SetTLSALPN01Provider ca address => distributedSolver ca (tlsALPNSolver address)
  | SetDNS01Provider p o => dns_provider p o
  end.

(** [Challenge.Remove] of the three types, then the one provider. *)
Definition enable_only (c : nat) (p : setup) : M acmeState unit := fun s =>
  (Ok (), mkState (a_arena s) (manager s) (default_acme s) (acmeClients s) (rateLimiters s)
                  (<[c := (filter (fun q => type_of q <> HTTP01 /\ type_of q <> TLSALPN01 /\ type_of q <> DNS01)
                             (default [] (providers s !! c)) ++ [p])%list]> (providers s))).

Definition nextChallenge (c : acmeClient) (available : list challenge)
    : M acmeState (option challenge * list challenge) :=
  match available with
  | [] => ret (None, available)
  | _ =>
      let* randIdx := on_net (fun w => let '(i, w') := Intn (length available) w in (Ok i, w')) in
      match available !! randIdx with
      | None => panic "index out of range"
      | Some randomChallenge =>
          let* m := the_manager in
          let* _ := enable_only (client c) (setup_for c m randomChallenge) in
          ret (Some randomChallenge, (take randIdx available ++ drop (Datatypes.S randIdx) available)%list)
      end
  end.

(** [client.acmeClient.Certificate.ObtainForCSR], with the providers set. *)
Definition obtain (c : acmeClient) (csr : CertificateRequest) : M acmeState (string * string) := fun s =>
  in_arena (ObtainForCSR (client c)
    ((fun p => (type_of p, provider_of p)) <$> default [] (providers s !! client c)) csr) s.

(** The loop of [tryAllEnabledChallenges]. Every iteration takes a challenge
    away, so [todo], their number, is fuel enough; [last] is the latest error. *)
Fixpoint try_challenges (todo : nat) (c : acmeClient) (csr : CertificateRequest) (challenges : list challenge)
    (last : error) : M acmeState (string * string) :=
  match challenges, todo with
  | [], _ => fail last
  | _, O => panic "fuel"
  | _, Datatypes.S todo' =>
      let* (chosenChallenge, challenges) := nextChallenge c challenges in
      let* cert := try (obtain c csr) in
      match cert with
      | inl cert => ret cert
      | inr err =>
          let* _ := sleep (2 * Second) in
          try_challenges todo' c csr challenges err
      end
  end.

Definition tryAllEnabledChallenges (c : acmeClient) (csr : CertificateRequest) : M acmeState (string * string) :=
  let* m := the_manager in
  match initialChallenges m with
  | [] => fail (ErrStr "no challenge types enabled")
  | challenges => try_challenges (length challenges) c csr challenges (ErrStr "")
  end.

(** * Issuing and revoking *)

Definition throttle (c : acmeClient) : M acmeState unit := fun s =>
  let rateLimiterKey := caURL c +:+ "," +:+ Email (manager s) in
  (let* _ := match rateLimiters s !! rateLimiterKey with
             | Some _ => ret ()
             | None =>
                 let* rl := of_res (NewRateLimiter RateLimitEvents RateLimitEventsWindow) in
                 fun s => (Ok (), mkState (a_arena s) (manager s) (default_acme s) (acmeClients s)
                                          (<[rateLimiterKey := rl]> (rateLimiters s)) (providers s))
             end in
   on_net (limiter_Wait rateLimiterKey)) s.

Definition usingTestCA (m : ACMEManager) (c : acmeClient) : bool :=
  negb (bool_decide (TestCA m = "")) && bool_decide (caURL c = TestCA m).

Definition doIssue (csr : CertificateRequest) (useTestCA : bool) : M acmeState (IssuedCertificate * bool) :=
  let* c := newACMEClientWithRetry useTestCA in
  let* m := the_manager in
  let usingTestCA := usingTestCA m c in
  let* _ := if negb useTestCA then throttle c else ret () in
  let* (cert, resource) := wrap_err (ErrWrap ("[" +:+ Join (namesFromCSR csr) " " +:+ "]")) (tryAllEnabledChallenges c csr) in
  ret (mkIssued cert resource, usingTestCA).

(** [errors.As] with [acme.ProblemDetails], then the status. *)
Fixpoint too_many_requests (err : error) : bool :=
  match err with
  | ErrProblem status _ => (status =? StatusTooManyRequests)%Z
  | ErrWrap _ e | ErrNoRetry e => too_many_requests e
  | _ => false
  end.

(** [attempts] is the counter in the context, if it has one. *)
Definition Issue (attempts : option Z) (csr : CertificateRequest) : M acmeState IssuedCertificate :=
  let* m := the_manager in
  match config m with
  | None => panic "missing config pointer (must use NewACMEManager)"
  | Some _ =>
      let isRetry := match attempts with Some n => (0 <? n)%Z | None => false end in
      let* (cert, usedTestCA) := doIssue csr isRetry in
      let* m := the_manager in
      if isRetry && usedTestCA && negb (bool_decide (CA m = TestCA m)) then
        let* r := try (doIssue csr false) in
        match r with
        | inl (cert, _) => ret cert
        | inr err => if too_many_requests err then fail err else fail (ErrNoRetry err)
        end
      else ret cert
  end.

(** [meta[key].(string)]. *)
Definition string_field (meta : gmap string (option string)) (key : string) : M acmeState string :=
  match meta !! key with
  | Some (Some s) => ret s
  | _ => panic "interface conversion: interface is not string"
  end.

(** The certificate of the resource that is revoked is never set. *)
Definition Revoke (cert : CertificateResource) : M acmeState unit :=
  let* c := newACMEClient false false in
  match resource_fields (IssuerData cert) with
  | None => panic "interface conversion: interface is not map[string]interface {}"
  | Some meta =>
      let* domain := string_field meta "domain" in
      let* certURL := string_field meta "certUrl" in
      let* certStableURL := string_field meta "certStableURL" in
      on_net (lego_Revoke (client c) "")
  end.

End Acme.

(** * Lemmas *)

(** [rand.Intn] returns an index of a list of that length. *)
Class AcmeLaws {W} (V : AcmeVars W) : Prop :=
  Intn_law n w : (0 < n)%nat -> (fst (Intn n w) < n)%nat.

Section Facts.
Context {U : UnicodeTables} {UL : UrlLib} {L : CertLib} {K : KeyLib} {W : Type} {S : Storage W} {H : Http W}
        {A : AccountEnv W} {N : Sockets W} {B : ChallengeLib W} {G : Lego W} {V : AcmeVars W} {VL : AcmeLaws V}.

(** ** Settings do not change *)

(** The manager and the package default are as they were. *)
Definition same_settings (s s' : acmeState (W:=W)) : Prop :=
  manager s' = manager s /\ default_acme s' = default_acme s.

Definition keeps {T} (m : M (acmeState (W:=W)) T) : Prop := forall s, same_settings s (snd (m s)).

Lemma keeps_ret {T} (a : T) : keeps (ret a).
Proof. by intros s. Qed.

Lemma keeps_fail {T} e : keeps (fail (A:=T) e).
Proof. by intros s. Qed.

Lemma keeps_panic {T} m : keeps (panic (A:=T) m).
Proof. by intros s. Qed.

Lemma keeps_of_res {T} (r : res T) : keeps (of_res r).
Proof. by intros s. Qed.

Lemma keeps_bind {T T'} (m : M (acmeState (W:=W)) T) (f : T -> M (acmeState (W:=W)) T') :
  keeps m -> (forall a, keeps (f a)) -> keeps (bind m f).
Proof.
  intros Hm Hf s. unfold bind. specialize (Hm s). destruct (m s) as [[a | |] s1]; [| done | done].
  destruct Hm as [H1 H2]. destruct (Hf a s1) as [H3 H4]. cbn [snd] in *. split; congruence.
Qed.

Lemma keeps_try {T} (m : M (acmeState (W:=W)) T) : keeps m -> keeps (try m).
Proof. intros Hm s. unfold try. specialize (Hm s). by destruct (m s) as [[] ?]. Qed.

Lemma keeps_wrap {T} f (m : M (acmeState (W:=W)) T) : keeps m -> keeps (wrap_err f m).
Proof. intros Hm s. unfold wrap_err. specialize (Hm s). by destruct (m s) as [[] ?]. Qed.

Lemma keeps_arena {T} (m : M (arena (W:=W)) T) : keeps (in_arena m).
Proof. intros s. unfold in_arena. by destruct (m (a_arena s)). Qed.

Lemma keeps_net {T} (m : M W T) : keeps (on_net m).
Proof. apply keeps_arena. Qed.

Lemma keeps_manager : keeps the_manager.
Proof. by intros s. Qed.

Hint Resolve keeps_ret keeps_fail keeps_panic keeps_of_res keeps_bind keeps_try keeps_wrap keeps_arena keeps_net
  keeps_manager : otomatik.

Lemma keeps_get_client caURL u : keeps (get_client caURL u).
Proof.
  intros s. unfold get_client. destruct (acmeClients s !! _); [done |].
  apply keeps_bind; [apply keeps_net |]. by intros c s'.
Qed.

Lemma keeps_newACMEClient t : keeps (newACMEClient t false).
Proof.
  intros s. unfold newACMEClient. cbv zeta. destruct (url_Parse _) as [u0|]; [| done]. destruct (negb _); [done |].
  apply keeps_bind; [apply keeps_net |]. intros u. apply keeps_bind; [apply keeps_get_client |]. intros c.
  apply keeps_bind; [| eauto with otomatik]. destruct (Registration u); [eauto with otomatik |].
  unfold register. eauto 10 with otomatik.
Qed.

Lemma keeps_try_new_client n t : forall i e, keeps (try_new_client n i t e).
Proof.
  induction n as [|n IH]; intros i e; cbn [try_new_client]; [apply keeps_fail |].
  apply keeps_bind; [destruct (0 <? i)%nat; [apply keeps_net | apply keeps_ret] |]. intros _.
  apply keeps_bind; [apply keeps_try, keeps_newACMEClient |].
  intros [c | e']; [apply keeps_ret |]. destruct (is_429 e'); [apply keeps_fail | apply IH].
Qed.

Lemma keeps_nextChallenge c l : keeps (nextChallenge c l).
Proof.
  unfold nextChallenge. destruct l; [apply keeps_ret |].
  apply keeps_bind; [apply keeps_net |]. intros i. destruct (_ !! i); [| apply keeps_panic].
  apply keeps_bind; [apply keeps_manager |]. intros m. apply keeps_bind; [by intros s | eauto with otomatik].
Qed.

Lemma keeps_obtain c csr : keeps (obtain c csr).
Proof. intros s. apply keeps_arena. Qed.

Lemma keeps_tryAll c csr : keeps (tryAllEnabledChallenges c csr).
Proof.
  unfold tryAllEnabledChallenges. apply keeps_bind; [apply keeps_manager |]. intros m.
  destruct (initialChallenges m) as [|ch l]; [apply keeps_fail |].
  generalize (ErrStr ""), (ch :: l), (length (ch :: l)). intros e l' n. revert e l'.
  induction n as [|n IH]; intros e l'; cbn [try_challenges]; destruct l'; eauto with otomatik.
  apply keeps_bind; [apply keeps_nextChallenge |]. intros [o l''].
  apply keeps_bind; [apply keeps_try, keeps_obtain |]. intros [cert | e']; [apply keeps_ret |].
  apply keeps_bind; [apply keeps_net | intros _; apply IH].
Qed.

Lemma keeps_throttle c : keeps (throttle c).
Proof.
  intros s. unfold throttle. cbv zeta. apply keeps_bind; [| intros _; apply keeps_net].
  destruct (rateLimiters s !! _); [apply keeps_ret |]. apply keeps_bind; [apply keeps_of_res |]. by intros r s'.
Qed.

(** ** Choosing the endpoint *)

Lemma Contains_app_l s t sub : Contains t sub = true -> Contains (s +:+ t) sub = true.
Proof.
  intros Ht. induction s as [|c s IH]; [done |]. rewrite app_cons_str. cbn [Contains]. rewrite IH. apply orb_true_r.
Qed.

Lemma Contains_prefix s sub : Contains (sub +:+ s) sub = true.
Proof.
  destruct sub as [|c sub]; [by destruct s |]. rewrite app_cons_str. cbn [Contains].
  by rewrite <- app_cons_str, HasPrefix_app.
Qed.

Lemma choose_ca_scheme t m d : Contains (choose_ca t m d) "://" = true.
Proof.
  unfold choose_ca. cbv zeta.
  match goal with |- Contains (if negb (Contains ?x _) then _ else _) _ = _ => generalize x end. intros x.
  destruct (Contains x "://") eqn:Hc; cbn [negb]; [done |].
  change ("https://" +:+ x) with ("https" +:+ ("://" +:+ x)). apply Contains_app_l, Contains_prefix.
Qed.

(** The library client was made for the endpoint that was chosen. *)
Lemma newACMEClient_url t i s c s' :
  newACMEClient t i s = (Ok c, s') ->
  caURL c = choose_ca t (manager s) (default_acme s) /\
  exists u, url_Parse (caURL c) = Some u /\ is_secure u = true.
Proof.
  unfold newACMEClient. cbv zeta. destruct (url_Parse _) as [u|] eqn:Hu; [| done].
  destruct (is_secure u) eqn:Hsec; [| done]. cbn [negb]. unfold bind.
  destruct (on_net _ s) as [[x | |] s1]; [| done | done].
  destruct (get_client _ x s1) as [[h | |] s2]; [| done | done].
  match goal with |- context [match ?reg s2 with _ => _ end] => destruct (reg s2) as [[[] | |] s3] end; [| done | done].
  intros [= <- _]. cbn [caURL]. split; [done |]. by exists u.
Qed.

Lemma try_new_client_url n t c s' : forall i e s,
  try_new_client n i t e s = (Ok c, s') -> caURL c = choose_ca t (manager s) (default_acme s).
Proof.
  induction n as [|n IH]; intros i e s; cbn [try_new_client]; [done |].
  set (pause := if (0 <? i)%nat then _ else _).
  assert (keeps pause) as Hk by (subst pause; destruct (0 <? i)%nat; [apply keeps_net | apply keeps_ret]).
  unfold bind at 1. specialize (Hk s). destruct (pause s) as [[[] | |] s1]; [| done | done].
  destruct Hk as [Hm Hd]. cbn [snd] in *. unfold bind, try.
  pose proof (keeps_newACMEClient t s1) as Hk1.
  destruct (newACMEClient t false s1) as [[c1 | e1 | m1] s2] eqn:Hn; [| | done].
  - intros [= <- <-]. apply newACMEClient_url in Hn as [-> _]. by rewrite Hm, Hd.
  - destruct (is_429 e1); [done |]. intros Hr%IH. destruct Hk1 as [Hm1 Hd1]. cbn [snd] in *.
    rewrite Hr. congruence.
Qed.

(** ** Challenges *)

Lemma nextChallenge_spec c l s :
  l <> [] ->
  exists ch l' s', nextChallenge c l s = (Ok (Some ch, l'), s') /\ Permutation l (ch :: l') /\
    providers s' !! client c = Some [setup_for c (manager s) ch].
Proof.
  intros Hl. unfold nextChallenge. destruct l as [|ch0 l0] eqn:He; [done |]. rewrite <- He in *.
  unfold bind at 1, on_net, in_arena, in_world, in_prog, lift.
  set (w := world (a_prog (a_arena s))). pose proof (Intn_law (length l) w ltac:(destruct l; [done | cbn; lia])) as HI.
  destruct (Intn (length l) w) as [i w'] eqn:Hi. cbn [fst] in HI.
  destruct (lookup_lt_is_Some_2 l i HI) as [ch Hch]. rewrite Hch. unfold bind, the_manager, enable_only, ret.
  cbn. eexists ch, _, _. split; [reflexivity |]. split.
  - rewrite <- (take_drop_middle l i ch Hch) at 1. by rewrite Permutation_middle.
  - cbn. rewrite lookup_insert_eq. f_equal. f_equal.
    assert (filter (fun q => type_of q <> HTTP01 /\ type_of q <> TLSALPN01 /\ type_of q <> DNS01)
              (default [] (providers s !! client c)) = []) as ->; [| done].
    induction (default [] (providers s !! client c)) as [|q qs IH]; [done |].
    rewrite filter_cons, IH. destruct (decide _) as [(H1 & H2 & H3) |]; [| done]. by destruct q.
Qed.

(** The library was asked for the certificate with this challenge as the only
    one configured. *)
Definition attempted (m : ACMEManager) (c : acmeClient) (csr : CertificateRequest) (ch : challenge)
    (r : res (string * string)) : Prop :=
  exists s1 s2, providers s1 !! client c = Some [setup_for c m ch] /\ obtain c csr s1 = (r, s2).

Definition tried_out (m : ACMEManager) (c : acmeClient) (csr : CertificateRequest) (l : list challenge)
    (r : res (string * string)) : Prop :=
  match r with
  | Ok _ | Panic _ => exists ch, ch ∈ l /\ attempted m c csr ch r
  | Err e => exists trace : list (challenge * error), Permutation trace.*1 l /\
      (forall ch e', (ch, e') ∈ trace -> attempted m c csr ch (Err e')) /\ last trace.*2 = Some e
  end.

Lemma try_challenges_spec c csr todo : forall l last s,
  l <> [] -> (length l <= todo)%nat ->
  tried_out (manager s) c csr l (fst (try_challenges todo c csr l last s)).
Proof.
  induction todo as [|todo IH]; intros l last s Hl Hle; [by destruct l; cbn in Hle; [| lia] |].
  destruct (nextChallenge_spec c l s Hl) as (ch & l' & s1 & Hn & Hperm & Hp).
  pose proof (keeps_nextChallenge c l s) as [Hm _]. rewrite Hn in Hm. cbn [snd] in Hm.
  assert (try_challenges (Datatypes.S todo) c csr l last =
    let* (_, challenges) := nextChallenge c l in
    let* cert := try (obtain c csr) in
    match cert with
    | inl cert => ret cert
    | inr err => let* _ := sleep (2 * Second) in try_challenges todo c csr challenges err
    end) as -> by (by destruct l).
  unfold bind at 1. rewrite Hn. unfold bind at 1, try.
  assert (ch ∈ l) as Hin by (rewrite Hperm; by left).
  pose proof (keeps_obtain c csr s1) as [Hm1 _].
  destruct (obtain c csr s1) as [r s2] eqn:Ho. cbn [snd] in Hm1.
  assert (attempted (manager s) c csr ch r) as Hatt by (by exists s1, s2).
  destruct r as [cert | e | x]; [by exists ch | | by exists ch].
  unfold bind. cbn. set (s3 := mkState _ _ _ _ _ _).
  assert (manager s3 = manager s) as Hm3 by (cbn; congruence).
  destruct l' as [|ch' l''].
  { assert (try_challenges todo c csr [] e s3 = (Err e, s3)) as -> by (by destruct todo).
    exists [(ch, e)]. cbn. split; [by rewrite Hperm |]. split; [| done].
    by intros ch0 e0 [= -> ->]%list_elem_of_singleton. }
  specialize (IH (ch' :: l'') e s3 ltac:(done)). rewrite Hm3 in IH.
  assert (length (ch' :: l'') <= todo)%nat as Hle' by (apply Permutation_length in Hperm; cbn in *; lia).
  specialize (IH Hle'). revert IH. generalize (fst (try_challenges todo c csr (ch' :: l'') e s3)).
  intros [cert | e' | x]; cbn.
  - intros (ch0 & H0 & ?). exists ch0. split; [| done]. rewrite Hperm. by right.
  - intros (trace & Hpt & Ht & Hlast). exists ((ch, e) :: trace). cbn. split; [by rewrite Hperm, Hpt |]. split.
    + intros ch0 e0 [[= -> ->] | H0]%elem_of_cons; [done | by apply Ht].
    + destruct trace as [|p trace]; [done |]. exact Hlast.
  - intros (ch0 & H0 & ?). exists ch0. split; [| done]. rewrite Hperm. by right.
Qed.

(** ** Issuing *)

(** The certificate was obtained by this client. *)
Definition issued_by (c : acmeClient) (csr : CertificateRequest) (ic : IssuedCertificate) : Prop :=
  exists s1 s2, tryAllEnabledChallenges c csr s1 = (Ok (issued_pem ic, issued_meta ic), s2).

Lemma doIssue_Ok csr t s ic used s' :
  doIssue csr t s = (Ok (ic, used), s') ->
  same_settings s s' /\ exists c, issued_by c csr ic /\ caURL c = choose_ca t (manager s) (default_acme s) /\
    used = usingTestCA (manager s) c.
Proof.
  unfold doIssue. unfold bind at 1. pose proof (keeps_try_new_client 2 t 0 (ErrStr "") s) as [Hm Hd].
  fold (newACMEClientWithRetry t) in Hm, Hd.
  destruct (newACMEClientWithRetry t s) as [[c | |] s1] eqn:Hc; [| done | done]. cbn [snd] in *.
  apply try_new_client_url in Hc. unfold bind at 1, the_manager. cbv zeta.
  set (thr := if negb t then throttle c else ret ()).
  assert (keeps thr) as Hk by (subst thr; destruct (negb t); [apply keeps_throttle | apply keeps_ret]).
  unfold bind at 1. specialize (Hk s1). destruct (thr s1) as [[[] | |] s2]; [| done | done].
  destruct Hk as [Hm2 Hd2]. cbn [snd] in *. unfold bind, wrap_err.
  pose proof (keeps_tryAll c csr s2) as [Hm3 Hd3].
  destruct (tryAllEnabledChallenges c csr s2) as [[[pem meta] | |] s3] eqn:Ht; [| done | done]. cbn [snd] in *.
  intros [= <- <- <-]. split; [split; congruence |]. exists c. split; [by exists s2, s3 |]. split; [done |].
  congruence.
Qed.

Lemma doIssue_keeps csr t : keeps (doIssue csr t).
Proof.
  unfold doIssue. apply keeps_bind; [apply keeps_try_new_client |]. intros c.
  apply keeps_bind; [apply keeps_manager |]. intros m.
  apply keeps_bind; [destruct (negb t); [apply keeps_throttle | apply keeps_ret] |]. intros _.
  apply keeps_bind; [apply keeps_wrap, keeps_tryAll |]. intros []. apply keeps_ret.
Qed.

(** What [Issue] returns a certificate from. *)
Lemma Issue_Ok attempts csr s ic s' :
  Issue attempts csr s = (Ok ic, s') ->
  exists c t, issued_by c csr ic /\ caURL c = choose_ca t (manager s) (default_acme s) /\
    (t = true -> (exists n, attempts = Some n /\ (0 < n)%Z) /\
       (usingTestCA (manager s) c = false \/ CA (manager s) = TestCA (manager s))).
Proof.
  unfold Issue, bind at 1, the_manager. destruct (config (manager s)); [| done]. cbv zeta.
  set (isRetry := match attempts with Some _ => _ | None => _ end). unfold bind at 1.
  destruct (doIssue csr isRetry s) as [[[ic0 used] | |] s1] eqn:Hd; [| done | done].
  apply doIssue_Ok in Hd as ([Hm Hdef] & c & Hby & Hurl & Hused). unfold bind at 1. rewrite Hm.
  destruct (isRetry && used && negb _) eqn:Hb.
  - unfold bind, try. destruct (doIssue csr false s1) as [[[ic1 used1] | e |] s2] eqn:Hd2; [| | done].
    2: by destruct (too_many_requests e).
    intros [= <- _]. apply doIssue_Ok in Hd2 as (_ & c2 & Hby2 & Hurl2 & _).
    exists c2, false. rewrite Hm, Hdef in Hurl2. by split_and!.
  - intros [= <- _]. exists c, isRetry. split; [done |]. split; [done |]. intros Hr. split.
    + subst isRetry. destruct attempts as [k|]; [| done]. apply Z.ltb_lt in Hr. eauto.
    + rewrite Hr in Hb. cbn in Hb. apply andb_false_iff in Hb as [Hu | Hc].
      * left. by rewrite <- Hused.
      * right. by apply negb_false_iff, bool_decide_eq_true_1 in Hc.
Qed.
End Facts.

(** * An example environment *)

(** A library whose clients are all the same and whose CA issues whatever is
    asked for after presenting the challenge, over the world of [Solvers.v]. *)
Definition wired_lego : Lego wired := {|
  NewClient _ w := (Ok 1%nat, w);
  GetToSURL _ _ := "terms";
  Register _ _ _ w := (Ok "reg", w);
  ObtainForCSR _ ps csr :=
    match ps with
    | [(_, p)] =>
        let* _ := Present p "a.com" "tok" "key" in
        let* _ := CleanUp p "a.com" "tok" "key" in
        ret ("PEM", "meta")
    | _ => fail (ErrStr "no provider")
    end;
  lego_Revoke _ b w := (if bool_decide (b = "") then Ok () else Err (ErrStr "unknown"), w);
  dns_provider _ _ := mkProvider (fun _ _ _ => ret ()) (fun _ _ _ => ret ());
  base64_Std s := s
|}.

Definition wired_vars : AcmeVars wired := {|
  UserAgent := ""; HTTPTimeout := 30 * Second; HTTPPort := 8080; HTTPSPort := 8443;
  RateLimitEvents := 10; RateLimitEventsWindow := 1 * Minute;
  Intn _ w := (0%nat, w);
  limiter_Wait _ w := (Ok (), w);
  resource_fields d :=
    if bool_decide (d = "complete")
    then Some {["domain" := Some "a.com"; "certUrl" := Some "u"; "certStableURL" := Some "v"]}
    else Some {["domain" := Some "a.com"; "certUrl" := Some "u"]}
|}.

Lemma wired_vars_laws : AcmeLaws wired_vars.
Proof. intros n w Hn. exact Hn. Qed.

Definition wired_account : AccountEnv wired := {|
  generate_P384 := by_mem (@generate_P384 mem account_env);
  marshal_user := @marshal_user mem account_env;
  unmarshal_user := @unmarshal_user mem account_env;
  decode_directory := @decode_directory mem account_env;
  read_line w := (Line "y", w);
  agreementTestURL := ""
|}.

Lemma wired_account_laws : AccountLaws wired_account.
Proof. split. exact (user_law (AccountLaws:=account_env_laws)). Qed.

Definition many_urls : UrlLib := fun s =>
  if bool_decide (s = "https://ca/dir") then Some (mkURL "https" "ca" "/dir")
  else if bool_decide (s = "https://test/dir") then Some (mkURL "https" "test" "/dir")
  else if bool_decide (s = "http://ca/dir") then Some (mkURL "http" "ca" "/dir")
  else None.

#[local] Existing Instance ascii_tables.
#[local] Existing Instance many_urls.
#[local] Existing Instance responder_lib.
#[local] Existing Instance tag_lib.
#[local] Existing Instance wired_storage.
#[local] Existing Instance wired_laws.
#[local] Existing Instance wired_http.
#[local] Existing Instance wired_account.
#[local] Existing Instance wired_account_laws.
#[local] Existing Instance wired_sockets.
#[local] Existing Instance wired_lib.
#[local] Existing Instance wired_lego.
#[local] Existing Instance wired_vars.
#[local] Existing Instance wired_vars_laws.

Definition with_cas (ca test : string) (m : ACMEManager) : ACMEManager :=
  {| CA := ca; TestCA := test; Email := Email m; Agreed := Agreed m;
     ExternalAccount := ExternalAccount m; DisableHTTPChallenge := DisableHTTPChallenge m;
     DisableTLSALPNChallenge := DisableTLSALPNChallenge m; ListenHost := ListenHost m;
     AltHTTPPort := AltHTTPPort m; AltTLSALPNPort := AltTLSALPNPort m; DNSProvider := DNSProvider m;
     DNSChallengeOption := DNSChallengeOption m; TrustedRoots := TrustedRoots m;
     CertObtainTimeout := CertObtainTimeout m; config := config m |}.

Definition fresh_start (ca test : string) : acmeState (W:=wired) :=
  mkState at_rest (with_cas ca test some_manager) initial_DefaultACME ∅ ∅ ∅.

Definition a_request : CertificateRequest := mkCSR ["a.com"] [] [] [] false.

(** * Properties *)



(** An account that cannot be read is replaced. Whatever error loading the
    registration ends with, also one that passes, a successful client creation
    generates a new key, registers a new account with the CA and stores both
    over what was there. *)
Theorem unreadable_account_replaced {U : UnicodeTables} {UL : UrlLib} {K : KeyLib} {W} {S : Storage W}
    {SL : StorageLaws S} {A : AccountEnv W} {AL : AccountLaws A} {N : Sockets W} {B : ChallengeLib W} {G : Lego W}
    {V : AcmeVars W} t (s s' : acmeState (W:=W)) c e w1 k w2 :
  let ca := choose_ca t (manager s) (default_acme s) in
  let email := Email (manager s) in
  proper_account ca email -> stored_email email <> "" ->
  Load (storageKeyUserReg ca email) (world (a_prog (a_arena s))) = (Err e, w1) -> generate_P384 w1 = (Ok k, w2) ->
  newACMEClient t false s = (Ok c, s') ->
  let stored := kv (world (a_prog (a_arena s'))) in
  exists reg b kb, stored !! storageKeyUserReg ca email = Some b /\
    unmarshal_user b = Ok (Some (email, Some reg)) /\
    encodePrivateKey (EcdsaKey k) = Ok kb /\ stored !! storageKeyUserPrivateKey ca email = Some kb.
Proof.
  intros ca email Hp Hne HL Hg. unfold newACMEClient. cbv zeta. fold ca email.
  destruct (url_Parse ca) as [u|]; [| done]. destruct (negb (is_secure u)); [done |].
  unfold bind at 1, on_net at 1, in_arena at 1, in_world at 1, in_prog at 1, lift at 1.
  assert (getUser ca email (world (a_prog (a_arena s))) = (Ok (mkUser email None (EcdsaKey k)), w2)) as ->.
  { unfold getUser, bind, try. rewrite HL. cbn [is_ErrNotExist]. unfold newUser, bind, wrap_err. by rewrite Hg. }
  unfold bind at 1. destruct (get_client _ _ _) as [[h | |] s1]; [| done | done]. cbn [Registration].
  unfold bind at 1, register. unfold bind at 1, ret at 1. unfold bind at 1, the_manager. unfold bind.
  destruct (on_net (Register _ _ _) s1) as [[reg | |] s2]; [| done | done]. cbn [user_Email user_key].
  unfold wrap_err, on_net, in_arena, in_world, in_prog, lift.
  destruct (saveUser ca _ _) as [[[] | |] w3] eqn:Hs; [| done | done]. intros [= <- <-].
  apply saveUser_stores in Hs as (b & kb & Hb & Hkb & H1 & H2); [| done | done].
  exists reg, b, kb. cbn in *. split_and!; [done | by apply user_law | done | done].
Qed.

Lemma unreadable_account_replaced_witness :
  exists c s' b, newACMEClient false false (fresh_start "https://ca/dir" "") = (Ok c, s') /\
    kv (world (a_prog (a_arena s'))) !! storageKeyUserReg "https://ca/dir" "me@a.com" = Some b.
Proof.
  destruct (newACMEClient false false (fresh_start "https://ca/dir" "")) as [r s'] eqn:He.
  assert (r = Ok (mkClient "https://ca/dir" 1)) as -> by (vm_compute in He; by injection He as <- _).
  destruct (unreadable_account_replaced false (fresh_start "https://ca/dir" "") s' (mkClient "https://ca/dir" 1)
              ErrIsNotExist (world (a_prog at_rest)) "NEW" (world (a_prog at_rest)))
    as (reg & b & kb & Hb & _).
  - split; split; by vm_compute.
  - by vm_compute.
  - vm_compute. reflexivity.
  - vm_compute. reflexivity.
  - exact He.
  - exists (mkClient "https://ca/dir" 1), s', b. by split.
Defined.

(** C7: what [Issue] returns. A certificate comes from a client of the endpoint
    chosen for production, or, on a retry, from the test endpoint when that
    client is not recognised as one of the test CA or is the CA itself; so with
    a test CA that has a scheme and is another one than the CA, a certificate
    of the test CA is never returned. When the test CA has issued but
    production then fails, retries go on after "too many requests" and stop
    after any other error. *)
Theorem Issue_returns_production_certificate {U : UnicodeTables} {UL : UrlLib} {L : CertLib} {K : KeyLib} {W}
    {S : Storage W} {A : AccountEnv W} {N : Sockets W} {B : ChallengeLib W} {G : Lego W} {V : AcmeVars W}
    attempts csr (s : acmeState (W:=W)) :
  let m := manager s in
  (forall ic s', Issue attempts csr s = (Ok ic, s') ->
     exists c t, issued_by c csr ic /\ caURL c = choose_ca t m (default_acme s) /\
       (t = true -> exists n, attempts = Some n /\ (0 < n)%Z) /\
       (Contains (TestCA m) "://" = true -> CA m <> TestCA m -> t = false)) /\
  (forall n ic s1 err s2, attempts = Some n -> (0 < n)%Z -> config m <> None -> CA m <> TestCA m ->
     doIssue csr true s = (Ok (ic, true), s1) -> doIssue csr false s1 = (Err err, s2) ->
     exists err', Issue attempts csr s = (Err err', s2) /\
       (too_many_requests err = true -> err' = err) /\
       (too_many_requests err = false -> as_no_retry err' = true)).
Proof.
  intros m. split.
  - intros ic s' (c & t & Hby & Hurl & Ht)%Issue_Ok. fold m in Hurl, Ht. exists c, t.
    split; [done |]. split; [done |]. split; [by intros [? _]%Ht |].
    intros Hs Hne. destruct t; [| done]. destruct (Ht eq_refl) as [_ [Hu | Hc]]; [| by destruct Hne].
    exfalso. unfold choose_ca in Hurl. cbv zeta in Hurl.
    assert (TestCA m <> "") as Hn0 by (intros H0; rewrite H0 in Hs; by vm_compute in Hs).
    rewrite (bool_decide_eq_false_2 _ Hn0) in Hurl. cbn [andb] in Hurl.
    rewrite !(bool_decide_eq_false_2 _ Hn0), Hs in Hurl. cbn [negb] in Hurl.
    unfold usingTestCA in Hu. by rewrite (bool_decide_eq_false_2 _ Hn0), Hurl, bool_decide_eq_true_2 in Hu.
  - intros n ic s1 err s2 -> Hn Hc Hne Hd1 Hd2. unfold Issue, bind at 1, the_manager. fold m.
    destruct (config m); [| done]. cbv zeta. assert ((0 <? n)%Z = true) as -> by lia.
    unfold bind at 1. rewrite Hd1. unfold bind at 1.
    pose proof (doIssue_keeps csr true s) as [Hm _]. rewrite Hd1 in Hm. cbn [snd] in Hm. rewrite Hm. fold m.
    rewrite (bool_decide_eq_false_2 _ Hne). cbn [andb negb]. unfold bind, try. rewrite Hd2.
    destruct (too_many_requests err); eexists; (split; [reflexivity |]); by split.
Qed.

Lemma Issue_returns_production_certificate_witness :
  exists ic s' c, Issue (Some 1%Z) a_request (fresh_start "https://ca/dir" "https://test/dir") = (Ok ic, s') /\
    issued_by c a_request ic /\ caURL c = "https://ca/dir".
Proof.
  set (s := fresh_start "https://ca/dir" "https://test/dir").
  assert (fst (Issue (Some 1%Z) a_request s) = Ok (mkIssued "PEM" "meta")) as Hok by (vm_compute; reflexivity).
  exists (mkIssued "PEM" "meta"), (snd (Issue (Some 1%Z) a_request s)).
  assert (Issue (Some 1%Z) a_request s = (Ok (mkIssued "PEM" "meta"), snd (Issue (Some 1%Z) a_request s))) as He
    by (rewrite <- Hok; apply surjective_pairing).
  destruct (proj1 (Issue_returns_production_certificate (Some 1%Z) a_request s) _ _ He) as (c & t & Hby & Hurl & _ & Ht).
  exists c. split; [exact He |]. split; [exact Hby |]. rewrite Hurl, Ht; [by vm_compute | by vm_compute | done].
Defined.

(** C40: a test CA without a scheme is not recognised. Its endpoint gets
    ["https://"] in front, [usingTestCA] compares it with the setting as it is
    written, and so a certificate that a retry obtains from the test CA is
    returned as the real one. *)
Theorem schemeless_test_ca_issues {U : UnicodeTables} {UL : UrlLib} {L : CertLib} {K : KeyLib} {W}
    {S : Storage W} {A : AccountEnv W} {N : Sockets W} {B : ChallengeLib W} {G : Lego W} {V : AcmeVars W}
    n csr (s s' : acmeState (W:=W)) ic :
  TestCA (manager s) <> "" -> Contains (TestCA (manager s)) "://" = false -> (0 < n)%Z ->
  Issue (Some n) csr s = (Ok ic, s') ->
  exists c, issued_by c csr ic /\ caURL c = "https://" +:+ TestCA (manager s).
Proof.
  intros Hn0 Hs Hn. unfold Issue, bind at 1, the_manager. destruct (config (manager s)); [| done].
  cbv zeta. assert ((0 <? n)%Z = true) as -> by lia. unfold bind at 1.
  destruct (doIssue csr true s) as [[[ic0 used] | |] s1] eqn:Hd; [| done | done].
  apply doIssue_Ok in Hd as (_ & c & Hby & Hurl & Hused).
  assert (caURL c = "https://" +:+ TestCA (manager s)) as Hu.
  { rewrite Hurl. unfold choose_ca. cbv zeta. rewrite (bool_decide_eq_false_2 _ Hn0). cbn [andb].
    by rewrite !(bool_decide_eq_false_2 _ Hn0), Hs. }
  assert (used = false) as ->.
  { rewrite Hused. unfold usingTestCA. apply andb_false_iff. right. apply bool_decide_eq_false_2.
    rewrite Hu. intros Heq. apply (f_equal String.length) in Heq. rewrite length_app_str in Heq. cbn in Heq. lia. }
  unfold bind. cbn [andb]. intros [= <- _]. by exists c.
Qed.

Lemma schemeless_test_ca_issues_witness :
  exists s' c, Issue (Some 1%Z) a_request (fresh_start "https://ca/dir" "test/dir") =
      (Ok (mkIssued "PEM" "meta"), s') /\
    issued_by c a_request (mkIssued "PEM" "meta") /\ caURL c = "https://test/dir".
Proof.
  set (s := fresh_start "https://ca/dir" "test/dir").
  assert (fst (Issue (Some 1%Z) a_request s) = Ok (mkIssued "PEM" "meta")) as Hok by (vm_compute; reflexivity).
  assert (Issue (Some 1%Z) a_request s = (Ok (mkIssued "PEM" "meta"), snd (Issue (Some 1%Z) a_request s))) as He
    by (rewrite <- Hok; apply surjective_pairing).
  destruct (schemeless_test_ca_issues 1 a_request s _ _ ltac:(done) ltac:(reflexivity) ltac:(done) He) as (c & ? & Hc).
  exists (snd (Issue (Some 1%Z) a_request s)), c. split; [exact He |]. by split.
Defined.



(** [Revoke] never sends the certificate. Whenever it succeeds, the CA was
    asked to revoke the empty certificate; and it panics instead of returning
    an error when the stored issuer data lacks one of the three fields. *)
Theorem revoke_sends_no_certificate {U : UnicodeTables} {UL : UrlLib} {K : KeyLib} {W}
    {S : Storage W} {A : AccountEnv W} {N : Sockets W} {B : ChallengeLib W} {G : Lego W} {V : AcmeVars W}
    cert (s s' : acmeState (W:=W)) r :
  Revoke cert s = (r, s') ->
  (r = Ok () -> exists c w w', lego_Revoke (client c) "" w = (Ok (), w')) /\
  (forall c s1 meta field, newACMEClient false false s = (Ok c, s1) -> resource_fields (IssuerData cert) = Some meta ->
     field ∈ ["domain"; "certUrl"; "certStableURL"] -> meta !! field = None -> exists m, r = Panic m).
Proof.
  unfold Revoke, bind at 1. destruct (newACMEClient false false s) as [[c | e | m] s1] eqn:Hc.
  2: { intros [= <- <-]. by split. }
  2: { intros [= <- <-]. by split. }
  destruct (resource_fields (IssuerData cert)) as [meta|]; [| by intros [= <- <-]; split].
  intros He. split.
  - intros ->. unfold bind, string_field in He.
    destruct (meta !! "domain") as [[?|]|]; [| done..]. destruct (meta !! "certUrl") as [[?|]|]; [| done..].
    destruct (meta !! "certStableURL") as [[?|]|]; [| done..]. unfold ret in He.
    unfold on_net, in_arena, in_world, in_prog, lift in He.
    destruct (lego_Revoke (client c) "" _) as [r w'] eqn:Hr. injection He as -> _. eauto.
  - intros c' s1' meta' field [= <- <-] [= <-] Hf Hno. unfold bind, string_field in He.
    rewrite !elem_of_cons in Hf. destruct Hf as [-> | [-> | [-> | []%elem_of_nil]]]; rewrite Hno in He.
    + injection He as <- _. by eexists.
    + destruct (meta !! "domain") as [[?|]|]; injection He as <- _; by eexists.
    + destruct (meta !! "domain") as [[?|]|]; [| injection He as <- _; by eexists..].
      destruct (meta !! "certUrl") as [[?|]|]; injection He as <- _; by eexists.
Qed.

Lemma revoke_sends_no_certificate_witness :
  exists s' c w w', Revoke (mkResource ["a.com"] "PEM" "KEY" "complete") (fresh_start "https://ca/dir" "") = (Ok (), s') /\
    lego_Revoke (W:=wired) (client c) "" w = (Ok (), w').
Proof.
  set (s := fresh_start "https://ca/dir" ""). set (cert := mkResource ["a.com"] "PEM" "KEY" "complete").
  assert (fst (Revoke cert s) = Ok ()) as Hok by (vm_compute; reflexivity).
  assert (Revoke cert s = (Ok (), snd (Revoke cert s))) as He by (rewrite <- Hok; apply surjective_pairing).
  destruct (proj1 (revoke_sends_no_certificate cert s _ _ He) eq_refl) as (c & w & w' & Hr).
  exists (snd (Revoke cert s)), c, w, w'. by split.
Defined.
