(* ===== verification/Serving.v ===== *)
(** Serving certificates: [GetCertificate] of [src/handshake.go] with
    everything a handshake may do, loading a certificate from storage,
    obtaining one on demand and maintaining the one it has just loaded.

    [serving] is the program with the names another goroutine (or this one) is
    working on, the keys of [obtainCertWaitChans]. Waiting for such a goroutine
    is a parameter, any change of the state; [WaitChans.v] models the channels
    themselves. *)
From Stdlib Require Import Ascii.
From stdpp Require Import base tactics list strings gmap sets.
From Stdlib Require Import ZArith Lia SpecFloat.
From S2P Require Import Prelude GoTime GoStrings Net StorageKeys Certificates Cache Crypto Storage Ocsp Account.
From S2P Require Import Config Handshake Managed Maintain Solvers.

Local Open Scope string_scope.
Local Open Scope go_scope.

(** * Data *)

(** A [Config] with its on-demand settings and, if its issuer is one, the
    [*ACMEManager]. *)
Record tlsConfig := mkTlsConfig {
  t_cfg : Config;
  t_handshake : handshakeConfig;
  t_manager : option ACMEManager
}.

Record serving {W} := mkServing { s_prog : prog (W:=W); waiting : gset string }.
Arguments serving W : clear implicits.
Arguments mkServing {W} _ _.

(** Receiving from the wait channel of a name. *)
Class Waiting (W : Type) := wait_for : string -> M (serving W) unit.

Section Serving.
Context {U : UnicodeTables} {UL : UrlLib} {L : CertLib} {K : KeyLib} {O : OcspLib} {W : Type} {S : Storage W}
        {E : Env W} {H : Http W} {D : Disk W} {N : Sockets W} {B : ChallengeLib W} {Y : Waiting W}.

Definition on_prog {A} (m : M (prog (W:=W)) A) : M (serving W) A := fun s =>
  let '(r, p) := m (s_prog s) in (r, mkServing p (waiting s)).

Definition start_work (name : string) : M (serving W) unit := fun s =>
  (Ok (), mkServing (s_prog s) ({[name]} ∪ waiting s)).

(** [close(wait)] and [delete]. *)
Definition end_work (name : string) : M (serving W) unit := fun s =>
  (Ok (), mkServing (s_prog s) (waiting s ∖ {[name]})).

Definition clock : M (serving W) Z := fun s => (Ok (env_now (world (s_prog s))), s).

Section Bodies.
Context (cfg : tlsConfig) (hello : ClientHelloInfo).
(** The recursive call [cfg.getCertDuringHandshake(hello, true, false)]. *)
Context (again : M (serving W) Certificate).

Definition obtainOnDemandCertificate : M (serving W) Certificate := fun s =>
  let name := getNameFromClientHello hello in
  (if bool_decide (name ∈ waiting s) then
     let* _ := wait_for name in again
   else
     let* _ := start_work name in
     let* err := try (on_prog (ObtainCert (t_cfg cfg) name false)) in
     let* _ := end_work name in
     match err with
     | inr err => fail err
     | inl _ => again
     end) s.

(** When [checkIfCertShouldBeObtained] refuses, the work is not ended. *)
Definition renewDynamicCertificate (currentCert : Certificate) : M (serving W) Certificate := fun s =>
  let name := getNameFromClientHello hello in
  (if bool_decide (name ∈ waiting s) then
     let* _ := wait_for name in again
   else
     let* _ := start_work name in
     match checkIfCertShouldBeObtained (t_handshake cfg) name with
     | Some err =>
         let* _ := on_prog (on_cache (removeCertificate currentCert)) in fail err
     | None =>
         let* err := try (on_prog (RenewCert (t_cfg cfg) name false)) in
         let* _ :=
           match err with
           | inr _ => ret ()
           | inl _ =>
               let* newCert := try (on_prog (CacheManagedCertificate (t_cfg cfg) name)) in
               match newCert with
               | inr _ => ret ()
               | inl newCert => on_prog (on_cache (replaceCertificate currentCert newCert))
               end
           end in
         let* _ := end_work name in
         match err with
         | inr err => fail err
         | inl _ => again
         end
     end) s.

(** The error of [stapleOCSP] is logged. *)
Definition handshakeMaintenance (cert : Certificate) : M (serving W) Certificate :=
  match Leaf (tls cert) with
  | None => panic "nil pointer dereference"
  | Some leaf =>
      let* now := clock in
      if currentlyInRenewalWindow now (NotBefore leaf) (NotAfter leaf) (RenewalWindowRatio (t_cfg cfg))
      then renewDynamicCertificate cert
      else
        match ocsp cert with
        | None => ret cert
        | Some resp =>
            let refreshTime := Add (ThisUpdate resp) (Z.quot (Sub (NextUpdate resp) (ThisUpdate resp)) 2) in
            let* now := clock in
            if After now refreshTime then
              let* (cert, _, _) := on_prog (lift (stapleOCSP cert None)) in
              let* _ := on_prog (on_cache (fun c => Ok (mkMaps (<[hash cert := cert]> (cache c)) (cacheIndex c)))) in
              ret cert
            else ret cert
        end
  end.
End Bodies.

(** [fuel] bounds the recursion. The error of [handshakeMaintenance] is logged,
    and what it returned with it, the zero certificate, is served. *)
Fixpoint getCertDuringHandshake (fuel : nat) (cfg : tlsConfig) (hello : ClientHelloInfo)
    (loadIfNecessary obtainIfNecessary : bool) : M (serving W) Certificate :=
  match fuel with
  | Datatypes.O => panic "fuel"
  | Datatypes.S fuel' =>
      let again := getCertDuringHandshake fuel' cfg hello true false in
      let* now := clock in
      let* (cert, matched, defaulted) :=
        fun s => (getCertificate (t_handshake cfg) now (certs (s_prog s)) hello, s) in
      if (matched : bool) then ret cert
      else
        let name := getNameFromClientHello hello in
        let fall_back := if (defaulted : bool) then ret cert else fail (ErrStr "no certificate available") in
        match OnDemand (t_handshake cfg) with
        | Some _ =>
            if loadIfNecessary then
              let* loadedCert := try (on_prog (CacheManagedCertificate (t_cfg cfg) name)) in
              match loadedCert with
              | inl loadedCert =>
                  let* r := try (handshakeMaintenance cfg hello again loadedCert) in
                  match r with
                  | inl loadedCert => ret loadedCert
                  | inr _ => ret zeroCert
                  end
              | inr _ =>
                  if obtainIfNecessary then
                    match checkIfCertShouldBeObtained (t_handshake cfg) name with
                    | Some err => fail err
                    | None => obtainOnDemandCertificate cfg hello again
                    end
                  else fall_back
              end
            else fall_back
        | None => fall_back
        end
  end.

(** The loop of [GetCertificate] over the protocols: [Some] when the handshake
    is for a TLS-ALPN challenge. *)
Fixpoint challenge_protocol (protos : list string) : bool :=
  match protos with
  | [] => false
  | proto :: rest => bool_decide (proto = ACMETLS1Protocol) || challenge_protocol rest
  end.

Definition GetCertificate (fuel : nat) (cfg : tlsConfig) (hello : ClientHelloInfo) : M (serving W) tlsCert :=
  let* _ := on_prog (emit "tls_handshake_started" (EvHello (ServerName hello))) in
  if challenge_protocol (SupportedProtos hello) then
    let* challengeCert := fun s => (Ok (cache (certs (s_prog s)) !! tlsALPNCertKeyName (ServerName hello)), s) in
    match challengeCert with
    | Some challengeCert => ret (tls challengeCert)
    | None =>
        let* r := try (on_prog (lift (tryDistributedChallengeSolver (t_manager cfg) hello))) in
        match r with
        | inl (Some challengeCert) => ret (tls challengeCert)
        | _ => fail (ErrStr "no certificate to complete TLS-ALPN challenge")
        end
    end
  else
    let* cert := getCertDuringHandshake fuel cfg hello true true in
    let* _ := on_prog (emit "tls_handshake_completed" (EvHello (ServerName hello))) in
    ret (tls cert).

End Serving.

(** * Lemmas *)

Section Facts.
Context {U : UnicodeTables} {UL : UrlLib} {L : CertLib} {CL : ChainLaws L} {K : KeyLib} {O : OcspLib} {W : Type}
        {S : Storage W} {E : Env W} {H : Http W} {D : Disk W} {N : Sockets W} {B : ChallengeLib W} {Y : Waiting W}.

Lemma bind_ok {X A A'} (m : M X A) (f : A -> M X A') x a x' : m x = (Ok a, x') -> bind m f x = f a x'.
Proof. intros Hm. unfold bind. by rewrite Hm. Qed.

Lemma bind_panic {X A A'} (m : M X A) (f : A -> M X A') x msg x' : m x = (Panic msg, x') -> bind m f x = (Panic msg, x').
Proof. intros Hm. unfold bind. by rewrite Hm. Qed.

(** [try] of a part that works on the program. *)
Lemma try_on_prog {A} (m : M (prog (W:=W)) A) s r p :
  m (s_prog s) = (r, p) ->
  try (on_prog m) s = (match r with Ok a => Ok (inl a) | Err e => Ok (inr e) | Panic x => Panic x end,
                       mkServing p (waiting s)).
Proof. intros Hm. unfold try, on_prog. rewrite Hm. by destruct r. Qed.

Lemma on_prog_ok {A} (m : M (prog (W:=W)) A) s r p :
  m (s_prog s) = (r, p) -> on_prog m s = (r, mkServing p (waiting s)).
Proof. intros Hm. unfold on_prog. by rewrite Hm. Qed.

Lemma CacheManaged_Err cfg domain s e s' :
  CacheManagedCertificate cfg domain s = (Err e, s') -> certs s' = certs s.
Proof.
  unfold CacheManagedCertificate, bind at 1. pose proof (loadManaged_same cfg domain s) as Hs.
  destruct (loadManagedCertificate cfg domain s) as [[c | |] s1]; [done | by intros [= _ <-] | done].
Qed.

(** ** A certificate in memory ends the recursion *)

Section Name.
Context (cfg : tlsConfig) (hello : ClientHelloInfo) (name : string).
Context (Hsel : CertSelection (t_handshake cfg) = None) (Hname : NormalizedName (ServerName hello) = name)
        (Hne : name <> "") (Hone : one_name (W:=W) (t_cfg cfg) name).

Lemma hello_name : getNameFromClientHello hello = name.
Proof.
  unfold getNameFromClientHello. rewrite Hname. destruct (LocalAddr hello); [| done].
  by rewrite (bool_decide_eq_false_2 _ Hne).
Qed.

Lemma served_matched now c : good_cache c -> served name c ->
  exists cert, getCertificate (t_handshake cfg) now c hello = Ok (cert, true, false).
Proof.
  intros [Hwf Hg] Hs. unfold getCertificate. rewrite Hname. cbv zeta. rewrite (bool_decide_eq_false_2 _ Hne).
  unfold selectCert. rewrite Hsel. destruct (getAllMatchingCerts c name) as [|x l] eqn:Hl; [done |].
  cbn [length Nat.eqb]. unfold DefaultCertificateSelector.
  destruct (select_loop_spec now hello (x :: l) x) as (cert & He & _).
  - apply Forall_forall. intros y Hy. rewrite <- Hl in Hy. apply elem_of_matching in Hy as [Hy _]; [| done].
    by destruct (Hg _ _ Hy).
  - rewrite He. by exists cert.
Qed.

Lemma hit f l o s : good_cache (certs (s_prog s)) -> served name (certs (s_prog s)) ->
  exists cert, getCertDuringHandshake (Datatypes.S f) cfg hello l o s = (Ok cert, s) /\
    getCertificate (t_handshake cfg) (env_now (world (s_prog s))) (certs (s_prog s)) hello = Ok (cert, true, false).
Proof.
  intros Hg Hs. destruct (served_matched (env_now (world (s_prog s))) _ Hg Hs) as [cert Hc].
  exists cert. split; [| done]. cbn [getCertDuringHandshake]. unfold bind, clock. cbv beta. by rewrite Hc.
Qed.

(** Two ways to go on that agree once a certificate for the name is cached. *)
Lemma renew_agree again1 again2 cert s :
  (forall s, good_cache (certs (s_prog s)) -> served name (certs (s_prog s)) -> again1 s = again2 s) ->
  good_cache (certs (s_prog s)) -> served name (certs (s_prog s)) -> genuine cert ->
  name ∉ waiting s ->
  renewDynamicCertificate cfg hello again1 cert s = renewDynamicCertificate cfg hello again2 cert s.
Proof.
  intros Ha Hg Hs Hc Hw.
  unfold renewDynamicCertificate. rewrite hello_name. cbv zeta.
  rewrite (bool_decide_eq_false_2 _ Hw). rewrite !(bind_ok (start_work name) _ s tt _ eq_refl).
  destruct (checkIfCertShouldBeObtained _ _); [done |]. set (s1 := mkServing _ _).
  pose proof (RenewCert_same (t_cfg cfg) name false (s_prog s1)) as Hsame.
  destruct (RenewCert (t_cfg cfg) name false (s_prog s1)) as [r p1] eqn:Hr. apply try_on_prog in Hr. cbn [snd] in Hsame.
  destruct r as [[] | e | x].
  2: { by rewrite !(bind_ok _ _ _ _ _ Hr). }
  2: { by rewrite !(bind_panic _ _ _ _ _ Hr). }
  rewrite !(bind_ok _ _ _ _ _ Hr). set (s2 := mkServing p1 _).
  destruct (CacheManagedCertificate (t_cfg cfg) name (s_prog s2)) as [r p2] eqn:Hcm.
  pose proof (try_on_prog _ _ _ _ Hcm) as Ht. destruct r as [c | e | x].
  3: { unfold bind at 1 4. by rewrite !(bind_panic _ _ _ _ _ Ht). }
  - apply CacheManaged_served in Hcm as (Hg2 & Hs2 & Hgen & Hnm); [| done | cbn; by rewrite Hsame].
    destruct (replace_good cert c (certs p2) Hg2 Hc Hgen) as (c' & Hrep & Hg' & Hc').
    match goal with |- bind ?m _ _ = _ => assert (exists p3, m s2 = (Ok tt, mkServing p3 (waiting s2)) /\ certs p3 = c') as (p3 & Hm & Hp3) end.
    { rewrite (bind_ok _ _ _ _ _ Ht). eexists. split; [apply (on_prog_ok _ (mkServing p2 (waiting s2))); cbn; unfold on_cache; by rewrite Hrep | done]. }
    rewrite !(bind_ok _ _ _ _ _ Hm). rewrite !(bind_ok (end_work name) _ _ tt _ eq_refl).
    apply Ha; cbn; rewrite Hp3; [done |].
    eapply put_new_served; [done | exact Hgen | rewrite Hnm; by left | by eexists].
  - pose proof (CacheManaged_Err _ _ _ _ _ Hcm) as Hsame2. cbn in Hsame2.
    match goal with |- bind ?m _ _ = _ => assert (m s2 = (Ok tt, mkServing p2 (waiting s2))) as Hm end.
    { by rewrite (bind_ok _ _ _ _ _ Ht). }
    rewrite !(bind_ok _ _ _ _ _ Hm). rewrite !(bind_ok (end_work name) _ _ tt _ eq_refl).
    apply Ha; cbn; by rewrite Hsame2, Hsame.
Qed.

Lemma maintenance_agree again1 again2 cert s :
  (forall s, good_cache (certs (s_prog s)) -> served name (certs (s_prog s)) -> again1 s = again2 s) ->
  good_cache (certs (s_prog s)) -> served name (certs (s_prog s)) -> genuine cert ->
  name ∉ waiting s ->
  handshakeMaintenance cfg hello again1 cert s = handshakeMaintenance cfg hello again2 cert s.
Proof.
  intros Ha Hg Hs Hc Hw. unfold handshakeMaintenance. destruct (Leaf (tls cert)) as [leaf|]; [| done].
  rewrite !(bind_ok clock _ s _ s eq_refl). destruct (currentlyInRenewalWindow _ _ _ _); [by apply renew_agree |].
  done.
Qed.

(** One level of the recursion: what it leaves to [again] is either only done
    with a certificate cached, or, after obtaining one, without being allowed to
    obtain another. *)
Lemma level_agree f1 f2 o s :
  (forall s, good_cache (certs (s_prog s)) -> served name (certs (s_prog s)) ->
     getCertDuringHandshake f1 cfg hello true false s = getCertDuringHandshake f2 cfg hello true false s) ->
  (o = true -> forall s, good_cache (certs (s_prog s)) -> name ∉ waiting s ->
     getCertDuringHandshake f1 cfg hello true false s = getCertDuringHandshake f2 cfg hello true false s) ->
  good_cache (certs (s_prog s)) -> name ∉ waiting s ->
  getCertDuringHandshake (Datatypes.S f1) cfg hello true o s = getCertDuringHandshake (Datatypes.S f2) cfg hello true o s.
Proof.
  intros Hserved Hgood Hg Hw. cbn [getCertDuringHandshake]. cbv zeta.
  rewrite !(bind_ok clock _ s _ s eq_refl).
  set (look := fun s0 : serving W =>
    (getCertificate (t_handshake cfg) (env_now (world (s_prog s))) (certs (s_prog s0)) hello, s0)).
  assert (look s = (getCertificate (t_handshake cfg) (env_now (world (s_prog s))) (certs (s_prog s)) hello, s)) as Hl by done.
  destruct (getCertificate _ _ (certs (s_prog s)) hello) as [[[cert matched] defaulted] | e | x].
  2: { unfold bind. by rewrite Hl. }
  2: { by rewrite !(bind_panic _ _ _ _ _ Hl). }
  rewrite !(bind_ok _ _ _ _ _ Hl).
  destruct matched; [done |]. destruct (OnDemand _); [| done]. rewrite hello_name.
  destruct (CacheManagedCertificate (t_cfg cfg) name (s_prog s)) as [r p1] eqn:Hcm.
  pose proof (try_on_prog _ _ _ _ Hcm) as Ht. destruct r as [c | e | x].
  3: { by rewrite !(bind_panic _ _ _ _ _ Ht). }
  - rewrite !(bind_ok _ _ _ _ _ Ht).
    apply CacheManaged_served in Hcm as (Hg1 & Hs1 & Hgen & _); [| done | done].
    unfold bind, try. rewrite (maintenance_agree _ _ c _ Hserved); done.
  - rewrite !(bind_ok _ _ _ _ _ Ht). pose proof (CacheManaged_Err _ _ _ _ _ Hcm) as Hsame.
    destruct o; [| done]. destruct (checkIfCertShouldBeObtained _ _); [done |].
    unfold obtainOnDemandCertificate. rewrite hello_name. cbv zeta. cbn [waiting].
    rewrite (bool_decide_eq_false_2 _ Hw). set (s1 := mkServing p1 _).
    rewrite !(bind_ok (start_work name) _ s1 tt _ eq_refl). set (s2 := mkServing _ _).
    pose proof (ObtainCert_same (t_cfg cfg) name false (s_prog s2)) as Hsame2.
    destruct (ObtainCert (t_cfg cfg) name false (s_prog s2)) as [r p2] eqn:Hob. apply try_on_prog in Hob.
    cbn [snd] in Hsame2. destruct r as [[] | e' | x].
    3: { by rewrite !(bind_panic _ _ _ _ _ Hob). }
    2: { by rewrite !(bind_ok _ _ _ _ _ Hob). }
    rewrite !(bind_ok _ _ _ _ _ Hob). rewrite !(bind_ok (end_work name) _ _ tt _ eq_refl).
    apply Hgood; [done | cbn; by rewrite Hsame2; cbn; rewrite Hsame | cbn; set_solver].
Qed.

Lemma fuel_served k1 k2 l o s : good_cache (certs (s_prog s)) -> served name (certs (s_prog s)) ->
  getCertDuringHandshake (Datatypes.S k1) cfg hello l o s = getCertDuringHandshake (Datatypes.S k2) cfg hello l o s.
Proof.
  intros Hg Hs. destruct (hit k1 l o s Hg Hs) as (c1 & -> & H1), (hit k2 l o s Hg Hs) as (c2 & -> & H2). congruence.
Qed.

Lemma fuel_load k s : good_cache (certs (s_prog s)) -> name ∉ waiting s ->
  getCertDuringHandshake (2 + k) cfg hello true false s = getCertDuringHandshake 2 cfg hello true false s.
Proof.
  intros Hg Hw. refine (level_agree (Datatypes.S k) 1 false s _ _ Hg Hw); [| done].
  intros s' Hg' Hs'. exact (fuel_served k 0 true false s' Hg' Hs').
Qed.

Lemma fuel_obtain k s : good_cache (certs (s_prog s)) -> name ∉ waiting s ->
  getCertDuringHandshake (3 + k) cfg hello true true s = getCertDuringHandshake 3 cfg hello true true s.
Proof.
  intros Hg Hw. refine (level_agree (Datatypes.S (Datatypes.S k)) 2 true s _ _ Hg Hw).
  - intros s' Hg' Hs'. exact (fuel_served (Datatypes.S k) 1 true false s' Hg' Hs').
  - intros _ s' Hg' Hw'. exact (fuel_load k s' Hg' Hw').
Qed.
End Name.
End Facts.

(** * An example environment *)

#[local] Existing Instance ascii_tables.
#[local] Existing Instance url_lib.
#[local] Existing Instance due_lib.
#[local] Existing Instance due_chain_laws.
#[local] Existing Instance responder_ocsp.
#[local] Existing Instance tag_lib.

(** Nobody else is at work. *)
Definition alone {W} : Waiting W := fun _ s => (Ok (), s).

#[local] Existing Instance alone.

Lemma due_one_name : one_name (W:=mem) (S:=mem_storage) (E:=mem_env) (H:=mem_http) example_cfg "a.com".
Proof.
  intros s cert s' Hl. apply loadManagedCertificate_genuine in Hl as (_ & t & c & Hf & _ & ->).
  apply fillCertFromLeaf_Ok in Hf as (d & ? & l & _ & ->%due_lib_names & _ & -> & _).
  vm_compute. reflexivity.
Qed.

(** On-demand TLS for names that [decide] does not refuse. *)
Definition on_demand (decide : string -> option error) : tlsConfig :=
  {| t_cfg := example_cfg; t_manager := Some some_manager;
     t_handshake := {| DefaultServerName := ""; OnDemand := Some (mkOnDemand (Some decide) []);
                       CertSelection := None |} |}.

Definition hello_for (sni : string) (protos : list string) : ClientHelloInfo :=
  {| ServerName := sni; LocalAddr := None; SupportedProtos := protos; SupportsCertificate := fun _ => true |}.

(** The certificate of ["a.com"] is in storage and due for renewal. *)
Definition stored_due : serving mem :=
  mkServing (mkProg {| m_kv := {[SiteCert "ca" "a.com" := "PEM"; SitePrivateKey "ca" "a.com" := "KEY";
                                 SiteMeta "ca" "a.com" := frame "a.com" "meta"]};
                       m_locked := ∅; m_fail := ∅ |} ∅ empty_maps []) ∅.

Lemma stored_due_good : good_cache (certs (s_prog stored_due)).
Proof. split; [apply empty_wf |]. intros h cert. cbn. by rewrite lookup_empty. Qed.

(** * Properties *)



(** C38: an on-demand handshake can serve a certificate that is none. If no
    cached certificate matches, the one in storage is loaded and is due, and its
    renewal fails or is refused, then the handshake goes on, without an error
    and with the zero certificate, although a certificate was available; after
    a refusal the name stays blocked as well. *)
Theorem failed_renewal_serves_zero {U : UnicodeTables} {L : CertLib} {K : KeyLib}
    {O : OcspLib} {W} {S : Storage W} {E : Env W} {H : Http W} {Y : Waiting W}
    cfg hello f obtain o c0 d cert leaf p1 (s : serving W) :
  let name := getNameFromClientHello hello in
  OnDemand (t_handshake cfg) = Some o ->
  getCertificate (t_handshake cfg) (env_now (world (s_prog s))) (certs (s_prog s)) hello = Ok (c0, false, d) ->
  CacheManagedCertificate (t_cfg cfg) name (s_prog s) = (Ok cert, p1) -> Leaf (tls cert) = Some leaf ->
  currentlyInRenewalWindow (env_now (world p1)) (NotBefore leaf) (NotAfter leaf) (RenewalWindowRatio (t_cfg cfg)) = true ->
  name ∉ waiting s ->
  (forall e p2, checkIfCertShouldBeObtained (t_handshake cfg) name = None ->
     RenewCert (t_cfg cfg) name false p1 = (Err e, p2) ->
     exists s', getCertDuringHandshake (Datatypes.S f) cfg hello true obtain s = (Ok zeroCert, s')) /\
  (forall e p2, checkIfCertShouldBeObtained (t_handshake cfg) name = Some e ->
     on_cache (removeCertificate cert) p1 = (Ok (), p2) ->
     exists s', getCertDuringHandshake (Datatypes.S f) cfg hello true obtain s = (Ok zeroCert, s') /\
       name ∈ waiting s').
Proof.
  intros name Ho Hc Hcm Hleaf Hdue Hw.
  assert (forall e s', renewDynamicCertificate cfg hello (getCertDuringHandshake f cfg hello true false) cert
                         (mkServing p1 (waiting s)) = (Err e, s') ->
            getCertDuringHandshake (Datatypes.S f) cfg hello true obtain s = (Ok zeroCert, s')) as Hz.
  { intros e s' Hr. cbn [getCertDuringHandshake]. cbv zeta. rewrite (bind_ok clock _ s _ s eq_refl).
    unfold bind at 1. rewrite Hc, Ho. fold name.
    rewrite (bind_ok _ _ _ _ _ (try_on_prog _ _ _ _ Hcm)). unfold bind at 1, try, handshakeMaintenance.
    rewrite Hleaf, (bind_ok clock _ (mkServing p1 (waiting s)) _ _ eq_refl). cbn [s_prog]. by rewrite Hdue, Hr. }
  split.
  - intros e p2 Hcheck Hren. eexists. apply (Hz e). unfold renewDynamicCertificate. fold name. cbv zeta.
    cbn [waiting]. rewrite (bool_decide_eq_false_2 _ Hw), (bind_ok (start_work name) _ _ tt _ eq_refl), Hcheck.
    cbn [s_prog waiting].
    rewrite (bind_ok _ _ _ _ _ (try_on_prog _ (mkServing p1 ({[name]} ∪ waiting s)) _ _ Hren)).
    unfold bind, ret, end_work, fail. reflexivity.
  - intros e p2 Hcheck Hrem. eexists. split.
    { apply (Hz e). unfold renewDynamicCertificate. fold name. cbv zeta. cbn [waiting].
      rewrite (bool_decide_eq_false_2 _ Hw), (bind_ok (start_work name) _ _ tt _ eq_refl), Hcheck.
      cbn [s_prog waiting].
      rewrite (bind_ok _ _ _ _ _ (on_prog_ok _ (mkServing p1 ({[name]} ∪ waiting s)) _ _ Hrem)). reflexivity. }
    cbn. set_solver.
Qed.

Lemma failed_renewal_serves_zero_witness :
  exists s', getCertDuringHandshake (H:=mem_http) (E:=mem_env) 3 (on_demand (fun _ => Some (ErrStr "no")))
      (hello_for "A.com" []) true true stored_due = (Ok zeroCert, s') /\ "a.com" ∈ waiting s'.
Proof.
  set (cfg := on_demand (fun _ => Some (ErrStr "no"))).
  set (r := CacheManagedCertificate (H:=mem_http) (E:=mem_env) example_cfg "a.com" (s_prog stored_due)).
  destruct (failed_renewal_serves_zero (H:=mem_http) (E:=mem_env) cfg (hello_for "A.com" []) 2 true
    (mkOnDemand (Some (fun _ => Some (ErrStr "no"))) []) zeroCert false due_cert due_leaf (snd r) stored_due)
    as [_ Hrefused].
  - reflexivity.
  - vm_compute. reflexivity.
  - vm_compute. reflexivity.
  - reflexivity.
  - vm_compute. reflexivity.
  - by apply not_elem_of_empty.
  - apply (Hrefused (ErrStr "no") (snd (on_cache (removeCertificate due_cert) (snd r)))); vm_compute; reflexivity.
Defined.

(** C18: a TLS-ALPN challenge is answered by the handshake. After the solver
    has presented a challenge for a domain, a handshake that offers the
    challenge protocol for that server name gets the challenge certificate; and
    such a handshake never gets any other: without a cached challenge and
    without one in storage it fails, and no certificate is looked up, obtained
    or renewed. *)
Theorem tls_alpn_roundtrip {U : UnicodeTables} {UL : UrlLib} {L : CertLib} {K : KeyLib} {O : OcspLib} {W}
    {S : Storage W} {SL : StorageLaws S} {E : Env W} {H : Http W} {N : Sockets W} {B : ChallengeLib W}
    {NL : SocketLaws N B} {Y : Waiting W} f cfg hello :
  challenge_protocol (SupportedProtos hello) = true ->
  (forall foreign (s s1 : arena (W:=W)) address t k cert w' ws, sound foreign s ->
     ChallengeCert (ServerName hello) k (world (a_prog s)) = (Ok (Some cert), w') ->
     Present (tlsALPNSolver address) (ServerName hello) t k s = (Ok (), s1) ->
     exists s2, GetCertificate f cfg hello (mkServing (a_prog s1) ws) = (Ok cert, s2)) /\
  (forall (s : serving W), cache (certs (s_prog s)) !! tlsALPNCertKeyName (ServerName hello) = None ->
     (forall m, t_manager cfg = Some m ->
        kv (world (s_prog s)) !! challengeTokensKey (CA m) (ServerName hello) = None) ->
     exists e s2, GetCertificate f cfg hello s = (Err e, s2) /\ certs (s_prog s2) = certs (s_prog s) /\
       same_storage (world (s_prog s)) (world (s_prog s2))).
Proof.
  intros Hp. split.
  - intros foreign s s1 address t k cert w' ws [Hc Hn Hf Hi] Hcert. cbn [Present tlsALPNSolver].
    unfold bind at 1, in_world, in_prog, lift. rewrite Hcert.
    destruct (ChallengeCert_law (ServerName hello) k (world (a_prog s))) as [_ [_ Ho]].
    rewrite Hcert in Ho. cbn [snd] in Ho. unfold bind, with_certs. set (s2 := mkArena (mkProg _ _ _ _) _).
    assert (sound foreign s2) as Hs2 by (split; try done; unfold net in *; cbn; by rewrite Ho).
    destruct (join_spec foreign s2 address Hs2) as (r & s3 & -> & _ & _ & _ & (_ & _ & Hcerts & _) & _).
    intros [= -> ->]. unfold GetCertificate, bind, on_prog, emit. rewrite Hp. cbn.
    rewrite Hcerts. cbn. rewrite lookup_insert_eq. by eexists.
  - intros s Hno Hst. unfold GetCertificate, bind at 1, on_prog at 1, emit. rewrite Hp. cbn [s_prog].
    unfold bind at 1. cbn [s_prog certs waiting]. rewrite Hno. unfold bind, try, on_prog, lift.
    cbn [s_prog world]. unfold tryDistributedChallengeSolver. destruct (t_manager cfg) as [m|].
    2: { eexists _, _. split; [reflexivity |]. by split. }
    unfold bind, try. destruct (Load _ (world (s_prog s))) as [rl w1] eqn:HL.
    apply Load_law in HL as (Hpan & Hlk & Hkv & Hv). destruct rl as [v | e | x]; [| | by destruct (Hpan x)].
    { specialize (Hv v eq_refl). by rewrite (Hst m eq_refl) in Hv. }
    eexists _, _. split; [reflexivity |]. by split.
Qed.

#[local] Existing Instance wired_storage.
#[local] Existing Instance wired_laws.
#[local] Existing Instance wired_sockets.
#[local] Existing Instance wired_lib.
#[local] Existing Instance wired_socket_laws.
#[local] Existing Instance wired_env.
#[local] Existing Instance wired_http.

Lemma tls_alpn_roundtrip_witness :
  exists s2, GetCertificate (W:=wired) 3 (on_demand (fun _ => None)) (hello_for "a.com" ["acme-tls/1"])
    (mkServing (a_prog (snd (Present (tlsALPNSolver ":443") "a.com" "tok" "key" at_rest))) ∅) =
    (Ok (mkTls ["CHALLENGE"] "key" None ""), s2).
Proof.
  refine (proj1 (tls_alpn_roundtrip (W:=wired) 3 (on_demand (fun _ => None)) (hello_for "a.com" ["acme-tls/1"]) _)
    {[7%nat]} at_rest _ ":443" "tok" "key" _ (world (a_prog at_rest)) ∅ at_rest_sound _ _).
  - vm_compute. reflexivity.
  - reflexivity.
  - vm_compute. reflexivity.
Defined.
