(* ===== verification/Defaults.v ===== *)
(** Making configurations: [New], [NewDefault] and [newWithCache] of
    [src/config.go] with the package variables they read, [TLSConfig] and its
    cipher suites ([src/crypto.go]), and the functions of [src/otomatik.go]
    that work on the default configuration ([TLS], [Listen], [ManageSync],
    [ManageAsync]; [HTTPS] is in [Lifecycle.v]).

    A pointer is an address: a configuration, a cache and an on-demand
    configuration live in lists of what has been allocated, and a pointer of the
    caller's (a callback, a key source, a storage) is a number. *)
From Stdlib Require Import Ascii.
From stdpp Require Import base tactics list strings gmap sets.
From Stdlib Require Import ZArith Lia SpecFloat.
From S2P Require Import Prelude GoTime GoStrings Net JobManager Retry StorageKeys Certificates Cache Crypto.
From S2P Require Import Storage Ocsp Account Config Handshake Managed Solvers.

Local Open Scope string_scope.
Local Open Scope go_scope.

(** * Data *)

(** An [Issuer] or [Revoker]: an [*ACMEManager] or one of the caller's. *)
Inductive issuer := AcmeIssuer (m : ACMEManager) | UserIssuer (id : nat).

Record fields := mkFields {
  f_RenewalWindowRatio : float64;
  f_OnEvent : option nat;
  f_DefaultServerName : string;
  f_OnDemand : option nat;
  f_MustStaple : bool;
  f_Issuer : option issuer;
  f_Revoker : option issuer;
  f_KeySource : option nat;
  f_CertSelection : option nat;
  f_Storage : option nat;
  f_certCache : option nat
}.

(** The callback of a cache: the closure of [NewDefault], or the caller's. *)
Inductive getter := FromNewDefault | FromUser (id : nat).

(** The package variables [Default], [DefaultACME] and [defaultCache] with all
    the configurations and caches there are. *)
Record package := mkPackage {
  Default : fields;
  pkg_DefaultACME : ACMEManager;
  defaultCache : option nat;
  configs : list fields;
  caches : list (CacheOptions (Config:=getter) * cacheMaps)
}.

Definition set_configs (l : list fields) (p : package) : package :=
  {| Default := Default p; pkg_DefaultACME := pkg_DefaultACME p; defaultCache := defaultCache p;
     configs := l; caches := caches p |}.

(** The addresses of [DefaultKeyGenerator] and [defaultFileStorage]. *)
Definition defaultKeySource : nat := 0.
Definition defaultFileStorage : nat := 0.

Definition initial_Default : fields :=
  {| f_RenewalWindowRatio := DefaultRenewalWindowRatio; f_OnEvent := None; f_DefaultServerName := "";
     f_OnDemand := None; f_MustStaple := false; f_Issuer := None; f_Revoker := None;
     f_KeySource := Some defaultKeySource; f_CertSelection := None; f_Storage := Some defaultFileStorage;
     f_certCache := None |}.

Definition initial_package : package :=
  {| Default := initial_Default; pkg_DefaultACME := initial_DefaultACME; defaultCache := None;
     configs := []; caches := [] |}.

(** * Configurations *)

(** A pointer field that is nil takes the default. *)
Definition or_else {A} (x y : option A) : option A := match x with None => y | _ => x end.

(** A nil [Issuer] or [Revoker] with its default: else a new ACME manager. *)
Definition issuer_or_acme (default : option issuer) (self : nat) (acme : ACMEManager) : res issuer :=
  match default with
  | Some i => Ok i
  | None => let! m := NewACMEManager (Some self) acme acme in Ok (AcmeIssuer m)
  end.

Definition issuer_and_revoker (d : fields) (acme : ACMEManager) (self : nat) (cfg : fields) :
    res (option issuer * option issuer) :=
  match f_Issuer cfg with
  | Some i => Ok (Some i, f_Revoker cfg)
  | None =>
      let! i := issuer_or_acme (f_Issuer d) self acme in
      match f_Revoker cfg with
      | Some r => Ok (Some i, Some r)
      | None => let! r := issuer_or_acme (f_Revoker d) self acme in Ok (Some i, Some r)
      end
  end.

(** The new configuration [&cfg] is the next address. *)
Definition newWithCache (certCache : option nat) (cfg : fields) : M package nat := fun p =>
  match certCache with
  | None => (Panic "cannot make a valid config without a pointer to a certificate cache", p)
  | Some c =>
      let d := Default p in
      let self := length (configs p) in
      match issuer_and_revoker d (pkg_DefaultACME p) self cfg with
      | Ok (i, r) =>
          (Ok self, set_configs (configs p ++ [
             {| f_RenewalWindowRatio := if float64_eqb (f_RenewalWindowRatio cfg) (S754_zero false)
                                        then f_RenewalWindowRatio d else f_RenewalWindowRatio cfg;
                f_OnEvent := or_else (f_OnEvent cfg) (f_OnEvent d);
                f_DefaultServerName := if bool_decide (f_DefaultServerName cfg = "")
                                       then f_DefaultServerName d else f_DefaultServerName cfg;
                f_OnDemand := or_else (or_else (f_OnDemand cfg) (f_OnDemand d)) (f_OnDemand d);
                f_MustStaple := if negb (f_MustStaple cfg) then f_MustStaple d else f_MustStaple cfg;
                f_Issuer := i;
                f_Revoker := r;
                f_KeySource := or_else (f_KeySource cfg) (f_KeySource d);
                f_CertSelection := f_CertSelection cfg;
                f_Storage := or_else (or_else (f_Storage cfg) (f_Storage d)) (Some defaultFileStorage);
                f_certCache := Some c |}]) p)
      | Err e => (Err e, p)
      | Panic m => (Panic m, p)
      end
  end.

(** [NewCache]; its maintenance goroutine is that of [caches]. *)
Definition make_cache (opts : CacheOptions (Config:=getter)) : M package nat := fun p =>
  match NewCache opts with
  | Ok c => (Ok (length (caches p)),
             {| Default := Default p; pkg_DefaultACME := pkg_DefaultACME p; defaultCache := defaultCache p;
                configs := configs p; caches := caches p ++ [c] |})
  | Err e => (Err e, p)
  | Panic m => (Panic m, p)
  end.

Definition default_options : CacheOptions (Config:=getter) :=
  {| GetConfigForCert := Some (fun _ => Ok (Some FromNewDefault));
     OCSPCheckInterval := 0; RenewCheckInterval := 0 |}.

Definition set_defaultCache (c : nat) : M package unit := fun p =>
  (Ok (), {| Default := Default p; pkg_DefaultACME := pkg_DefaultACME p; defaultCache := Some c;
             configs := configs p; caches := caches p |}).

Definition NewDefault : M package nat := fun p =>
  (let* certCache :=
     match defaultCache p with
     | Some c => ret c
     | None => let* c := make_cache default_options in let* _ := set_defaultCache c in ret c
     end in
   fun p => newWithCache (Some certCache) (Default p) p) p.

(** A pointer that no cache was allocated at is nil. *)
Definition New (certCache : option nat) (cfg : fields) : M package nat := fun p =>
  match certCache ≫= (caches p !!.) with
  | None => (Panic "a certificate cache is required", p)
  | Some (opts, _) =>
      match GetConfigForCert opts with
      | None => (Panic "cache must have GetConfigForCert set in its options", p)
      | Some _ => newWithCache certCache cfg p
      end
  end.

(** Calling the configuration callback of a cache ([user]: the caller's). *)
Definition call_getter (user : nat -> M package nat) (g : getter) : M package nat :=
  match g with FromNewDefault => NewDefault | FromUser id => user id end.

(** * TLS configurations *)

Inductive cipher :=
| TLS_ECDHE_ECDSA_WITH_AES_256_GCM_SHA384
| TLS_ECDHE_RSA_WITH_AES_256_GCM_SHA384
| TLS_ECDHE_ECDSA_WITH_AES_128_GCM_SHA256
| TLS_ECDHE_RSA_WITH_AES_128_GCM_SHA256
| TLS_ECDHE_ECDSA_WITH_CHACHA20_POLY1305
| TLS_ECDHE_RSA_WITH_CHACHA20_POLY1305.

Definition defaultCiphersPreferAES : list cipher :=
  [TLS_ECDHE_ECDSA_WITH_AES_256_GCM_SHA384; TLS_ECDHE_RSA_WITH_AES_256_GCM_SHA384;
   TLS_ECDHE_ECDSA_WITH_AES_128_GCM_SHA256; TLS_ECDHE_RSA_WITH_AES_128_GCM_SHA256;
   TLS_ECDHE_ECDSA_WITH_CHACHA20_POLY1305; TLS_ECDHE_RSA_WITH_CHACHA20_POLY1305].

Definition defaultCiphersPreferChaCha : list cipher :=
  [TLS_ECDHE_ECDSA_WITH_CHACHA20_POLY1305; TLS_ECDHE_RSA_WITH_CHACHA20_POLY1305;
   TLS_ECDHE_ECDSA_WITH_AES_256_GCM_SHA384; TLS_ECDHE_RSA_WITH_AES_256_GCM_SHA384;
   TLS_ECDHE_ECDSA_WITH_AES_128_GCM_SHA256; TLS_ECDHE_RSA_WITH_AES_128_GCM_SHA256].

(** [aes]: the processor has AES instructions. *)
Definition preferredDefaultCipherSuites (aes : bool) : list cipher :=
  if aes then defaultCiphersPreferAES else defaultCiphersPreferChaCha.

Inductive curve := X25519 | CurveP256.

(** A [tls.Config]; [GetCertificate] is the method of the configuration at an
    address. *)
Record tls_Config := mkTls {
  GetCertificate_of : nat;
  NextProtos : list string;
  MinVersion : Z;
  CurvePreferences : list curve;
  CipherSuites : list cipher;
  PreferServerCipherSuites : bool
}.

Definition VersionTLS12 : Z := 771.

(** * The functions of the package *)

(** The package with its on-demand configurations and the process. *)
Record application {W} := mkApp {
  pkg : package;
  ondemand : gmap nat OnDemandConfig;
  process : proc (W:=W)
}.
Arguments application W : clear implicits.
Arguments mkApp {W} _ _ _.

Section Package.
Context {U : UnicodeTables} {UL : UrlLib} {L : CertLib} {K : KeyLib} {O : OcspLib} {W : Type} {S : Storage W}
        {H : Http W} {B : ChallengeLib W}.
(** What a configuration calls depends on its issuer, key source and storage. *)
Context (E : fields -> Env W) (user_key : nat -> string) (aes : bool).

Definition TLSConfig (self : nat) : tls_Config :=
  {| GetCertificate_of := self;
     NextProtos := ["h2"; "http/1.1"; ACMETLS1Protocol];
     MinVersion := VersionTLS12;
     CurvePreferences := [X25519; CurveP256];
     CipherSuites := preferredDefaultCipherSuites aes;
     PreferServerCipherSuites := true |}.

(** [Issuer.IssuerKey()] *)
Definition IssuerKey (i : issuer) : string :=
  match i with AcmeIssuer m => issuerKey (CA m) | UserIssuer id => user_key id end.

(** A configuration as the certificate operations see it. *)
Definition as_config (cfg : fields) : Config :=
  {| RenewalWindowRatio := f_RenewalWindowRatio cfg; MustStaple := f_MustStaple cfg;
     Issuer := IssuerKey <$> f_Issuer cfg |}.

Definition on_pkg {A} (m : M package A) : M (application W) A := fun s =>
  let '(r, p) := m (pkg s) in (r, mkApp p (ondemand s) (process s)).

(** The on-demand configuration a pointer points to. *)
Definition deref (o : option nat) (s : application W) : option OnDemandConfig := o ≫= (ondemand s !!.).

(** [manageAll] of the configuration at an address: the names are added to the
    on-demand configuration it points to, in place. *)
Definition manage (self : nat) (domainNames : list string) (async : bool) : M (application W) unit := fun s =>
  match configs (pkg s) !! self with
  | None => (Panic "nil pointer dereference", s)
  | Some cfg =>
      let '(r, p) := manageAll (E := E cfg) (as_config cfg) (deref (f_OnDemand cfg) s) domainNames async
                       (process s) in
      match r with
      | Ok od => (Ok (), mkApp (pkg s)
                           match f_OnDemand cfg, od with
                           | Some a, Some o => <[a := o]> (ondemand s)
                           | _, _ => ondemand s
                           end p)
      | Err e => (Err e, mkApp (pkg s) (ondemand s) p)
      | Panic m => (Panic m, mkApp (pkg s) (ondemand s) p)
      end
  end.

(** [DefaultACME.Agreed = true], and [DisableHTTPChallenge = true]. *)
Definition set_acme (f : ACMEManager -> ACMEManager) : M package unit := fun p =>
  (Ok (), {| Default := Default p; pkg_DefaultACME := f (pkg_DefaultACME p); defaultCache := defaultCache p;
             configs := configs p; caches := caches p |}).

Definition agreed (m : ACMEManager) : ACMEManager := with_account (Email m) true m.

Definition without_http (m : ACMEManager) : ACMEManager :=
  {| CA := CA m; TestCA := TestCA m; Email := Email m; Agreed := Agreed m;
     ExternalAccount := ExternalAccount m; DisableHTTPChallenge := true;
     DisableTLSALPNChallenge := DisableTLSALPNChallenge m; ListenHost := ListenHost m;
     AltHTTPPort := AltHTTPPort m; AltTLSALPNPort := AltTLSALPNPort m; DNSProvider := DNSProvider m;
     DNSChallengeOption := DNSChallengeOption m; TrustedRoots := TrustedRoots m;
     CertObtainTimeout := CertObtainTimeout m; config := config m |}.

Definition ManageSync_default (domainNames : list string) : M (application W) unit :=
  let* _ := on_pkg (set_acme agreed) in
  let* cfg := on_pkg NewDefault in
  manage cfg domainNames false.

Definition ManageAsync_default (domainNames : list string) : M (application W) unit :=
  let* _ := on_pkg (set_acme agreed) in
  let* cfg := on_pkg NewDefault in
  manage cfg domainNames true.

(** [TLS] returns its configuration also with an error. *)
Definition TLS (domainNames : list string) : M (application W) (tls_Config * (unit + error)) :=
  let* _ := on_pkg (set_acme (fun m => without_http (agreed m))) in
  let* cfg := on_pkg NewDefault in
  let* err := try (manage cfg domainNames false) in
  ret (TLSConfig cfg, err).

(** [tls_Listen]: [tls.Listen] on [HTTPSPort]. *)
Definition Listen (tls_Listen : tls_Config -> M (application W) nat) (domainNames : list string) :
    M (application W) nat :=
  let* _ := on_pkg (set_acme (fun m => without_http (agreed m))) in
  let* cfg := on_pkg NewDefault in
  let* _ := manage cfg domainNames false in
  tls_Listen (TLSConfig cfg).

End Package.

(** The fields a handshake reads. *)
Definition handshake_fields {W} (selectors : nat -> ClientHelloInfo -> list Certificate -> res Certificate)
    (s : application W) (cfg : fields) : handshakeConfig :=
  {| DefaultServerName := f_DefaultServerName cfg; OnDemand := deref (f_OnDemand cfg) s;
     CertSelection := selectors <$> f_CertSelection cfg |}.

(** * Lemmas *)

(** ** Making configurations *)

Lemma NewACMEManager_ok self acme : exists m, NewACMEManager (Some self) acme acme = Ok m /\
  Account.config m = Some self /\ CA m = CA acme /\ TestCA m = TestCA acme /\ Email m = Email acme /\
  Agreed m = Agreed acme /\ DisableHTTPChallenge m = DisableHTTPChallenge acme.
Proof.
  eexists. split; [reflexivity |]. cbn. split_and!; try done.
  1-3: by case_bool_decide.
  all: by destruct (negb _) eqn:?.
Qed.

Lemma issuer_or_acme_ok d self acme : exists i, issuer_or_acme d self acme = Ok i /\
  (forall j, d = Some j -> i = j) /\
  (d = None -> exists m, i = AcmeIssuer m /\ NewACMEManager (Some self) acme acme = Ok m).
Proof.
  destruct d as [j|]; [exists j; cbn; by split_and!; [| intros ? [= <-] |] |].
  cbn [issuer_or_acme]. destruct (NewACMEManager_ok self acme) as (m & -> & _). exists (AcmeIssuer m).
  split_and!; [done | done |]. by exists m.
Qed.

Lemma issuer_and_revoker_ok d acme self cfg : exists i r,
  issuer_and_revoker d acme self cfg = Ok (Some i, r) /\
  (forall j, f_Issuer cfg = Some j -> i = j /\ r = f_Revoker cfg) /\
  (f_Issuer cfg = None -> issuer_or_acme (f_Issuer d) self acme = Ok i /\
     match f_Revoker cfg with
     | Some _ => r = f_Revoker cfg
     | None => exists r', issuer_or_acme (f_Revoker d) self acme = Ok r' /\ r = Some r'
     end).
Proof.
  unfold issuer_and_revoker. destruct (f_Issuer cfg) as [j|].
  { exists j, (f_Revoker cfg). split_and!; [done | | done]. by intros ? [= <-]. }
  destruct (issuer_or_acme_ok (f_Issuer d) self acme) as (i & Hi & _). rewrite Hi. cbn [res_bind].
  exists i. destruct (f_Revoker cfg) as [r|]; [by exists (Some r); split_and! |].
  destruct (issuer_or_acme_ok (f_Revoker d) self acme) as (r & Hr & _). rewrite Hr. cbn [res_bind].
  exists (Some r). split_and!; [done | done |]. intros _. by split; [| exists r].
Qed.

(** [newWithCache] makes one configuration and changes nothing else. *)
Lemma newWithCache_makes c cfg p : exists cfg',
  newWithCache (Some c) cfg p = (Ok (length (configs p)), set_configs (configs p ++ [cfg']) p) /\
  f_certCache cfg' = Some c /\ f_OnDemand cfg' = or_else (f_OnDemand cfg) (f_OnDemand (Default p)).
Proof.
  unfold newWithCache. cbv zeta.
  destruct (issuer_and_revoker_ok (Default p) (pkg_DefaultACME p) (length (configs p)) cfg) as (i & r & -> & _).
  eexists. split_and!; [reflexivity | done |]. cbn. by destruct (f_OnDemand cfg), (f_OnDemand (Default p)).
Qed.

(** ** The default cache *)

(** The default cache, once there is one, calls [NewDefault]. *)
Definition good_package (p : package) : Prop :=
  forall c, defaultCache p = Some c -> exists opts maps, caches p !! c = Some (opts, maps) /\
    NewCache default_options = Ok (opts, empty_maps).

(** What users of the package do to its variables: make caches and
    configurations, and change the templates. *)
Inductive pkg_step : package -> package -> Prop :=
| StepNewDefault p : pkg_step p (snd (NewDefault p))
| StepNew c cfg p : pkg_step p (snd (New c cfg p))
| StepNewCache opts p : pkg_step p (snd (make_cache opts p))
| StepDefault d p : pkg_step p {| Default := d; pkg_DefaultACME := pkg_DefaultACME p; defaultCache := defaultCache p;
                                  configs := configs p; caches := caches p |}
| StepDefaultACME f p : pkg_step p (snd (set_acme f p)).

(** [p'] has the default cache of [p] and at least its caches. *)
Definition keeps_cache (p p' : package) : Prop :=
  (forall c, defaultCache p = Some c -> defaultCache p' = Some c) /\
  (forall c x, caches p !! c = Some x -> caches p' !! c = Some x).

Lemma keeps_cache_refl p : keeps_cache p p.
Proof. by split. Qed.

Lemma keeps_cache_trans p1 p2 p3 : keeps_cache p1 p2 -> keeps_cache p2 p3 -> keeps_cache p1 p3.
Proof. intros [H1 H2] [H3 H4]. split; eauto. Qed.

Lemma newWithCache_keeps c cfg p : keeps_cache p (snd (newWithCache c cfg p)) /\
  caches (snd (newWithCache c cfg p)) = caches p /\ defaultCache (snd (newWithCache c cfg p)) = defaultCache p.
Proof.
  destruct c as [c|]; [| by split_and!; [apply keeps_cache_refl | ..]].
  destruct (newWithCache_makes c cfg p) as (cfg' & -> & _). cbn. by split_and!.
Qed.

Lemma make_cache_keeps opts p : keeps_cache p (snd (make_cache opts p)) /\
  defaultCache (snd (make_cache opts p)) = defaultCache p.
Proof.
  unfold make_cache. destruct (NewCache opts); cbn [snd]; [| by split; [apply keeps_cache_refl |] ..].
  split; [| done]. split; [done |]. cbn. intros c x Hc. apply lookup_app_l_Some. done.
Qed.

(** [NewDefault] succeeds, with the default cache or a new one. *)
Lemma NewDefault_makes p : good_package p -> exists cfg c p',
  NewDefault p = (Ok (length (configs p)), p') /\ configs p' = (configs p ++ [cfg])%list /\
  f_certCache cfg = Some c /\ defaultCache p' = Some c /\ good_package p' /\ keeps_cache p p' /\
  (defaultCache p = Some c -> caches p' = caches p) /\
  f_OnDemand cfg = f_OnDemand (Default p) /\ pkg_DefaultACME p' = pkg_DefaultACME p.
Proof.
  intros Hg. unfold NewDefault. destruct (defaultCache p) as [c|] eqn:Hd; unfold bind at 1.
  - destruct (newWithCache_makes c (Default p) p) as (cfg & Hm & Hc & Ho). exists cfg, c. eexists.
    split_and!; [exact Hm | done | done | done | | | done | by destruct (f_OnDemand (Default p)) | done].
    + intros c' Hc'. by apply Hg.
    + by split.
  - unfold bind, ret, make_cache, set_defaultCache. cbn [NewCache default_options GetConfigForCert].
    set (p1 := {| Default := _; defaultCache := Some _ |}).
    destruct (newWithCache_makes (length (caches p)) (Default p1) p1) as (cfg & Hm & Hc & Ho).
    exists cfg, (length (caches p)). eexists. cbn [Default] in *.
    split_and!; [exact Hm | done | done | done | | | done | by rewrite Ho; cbn; destruct (f_OnDemand (Default p)) | done].
    + intros c' [= <-]. do 2 eexists. split; [cbn; by apply list_lookup_middle | reflexivity].
    + split; [by rewrite Hd |]. intros c' x Hx. cbn. by apply lookup_app_l_Some.
Qed.

Lemma pkg_step_keeps p p' : good_package p -> pkg_step p p' -> good_package p' /\ keeps_cache p p'.
Proof.
  intros Hg Hs. assert (forall q, keeps_cache p q -> defaultCache q = defaultCache p -> good_package q) as Hsame.
  { intros q [_ Hk] Hd c. rewrite Hd. intros (o & m & Hc & Ho)%Hg. exists o, m. split; [by apply Hk | done]. }
  destruct Hs as [p | c cfg p | opts p | d p | f p].
  - destruct (NewDefault_makes p Hg) as (cfg & c & p' & -> & _ & _ & _ & Hg' & Hk & _). by split.
  - assert (keeps_cache p (snd (New c cfg p)) /\ defaultCache (snd (New c cfg p)) = defaultCache p) as [Hk Hd].
    { unfold New. destruct (c ≫= _) as [[o m]|]; [| by split; [apply keeps_cache_refl |]].
      destruct (GetConfigForCert o); [| by split; [apply keeps_cache_refl |]].
      by destruct (newWithCache_keeps c cfg p) as (? & ? & ?). }
    split; [by apply Hsame | done].
  - destruct (make_cache_keeps opts p). split; [by apply Hsame | done].
  - split; [by apply Hsame | by split].
  - split; [by apply Hsame | by split].
Qed.

Lemma pkg_steps_keep p p' : good_package p -> rtc pkg_step p p' -> good_package p' /\ keeps_cache p p'.
Proof.
  intros Hg Hs. induction Hs as [p | p1 p2 p3 H12 _ IH]; [by split; [| apply keeps_cache_refl] |].
  destruct (pkg_step_keeps _ _ Hg H12) as [Hg2 Hk]. destruct (IH Hg2) as [Hg3 Hk'].
  split; [done | by eapply keeps_cache_trans].
Qed.

(** ** The whitelist *)

Section Whitelist.
Context {U : UnicodeTables}.

Definition ascii_names (l : list string) : Prop := Forall (fun n => all_bytes is_ascii n = true) l.

(** Two names that differ in the case of letters only. *)
Definition same_name (n n' : string) : Prop := ascii_lower n = ascii_lower n'.

Lemma whitelistContains_ascii o name : ascii_names (hostWhitelist o) -> all_bytes is_ascii name = true ->
  whitelistContains o name = true <-> exists n, n ∈ hostWhitelist o /\ same_name n name.
Proof.
  intros Ho Hn. unfold whitelistContains. rewrite existsb_exists. split.
  - intros (n & Hin & He). exists n. apply list_elem_of_In in Hin. split; [done |].
    unfold EqualFold in He. rewrite Hn in He. unfold ascii_names in Ho. rewrite Forall_forall in Ho.
    rewrite (Ho n Hin) in He. by apply bool_decide_eq_true_1 in He.
  - intros (n & Hin & He). exists n. split; [by apply list_elem_of_In |].
    unfold EqualFold. rewrite Hn. unfold ascii_names in Ho. rewrite Forall_forall in Ho. rewrite (Ho n Hin).
    by apply bool_decide_eq_true_2.
Qed.

Lemma whitelist_all_spec names : forall o, ascii_names (hostWhitelist o) -> ascii_names names ->
  let o' := whitelist_all o names in
  DecisionFunc o' = DecisionFunc o /\ ascii_names (hostWhitelist o') /\
  forall name, all_bytes is_ascii name = true ->
    whitelistContains o' name = true <->
    exists n, n ∈ (hostWhitelist o ++ names)%list /\ same_name n name.
Proof.
  induction names as [|m names IH]; intros o Ho Hn.
  { cbn zeta. split_and!; [done | done |]. intros name Ha. rewrite app_nil_r. by apply whitelistContains_ascii. }
  apply Forall_cons in Hn as [Hm Hn]. cbn zeta.
  set (o1 := if whitelistContains o m then o else mkOnDemand (DecisionFunc o) (hostWhitelist o ++ [m])).
  change (whitelist_all o (m :: names)) with (whitelist_all o1 names).
  assert (ascii_names (hostWhitelist o1) /\ DecisionFunc o1 = DecisionFunc o /\ forall name,
            (exists n, n ∈ hostWhitelist o1 /\ same_name n name) <->
            (exists n, n ∈ (hostWhitelist o ++ [m])%list /\ same_name n name)) as (Ho1 & Hd & H1).
  { subst o1. destruct (whitelistContains o m) eqn:Hc; cbn [hostWhitelist DecisionFunc].
    - split_and!; [done | done |]. intros name. apply whitelistContains_ascii in Hc as (w & Hw & Hs); [| done..].
      split; intros (n & Hin & He); [exists n; set_solver |].
      apply elem_of_app in Hin as [Hin | ->%list_elem_of_singleton]; [by exists n |].
      exists w. split; [done |]. unfold same_name in *. congruence.
    - split_and!; [| done | done]. apply Forall_app_2; [done | by repeat constructor]. }
  destruct (IH o1 Ho1 Hn) as (Hd' & Ha' & Hspec). split_and!; [congruence | done |].
  intros name Ha. rewrite Hspec by done.
  assert (forall l, (exists n, n ∈ (l ++ names)%list /\ same_name n name) <->
            (exists n, n ∈ l /\ same_name n name) \/ (exists n, n ∈ names /\ same_name n name)) as Happ
    by (intros l; setoid_rewrite elem_of_app; naive_solver).
  rewrite Happ, H1. rewrite (cons_middle m (hostWhitelist o) names), app_assoc, Happ. done.
Qed.

Lemma whitelist_all_nonempty o names : names <> [] -> ascii_names (hostWhitelist o) -> ascii_names names ->
  hostWhitelist (whitelist_all o names) <> [].
Proof.
  intros Hne Ho Hn He. destruct names as [|n names]; [done |].
  destruct (whitelist_all_spec (n :: names) o Ho Hn) as (_ & _ & Hspec).
  apply Forall_cons in Hn as [Hn _].
  assert (whitelistContains (whitelist_all o (n :: names)) n = true) as Hc
    by (apply Hspec; [done | exists n; split; [set_solver | done]]).
  unfold whitelistContains in Hc. by rewrite He in Hc.
Qed.

End Whitelist.

(** * Properties *)

(** Making a configuration always succeeds and makes exactly one. What the
    caller has set is kept; what is unset comes from [Default]; the result has a
    cache, an issuer and a storage. Issuer and revoker go together: a revoker is
    supplied only when the issuer was not set either, and managers that are made
    for a configuration point to it and have the settings of [DefaultACME].
    [CertSelection] alone gets no default. *)
Theorem newWithCache_fills c cfg p : exists cfg',
  newWithCache (Some c) cfg p = (Ok (length (configs p)), set_configs (configs p ++ [cfg']) p) /\
  f_certCache cfg' = Some c /\ is_Some (f_Issuer cfg') /\ is_Some (f_Storage cfg') /\
  (is_Some (f_Revoker cfg') <-> is_Some (f_Revoker cfg) \/ f_Issuer cfg = None) /\
  (forall i, f_Issuer cfg = Some i -> f_Issuer cfg' = Some i /\ f_Revoker cfg' = f_Revoker cfg) /\
  (forall r, f_Revoker cfg = Some r -> f_Revoker cfg' = Some r) /\
  (forall s, f_Storage cfg = Some s -> f_Storage cfg' = Some s) /\
  (f_Storage cfg = None -> f_Storage (Default p) <> None -> f_Storage cfg' = f_Storage (Default p)) /\
  (f_Issuer cfg = None -> f_Issuer (Default p) = None -> exists m, f_Issuer cfg' = Some (AcmeIssuer m) /\
     Account.config m = Some (length (configs p)) /\ CA m = CA (pkg_DefaultACME p) /\
     Agreed m = Agreed (pkg_DefaultACME p)) /\
  f_OnDemand cfg' = or_else (f_OnDemand cfg) (f_OnDemand (Default p)) /\
  f_CertSelection cfg' = f_CertSelection cfg.
Proof.
  unfold newWithCache. cbv zeta.
  destruct (issuer_and_revoker_ok (Default p) (pkg_DefaultACME p) (length (configs p)) cfg)
    as (i & r & -> & Hset & Hunset).
  eexists. split; [reflexivity |].
  cbn [f_certCache f_Issuer f_Storage f_Revoker f_OnDemand f_CertSelection].
  split_and!; [done | done | | | | | | | | | done].
  - destruct (f_Storage cfg), (f_Storage (Default p)); by eexists.
  - destruct (f_Issuer cfg) as [j|].
    + destruct (Hset j eq_refl) as [_ ->]. split; [by left | by intros [? | ?]].
    + destruct (Hunset eq_refl) as [_ Hr]. split; [by right | intros _].
      destruct (f_Revoker cfg); [by rewrite Hr | destruct Hr as (r' & _ & ->)]; by eexists.
  - intros j Hj. by destruct (Hset j Hj) as [-> ->].
  - intros r' Hr'. destruct (f_Issuer cfg) as [j|].
    + destruct (Hset j eq_refl) as [_ ->]. done.
    + destruct (Hunset eq_refl) as [_ Hr]. rewrite Hr' in Hr. congruence.
  - by intros s ->.
  - intros -> Hs. by destruct (f_Storage (Default p)).
  - intros Hi Hd. destruct (Hunset Hi) as [Ha _]. rewrite Hd in Ha. cbn [issuer_or_acme] in Ha.
    destruct (NewACMEManager_ok (length (configs p)) (pkg_DefaultACME p)) as (m & Hm & ? & ? & _ & _ & ? & _).
    rewrite Hm in Ha. injection Ha as <-. by exists m.
  - by destruct (f_OnDemand cfg), (f_OnDemand (Default p)).
Qed.

(** A configuration that is valid already goes through [newWithCache]
    unchanged but for its cache (while [Default] stays as it is). *)
Theorem newWithCache_idempotent c c' cfg cfg' p p' n :
  newWithCache (Some c) cfg p = (Ok n, p') -> configs p' !! n = Some cfg' ->
  newWithCache (Some c') cfg' p' =
    (Ok (Datatypes.S n), set_configs (configs p' ++ [
       {| f_RenewalWindowRatio := f_RenewalWindowRatio cfg'; f_OnEvent := f_OnEvent cfg';
          f_DefaultServerName := f_DefaultServerName cfg'; f_OnDemand := f_OnDemand cfg';
          f_MustStaple := f_MustStaple cfg'; f_Issuer := f_Issuer cfg'; f_Revoker := f_Revoker cfg';
          f_KeySource := f_KeySource cfg'; f_CertSelection := f_CertSelection cfg';
          f_Storage := f_Storage cfg'; f_certCache := Some c' |}]) p').
Proof.
  unfold newWithCache at 1. cbv zeta.
  destruct (issuer_and_revoker_ok (Default p) (pkg_DefaultACME p) (length (configs p)) cfg) as (i & r & -> & _).
  intros [= <- <-]. cbn [configs set_configs]. rewrite list_lookup_middle by done. intros [= <-].
  unfold newWithCache. cbv zeta. cbn [issuer_and_revoker f_Issuer Default set_configs configs f_Revoker].
  rewrite length_app, Nat.add_1_r. cbn.
  f_equal. f_equal. f_equal. f_equal. f_equal.
  - destruct (float64_eqb (f_RenewalWindowRatio cfg) (S754_zero false)) eqn:Hz; [by case_match | by rewrite Hz].
  - by destruct (f_OnEvent cfg), (f_OnEvent (Default p)).
  - destruct (decide (f_DefaultServerName cfg = "")) as [He | He].
    + rewrite (bool_decide_eq_true_2 _ He). by case_match.
    + by rewrite !(bool_decide_eq_false_2 _ He).
  - by destruct (f_OnDemand cfg), (f_OnDemand (Default p)).
  - by destruct (f_MustStaple cfg), (f_MustStaple (Default p)).
  - by destruct (f_KeySource cfg), (f_KeySource (Default p)).
  - by destruct (f_Storage cfg), (f_Storage (Default p)).
Qed.

Lemma newWithCache_idempotent_witness : exists p' cfg',
  newWithCache (Some 0%nat) initial_Default initial_package = (Ok 0%nat, p') /\ configs p' !! 0%nat = Some cfg' /\
  exists p'', newWithCache (Some 1%nat) cfg' p' = (Ok 1%nat, p'').
Proof.
  eexists _, _. split; [reflexivity |]. split; [reflexivity |]. eexists.
  apply (newWithCache_idempotent 0 1 initial_Default _ initial_package _ 0); reflexivity.
Defined.

(** C30: there is one default cache. Whatever the users of the package have done
    before, [NewDefault] returns a configuration with the default cache, made on
    the first call with the default intervals; and whatever they do afterwards,
    the callback of that cache (like every later [NewDefault]) makes a
    configuration with the same cache, so [getConfig] never refuses it, and no
    second default cache is made. *)
Theorem default_cache_shared user p r p1 : rtc pkg_step initial_package p -> NewDefault p = (r, p1) ->
  exists n cfg c opts maps, r = Ok n /\ configs p1 !! n = Some cfg /\ f_certCache cfg = Some c /\
    caches p1 !! c = Some (opts, maps) /\ RenewCheckInterval opts = DefaultRenewCheckInterval /\
    OCSPCheckInterval opts = DefaultOCSPCheckInterval /\
    forall p2 cert, rtc pkg_step p1 p2 ->
      exists f g n' cfg' p3, GetConfigForCert opts = Some f /\ f cert = Ok (Some g) /\
        call_getter user g p2 = (Ok n', p3) /\ configs p3 !! n' = Some cfg' /\ f_certCache cfg' = Some c /\
        caches p3 = caches p2.
Proof.
  intros Hs Hnew. assert (good_package initial_package) as H0 by done.
  destruct (pkg_steps_keep _ _ H0 Hs) as [Hg _].
  destruct (NewDefault_makes p Hg) as (cfg & c & p' & Hm & Hc & Hcc & Hd & Hg1 & _ & _).
  rewrite Hm in Hnew. injection Hnew as <- <-. destruct (Hg1 c Hd) as (opts & maps & Hcache & Hopts).
  injection Hopts as <-. exists (length (configs p)), cfg, c. do 2 eexists.
  split_and!; [done | by rewrite Hc, list_lookup_middle | done | exact Hcache | done | done |].
  intros p2 cert Hs2. destruct (pkg_steps_keep _ _ Hg1 Hs2) as [Hg2 [Hd2 _]].
  destruct (NewDefault_makes p2 Hg2) as (cfg' & c' & p3 & Hm' & Hc' & Hcc' & Hd' & _ & [Hk _] & Hcaches & _).
  specialize (Hd2 c Hd). assert (c' = c) as -> by (apply Hk in Hd2; congruence).
  eexists _, _, (length (configs p2)), cfg', p3. split_and!; [reflexivity | reflexivity | exact Hm' | | done | by apply Hcaches].
  by rewrite Hc', list_lookup_middle.
Qed.

Lemma default_cache_shared_witness :
  exists n p3, NewDefault (snd (NewDefault initial_package)) = (Ok n, p3) /\
    length (caches p3) = 1%nat /\ f_certCache <$> configs p3 !! n = Some (Some 0%nat).
Proof.
  destruct (default_cache_shared (fun _ => panic "none") initial_package _ _ (rtc_refl _ _) eq_refl)
    as (n & cfg & c & opts & maps & Hn & Hcfg & Hc & _ & _ & _ & Hlater).
  destruct (Hlater _ zeroCert (rtc_refl _ _)) as (f & g & n' & cfg' & p3 & _ & _ & _ & _ & Hc' & _).
  exists 1%nat. eexists. split; [reflexivity |]. by split.
Defined.


#[local] Existing Instance ascii_tables.
#[local] Existing Instance url_lib.
#[local] Existing Instance responder_lib.
#[local] Existing Instance responder_ocsp.
#[local] Existing Instance tag_lib.
#[local] Existing Instance mem_http.

(** An application whose default configuration has on-demand TLS. *)
Definition on_demand_app : application mem :=
  {| pkg := {| Default := {| f_RenewalWindowRatio := DefaultRenewalWindowRatio; f_OnEvent := None;
                             f_DefaultServerName := ""; f_OnDemand := Some 0%nat; f_MustStaple := false;
                             f_Issuer := None; f_Revoker := None; f_KeySource := Some defaultKeySource;
                             f_CertSelection := None; f_Storage := Some defaultFileStorage; f_certCache := None |};
               pkg_DefaultACME := initial_DefaultACME; defaultCache := None; configs := []; caches := [] |};
     ondemand := {[ 0%nat := mkOnDemand None [] ]}; process := fresh_proc |}.

