(* ===== verification/Lifecycle.v ===== *)
(** The long-lived parts of a process: the maintenance goroutine of a cache and
    [Stop] ([src/cache.go], [src/maintain.go]), and the listeners that all calls
    of [HTTPS] share ([src/otomatik.go]), both as step relations of interleaving
    goroutines; and what the HTTP server of [HTTPS] answers. *)
From Stdlib Require Import Ascii.
From stdpp Require Import base tactics list strings gmap sets relations functions.
From Stdlib Require Import ZArith Lia.
From S2P Require Import Prelude GoTime GoStrings Net StorageKeys Certificates Storage Account Solvers Defaults.

Local Open Scope string_scope.
Local Open Scope go_scope.

(** * Stopping a cache *)

Module Stopping.

(** The loop of [maintainAssets]: in its [select], in a scan, or returned. *)
Inductive loop := Selecting | Scanning | Ended.

(** A goroutine that calls [Stop]: before it, waiting for [doneChan], after it. *)
Inductive caller := Before | AwaitingDone | Stopped.

Record cache_life := mkLife {
  stop_closed : bool;
  done_closed : bool;
  maintenance : loop;
  callers : nat -> caller;
  stop_panicked : bool
}.

Definition running : cache_life :=
  {| stop_closed := false; done_closed := false; maintenance := Selecting; callers := fun _ => Before;
     stop_panicked := false |}.

Definition set_loop (l : loop) (s : cache_life) : cache_life :=
  {| stop_closed := stop_closed s; done_closed := done_closed s; maintenance := l; callers := callers s;
     stop_panicked := stop_panicked s |}.

Definition set_caller (p : nat) (c : caller) (s : cache_life) : cache_life :=
  {| stop_closed := stop_closed s; done_closed := done_closed s; maintenance := maintenance s;
     callers := <[p := c]> (callers s); stop_panicked := stop_panicked s |}.

(** [close(certCache.stopChan)]: closing a closed channel panics. *)
Definition Stop (p : nat) (s : cache_life) : cache_life :=
  if stop_closed s
  then {| stop_closed := true; done_closed := done_closed s; maintenance := maintenance s;
          callers := callers s; stop_panicked := true |}
  else {| stop_closed := true; done_closed := done_closed s; maintenance := maintenance s;
          callers := <[p := AwaitingDone]> (callers s); stop_panicked := false |}.

(** The case of [stopChan]: [close(certCache.doneChan)] and return. *)
Definition end_loop (s : cache_life) : cache_life :=
  {| stop_closed := stop_closed s; done_closed := true; maintenance := Ended; callers := callers s;
     stop_panicked := stop_panicked s |}.

(** A [select] with several ready cases takes any of them. A panic ends the
    process. *)
Inductive life_step : cache_life -> cache_life -> Prop :=
| StepTick s : stop_panicked s = false -> maintenance s = Selecting -> life_step s (set_loop Scanning s)
| StepScanned s : stop_panicked s = false -> maintenance s = Scanning -> life_step s (set_loop Selecting s)
| StepEnd s : stop_panicked s = false -> maintenance s = Selecting -> stop_closed s = true -> life_step s (end_loop s)
| StepStop s p : stop_panicked s = false -> callers s p = Before -> life_step s (Stop p s)
| StepReturn s p :
    stop_panicked s = false -> callers s p = AwaitingDone -> done_closed s = true -> life_step s (set_caller p Stopped s).

End Stopping.

(** * The listeners of [HTTPS] *)

Module Listeners.

(** Why a call of [HTTPS] has returned; [Serve] never returns a nil error. *)
Inductive outcome := ManageFailed | ListenFailed | ServeFailed.

(** A call of [HTTPS]. *)
Inductive call :=
| Outside
| Managing                        (* in cfg.ManageSync *)
| Counted                         (* after httpWg.Add(1), before lnMu.Lock() *)
| Serving (hln hsln : nat)        (* in httpsServer.Serve(hsln) *)
| Returned (why : outcome).

(** The package variables; [closed] and [next] are those of the system, and
    [http_servers] the listeners that [go httpServer.Serve] was started on. Of
    the goroutines that close the listeners, [waiting] are in [httpWg.Wait] and
    [woken] are past it. *)
Record sys := mkSys {
  httpLn : option nat;
  httpsLn : option nat;
  httpWg : nat;
  waiting : nat;
  woken : nat;
  next : nat;
  closed : gset nat;
  http_servers : gset nat;
  calls : nat -> call;
  panicked : bool
}.

Definition init : sys :=
  {| httpLn := None; httpsLn := None; httpWg := 0; waiting := 0; woken := 0; next := 0; closed := ∅;
     http_servers := ∅; calls := fun _ => Outside; panicked := false |}.

Definition set_call (p : nat) (c : call) (s : sys) : sys :=
  {| httpLn := httpLn s; httpsLn := httpsLn s; httpWg := httpWg s; waiting := waiting s; woken := woken s;
     next := next s; closed := closed s; http_servers := http_servers s;
     calls := <[p := c]> (calls s); panicked := panicked s |}.

(** [httpWg.Add(1)] and the deferred [httpWg.Done()]. *)
Definition Add (s : sys) : sys :=
  {| httpLn := httpLn s; httpsLn := httpsLn s; httpWg := S (httpWg s); waiting := waiting s; woken := woken s;
     next := next s; closed := closed s; http_servers := http_servers s; calls := calls s;
     panicked := panicked s |}.

Definition Done (s : sys) : sys :=
  {| httpLn := httpLn s; httpsLn := httpsLn s; httpWg := pred (httpWg s); waiting := waiting s; woken := woken s;
     next := next s; closed := closed s; http_servers := http_servers s; calls := calls s;
     panicked := panicked s |}.

Definition close (l : gset nat) (s : sys) : sys :=
  {| httpLn := httpLn s; httpsLn := httpsLn s; httpWg := httpWg s; waiting := waiting s; woken := woken s;
     next := next s; closed := l ∪ closed s; http_servers := http_servers s; calls := calls s;
     panicked := panicked s |}.

Definition crash (s : sys) : sys :=
  {| httpLn := httpLn s; httpsLn := httpsLn s; httpWg := httpWg s; waiting := waiting s; woken := woken s;
     next := next s; closed := closed s; http_servers := http_servers s; calls := calls s; panicked := true |}.

(** The listeners, as many of them as could be made: [http_ok] and [https_ok]
    are the outcomes of [net.Listen] and [tls.Listen]. True: both are there. *)
Definition make_listeners (http_ok https_ok : bool) (s : sys) : bool * sys :=
  match httpLn s, httpsLn s with
  | None, None =>
      let n := next s in
      if negb http_ok then (false, s)
      else if negb https_ok then
        (false, {| httpLn := None; httpsLn := None; httpWg := httpWg s; waiting := waiting s; woken := woken s;
                   next := S n; closed := {[n]} ∪ closed s; http_servers := http_servers s; calls := calls s;
                   panicked := panicked s |})
      else
        (true, {| httpLn := Some n; httpsLn := Some (S n); httpWg := httpWg s; waiting := S (waiting s);
                  woken := woken s; next := S (S n); closed := closed s; http_servers := http_servers s;
                  calls := calls s; panicked := panicked s |})
  | _, _ => (true, s)
  end.

(** From [lnMu.Lock()] to [Serve]: [hln.Addr()] of a nil listener panics. *)
Definition locked (p : nat) (http_ok https_ok : bool) (s : sys) : sys :=
  let '(ok, s) := make_listeners http_ok https_ok s in
  if ok then
    match httpLn s, httpsLn s with
    | Some hln, Some hsln =>
        {| httpLn := httpLn s; httpsLn := httpsLn s; httpWg := httpWg s; waiting := waiting s; woken := woken s;
           next := next s; closed := closed s; http_servers := {[hln]} ∪ http_servers s;
           calls := <[p := Serving hln hsln]> (calls s); panicked := panicked s |}
    | _, _ => crash s
    end
  else set_call p (Returned ListenFailed) (Done s).

(** The goroutine that closes the listeners passes [httpWg.Wait()]. *)
Definition wake (s : sys) : sys :=
  {| httpLn := httpLn s; httpsLn := httpsLn s; httpWg := httpWg s; waiting := pred (waiting s);
     woken := S (woken s); next := next s; closed := closed s; http_servers := http_servers s;
     calls := calls s; panicked := panicked s |}.

(** It closes the listeners; the variables keep them. *)
Definition close_listeners (s : sys) : sys :=
  let s := {| httpLn := httpLn s; httpsLn := httpsLn s; httpWg := httpWg s; waiting := waiting s;
              woken := pred (woken s); next := next s; closed := closed s; http_servers := http_servers s;
              calls := calls s; panicked := panicked s |} in
  match httpLn s, httpsLn s with
  | Some h, Some k => close {[h; k]} s
  | _, _ => crash s
  end.

(** A server closes its listener when [Serve] returns, which it does on any
    error of the listener, at once if it is closed. *)
Inductive step : sys -> sys -> Prop :=
| StepCall s p : panicked s = false -> calls s p = Outside -> step s (set_call p Managing s)
| StepManageFailed s p :
    panicked s = false -> calls s p = Managing -> step s (set_call p (Returned ManageFailed) s)
| StepManaged s p : panicked s = false -> calls s p = Managing -> step s (set_call p Counted (Add s))
| StepLocked s p http_ok https_ok :
    panicked s = false -> calls s p = Counted -> step s (locked p http_ok https_ok s)
| StepServeReturns s p h k :
    panicked s = false -> calls s p = Serving h k ->
    step s (set_call p (Returned ServeFailed) (Done (close {[k]} s)))
| StepHttpServerEnds s h : panicked s = false -> h ∈ http_servers s -> step s (close {[h]} s)
| StepWake s : panicked s = false -> waiting s <> 0 -> httpWg s = 0 -> step s (wake s)
| StepClose s : panicked s = false -> woken s <> 0 -> step s (close_listeners s).

End Listeners.

(** * The HTTP server of [HTTPS] *)

Inductive response :=
| Redirect (location : string) (status : Z) (close_connection : bool)
| ChallengeAnswer (a : answer)
| DefaultServeMux.                    (* the server has no handler *)

(** [uri] is [r.URL.RequestURI()]. *)
Definition httpRedirectHandler (host uri : string) : response :=
  let toURL := "https://" in
  let requestHost := hostOnly host in
  let toURL := toURL +:+ requestHost in
  let toURL := toURL +:+ uri in
  Redirect toURL 301 true.

(** The handler that [HTTPS] gives to its HTTP server. *)
Definition http_handler {U : UnicodeTables} {UL : UrlLib} {W} {S : Storage W} {B : ChallengeLib W} (i : option issuer)
    (uri : string) (r : Request) : M W response :=
  match i with
  | Some (AcmeIssuer am) =>
      let* handled := HandleHTTPChallenge (Some am) r in
      match handled with
      | Some a => ret (ChallengeAnswer a)
      | None => ret (httpRedirectHandler (r_Host r) uri)
      end
  | _ => ret DefaultServeMux
  end.

(** * Lemmas *)

(** ** Stopping *)

Module StoppingFacts.
Import Stopping.

Record inv (s : cache_life) : Prop := {
  inv_done : done_closed s = true <-> maintenance s = Ended;
  inv_end : maintenance s = Ended -> stop_closed s = true;
  inv_stopped : forall p, callers s p = Stopped -> done_closed s = true;
  inv_called : forall p, callers s p <> Before -> stop_closed s = true;
  inv_one : forall p q, callers s p <> Before -> callers s q <> Before -> p = q
}.

Lemma callers_insert (g : nat -> caller) p c q : (<[p := c]> g) q = if decide (q = p) then c else g q.
Proof.
  destruct (decide (q = p)) as [-> | Hne]; [by rewrite fn_lookup_insert | by rewrite fn_lookup_insert_ne].
Qed.

Lemma inv_running : inv running.
Proof. by split. Qed.

Lemma life_inv_step s s' : inv s -> life_step s s' -> inv s'.
Proof.
  intros [H1 H2 H3 H4 H5] Hs. destruct Hs as [s Hp Hm | s Hp Hm | s Hp Hm Hst | s p Hp Hc | s p Hp Hc Hd].
  - rewrite Hm in H1. split; try done. by cbn; rewrite H1.
  - rewrite Hm in H1. split; try done. by cbn; rewrite H1.
  - by split.
  - unfold Stop. destruct (stop_closed s) eqn:Hst.
    { split; try done. }
    assert (forall q, callers s q = Before) as Hb
      by (intros q; destruct (callers s q) eqn:Hq; [done | exfalso; by specialize (H4 q ltac:(congruence)) ..]).
    split; cbn; try done.
    + intros q. rewrite callers_insert. case_decide; [done | by rewrite Hb].
    + intros q1 q2. rewrite !callers_insert, !Hb. repeat case_decide; naive_solver.
  - assert (stop_closed s = true) as Hst by (apply (H4 p); congruence).
    assert (forall q, callers (set_caller p Stopped s) q <> Before -> callers s q <> Before) as Hb
      by (intros q; cbn; rewrite callers_insert; case_decide; [subst; congruence | done]).
    split; try done. intros q1 q2 Hq1%Hb Hq2%Hb. by apply H5.
Qed.

Lemma life_reachable_inv s : rtc life_step running s -> inv s.
Proof. intros Hs. exact (rtc_invariant _ _ life_inv_step _ _ Hs inv_running). Qed.

Lemma ended_step s s' : maintenance s = Ended -> life_step s s' -> maintenance s' = Ended.
Proof. intros He Hs. destruct Hs; cbn; try congruence. unfold Stop. by case_match. Qed.

(** From its [select] the loop can end and let the caller return. *)
Lemma can_return s p : inv s -> stop_panicked s = false -> callers s p = AwaitingDone -> maintenance s = Selecting ->
  exists s', rtc life_step s s' /\ callers s' p = Stopped /\ stop_panicked s' = false.
Proof.
  intros Hi Hp Hc Hm. exists (set_caller p Stopped (end_loop s)). split; [| split].
  - eapply rtc_l; [apply StepEnd; [done | done | apply (inv_called s Hi p); congruence] |].
    apply rtc_once. by apply StepReturn.
  - cbn. by rewrite callers_insert, decide_True.
  - done.
Qed.

End StoppingFacts.

(** ** Listeners *)

Module ListenersFacts.
Import Listeners.

Definition inside (c : call) : Prop := match c with Counted | Serving _ _ => True | _ => False end.

(** [n] calls are between [httpWg.Add] and [httpWg.Done]. *)
Definition counted (g : nat -> call) (n : nat) : Prop :=
  exists X : gset nat, (forall p, p ∈ X <-> inside (g p)) /\ size X = n.

Lemma calls_insert (g : nat -> call) p c q : (<[p := c]> g) q = if decide (q = p) then c else g q.
Proof.
  destruct (decide (q = p)) as [-> | Hne]; [by rewrite fn_lookup_insert | by rewrite fn_lookup_insert_ne].
Qed.

Lemma counted_same g p c n : (inside c <-> inside (g p)) -> counted g n -> counted (<[p := c]> g) n.
Proof.
  intros Hc (X & HX & Hn). exists X. split; [| done]. intros q. rewrite HX, calls_insert.
  case_decide; [by subst | done].
Qed.

Lemma counted_in g p c n : inside c -> ~ inside (g p) -> counted g n -> counted (<[p := c]> g) (S n).
Proof.
  intros Hc Hp (X & HX & Hn). exists ({[p]} ∪ X). split.
  - intros q. rewrite elem_of_union, elem_of_singleton, HX, calls_insert. case_decide; naive_solver.
  - rewrite size_union, size_singleton, Hn; [done |]. apply disjoint_singleton_l. by rewrite HX.
Qed.

Lemma counted_out g p c n : ~ inside c -> inside (g p) -> counted g n -> counted (<[p := c]> g) (pred n).
Proof.
  intros Hc Hp (X & HX & Hn). exists (X ∖ {[p]}). split.
  - intros q. rewrite elem_of_difference, elem_of_singleton, HX, calls_insert. case_decide; naive_solver.
  - assert ({[p]} ⊆ X) as Hsub by (apply singleton_subseteq_l; by rewrite HX).
    rewrite size_difference, size_singleton by done. lia.
Qed.

(** The listeners [h] and [k] are those of the package. *)
Definition pair (s : sys) (h k : nat) : Prop := httpLn s = Some h /\ httpsLn s = Some k.

Record inv (s : sys) : Prop := {
  inv_ok : panicked s = false;
  inv_pair : (httpLn s = None /\ httpsLn s = None /\ waiting s = 0 /\ woken s = 0) \/
             (exists h, pair s h (S h) /\ S h < next s /\
                (waiting s + woken s = 1 \/ (waiting s + woken s = 0 /\ h ∈ closed s /\ S h ∈ closed s)));
  inv_serving : forall p h k, calls s p = Serving h k -> pair s h k;
  inv_servers : forall h, h ∈ http_servers s -> httpLn s = Some h;
  inv_closed : forall l, l ∈ closed s -> l < next s;
  inv_no_leak : forall l, l < next s -> l ∈ closed s \/ httpLn s = Some l \/ httpsLn s = Some l;
  inv_count : counted (calls s) (httpWg s)
}.

Lemma https_inv_init : inv init.
Proof.
  split; try done.
  - by left.
  - intros l Hl. cbn in Hl. lia.
  - exists ∅. split; [| done]. intros p. cbn. split; [by intros ?%not_elem_of_empty | done].
Qed.

(** Closing the package's listeners. *)
Lemma inv_close s l : inv s -> (forall x, x ∈ l -> x < next s) -> inv (close l s).
Proof.
  intros [H1 H2 H3 H4 H5 H6 H7] Hl. split; try done; cbn [close closed next httpLn httpsLn].
  - destruct H2 as [H2 | (h & Hp & Hn & Hw)]; [by left | right]. exists h. split_and!; [done | done |].
    cbn. destruct Hw as [Hw | (Hw & ? & ?)]; [by left | right; set_solver].
  - intros x [? | ?]%elem_of_union; [by apply Hl | by apply H5].
  - intros x Hx. destruct (H6 x Hx) as [? | ?]; [left; set_solver | by right].
Qed.

(** A call moves on without serving. *)
Lemma inv_set_call p c s : inv s -> (inside c <-> inside (calls s p)) ->
  (forall h k, c = Serving h k -> pair s h k) -> inv (set_call p c s).
Proof.
  intros [H1 H2 H3 H4 H5 H6 H7] Hc Hs. split; try done.
  - intros q h k. cbn. rewrite calls_insert. case_decide; [apply Hs | apply H3].
  - by apply counted_same.
Qed.

Lemma https_inv_enter p s : inv s -> calls s p = Managing -> inv (set_call p Counted (Add s)).
Proof.
  intros [H1 H2 H3 H4 H5 H6 H7] Hp. split; try done.
  - intros q h k. cbn. rewrite calls_insert. case_decide; [done | apply H3].
  - cbn. apply counted_in; [done | rewrite Hp; by intros [] | done].
Qed.

Lemma https_inv_leave p why s : inv s -> inside (calls s p) -> inv (set_call p (Returned why) (Done s)).
Proof.
  intros [H1 H2 H3 H4 H5 H6 H7] Hp. split; try done.
  - intros q h k. cbn. rewrite calls_insert. case_decide; [done | apply H3].
  - cbn. apply counted_out; [by intros [] | done | done].
Qed.

Lemma inv_make http_ok https_ok s : inv s -> let '(ok, s') := make_listeners http_ok https_ok s in
  inv s' /\ calls s' = calls s /\ (ok = true -> exists h, pair s' h (S h)).
Proof.
  intros Hi. pose proof Hi as [H1 H2 H3 H4 H5 H6 H7]. unfold make_listeners.
  destruct H2 as [(Hh & Hk & Hw & Hv) | (h & [Hh Hk] & Hn & Hw)]; rewrite Hh, ?Hk.
  2: { split_and!; [done | done |]. intros _. by exists h. }
  assert (forall p h k, calls s p <> Serving h k) as Hno
    by (intros p h k Hp; destruct (H3 _ _ _ Hp); congruence).
  assert (forall h, h ∉ http_servers s) as Hnos by (intros h Hp; specialize (H4 h Hp); congruence).
  destruct http_ok; cbn [negb]; [| by split_and!].
  destruct https_ok; cbn [negb].
  - split_and!; [| done | intros _; by exists (next s)]. split; cbn; try done.
    + right. exists (next s). rewrite Hw, Hv. split_and!; [done | lia | by left].
    + intros p h k Hp. by destruct (Hno p h k).
    + intros h Hp. by destruct (Hnos h).
    + intros l Hl. specialize (H5 l Hl). lia.
    + intros l Hl. destruct (decide (l < next s)) as [Hlt | Hge].
      * destruct (H6 l Hlt) as [? | [? | ?]]; [by left | congruence..].
      * right. destruct (decide (l = next s)) as [-> | ?]; [by left | right]. f_equal. lia.
  - split_and!; [| done | done]. split; cbn; try done.
    + by left.
    + intros p h k Hp. by destruct (Hno p h k).
    + intros h Hp. by destruct (Hnos h).
    + intros l [->%elem_of_singleton | Hl]%elem_of_union; [lia | specialize (H5 l Hl); lia].
    + intros l Hl. left. destruct (decide (l = next s)) as [-> | Hne]; [set_solver |].
      destruct (H6 l ltac:(lia)) as [? | [? | ?]]; [set_solver | congruence..].
Qed.

Lemma inv_locked p http_ok https_ok s : inv s -> calls s p = Counted -> inv (locked p http_ok https_ok s).
Proof.
  intros Hi Hp. unfold locked. pose proof (inv_make http_ok https_ok s Hi) as Hm.
  destruct (make_listeners http_ok https_ok s) as [ok s1]. destruct Hm as (Hi1 & Hc & Hok).
  rewrite <- Hc in Hp. destruct ok; [| apply https_inv_leave; [done | by rewrite Hp]].
  destruct (Hok eq_refl) as (h & Hh & Hk). rewrite Hh, Hk. destruct Hi1 as [H1 H2 H3 H4 H5 H6 H7].
  split; cbn; try done.
  - right. destruct H2 as [(? & _) | H2]; [congruence |]. destruct H2 as (h' & [Hh' Hk'] & Hn & Hw).
    exists h'. split_and!; [| done | done]. split; cbn; congruence.
  - intros q a b. rewrite calls_insert. case_decide; [by intros [= <- <-] |].
    intros Hq. destruct (H3 _ _ _ Hq). split; cbn; congruence.
  - intros a [->%elem_of_singleton | Ha]%elem_of_union; [done |]. rewrite <- Hh. by apply H4.
  - intros l Hl. rewrite <- Hh, <- Hk. by apply H6.
  - apply counted_same; [by rewrite Hp | done].
Qed.

Lemma https_inv_step s s' : inv s -> step s s' -> inv s'.
Proof.
  intros Hi Hs.
  assert (forall l, httpLn s = Some l \/ httpsLn s = Some l -> l < next s) as Hbound.
  { intros l Hl. destruct (inv_pair s Hi) as [(? & ? & _) | (h & [Hh Hk] & Hn & _)].
    - destruct Hl; congruence.
    - rewrite Hh, Hk in Hl. destruct Hl as [[= <-] | [= <-]]; lia. }
  destruct Hs as [s p Ho Hp | s p Ho Hp | s p Ho Hp | s p b1 b2 Ho Hp | s p h k Ho Hp | s h Ho Hh | s Ho Hw Hg | s Ho Hw].
  - apply inv_set_call; [done | by rewrite Hp | done].
  - apply inv_set_call; [done | by rewrite Hp | done].
  - by apply https_inv_enter.
  - by apply inv_locked.
  - apply https_inv_leave; [| cbn; by rewrite Hp]. apply inv_close; [done |].
    intros x ->%elem_of_singleton. apply Hbound. right. by apply (inv_serving s Hi p h).
  - apply inv_close; [done |]. intros x ->%elem_of_singleton. apply Hbound. left. by apply (inv_servers s Hi).
  - destruct Hi as [H1 H2 H3 H4 H5 H6 H7]. split; try done. cbn.
    destruct H2 as [(? & ? & ? & _) | (h & Hp & Hn & Hc)]; [done | right]. exists h.
    split_and!; [done | done |]. left. lia.
  - destruct (inv_pair s Hi) as [(? & ? & ? & ?) | (h & [Hh Hk] & Hn & Hc)]; [done |].
    unfold close_listeners. cbn [httpLn httpsLn]. rewrite Hh, Hk.
    destruct Hi as [H1 H2 H3 H4 H5 H6 H7]. split; cbn; try done.
    + right. exists h. split_and!; [done | done |]. right. split_and!; [lia | set_solver..].
    + intros p a b Hp. destruct (H3 _ _ _ Hp). split; cbn; congruence.
    + intros a Ha. rewrite <- Hh. by apply H4.
    + intros l [[->%elem_of_singleton | ->%elem_of_singleton]%elem_of_union | Hl]%elem_of_union; [lia.. |].
      by apply H5.
    + intros l Hl. rewrite <- Hh, <- Hk. destruct (H6 l Hl) as [? | ?]; [set_solver | by right].
Qed.

Lemma https_reachable_inv s : rtc step init s -> inv s.
Proof. intros Hs. exact (rtc_invariant _ _ https_inv_step _ _ Hs https_inv_init). Qed.

(** Once there are listeners the package keeps them and makes no others. *)
Record fixed (h k n : nat) (C : gset nat) (s : sys) : Prop := {
  fix_inv : inv s;
  fix_pair : pair s h k;
  fix_next : next s = n;
  fix_closed : C ⊆ closed s
}.

Lemma fixed_step h k n C s s' : fixed h k n C s -> step s s' -> fixed h k n C s'.
Proof.
  intros [Hi [Hh Hk] Hn HC] Hs. split; [by eapply https_inv_step | | |].
  - destruct Hs; unfold pair, locked, make_listeners, close_listeners; cbn; rewrite ?Hh, ?Hk; cbn; by rewrite ?Hh, ?Hk.
  - destruct Hs; unfold locked, make_listeners, close_listeners; cbn; rewrite ?Hh, ?Hk; cbn; by rewrite ?Hh, ?Hk.
  - destruct Hs; unfold locked, make_listeners, close_listeners; cbn; rewrite ?Hh, ?Hk; cbn; rewrite ?Hh, ?Hk; cbn;
      set_solver.
Qed.

End ListenersFacts.

(** * Properties *)

(** C31: [Stop] ends maintenance. When a call of it has returned, the goroutine
    of the cache has ended and never scans again; a call that waits can always
    go on to return, after the scan that is running; and at most one call of
    [Stop] ever gets past the first line (a second one panics). *)
Theorem stop_ends_maintenance s : rtc Stopping.life_step Stopping.running s ->
  (forall p, Stopping.callers s p = Stopping.Stopped -> forall s', rtc Stopping.life_step s s' ->
     Stopping.maintenance s' = Stopping.Ended) /\
  (forall p, Stopping.callers s p = Stopping.AwaitingDone -> Stopping.stop_panicked s = false ->
     exists s', rtc Stopping.life_step s s' /\ Stopping.callers s' p = Stopping.Stopped /\
       Stopping.stop_panicked s' = false) /\
  (forall p q, Stopping.callers s p <> Stopping.Before -> Stopping.callers s q <> Stopping.Before -> p = q) /\
  (forall p q, Stopping.callers s p <> Stopping.Before ->
     Stopping.stop_panicked (Stopping.Stop q s) = true).
Proof.
  intros Hr. pose proof (StoppingFacts.life_reachable_inv s Hr) as Hi. split_and!.
  - intros p Hp s' Hs. apply (rtc_invariant _ (fun s => Stopping.maintenance s = Stopping.Ended) StoppingFacts.ended_step s s' Hs).
    by apply (StoppingFacts.inv_done s Hi), (StoppingFacts.inv_stopped s Hi p).
  - intros p Hp Hn. destruct (Stopping.maintenance s) eqn:Hm.
    + by apply StoppingFacts.can_return.
    + assert (Stopping.life_step s (Stopping.set_loop Stopping.Selecting s)) as Hstep by by constructor.
      destruct (StoppingFacts.can_return (Stopping.set_loop Stopping.Selecting s) p) as (s' & Hs' & Hc & Hp');
        [by eapply StoppingFacts.life_inv_step | done | done | done |].
      exists s'. split; [by eapply rtc_l | done].
    + exists (Stopping.set_caller p Stopping.Stopped s). split; [| split; [| done]].
      * apply rtc_once, Stopping.StepReturn; [done | done | by apply (StoppingFacts.inv_done s Hi)].
      * cbn. by rewrite StoppingFacts.callers_insert, decide_True.
  - apply (StoppingFacts.inv_one s Hi).
  - intros p q Hp%(StoppingFacts.inv_called s Hi). unfold Stopping.Stop. by rewrite Hp.
Qed.

Lemma stop_ends_maintenance_witness :
  exists s', rtc Stopping.life_step (Stopping.Stop 0 Stopping.running) s' /\
    Stopping.callers s' 0 = Stopping.Stopped /\ Stopping.stop_panicked s' = false.
Proof.
  destruct (stop_ends_maintenance (Stopping.Stop 0 Stopping.running)) as (_ & H & _).
  - apply rtc_once. by constructor.
  - apply (H 0); reflexivity.
Defined.

(** C28: all calls of [HTTPS] share one pair of listeners. In every reachable
    state either both variables are nil or both are set, so none of the calls
    dereferences nil; every call that serves, serves on the listeners of the
    variables; the wait group counts exactly the calls in progress; every
    listener that was ever made is closed or in the variables; and once all
    calls have returned the listeners can be closed by the goroutine that
    waits for that. *)
Theorem https_listeners_shared s : rtc Listeners.step Listeners.init s ->
  Listeners.panicked s = false /\
  (Listeners.httpLn s = None <-> Listeners.httpsLn s = None) /\
  (forall p h k, Listeners.calls s p = Listeners.Serving h k ->
     Listeners.httpLn s = Some h /\ Listeners.httpsLn s = Some k) /\
  ListenersFacts.counted (Listeners.calls s) (Listeners.httpWg s) /\
  (forall l, l < Listeners.next s -> l ∉ Listeners.closed s ->
     Listeners.httpLn s = Some l \/ Listeners.httpsLn s = Some l) /\
  (forall h k, Listeners.httpLn s = Some h -> Listeners.httpsLn s = Some k -> Listeners.httpWg s = 0 ->
     exists s', rtc Listeners.step s s' /\ h ∈ Listeners.closed s' /\ k ∈ Listeners.closed s').
Proof.
  intros Hr. pose proof (ListenersFacts.https_reachable_inv s Hr) as Hi.
  pose proof Hi as [H1 H2 H3 H4 H5 H6 H7]. split_and!; [done | | exact H3 | done | |].
  - destruct H2 as [(-> & -> & _) | (h & [-> ->] & _)]; [done | by split].
  - intros l Hl Hc. by destruct (H6 l Hl).
  - intros h k Hh Hk Hw. destruct H2 as [(? & _) | (h' & [Hh' Hk'] & _ & Hc)]; [congruence |].
    assert (h' = h) as -> by congruence. assert (k = S h) as -> by congruence.
    destruct Hc as [Hc | (_ & ? & ?)]; [| by exists s; split; [apply rtc_refl |]].
    assert (forall t, Listeners.panicked t = false -> Listeners.httpLn t = Some h ->
              Listeners.httpsLn t = Some (S h) -> Listeners.woken t <> 0 ->
              exists t', rtc Listeners.step t t' /\ h ∈ Listeners.closed t' /\ S h ∈ Listeners.closed t') as Hclose.
    { intros t Ht Hth Htk Htw. exists (Listeners.close_listeners t).
      split; [apply rtc_once; by apply Listeners.StepClose |].
      unfold Listeners.close_listeners. cbn. rewrite Hth, Htk. cbn. set_solver. }
    destruct (decide (Listeners.woken s = 0)) as [Hz | Hz]; [| by apply Hclose].
    destruct (Hclose (Listeners.wake s)) as (s' & Hs' & Hcl); [done.. |].
    exists s'. split; [| done]. eapply rtc_l; [apply Listeners.StepWake; [done | lia | done] | done].
Qed.

Lemma https_listeners_shared_witness :
  let s := Listeners.locked 0 true true (Listeners.set_call 0 Listeners.Counted (Listeners.Add
             (Listeners.set_call 0 Listeners.Managing Listeners.init))) in
  rtc Listeners.step Listeners.init s /\ Listeners.calls s 0 = Listeners.Serving 0 1 /\
  Listeners.httpsLn s = Some 1.
Proof.
  intros s. assert (rtc Listeners.step Listeners.init s) as Hr.
  { eapply rtc_l; [by apply (Listeners.StepCall _ 0) |]. eapply rtc_l; [by apply (Listeners.StepManaged _ 0) |].
    apply rtc_once. by apply Listeners.StepLocked. }
  split; [done |]. split; [reflexivity |].
  destruct (https_listeners_shared s Hr) as (_ & _ & Hs & _). by apply (Hs 0 0 1).
Defined.

(** C39: listeners are never made again. Once the listeners have been closed
    (by the goroutine that waits for the last call, or because one of the
    servers sharing them has returned) the variables keep them: no later call
    of [HTTPS] listens on the ports, and every one that serves is given
    listeners that are closed. *)
Theorem https_never_reopens s h k : rtc Listeners.step Listeners.init s ->
  Listeners.httpLn s = Some h -> Listeners.httpsLn s = Some k ->
  h ∈ Listeners.closed s -> k ∈ Listeners.closed s ->
  forall s', rtc Listeners.step s s' ->
    Listeners.next s' = Listeners.next s /\
    forall p h' k', Listeners.calls s' p = Listeners.Serving h' k' ->
      h' ∈ Listeners.closed s' /\ k' ∈ Listeners.closed s'.
Proof.
  intros Hr Hh Hk Hch Hck s' Hs.
  assert (ListenersFacts.fixed h k (Listeners.next s) (Listeners.closed s) s') as [Hi [Hh' Hk'] Hn HC].
  { eapply rtc_invariant; [apply ListenersFacts.fixed_step | exact Hs |].
    split; [by apply ListenersFacts.https_reachable_inv | by split | done | done]. }
  split; [done |]. intros p h' k' Hp. destruct (ListenersFacts.inv_serving s' Hi _ _ _ Hp).
  assert (h' = h) as -> by congruence. assert (k' = k) as -> by congruence. split; by apply HC.
Qed.

(** The state after one call of [HTTPS] has come and gone. *)
Definition one_call_later : Listeners.sys :=
  let s := Listeners.locked 0 true true (Listeners.set_call 0 Listeners.Counted (Listeners.Add
             (Listeners.set_call 0 Listeners.Managing Listeners.init))) in
  Listeners.close_listeners (Listeners.wake (Listeners.set_call 0 (Listeners.Returned Listeners.ServeFailed)
    (Listeners.Done (Listeners.close {[1]} s)))).

(** A second call after the first. *)
Definition second_call : Listeners.sys :=
  Listeners.locked 1 true true (Listeners.set_call 1 Listeners.Counted (Listeners.Add
    (Listeners.set_call 1 Listeners.Managing one_call_later))).

Lemma https_never_reopens_witness :
  rtc Listeners.step Listeners.init second_call /\ Listeners.calls second_call 1 = Listeners.Serving 0 1 /\
  0 ∈ Listeners.closed second_call /\ 1 ∈ Listeners.closed second_call.
Proof.
  assert (rtc Listeners.step Listeners.init one_call_later) as H1.
  { eapply rtc_l; [by apply (Listeners.StepCall _ 0) |]. eapply rtc_l; [by apply (Listeners.StepManaged _ 0) |].
    eapply rtc_l; [by apply (Listeners.StepLocked _ 0 true true) |].
    eapply rtc_l; [by apply (Listeners.StepServeReturns _ 0 0 1) |].
    eapply rtc_l; [by apply Listeners.StepWake |]. apply rtc_once. by apply Listeners.StepClose. }
  assert (rtc Listeners.step one_call_later second_call) as H2.
  { eapply rtc_l; [by apply (Listeners.StepCall _ 1) |]. eapply rtc_l; [by apply (Listeners.StepManaged _ 1) |].
    apply rtc_once. by apply (Listeners.StepLocked _ 1 true true). }
  split; [by eapply rtc_trans |]. split; [reflexivity |].
  destruct (https_never_reopens one_call_later 0 1 H1 eq_refl eq_refl) with (s' := second_call) as [_ H];
    [set_solver | set_solver | exact H2 |]. by apply (H 1).
Defined.

(** A request that is no ACME challenge is redirected, for good, to the same
    host and URI with [https] and without the port, if the issuer is an ACME
    manager and the host has no brackets. *)
Theorem redirects_to_https {U : UnicodeTables} {UL : UrlLib} {W} {S : Storage W} {B : ChallengeLib W} am uri r
    host suffix (w : W) :
  LooksLikeHTTPChallenge r = false \/ DisableHTTPChallenge am = true ->
  r_Host r = host +:+ suffix ->
  free_of ":" host = true -> free_of "[" host = true -> free_of "]" host = true ->
  suffix = "" \/ (exists port, suffix = String ":" port /\
                    free_of ":" port = true /\ free_of "[" port = true /\ free_of "]" port = true) ->
  http_handler (Some (AcmeIssuer am)) uri r w = (Ok (Redirect ("https://" +:+ host +:+ uri) 301 true), w).
Proof.
  intros Hc Hh H1 H2 H3 Hs. unfold http_handler, bind, HandleHTTPChallenge.
  assert ((if DisableHTTPChallenge am then ret None
           else if negb (LooksLikeHTTPChallenge r) then ret None
           else distributedHTTPChallengeSolver (Some am) r) w = (Ok None, w)) as ->.
  { destruct (DisableHTTPChallenge am); [done |]. by destruct Hc as [-> | ?]. }
  unfold ret, httpRedirectHandler. rewrite Hh, hostOnly_plain by done. by rewrite app_assoc_str.
Qed.

(** Two cases in which the redirect is not to the same site over [https]:
    the brackets of an IPv6 address with a port are lost, which leaves no valid
    URL, and with an issuer that is no ACME manager the HTTP server has no
    handler at all and serves [http.DefaultServeMux]. *)
Theorem redirect_gaps {U : UnicodeTables} {UL : UrlLib} {W} {S : Storage W} {B : ChallengeLib W} id uri r (w : W) :
  httpRedirectHandler "[2001:db8::1]:80" "/a" = Redirect "https://2001:db8::1/a" 301 true /\
  http_handler (Some (UserIssuer id)) uri r w = (Ok DefaultServeMux, w).
Proof. by split. Qed.

#[local] Existing Instance ascii_tables.
#[local] Existing Instance url_lib.
#[local] Existing Instance wired_storage.
#[local] Existing Instance wired_lib.

Lemma redirects_to_https_witness :
  let w := Config.world (a_prog at_rest) in
  http_handler (W:=wired) (Some (AcmeIssuer some_manager)) "/a?b" (mkRequest "GET" "/a" "x.org:80") w =
  (Ok (Redirect "https://x.org/a?b" 301 true), w).
Proof.
  intros w. apply (redirects_to_https some_manager "/a?b" (mkRequest "GET" "/a" "x.org:80") "x.org" ":80");
    [left | ..]; try by vm_compute. right. exists "80". by vm_compute.
Defined.
